(* ===== verification/_CoqProject ===== *)
-Q . S2P
Prelude.v
Crypto.v
ToyCrypto.v
Pkcs7.v
MsgHeader.v
Primitives.v
KeyBuff.v
DhRatchet.v
DoubleRatchet.v
RatchetSync.v
RatchetSafety.v
Limits.v
Gob.v
Marshal.v
Liveness.v
Base64.v
Message.v
X3dh.v
Session.v
Fuzz.v
DiskSession.v
Client.v
ClientChat.v
Talk.v
Burst.v
Lossy.v
Crossing.v
Town.v
MemSession.v
GoStrings.v
Reader.v
Bus.v
Cli.v
Interactive.v
Ui.v
Window.v
Handlers.v
Main.v
