(* ===== verification/Prelude.v ===== *)
(** * go-ratchet: a verification library

    The repository implements a chat client whose messages are protected by the
    Double Ratchet. This library models the repository from its protocol packages
    up to its main program as executable definitions and proves what they do, including where they do something else
    than their comments say. This file is its root: this header documents the
    whole library, and the rest of the file is the shared prelude.

    ** The program

    - [doubleratchet] (src/doubleratchet): padding (pkcs7.go), message headers
      (msg_header.go), key derivation and authenticated encryption
      (primitives.go), a ring buffer for the keys of skipped messages
      (key_buff.go), the DH ratchet (dh_ratchet.go), the Double Ratchet object
      with [Encrypt] and [Decrypt] (doubleratchet.go), and its stored form
      (marshal.go).
    - [x3dh] (src/x3dh): the key agreement that gives both parties the session
      key, on Ed25519 identity keys that are converted to X25519
      (curve25519_conv.go).
    - [xochimilco] (src/xochimilco): the wire messages (message.go) and the
      session (session.go), which runs the key agreement as a handshake of an
      offer and an acknowledgement, owns a Double Ratchet afterwards and passes
      data messages through it; a driver for go-fuzz (session_fuzz.go).
    - [session] (src/session): a session with its peer and the manager that keeps
      such sessions in files (disk-session.go), and a log of events
      (mem/mem-session.go).
    - [client] (src/client): the operations of a user, starting a chat, sending
      and closing, and the handlers of incoming text, all on the session manager
      and under its lock (client.go); a driver that reads the input from a message
      bus (driver-msgbus/msgbus.go).
    - [cli] (src/cli/basic.go): each operation of the client as a command that is
      a process of its own. [interactive] (src/interactive/interactive.go) and
      [ui] (src/ui/chat.go): terminals that keep a client, call its operations for
      the lines that are typed and show the events it dispatches. src/main.go:
      the options, the text of a message, and the dispatch to all of these.

    ** The files

    - Prelude: bytes, 64-bit integers, slices with their bounds checks and spare
      capacity, errors and panics ([result]), the state monad of method calls
      ([ST]; state assigned before an error stays assigned), the random source
      as a tape of bytes, tactics and generic lemmas.
    - Crypto: the cryptographic algorithms as parameters, one class per package
      with a class of the laws that the code relies on; ToyCrypto: executable
      instances that satisfy the laws, for the witnesses.
    - Pkcs7, MsgHeader, Primitives, KeyBuff, DhRatchet, DoubleRatchet: one file
      per source file, with the types and functions of the source under their
      names. [KeyBuff.Spec] is the abstract buffer that the ring implements.
      In DoubleRatchet, [followRatchet] and [messageKey] are the two halves of
      [Decrypt], and [skipLoop] is the loop of [skipMsgKeys]; its fuel is the
      number of iterations the loop makes, the distance to the target, which
      [skipLoop_chain] shows to be enough and [Limits.skip_terminates] shows not
      to matter.
    - RatchetSync: two parties and the messages between them as a transition
      system over [Encrypt] and [Decrypt], its invariant by induction on the
      steps, and end-to-end delivery.
    - RatchetSafety: one party against arbitrary input, and what happens to
      messages that are too far ahead, behind, late or forged.
    - Limits: how long the loop of [skipMsgKeys] runs and how many messages a
      sending chain carries.
    - Gob, Marshal: encoding/gob at the level of the values that a stream
      carries, the stored Double Ratchet, and what a restored one can do. The
      byte format is a parameter with a round-trip law: it contains type numbers
      that the Go run-time hands out.
    - Liveness: two parties that are in step and have room can exchange one more
      message and are in step afterwards, also when either was stored in between.
    - Base64, Message: the text encoding, the five message types, the frame
      around them, and sealed offers.
    - X3dh: the key agreement and the key conversion on integers modulo
      2^255 - 19.
    - Session: the session's methods, the handshake, established sessions as a
      refinement of the system of RatchetSync ([linked]), the life cycle, and
      stored sessions. Fuzz: the fuzz driver over two sessions.
    - DiskSession: the stored session with its peer ([PeerSession]) and the
      manager ([Manager]) over a directory, a map of file names to contents and
      permission bits; file names are FNV-1a hashes, computed.
    - Client: the client with its manager, random source, posted messages and
      dispatched events; one definition per method and handler. Its constructor
      and [Run] are in Bus.
    - ClientChat: two clients together ([chatting]): their handshake and their
      conversation through the files of their sessions, up to its end. Talk:
      scripts of any length between two clients and the network. Burst: texts of
      one client that are all sent before any of them arrives. Lossy: a network
      that delivers in order but loses messages, with two lossy queues as its
      abstract specification ([lossy_happen]). Crossing: two
      clients that make each other an offer at the same time. Town: any number
      of clients, each in several chats at once on one directory, one index and
      one random source.
    - MemSession: the event log and its pages. GoStrings: the functions of the
      package strings that the terminals use, on bytes that hold UTF-8. Reader:
      the reader that polls standard input, and the scanner of the standard
      library with its buffer. What happens while [Read] waits is a list of
      [wake]s, on which it is structurally recursive; the fuel of [Scan] is one
      more than the length of that list, and [Scan_spec] holds for any fuel above
      it.
    - Bus: the message bus driver and the position in its stream.
    - Cli: the commands on a state directory ([world]), related to one client that
      stays by an equivalence of managers that ignores the index file; all
      operations of the client are [Proper] for it.
    - Interactive: the line terminal ([term]) as a state monad over its client,
      log and screen, with the meaning of lines ([interpret], [obey]) as its
      abstract specification, and its loop over the scanner ([prompt_loop]). Ui:
      the full-screen terminal ([model]). Window: what it shows ([screen]), with
      the sizes of its parts. Main: the program.
    - Handlers: the registry of event handlers ([On]) and [dispatch] with its
      goroutines in any order, filled by the calls of the code. The other files
      record dispatched events and let the user interfaces act on the record;
      here that is shown to be the same.

    ** The theorems

    - Delivery: [RatchetSync.ratchet_delivers] for all conversations in which no
      message of a chain that was left behind is delivered;
      [Session.handshake_establishes] leads from two fresh sessions to such a
      conversation, [Session.linked_sessions_converse] carries delivery up to
      [Send] and [Receive], and [Marshal.restored_session_delivers] says what a
      party that was stored and restored in between still decrypts. At the top,
      [ClientChat.clients_handshake], [ClientChat.clients_converse] and
      [ClientChat.clients_close] state a whole chat in terms of the operations
      that the user interfaces call, and [Town.town_gets_through] says that every
      story of any number of clients that meet, talk, part and meet again takes
      place, all chats interleaved: nothing fails and every text arrives.
      There every text arrives before the next one of its chat is sent.
      [Lossy.lossy_network] lets both sides send at any time and loses messages:
      clients and network refine two lossy queues; [Burst.texts_overtake] is
      about texts that overtake each other.
      [Crossing.crossing_offers_block] is what happens outside of these stories.
    - Termination and limits: [Limits.skip_terminates], [Limits.send_budget].
    - User interfaces: a sequence of commands is equivalent to one client
      ([Cli.commands_as_one_client]); the line terminal refines the meaning of its
      lines ([Interactive.terminal_obeys]) and agrees with the full-screen one
      ([Ui.terminals_agree]); no recognised
      message of the stream is handled twice ([Bus.stream_at_most_once]); [Main.readInput_one_line] says where messages
      come from. What is typed in any pieces is done line by line
      ([Interactive.keyboard_obeys]), up to a line that is too long
      ([Reader.long_line_ends_input]); the view has the height of a window
      that has room for it ([Window.screen_follows]); and the handlers of an event can run in any
      order ([Handlers.handlers_in_any_order]).
    - Robustness: [RatchetSafety.hostile_input_safe] and
      [Message.unmarshalMessage_total] for arbitrary input, with the error
      branches in [Decrypt_too_far_ahead], [Encrypt_refuses], [session_refuses],
      [unsigned_prekey_refused] and [Cli.command_refuses].
    - Storage: [DiskSession.get_after_put] and [index_roundtrip]; a message that
      fails, an offer or a sealed one included, does not change what is stored
      ([Client.failed_message_rolls_back]); the
      log keeps every event in its stream ([MemSession.log_streams]) and gives
      out pages ([ReadLog_pages]).
    - Formats: round trips of padding, headers, ciphertexts, messages, sealed
      offers and stored objects; the key conversion against its formula.
    - Refinement: the ring buffer against the abstract buffer.
    - Agreement: [X3dh.x3dh_agreement].
    - Divergences, as theorems about what the code does: skipped keys of
      previous chains are never used and a late message ends the session;
      a header is followed before it is authenticated; the HMAC does not cover
      the ciphertext; keys of skipped messages are not deleted; only the oldest
      cached chain is restored; an empty sealed box and an offer to an
      established session panic, the former all the way up to [Input]; a failed
      acknowledgement blocks a session; a damaged session file makes [Get] panic;
      [recv] resets the position of the stream; a chat that cannot be started
      looks like one that was, and a line typed after the peer has closed is
      lost; offers that cross leave two sessions that do not match; the end of
      standard input is not noticed and a long line ends the line terminal's
      loop; the fuzz driver never gets its input into a session.

    ** Bounds and assumptions

    [int] is modelled as a 64-bit integer with wrap-around where the code
    computes with it. Delivery assumes what the code cannot give itself: the
    laws of the primitives, key pairs drawn from the random source that were not
    used before, and messages of the two latest chains that are at most 32 ahead. Two constants bound memory:
    eight chains, and 32 message keys per skip. Address lookup, posting, the
    parser of chat texts, the printed forms of keys, JSON and the arithmetic of
    pages are parameters; the theorems about two clients assume that addresses
    resolve and posts succeed.

    ** Not modelled

    Cryptographic strength is not stated anywhere: the laws are functional. Of the
    client, contexts are left out but for the end of the reader; its lock makes
    calls run one after the other, so that the goroutines of the driver and of
    the terminal take turns, and a handler is one step. What two goroutines do to
    the prompt or the content of a screen at the same time is not modelled. A
    subscription to the message bus is the list of the messages that it delivers.
    The widgets and styles of the full-screen terminal are parameters: of the text
    input its value and the height of its view, for a prompt of one line, and of
    the viewport its size and its content, in which it replaces CRLF by LF. The parser of the options and the event store of [setupChatlog],
    which nothing calls, are parameters; signals and the usage text are left out,
    as are the accessors [Key] and [Equal] of messages, which nothing calls. File
    operations fail in the ways the code distinguishes (missing file, weak
    permissions, undecodable content) and in no others.

    Next in the plan are losses in towns of many clients. Reordering in general is
    beyond what the program can do: keys of skipped messages survive in the file
    of a session for one chain only. *)

From Stdlib Require Import ZArith Lia Ascii.
From Stdlib Require Strings.Byte.
From stdpp Require Import base decidable countable option list numbers strings gmap.

Local Open Scope Z_scope.

(** ** Bytes

    A Go [byte] is [Byte.byte]; [[]byte] and [string] values are lists of
    bytes. A slice variable whose nil-ness the code tests is an
    [option (list byte)], with [None] for nil. *)

Abbreviation byte := Byte.byte.
Abbreviation bytes := (list Byte.byte).

#[global] Instance byte_eq_decision : EqDecision Byte.byte := Byte.byte_eq_dec.
#[global] Instance byte_countable : Countable Byte.byte :=
  inj_countable Byte.to_N Byte.of_N Byte.of_to_N.
#[global] Instance byte_inhabited : Inhabited Byte.byte := populate Byte.x00.

(** The value of a byte, and the conversion [byte(x)] of an integer, which
    keeps the low eight bits. *)
Definition byte_to_Z (b : byte) : Z := Z.of_N (Byte.to_N b).

Definition byte_of_Z (z : Z) : byte :=
  default Byte.x00 (Byte.of_N (Z.to_N (z mod 256))).

(** A string literal of the source as the byte sequence it denotes. *)
Fixpoint str (s : string) : bytes :=
  match s with
  | EmptyString => []
  | String a s' => Ascii.byte_of_ascii a :: str s'
  end.

Arguments str s%_string.

(** [int] is a 64-bit two's complement integer. *)
Definition int64 (z : Z) : Z := (z + 2 ^ 63) mod 2 ^ 64 - 2 ^ 63.

Definition int64_range (z : Z) : Prop := - 2 ^ 63 <= z < 2 ^ 63.

(** [n] zero bytes, what [make([]byte, n)] returns. *)
Definition zeros (n : nat) : bytes := replicate n Byte.x00.

(** [copy(dst[i:j], src)] where [dst[i:j]] is freshly made: the first bytes of
    [src], zero filled up to the length of the destination. *)
Definition copied (n : nat) (src : bytes) : bytes := take n (src ++ zeros n).

(** [data[i:j]] for indices in range. *)
Definition subslice (i j : nat) (data : bytes) : bytes := take (j - i) (drop i data).

(** [strings.HasPrefix] and [strings.HasSuffix]. *)
Definition hasPrefix (s prefix : bytes) : bool := bool_decide (take (length prefix) s = prefix).

Definition hasSuffix (s suffix : bytes) : bool :=
  (length suffix <=? length s)%nat && bool_decide (drop (length s - length suffix) s = suffix).

(** Byte strings as little-endian numbers: the value, and the bytes of a number
    without leading zeros ([n] bounds their count). *)
Definition le_value (b : bytes) : Z := foldr (λ x acc, byte_to_Z x + 256 * acc) 0 b.

Fixpoint le_bytes (n : nat) (u : Z) : bytes :=
  match n with
  | O => []
  | S n' => if u =? 0 then [] else byte_of_Z u :: le_bytes n' (u / 256)
  end.

(** ** Errors and results *)

(** A Go [error]: the text given to [fmt.Errorf] (formatting arguments are
    dropped), an error wrapped with [%w], or a sentinel that the code tests
    with [errors.Is]. *)
Inductive error :=
  | Errorf (msg : string)
  | Wrapf (msg : string) (e : error)
  | ErrNotExist.

Arguments Errorf msg%_string.
Arguments Wrapf msg%_string e.

#[global] Instance error_eq_decision : EqDecision error.
Proof. solve_decision. Defined.

(** [errors.Is(e, os.ErrNotExist)] follows the wrapping. *)
Fixpoint is_not_exist (e : error) : bool :=
  match e with
  | Errorf _ => false
  | Wrapf _ e' => is_not_exist e'
  | ErrNotExist => true
  end.

(** The outcome of a call: a value, an error, or a run-time panic. *)
Inductive result (A : Type) :=
  | Ok (a : A)
  | Err (e : error)
  | Panic.
Arguments Ok {A} a.
Arguments Err {A} e.
Arguments Panic {A}.

#[global] Instance result_eq_decision {A} `{EqDecision A} : EqDecision (result A).
Proof. solve_decision. Defined.

#[global] Instance result_ret : MRet result := @Ok.
#[global] Instance result_bind : MBind result := λ A B f r,
  match r with Ok a => f a | Err e => Err e | Panic => Panic end.
#[global] Instance result_fmap : FMap result := λ A B f r,
  match r with Ok a => Ok (f a) | Err e => Err e | Panic => Panic end.

Definition is_Ok {A} (r : result A) : bool := if r is Ok _ then true else false.

(** ** Slices

    A slice value together with its spare capacity: [sl] is what [len] and
    [range] see, [sl_spare] the bytes of the backing array between [len] and
    [cap], which a later [s[:n]] can make visible again. Only the values whose
    capacity the code uses are modelled this way. *)
Record gslice := GSlice { sl : bytes; sl_spare : bytes }.

(** A slice whose capacity is its length, and [s[:n]]. *)
Definition full_slice (b : bytes) : gslice := GSlice b [].

Definition reslice (s : gslice) (n : Z) : result gslice :=
  let all := sl s ++ sl_spare s in
  if (0 <=? n)%Z && (n <=? Z.of_nat (length all))%Z
  then Ok (GSlice (take (Z.to_nat n) all) (drop (Z.to_nat n) all))
  else Panic.

(** [data[i]], [data[i:]] and [data[:i]] with their bounds checks. *)
Definition index (data : bytes) (i : Z) : result byte :=
  if (0 <=? i)%Z then
    match data !! Z.to_nat i with Some b => Ok b | None => Panic end
  else Panic.

Definition slice_from (data : bytes) (i : Z) : result bytes :=
  if (0 <=? i)%Z && (i <=? Z.of_nat (length data))%Z then Ok (drop (Z.to_nat i) data) else Panic.

Definition slice_to (data : bytes) (i : Z) : result bytes :=
  if (0 <=? i)%Z && (i <=? Z.of_nat (length data))%Z then Ok (take (Z.to_nat i) data) else Panic.

Definition slice_range (data : bytes) (i j : Z) : result bytes :=
  if (0 <=? i)%Z && (i <=? j)%Z && (j <=? Z.of_nat (length data))%Z
  then Ok (subslice (Z.to_nat i) (Z.to_nat j) data) else Panic.

(** [len(data)] *)
Definition blen (data : bytes) : Z := Z.of_nat (length data).

(** ** Stateful calls

    A method that updates the object behind its receiver. What was assigned
    before an error return stays assigned, so the state is returned next to the
    outcome, whatever the outcome is. *)

Definition ST (S A : Type) : Type := S → result A * S.

#[global] Instance ST_ret {S} : MRet (ST S) := λ A a s, (Ok a, s).
#[global] Instance ST_bind {S} : MBind (ST S) := λ A B f m s,
  match m s with
  | (Ok a, s') => f a s'
  | (Err e, s') => (Err e, s')
  | (Panic, s') => (Panic, s')
  end.

Definition gets {S A} (f : S → A) : ST S A := λ s, (Ok (f s), s).
Definition modify {S} (f : S → S) : ST S unit := λ s, (Ok tt, f s).
Definition throw {S A} (e : error) : ST S A := λ s, (Err e, s).
Definition lift {S A} (r : result A) : ST S A := λ s, (r, s).

(** Run a computation on a part of the state. *)
Definition zoom {S T A} (get : S → T) (set : T → S → S) (m : ST T A) : ST S A :=
  λ s, let '(r, t) := m (get s) in (r, set t s).

(** ** The random source

    [crypto/rand] as a tape of bytes that are still to be read. [rand.Read]
    fills the buffer from the tape; a tape that is too short fills what it can
    and makes the call fail. *)
Abbreviation entropy := (list Byte.byte).

Definition rand_read (n : nat) (e : entropy) : bytes * option error * entropy :=
  if (n <=? length e)%nat
  then (take n e, None, drop n e)
  else (copied n e, Some (Errorf "rand"), []).

(** ** Tactics and hints *)

Create HintDb ratchet.
Create Rewrite HintDb ratchet_len.

Arguments byte_of_Z : simpl never.
Arguments byte_to_Z : simpl never.
Arguments int64 : simpl never.

(** Case analysis on the boolean test at the head of a conditional. *)
Ltac case_test :=
  match goal with
  | |- context [if (?a <? ?b)%Z then _ else _] => destruct (Z.ltb_spec a b)
  | |- context [if (?a <=? ?b)%Z then _ else _] => destruct (Z.leb_spec a b)
  | |- context [if (?a =? ?b)%Z then _ else _] => destruct (Z.eqb_spec a b)
  | |- context [if (?a <? ?b)%nat then _ else _] => destruct (Nat.ltb_spec a b)
  | |- context [if (?a <=? ?b)%nat then _ else _] => destruct (Nat.leb_spec a b)
  | |- context [if (?a =? ?b)%nat then _ else _] => destruct (Nat.eqb_spec a b)
  | |- context [if bool_decide ?P then _ else _] => destruct (bool_decide_reflect P)
  | |- context [if decide ?P then _ else _] => destruct (decide P)
  end.

(** Unfold the plumbing of the two monads. *)
Ltac unfold_st :=
  unfold mbind, mret, ST_bind, ST_ret, result_bind, result_ret, gets, modify, throw, lift, zoom.

(** ** Generic lemmas *)

Lemma byte_to_Z_range (b : byte) : 0 <= byte_to_Z b < 256.
Proof.
  unfold byte_to_Z. pose proof (Byte.to_N_bounded b). lia.
Qed.

Lemma byte_to_of_Z z : byte_to_Z (byte_of_Z z) = z mod 256.
Proof.
  unfold byte_to_Z, byte_of_Z.
  assert (0 <= z mod 256 < 256) as Hr by (apply Z.mod_pos_bound; lia).
  destruct (Byte.of_N (Z.to_N (z mod 256))) as [b|] eqn:E; simpl.
  - apply Byte.to_of_N in E. rewrite E. lia.
  - apply Byte.of_N_None_iff in E. lia.
Qed.

Lemma byte_of_to_Z b : byte_of_Z (byte_to_Z b) = b.
Proof.
  unfold byte_of_Z. rewrite Z.mod_small by apply byte_to_Z_range.
  unfold byte_to_Z. by rewrite N2Z.id, Byte.of_to_N.
Qed.

Lemma byte_to_Z_inj b1 b2 : byte_to_Z b1 = byte_to_Z b2 → b1 = b2.
Proof. intros H. by rewrite <-(byte_of_to_Z b1), H, byte_of_to_Z. Qed.

Lemma byte_of_Z_mod z : byte_of_Z (z mod 256) = byte_of_Z z.
Proof. unfold byte_of_Z. by rewrite Z.mod_mod by lia. Qed.

Lemma int64_id z : int64_range z → int64 z = z.
Proof. unfold int64, int64_range. intros. rewrite Z.mod_small; lia. Qed.

Lemma int64_in_range z : int64_range (int64 z).
Proof.
  unfold int64, int64_range.
  pose proof (Z.mod_pos_bound (z + 2 ^ 63) (2 ^ 64)). lia.
Qed.

Lemma length_zeros n : length (zeros n) = n.
Proof. apply length_replicate. Qed.

Lemma length_copied n src : length (copied n src) = n.
Proof. unfold copied. rewrite length_take, length_app, length_zeros. lia. Qed.

Lemma copied_exact n src : length src = n → copied n src = src.
Proof. intros <-. unfold copied. by rewrite take_app_length. Qed.

Lemma copied_ge n src : (n <= length src)%nat → copied n src = take n src.
Proof. intros. unfold copied. by rewrite take_app_le. Qed.

#[export] Hint Rewrite length_zeros length_copied @length_take @length_drop @length_app
  @length_replicate : ratchet_len.

(** Normalise the length of byte-string expressions and decide. *)
Ltac len := autorewrite with ratchet_len in *; simpl length in *; lia.

Lemma subslice_app_r (i j : nat) (l k : bytes) :
  length l = i → subslice i j (l ++ k) = take (j - i) k.
Proof. intros <-. unfold subslice. by rewrite drop_app_length. Qed.

Lemma index_ok data i b : data !! i = Some b → index data (Z.of_nat i) = Ok b.
Proof. intros H. unfold index. rewrite Nat2Z.id, H. by case_test; [|lia]. Qed.

Lemma slice_from_ok data i :
  0 <= i <= blen data → slice_from data i = Ok (drop (Z.to_nat i) data).
Proof.
  unfold slice_from, blen. intros.
  by destruct (Z.leb_spec 0 i), (Z.leb_spec i (Z.of_nat (length data))); simpl; try lia.
Qed.

Lemma slice_to_ok data i :
  0 <= i <= blen data → slice_to data i = Ok (take (Z.to_nat i) data).
Proof.
  unfold slice_to, blen. intros.
  by destruct (Z.leb_spec 0 i), (Z.leb_spec i (Z.of_nat (length data))); simpl; try lia.
Qed.

Lemma slice_range_ok data i j :
  0 <= i <= j → j <= blen data → slice_range data i j = Ok (subslice (Z.to_nat i) (Z.to_nat j) data).
Proof.
  unfold slice_range, blen. intros.
  destruct (Z.leb_spec 0 i), (Z.leb_spec i j), (Z.leb_spec j (Z.of_nat (length data))); simpl; lia || done.
Qed.

Lemma le_value_app a b : le_value (a ++ b) = le_value a + 256 ^ Z.of_nat (length a) * le_value b.
Proof.
  unfold le_value. induction a as [|x a IH].
  { change (Z.of_nat (length [])) with 0. simpl app. rewrite Z.pow_0_r. simpl. lia. }
  simpl. rewrite IH. change (Z.pos (Pos.of_succ_nat (length a))) with (Z.of_nat (S (length a))).
  rewrite Nat2Z.inj_succ, Z.pow_succ_r by lia. lia.
Qed.

Lemma le_value_range b : 0 <= le_value b < 256 ^ Z.of_nat (length b).
Proof.
  unfold le_value. induction b as [|x b IH]; [simpl; lia|]. simpl length.
  rewrite Nat2Z.inj_succ, Z.pow_succ_r by lia. simpl. pose proof (byte_to_Z_range x). lia.
Qed.

Lemma le_value_zeros n : le_value (zeros n) = 0.
Proof. unfold le_value, zeros. induction n as [|n IH]; [done|]. simpl. by rewrite IH. Qed.

Lemma le_value_bytes n u : 0 <= u < 256 ^ Z.of_nat n → le_value (le_bytes n u) = u.
Proof.
  unfold le_value. revert u. induction n as [|n IH]; intros u Hu.
  { simpl in *. lia. }
  rewrite Nat2Z.inj_succ, Z.pow_succ_r in Hu by lia. simpl. destruct (Z.eqb_spec u 0); [done|]. simpl.
  rewrite byte_to_of_Z, IH; [pose proof (Z.div_mod u 256); lia|].
  split; [apply Z.div_pos; lia|apply Z.div_lt_upper_bound; lia].
Qed.

Lemma length_le_bytes n u : (length (le_bytes n u) <= n)%nat.
Proof.
  revert u. induction n as [|n IH]; intros u; simpl; [lia|].
  destruct (u =? 0); simpl; [lia|]. specialize (IH (u / 256)). lia.
Qed.

Lemma le_value_copied n b :
  (length b <= n)%nat → le_value (copied n b) = le_value b.
Proof.
  intros Hn. unfold copied. rewrite take_app_ge by done. rewrite le_value_app.
  assert (take (n - length b) (zeros n) = zeros (n - length b)) as ->.
  { unfold zeros. rewrite take_replicate. f_equal. lia. }
  rewrite le_value_zeros. lia.
Qed.

Lemma le_value_inj a b : length a = length b → le_value a = le_value b → a = b.
Proof.
  unfold le_value. revert b. induction a as [|x a IH]; intros [|y b] Hl Hv; try done. simpl in *.
  pose proof (byte_to_Z_range x). pose proof (byte_to_Z_range y).
  f_equal; [apply byte_to_Z_inj; lia|]. apply IH; lia.
Qed.

Lemma rand_read_ok n e :
  (n <= length e)%nat → rand_read n e = (take n e, None, drop n e).
Proof. intros. unfold rand_read. by case_test; [|lia]. Qed.

Lemma rand_read_length n e b oe e' : rand_read n e = (b, oe, e') → length b = n.
Proof. unfold rand_read. case_test; intros; simplify_eq; len. Qed.

Lemma ST_bind_Ok {S A B} (m : ST S A) (f : A → ST S B) s s' a :
  m s = (Ok a, s') → (m ≫= f) s = f a s'.
Proof. intros H. unfold mbind, ST_bind. by rewrite H. Qed.

Lemma ST_bind_Err {S A B} (m : ST S A) (f : A → ST S B) s s' e :
  m s = (Err e, s') → (m ≫= f) s = (Err e, s').
Proof. intros H. unfold mbind, ST_bind. by rewrite H. Qed.

Lemma ST_bind_inv {S A B} (m : ST S A) (f : A → ST S B) s s' b :
  (m ≫= f) s = (Ok b, s') → ∃ a s1, m s = (Ok a, s1) ∧ f a s1 = (Ok b, s').
Proof.
  unfold mbind, ST_bind. destruct (m s) as [[a| |] s1]; intros; simplify_eq; eauto.
Qed.

(** Run the first statement of a stateful call: one that only reads or assigns,
    or a call whose outcome is the equation [H]. *)
Ltac st_pure := erewrite ST_bind_Ok by reflexivity; cbn [fst snd].
Tactic Notation "st_call" uconstr(H) := rewrite (ST_bind_Ok _ _ _ _ _ H); cbn [fst snd].
