(* ===== verification/Crypto.v ===== *)
(** * The cryptographic primitives the code calls

    The algorithms themselves (AES, HMAC-SHA-256, HKDF, X25519, Ed25519, SHA-512
    and the NaCl anonymous box) are not part of the repository: they are
    parameters of the model, one operation per library call, grouped in classes
    by the package that uses them. The [Laws] classes state the documented
    behaviour that the code relies on. *)

From Stdlib Require Import ZArith.
From stdpp Require Import base list numbers option.
From S2P Require Import Prelude.

(** ** Primitives of package [doubleratchet] *)

Class RatchetCrypto := {
  (** [hmac.New(sha256.New, key)], one [Write(msg)], then [Sum(nil)] *)
  hmac_sha256 : ∀ (key msg : bytes), bytes;
  (** the [len] bytes at offset [pos] of the output stream of
      [hkdf.New(sha256.New, secret, salt, info)] *)
  hkdf_sha256 : ∀ (secret salt info : bytes) (pos len : nat), bytes;
  (** one 16-byte block with the [cipher.Block] of [aes.NewCipher(key)] *)
  aes_encrypt : ∀ (key block : bytes), bytes;
  aes_decrypt : ∀ (key block : bytes), bytes;
  (** [curve25519.X25519(scalar, point)]; [None] is the error return *)
  x25519 : ∀ (scalar point : bytes), option bytes;
}.

(** [curve25519.Basepoint]: the u-coordinate 9. *)
Definition basepoint : bytes := Byte.x09 :: zeros 31.

(** [curve25519.X25519(priv, curve25519.Basepoint)] succeeds with [pub]. *)
Definition dh_pair `{RatchetCrypto} (pub priv : bytes) : Prop :=
  length priv = 32 ∧ length pub = 32 ∧ x25519 priv basepoint = Some pub.

Class RatchetCryptoLaws `{RatchetCrypto} : Prop := {
  hmac_sha256_length : ∀ key msg, length (hmac_sha256 key msg) = 32;
  hkdf_sha256_length : ∀ secret salt info pos len,
    length (hkdf_sha256 secret salt info pos len) = len;
  aes_encrypt_length : ∀ key b, length b = 16 → length (aes_encrypt key b) = 16;
  aes_decrypt_length : ∀ key b, length b = 16 → length (aes_decrypt key b) = 16;
  aes_decrypt_encrypt : ∀ key b, length key = 32 → length b = 16 →
    aes_decrypt key (aes_encrypt key b) = b;
  (** every 32-byte scalar has a public key *)
  x25519_public : ∀ priv, length priv = 32 → ∃ pub, dh_pair pub priv;
  (** two parties with proper key pairs compute the same secret *)
  x25519_agree : ∀ pubA privA pubB privB, dh_pair pubA privA → dh_pair pubB privB →
    ∃ s, length s = 32 ∧ x25519 privA pubB = Some s ∧ x25519 privB pubA = Some s;
}.

(** ** Primitives of package [x3dh] *)

Class IdentityCrypto := {
  (** the public key of a seed, [ed25519.NewKeyFromSeed(seed)[32:]] *)
  ed25519_point : ∀ (seed : bytes), bytes;
  (** [ed25519.Sign] and [ed25519.Verify] on keys of the right size *)
  ed25519_sign : ∀ (priv msg : bytes), bytes;
  ed25519_verify : ∀ (pub msg sig : bytes), bool;
  (** [sha512.New()], one [Write(msg)], then [Sum(nil)] *)
  sha512 : ∀ (msg : bytes), bytes;
}.

(** An [ed25519.PrivateKey]: the seed followed by the public key. *)
Definition ed25519_key `{IdentityCrypto} (priv : bytes) : Prop :=
  length priv = 64 ∧ drop 32 priv = ed25519_point (take 32 priv).

(** The y coordinate that a public key encodes; the top bit is the sign of x. *)
Definition ed25519_y (pub : bytes) : Z := (le_value pub mod 2 ^ 255)%Z.

Class IdentityCryptoLaws `{RatchetCrypto, IdentityCrypto} : Prop := {
  ed25519_point_length : ∀ seed, length (ed25519_point seed) = 32;
  ed25519_sign_length : ∀ priv msg, length (ed25519_sign priv msg) = 64;
  ed25519_verify_sign : ∀ priv msg, ed25519_key priv →
    ed25519_verify (drop 32 priv) msg (ed25519_sign priv msg) = true;
  sha512_length : ∀ msg, length (sha512 msg) = 64;
  (** a public key is not the neutral element, y = 1 *)
  ed25519_y_regular : ∀ seed, length seed = 32 →
    Z.gcd (1 - ed25519_y (ed25519_point seed)) (2 ^ 255 - 19) = 1%Z;
  (** RFC 7748, section 4.1: the point of a seed and the X25519 public key of
      the scalar that is hashed from the seed correspond under
      u = (1 + y) / (1 - y) *)
  ed25519_montgomery : ∀ seed u, length seed = 32 → length u = 32 →
    let y := ed25519_y (ed25519_point seed) in
    (le_value u < 2 ^ 255 - 19)%Z →
    ((le_value u * (1 - y)) mod (2 ^ 255 - 19) = (1 + y) mod (2 ^ 255 - 19))%Z →
    x25519 (take 32 (sha512 seed)) basepoint = Some u;
}.

(** ** Primitives of package [xochimilco] *)

Class BoxCrypto := {
  (** [box.SealAnonymous(nil, msg, pub, nil)] reads its ephemeral key from the
      random source: the first argument is the tape it reads, the result the
      sealed box (or an error) and the rest of the tape *)
  box_seal : ∀ (e : entropy) (msg pub : bytes), result bytes * entropy;
  (** [box.OpenAnonymous(nil, box, pub, priv)]; [None] for [ok = false] *)
  box_open : ∀ (sealed pub priv : bytes), option bytes;
}.

Class BoxCryptoLaws `{RatchetCrypto, BoxCrypto} : Prop := {
  (** with 32 random bytes at hand sealing succeeds, [AnonymousOverhead] is 48,
      and the owner of the key pair opens the box *)
  box_open_seal : ∀ e msg pub priv, 32 <= length e → dh_pair pub priv →
    ∃ c, box_seal e msg pub = (Ok c, drop 32 e) ∧ length c = 48 + length msg ∧
      box_open c pub priv = Some msg;
}.
