(* ===== verification/ToyCrypto.v ===== *)
(** * A concrete instance of the primitives

    A small executable instance of the classes of [Crypto] that satisfies their
    laws. They are not declared as instances: a file that runs the model on
    concrete inputs names them. It has no security: it shows that the laws can hold together, and it
    lets the model run on concrete inputs. *)

From Stdlib Require Import ZArith Lia Znumtheory Zcong.
From stdpp Require Import base list numbers option strings.
From S2P Require Import Prelude Crypto.

Local Open Scope Z_scope.

Definition byte_add (a b : byte) : byte := byte_of_Z (byte_to_Z a + byte_to_Z b).
Definition byte_sub (a b : byte) : byte := byte_of_Z (byte_to_Z a - byte_to_Z b).

(** A checksum, and byte [i] of the stream derived from it. *)
Definition toy_hash (msg : bytes) : Z :=
  foldl (λ acc b, (acc * 257 + byte_to_Z b + 13) mod 2 ^ 61) 1 msg.
Definition toy_stream (h : Z) (i : nat) : byte :=
  byte_of_Z (Z.shiftr h (Z.of_nat (i mod 50)) + Z.of_nat i * 11).

Definition toy_x25519 (scalar point : bytes) : option bytes :=
  if bool_decide (length scalar = 32%nat ∧ length point = 32%nat)
  then Some (zip_with byte_add scalar point) else None.

Definition toy_ratchet_crypto : RatchetCrypto := {|
  hmac_sha256 key msg := toy_stream (toy_hash (key ++ [Byte.x55] ++ msg)) <$> seq 0 32;
  hkdf_sha256 secret salt info pos len :=
    toy_stream (toy_hash (secret ++ [Byte.x66] ++ salt ++ [Byte.x77] ++ info)) <$> seq pos len;
  aes_encrypt key block := zip_with byte_add block (copied 16 key);
  aes_decrypt key block := zip_with byte_sub block (copied 16 key);
  x25519 := toy_x25519;
|}.

#[local] Existing Instance toy_ratchet_crypto.

Lemma byte_add_swap a b c : byte_add a (byte_add b c) = byte_add b (byte_add a c).
Proof.
  unfold byte_add. rewrite !byte_to_of_Z.
  rewrite <-(byte_of_Z_mod (byte_to_Z a + _)), <-(byte_of_Z_mod (byte_to_Z b + _)).
  f_equal. rewrite !Zplus_mod_idemp_r. f_equal. lia.
Qed.

Lemma byte_sub_add a b : byte_sub (byte_add a b) b = a.
Proof.
  unfold byte_add, byte_sub. rewrite byte_to_of_Z, <-byte_of_Z_mod, Zminus_mod_idemp_l.
  replace (byte_to_Z a + byte_to_Z b - byte_to_Z b) with (byte_to_Z a) by lia.
  rewrite byte_of_Z_mod. apply byte_of_to_Z.
Qed.

Lemma zip_add_swap a b c :
  zip_with byte_add a (zip_with byte_add b c) = zip_with byte_add b (zip_with byte_add a c).
Proof.
  revert b c. induction a as [|x a IH]; intros [|y b] [|z c]; simpl; try done.
  by rewrite byte_add_swap, IH.
Qed.

Lemma zip_sub_add a b :
  (length a <= length b)%nat → zip_with byte_sub (zip_with byte_add a b) b = a.
Proof.
  revert b. induction a as [|x a IH]; intros [|y b]; simpl; intros; try done; try lia.
  rewrite byte_sub_add, IH by lia. done.
Qed.

Lemma toy_dh_pair priv :
  length priv = 32%nat → dh_pair (zip_with byte_add priv basepoint) priv.
Proof.
  intros Hp. unfold dh_pair. simpl. unfold toy_x25519.
  rewrite bool_decide_eq_true_2 by (split; [done|reflexivity]).
  split_and!; [done| |done]. rewrite length_zip_with, Hp. reflexivity.
Qed.

Lemma toy_ratchet_laws : RatchetCryptoLaws.
Proof.
  split; unfold hmac_sha256, hkdf_sha256, aes_encrypt, aes_decrypt, x25519; cbn [toy_ratchet_crypto].
  - intros. by rewrite length_fmap, length_seq.
  - intros. by rewrite length_fmap, length_seq.
  - intros. rewrite length_zip_with, length_copied. lia.
  - intros. rewrite length_zip_with, length_copied. lia.
  - intros. apply zip_sub_add. rewrite length_copied. lia.
  - intros priv Hp. eauto using toy_dh_pair.
  - intros pubA privA pubB privB (HA & HA' & EA) (HB & HB' & EB). simpl in *.
    unfold toy_x25519 in *. repeat case_bool_decide; simplify_eq; try tauto.
    eexists. split_and!; [|done|by rewrite zip_add_swap].
    rewrite length_zip_with. lia.
Qed.

(** A box that anybody can open: the public key in front of the message. *)
Definition toy_box_crypto : BoxCrypto := {|
  box_seal e msg pub :=
    if (32 <=? length e)%nat then (Ok (copied 48 pub ++ msg), drop 32 e) else (Err (Errorf "rand"), []);
  box_open sealed pub priv :=
    if bool_decide (take 48 sealed = copied 48 pub) then Some (drop 48 sealed) else None;
|}.

Lemma toy_box_laws : @BoxCryptoLaws toy_ratchet_crypto toy_box_crypto.
Proof.
  split. intros e msg pub priv He _. exists (copied 48 pub ++ msg). unfold box_seal, box_open, toy_box_crypto.
  destruct (Nat.leb_spec 32 (length e)) as [_|]; [|lia].
  rewrite take_app_length' by (by rewrite length_copied). rewrite bool_decide_eq_true_2 by done.
  rewrite drop_app_length' by (by rewrite length_copied). split_and!; [done|len|done].
Qed.

(** ** Identity keys

    Scalars of one byte: the X25519 public key of the scalar b is the small
    number b + 9, and the Ed25519 point is the one that corresponds to it. *)
Definition toy_p : Z := 2 ^ 255 - 19.
Definition toy_scalar (seed : bytes) : byte := byte_of_Z (toy_hash seed).
Definition toy_pub (b : byte) : bytes := zip_with byte_add (b :: zeros 31) basepoint.
Definition toy_y (b : byte) : Z :=
  let u := le_value (toy_pub b) in ((u - 1) * Z.invmod (u + 1) toy_p) mod toy_p.
Definition toy_sig (pub msg : bytes) : bytes :=
  toy_stream (toy_hash (pub ++ [Byte.x44] ++ msg)) <$> seq 0 64.

Definition toy_identity_crypto : IdentityCrypto := {|
  ed25519_point seed := copied 32 (le_bytes 32 (toy_y (toy_scalar seed)));
  ed25519_sign priv msg := toy_sig (drop 32 priv) msg;
  ed25519_verify pub msg sig := bool_decide (sig = toy_sig pub msg);
  sha512 msg := toy_scalar msg :: zeros 63;
|}.

Lemma all_bytes (P : byte → bool) :
  forallb (λ n, P (byte_of_Z (Z.of_nat n))) (seq 0 256) = true → ∀ b, P b = true.
Proof.
  rewrite forallb_forall. intros Hall b. rewrite <-(byte_of_to_Z b).
  pose proof (byte_to_Z_range b). rewrite <-(Z2Nat.id (byte_to_Z b)) by lia.
  apply Hall. apply list_elem_of_In, elem_of_seq. lia.
Qed.

Lemma toy_point_ok b :
  (Z.gcd (1 - toy_y b) toy_p =? 1) &&
  ((le_value (toy_pub b) * (1 - toy_y b)) mod toy_p =? (1 + toy_y b) mod toy_p) &&
  (le_value (toy_pub b) <? toy_p) = true.
Proof. revert b. apply all_bytes. vm_compute. reflexivity. Qed.

Lemma toy_point_y seed :
  ed25519_y (copied 32 (le_bytes 32 (toy_y (toy_scalar seed)))) = toy_y (toy_scalar seed).
Proof.
  unfold ed25519_y. rewrite le_value_copied by apply length_le_bytes.
  assert (0 <= toy_y (toy_scalar seed) < toy_p) as Hy by (apply Z.mod_pos_bound; reflexivity).
  unfold toy_p in Hy. rewrite le_value_bytes by (change (256 ^ Z.of_nat 32) with (2 ^ 256); lia).
  apply Z.mod_small. lia.
Qed.

(** Division by a number that is prime to the modulus. *)
Lemma mul_cancel_mod p u v d :
  Z.gcd d p = 1 → 0 <= u < p → 0 <= v < p → (u * d) mod p = (v * d) mod p → u = v.
Proof.
  intros Hg Hu Hv Heq.
  assert ((p | d * (u - v))) as Hd.
  { apply Z.mod_divide; [lia|]. replace (d * (u - v)) with (u * d - v * d) by lia.
    rewrite Zminus_mod, Heq, Z.sub_diag. apply Z.mod_0_l. lia. }
  apply Z.gauss in Hd; [|by rewrite Z.gcd_comm].
  destruct Hd as [k Hk]. assert (k = 0) as -> by nia. lia.
Qed.

Lemma toy_identity_laws : @IdentityCryptoLaws toy_ratchet_crypto toy_identity_crypto.
Proof.
  split; cbn [toy_identity_crypto ed25519_point ed25519_sign ed25519_verify sha512].
  - intros. apply length_copied.
  - intros. unfold toy_sig. by rewrite length_fmap, length_seq.
  - intros priv msg _. by apply bool_decide_eq_true.
  - intros. reflexivity.
  - intros seed _. rewrite toy_point_y. pose proof (toy_point_ok (toy_scalar seed)) as Hok.
    apply andb_prop in Hok as [[Hg _]%andb_prop _]. by apply Z.eqb_eq.
  - intros seed u _ Hl. rewrite toy_point_y. intros Hu Heq.
    pose proof (toy_point_ok (toy_scalar seed)) as Hok.
    apply andb_prop in Hok as [[Hg%Z.eqb_eq Hm%Z.eqb_eq]%andb_prop Hlt%Z.ltb_lt].
    assert (u = toy_pub (toy_scalar seed)) as ->.
    { apply le_value_inj; [by rewrite Hl|]. apply (mul_cancel_mod toy_p _ _ (1 - toy_y (toy_scalar seed))); try done.
      - pose proof (le_value_range u). unfold toy_p. lia.
      - pose proof (le_value_range (toy_pub (toy_scalar seed))). lia.
      - by rewrite Hm. }
    change (take 32 (toy_scalar seed :: zeros 63)) with (toy_scalar seed :: zeros 31).
    unfold x25519. simpl. unfold toy_x25519. by rewrite bool_decide_eq_true_2.
Qed.

(** An identity key pair from a seed byte. *)
Definition toy_identity (b : byte) : bytes :=
  replicate 32 b ++ @ed25519_point toy_identity_crypto (replicate 32 b).

Lemma toy_identity_key b : @ed25519_key toy_identity_crypto (toy_identity b).
Proof.
  unfold ed25519_key, toy_identity. split; [|done].
  rewrite length_app. cbn [ed25519_point toy_identity_crypto]. rewrite length_copied. reflexivity.
Qed.
