(* ===== verification/Pkcs7.v ===== *)
(** * PKCS#7 padding (src/doubleratchet/pkcs7.go)

    Padding and unpadding for an arbitrary block size, with the code's error
    returns and slice bounds. *)

From Stdlib Require Import ZArith Lia.
From stdpp Require Import base list numbers option strings.
From S2P Require Import Prelude.

Local Open Scope Z_scope.

(** [pkcs7Pad]. Its [append] may write the padding into spare capacity behind the
    caller's slice; nothing in the program looks there, so the result is all
    that is modelled. *)
Definition pkcs7Pad (data : bytes) (blockSize : Z) : result bytes :=
  if (blockSize <=? 0) || (blockSize >? 255)
  then Err (Errorf "block size MUST be between 1 and 255")
  else
    let padLen := blockSize - Z.rem (blen data) blockSize in
    let padding := replicate (Z.to_nat padLen) (byte_of_Z padLen) in
    Ok (data ++ padding).

(** [pkcs7Unpad]; the returned slice still has the padding behind it. *)
Definition pkcs7Unpad (paddedData : bytes) (blockSize : Z) : result gslice :=
  let paddedDataLen := blen paddedData in
  if (blockSize <=? 0) || (blockSize >? 255)
  then Err (Errorf "block size MUST be between 1 and 255")
  else if negb (Z.rem paddedDataLen blockSize =? 0) || (paddedDataLen =? 0)
  then Err (Errorf "padded data is not aligned")
  else
    lastByte ← index paddedData (paddedDataLen - 1);
    let padLen := byte_to_Z lastByte in
    if (padLen =? 0) || (padLen >? blockSize)
    then Err (Errorf "invalid padding length %d")
    else
      let padExpect := replicate (Z.to_nat padLen) (byte_of_Z padLen) in
      padData ← slice_from paddedData (paddedDataLen - padLen);
      if negb (bool_decide (padExpect = padData))
      then Err (Errorf "padded data's suffix does not match")
      else
        data ← slice_to paddedData (paddedDataLen - padLen);
        Ok (GSlice data padData).

(** ** Lemmas *)

(** The padding length the two functions agree on. *)
Definition pad_len (n blockSize : Z) : Z := blockSize - Z.rem n blockSize.

Arguments pad_len : simpl never.

Lemma pad_len_range n bs : 0 <= n → 0 < bs → 1 <= pad_len n bs <= bs.
Proof. intros. unfold pad_len. pose proof (Z.rem_bound_pos n bs). lia. Qed.

Lemma pad_len_aligned n bs : 0 <= n → 0 < bs → Z.rem (n + pad_len n bs) bs = 0.
Proof.
  intros. unfold pad_len. pose proof (Z.quot_rem' n bs).
  pose proof (Z.rem_bound_pos n bs).
  replace (n + (bs - Z.rem n bs)) with ((Z.quot n bs + 1) * bs) by lia.
  apply Z.rem_mul. lia.
Qed.

Lemma pad_len_unique n p bs :
  0 <= n → 0 < bs → 1 <= p <= bs → Z.rem (n + p) bs = 0 → pad_len n bs = p.
Proof.
  intros Hn Hbs Hp Hal. pose proof (pad_len_range n bs ltac:(lia) ltac:(lia)).
  pose proof (pad_len_aligned n bs ltac:(lia) ltac:(lia)) as Hal'.
  pose proof (Z.quot_rem' (n + p) bs). pose proof (Z.quot_rem' (n + pad_len n bs) bs).
  assert (bs * (Z.quot (n + p) bs - Z.quot (n + pad_len n bs) bs) = p - pad_len n bs) by lia.
  assert (Z.quot (n + p) bs - Z.quot (n + pad_len n bs) bs = 0) by nia. nia.
Qed.

Lemma aligned_ge n bs : 0 < bs → 0 <= n → n ≠ 0 → Z.rem n bs = 0 → bs <= n.
Proof.
  intros. apply Z.divide_pos_le; [lia|]. apply Z.rem_divide; [lia|done].
Qed.

Section BlockSize.
Context (bs : Z) (Hbs : 1 <= bs <= 255).

Lemma block_size_guard : (bs <=? 0) || (bs >? 255) = false.
Proof. destruct (Z.leb_spec bs 0), (Z.gtb_spec bs 255); simpl; lia. Qed.

Lemma pkcs7Pad_eq data :
  pkcs7Pad data bs =
    Ok (data ++ replicate (Z.to_nat (pad_len (blen data) bs)) (byte_of_Z (pad_len (blen data) bs))).
Proof. unfold pkcs7Pad. by rewrite block_size_guard. Qed.

(** The result of unpadding data that ends in a padding of length [p]. *)
Lemma pkcs7Unpad_app data p :
  1 <= p <= bs → Z.rem (blen data + p) bs = 0 →
  pkcs7Unpad (data ++ replicate (Z.to_nat p) (byte_of_Z p)) bs =
    Ok (GSlice data (replicate (Z.to_nat p) (byte_of_Z p))).
Proof.
  intros Hp Hal. unfold pkcs7Unpad. rewrite block_size_guard.
  assert (blen (data ++ replicate (Z.to_nat p) (byte_of_Z p)) = blen data + p) as Hlen
    by (unfold blen; len).
  rewrite Hlen, Hal.
  destruct (Z.eqb_spec (blen data + p) 0) as [Hz|_]; [unfold blen in Hz; lia|]. simpl.
  assert (index (data ++ replicate (Z.to_nat p) (byte_of_Z p)) (blen data + p - 1)
          = Ok (byte_of_Z p)) as ->.
  { replace (blen data + p - 1) with (Z.of_nat (length data + (Z.to_nat p - 1)))
      by (unfold blen; lia).
    apply index_ok. rewrite lookup_app_r by lia. apply lookup_replicate. split; [done|lia]. }
  unfold mbind, result_bind. rewrite byte_to_of_Z, Z.mod_small by lia.
  destruct (Z.eqb_spec p 0), (Z.gtb_spec p bs); try lia; simpl.
  replace (blen data + p - p) with (blen data) by lia.
  rewrite slice_from_ok, slice_to_ok by (unfold blen in *; len).
  unfold blen. rewrite Nat2Z.id, drop_app_length, take_app_length.
  by rewrite bool_decide_eq_true_2.
Qed.

(** Conversely, whatever is accepted ends in such a padding. *)
Lemma pkcs7Unpad_inv padded s :
  pkcs7Unpad padded bs = Ok s →
  ∃ p, 1 <= p <= bs ∧ padded = sl s ++ sl_spare s ∧
       sl_spare s = replicate (Z.to_nat p) (byte_of_Z p) ∧
       Z.rem (blen (sl s) + p) bs = 0.
Proof.
  unfold pkcs7Unpad. rewrite block_size_guard.
  destruct (Z.eqb_spec (Z.rem (blen padded) bs) 0) as [Hal|]; [|done]; simpl.
  destruct (Z.eqb_spec (blen padded) 0) as [|Hne]; [done|].
  unfold mbind, result_bind.
  destruct (index padded (blen padded - 1)) as [b| |] eqn:Hb; [|done..].
  pose proof (byte_to_Z_range b) as Hrb. set (p := byte_to_Z b) in *.
  destruct (Z.eqb_spec p 0), (Z.gtb_spec p bs); try done; simpl.
  assert (p <= blen padded).
  { pose proof (aligned_ge (blen padded) bs ltac:(lia) ltac:(unfold blen; lia) Hne Hal). lia. }
  rewrite slice_from_ok, slice_to_ok by lia.
  case_bool_decide as Hpad; [|done]. simpl. intros [= <-]. exists p. simpl.
  rewrite take_drop. split_and!; [lia|lia|done|done|].
  replace (blen (take _ padded) + p) with (blen padded); [done|]. unfold blen in *. len.
Qed.

(** What [pkcs7Pad] produces is accepted and stripped again. *)
Lemma pkcs7Unpad_Pad data padded :
  pkcs7Pad data bs = Ok padded →
  ∃ padding, pkcs7Unpad padded bs = Ok (GSlice data padding) ∧ padded = data ++ padding.
Proof.
  rewrite pkcs7Pad_eq. intros [= <-]. eexists. split; [|done].
  apply pkcs7Unpad_app; [apply pad_len_range|apply pad_len_aligned]; unfold blen; lia.
Qed.
End BlockSize.

(** ** Properties *)

(** Padding and unpadding are inverse to each other in both directions:
    [pkcs7Unpad] accepts exactly the strings [pkcs7Pad] produces and gives back
    the data that was padded, with the padding left in the spare capacity. *)
Theorem pkcs7_pad_unpad_iff (blockSize : Z) (padded data : bytes)
  (Hbs : 1 <= blockSize <= 255) :
  pkcs7Pad data blockSize = Ok padded ↔
  ∃ padding, pkcs7Unpad padded blockSize = Ok (GSlice data padding) ∧ padded = data ++ padding.
Proof.
  split; [by apply pkcs7Unpad_Pad|].
  - rewrite pkcs7Pad_eq by done. intros (padding & Hun & ->).
    apply pkcs7Unpad_inv in Hun as (p & Hp & _ & Hpad & Hal); [|done]. simpl in *.
    rewrite (pad_len_unique _ p) by (unfold blen in *; lia). congruence.
Qed.

(** The code's slice expressions are in range: neither function panics. *)
Theorem pkcs7_no_panic (data : bytes) (blockSize : Z) :
  pkcs7Pad data blockSize ≠ Panic ∧ pkcs7Unpad data blockSize ≠ Panic.
Proof.
  destruct (decide (1 <= blockSize <= 255)) as [Hbs|Hbs].
  2:{ unfold pkcs7Pad, pkcs7Unpad.
      destruct (Z.leb_spec blockSize 0), (Z.gtb_spec blockSize 255); simpl; done || lia. }
  split; [by rewrite pkcs7Pad_eq|]. unfold pkcs7Unpad. rewrite block_size_guard by done.
  destruct (Z.eqb_spec (Z.rem (blen data) blockSize) 0) as [Hal|]; [|done]; simpl.
  destruct (Z.eqb_spec (blen data) 0) as [|Hne]; [done|].
  assert (blockSize <= blen data)
    by (apply aligned_ge; unfold blen in *; lia).
  destruct (lookup_lt_is_Some_2 data (length data - 1)) as [b Hb]; [unfold blen in *; lia|].
  apply index_ok in Hb. replace (Z.of_nat (length data - 1)) with (blen data - 1) in Hb
    by (unfold blen in *; lia).
  rewrite Hb. unfold mbind, result_bind. pose proof (byte_to_Z_range b).
  destruct (Z.eqb_spec (byte_to_Z b) 0), (Z.gtb_spec (byte_to_Z b) blockSize); try done; simpl.
  rewrite slice_from_ok, slice_to_ok by lia. by case_bool_decide.
Qed.
