(* ===== verification/MsgHeader.v ===== *)
(** * Message headers (src/doubleratchet/msg_header.go)

    The unencrypted header in front of every Double Ratchet ciphertext: a DH
    public key and two 16-bit counters. *)

From Stdlib Require Import ZArith Lia.
From stdpp Require Import base list numbers option strings.
From S2P Require Import Prelude.

Local Open Scope Z_scope.

(** [header] *)
Record header := Header {
  h_dhPub : bytes;
  h_prevNo : Z;
  h_msgNo : Z;
}.

(** [headerLen] *)
Definition headerLen : Z := 32 + 2 + 2.

(** The two bytes [[]byte{byte(n >> 8), byte(n)}]. *)
Definition uint16_bytes (n : Z) : bytes := [byte_of_Z (Z.shiftr n 8); byte_of_Z n].

(** [header.marshal] *)
Definition marshal (h : header) : result bytes :=
  if (h_prevNo h >=? Z.shiftl 1 16) || (h_msgNo h >=? Z.shiftl 1 16)
  then Err (Errorf "header numbers MUST be uint16")
  else Ok (copied 32 (h_dhPub h) ++ copied 2 (uint16_bytes (h_prevNo h))
             ++ copied 2 (uint16_bytes (h_msgNo h))).

(** [parseHeader] *)
Definition parseHeader (data : bytes) : result header :=
  if blen data <? headerLen
  then Err (Errorf "header MUST be of %d bytes")
  else
    b32 ← index data 32; b33 ← index data 33;
    b34 ← index data 34; b35 ← index data 35;
    Ok {| h_dhPub := copied 32 (take 32 data);
          h_prevNo := Z.lor (Z.shiftl (byte_to_Z b32) 8) (byte_to_Z b33);
          h_msgNo := Z.lor (Z.shiftl (byte_to_Z b34) 8) (byte_to_Z b35) |}.

(** Headers that the wire format can represent. *)
Definition header_wf (h : header) : Prop :=
  length (h_dhPub h) = 32%nat ∧ 0 <= h_prevNo h < 2 ^ 16 ∧ 0 <= h_msgNo h < 2 ^ 16.

(** ** Lemmas *)

(** Big-endian combination of two bytes. *)
Lemma be16_combine a b :
  0 <= a < 256 → 0 <= b < 256 → Z.lor (Z.shiftl a 8) b = a * 256 + b.
Proof.
  intros. rewrite Z.shiftl_mul_pow2 by lia. change (2 ^ 8) with 256.
  rewrite <-Z.add_lor_land. enough (Z.land (a * 256) b = 0) by lia.
  apply Z.bits_inj'. intros n Hn. rewrite Z.land_spec, Z.bits_0.
  change 256 with (2 ^ 8). destruct (decide (n < 8)).
  - by rewrite Z.mul_pow2_bits_low.
  - rewrite <-(Z.mod_small b (2 ^ 8)), Z.mod_pow2_bits_high by lia. apply andb_false_r.
Qed.

Lemma be16_bytes n :
  0 <= n < 2 ^ 16 →
  Z.lor (Z.shiftl (byte_to_Z (byte_of_Z (Z.shiftr n 8))) 8) (byte_to_Z (byte_of_Z n)) = n.
Proof.
  intros. rewrite !byte_to_of_Z, Z.shiftr_div_pow2 by lia. change (2 ^ 8) with 256.
  rewrite be16_combine by (apply Z.mod_pos_bound; lia).
  rewrite (Z.mod_small (n / 256)); [pose proof (Z.div_mod n 256); lia|].
  split; [apply Z.div_pos; lia|]. apply Z.div_lt_upper_bound; lia.
Qed.

Lemma bytes_be16 a b :
  uint16_bytes (Z.lor (Z.shiftl (byte_to_Z a) 8) (byte_to_Z b)) = [a; b].
Proof.
  pose proof (byte_to_Z_range a). pose proof (byte_to_Z_range b).
  rewrite be16_combine by done. unfold uint16_bytes. f_equal; [|f_equal].
  - rewrite Z.shiftr_div_pow2 by lia. change (2 ^ 8) with 256.
    rewrite Z.div_add_l, Z.div_small, Z.add_0_r by lia. apply byte_of_to_Z.
  - rewrite <-byte_of_Z_mod, Z.add_comm, Z.mod_add, Z.mod_small by lia. apply byte_of_to_Z.
Qed.

(** Header bytes in front of anything parse as the five parts. *)
Lemma parseHeader_app (pub : bytes) (p1 p2 n1 n2 : byte) (rest : bytes) :
  length pub = 32%nat →
  parseHeader (pub ++ [p1; p2; n1; n2] ++ rest) =
    Ok {| h_dhPub := pub;
          h_prevNo := Z.lor (Z.shiftl (byte_to_Z p1) 8) (byte_to_Z p2);
          h_msgNo := Z.lor (Z.shiftl (byte_to_Z n1) 8) (byte_to_Z n2) |}.
Proof.
  intros Hpub. unfold parseHeader.
  destruct (Z.ltb_spec (blen (pub ++ [p1; p2; n1; n2] ++ rest)) headerLen) as [Hlt|_].
  { unfold blen, headerLen in Hlt. len. }
  assert (∀ i b, ([p1; p2; n1; n2] ++ rest) !! i = Some b →
    index (pub ++ [p1; p2; n1; n2] ++ rest) (Z.of_nat (32 + i)) = Ok b) as Hix.
  { intros i b Hb. apply index_ok. rewrite lookup_app_r by lia. by rewrite Hpub, Nat.add_comm, Nat.add_sub. }
  change 32 with (Z.of_nat (32 + 0)) at 1. change 33 with (Z.of_nat (32 + 1)).
  change 34 with (Z.of_nat (32 + 2)). change 35 with (Z.of_nat (32 + 3)).
  rewrite (Hix 0%nat p1), (Hix 1%nat p2), (Hix 2%nat n1), (Hix 3%nat n2) by done.
  unfold mbind, result_bind. by rewrite take_app_length', copied_exact by done.
Qed.

Lemma marshal_ok h :
  header_wf h →
  marshal h = Ok (h_dhPub h ++ uint16_bytes (h_prevNo h) ++ uint16_bytes (h_msgNo h)).
Proof.
  intros (Hpub & Hp & Hn). unfold marshal. change (Z.shiftl 1 16) with (2 ^ 16).
  destruct (Z.geb_spec (h_prevNo h) (2 ^ 16)), (Z.geb_spec (h_msgNo h) (2 ^ 16)); try lia. simpl.
  by rewrite !copied_exact.
Qed.

(** Whatever is marshalled has [headerLen] bytes. *)
Lemma marshal_length h data : marshal h = Ok data → length data = Z.to_nat headerLen.
Proof.
  unfold marshal. change (Z.to_nat headerLen) with 36%nat.
  destruct (_ || _); intros; simplify_eq. len.
Qed.

Lemma parseHeader_wf data h : parseHeader data = Ok h → header_wf h.
Proof.
  unfold parseHeader. destruct (Z.ltb_spec (blen data) headerLen); [done|].
  unfold mbind, result_bind. repeat case_match; intros; simplify_eq.
  unfold header_wf; simpl. rewrite !be16_combine by apply byte_to_Z_range.
  repeat match goal with |- context [byte_to_Z ?b] => pose proof (byte_to_Z_range b); generalize dependent (byte_to_Z b); intros end.
  split; [apply length_copied|lia].
Qed.

Lemma parseHeader_no_panic data : parseHeader data ≠ Panic.
Proof.
  unfold parseHeader. destruct (Z.ltb_spec (blen data) headerLen) as [|Hlen]; [done|].
  assert (∀ i : nat, (i < 36)%nat → ∃ b, index data (Z.of_nat i) = Ok b) as Hix.
  { intros i Hi. unfold blen, headerLen in Hlen.
    destruct (lookup_lt_is_Some_2 data i) as [b Hb]; [lia|]. exists b. by apply index_ok. }
  destruct (Hix 32%nat) as [b0 E0], (Hix 33%nat) as [b1 E1], (Hix 34%nat) as [b2 E2],
    (Hix 35%nat) as [b3 E3]; try lia. 
  change (index data 32) with (index data (Z.of_nat 32)). change (index data 33) with (index data (Z.of_nat 33)).
  change (index data 34) with (index data (Z.of_nat 34)). change (index data 35) with (index data (Z.of_nat 35)).
  by rewrite E0, E1, E2, E3.
Qed.

Lemma marshal_no_panic h : marshal h ≠ Panic.
Proof. unfold marshal. by destruct (_ || _). Qed.

Lemma marshal_parse_app h data rest :
  header_wf h → marshal h = Ok data → parseHeader (data ++ rest) = Ok h.
Proof.
  intros Hwf Hm. rewrite (marshal_ok h Hwf) in Hm. injection Hm as <-.
  destruct h as [pub prevNo msgNo], Hwf as (Hpub & Hp & Hn). simpl in *. rewrite <-!app_assoc.
  etransitivity; [apply (parseHeader_app pub _ _ _ _ rest Hpub)|]. by rewrite !be16_bytes.
Qed.

Lemma marshal_parse h data : header_wf h → marshal h = Ok data → parseHeader data = Ok h.
Proof. intros. rewrite <-(app_nil_r data). by apply marshal_parse_app. Qed.

(** ** Properties *)

(** A header that the 16-bit format can represent survives marshalling and
    parsing, whatever bytes follow it in the ciphertext. *)
Theorem header_roundtrip (h : header) (rest : bytes) (Hwf : header_wf h) :
  ∃ data, marshal h = Ok data ∧ length data = Z.to_nat headerLen ∧
          parseHeader (data ++ rest) = Ok h.
Proof.
  pose proof (marshal_ok h Hwf) as Hm. eexists. split; [done|].
  split; [by eapply marshal_length|]. by apply marshal_parse_app.
Qed.

(** The other direction: the 36 bytes of a header are determined by what
    [parseHeader] reads from them, so no two headers share an encoding. *)
Theorem header_parse_marshal (data : bytes) (h : header)
  (Hlen : length data = Z.to_nat headerLen) (Hp : parseHeader data = Ok h) :
  marshal h = Ok data.
Proof.
  change (Z.to_nat headerLen) with 36%nat in Hlen.
  assert (length (take 32 data) = 32%nat) as H32 by len.
  rewrite <-(take_drop 32 data) in Hp |- *.
  assert (length (drop 32 data) = 4%nat) as H4 by len.
  destruct (drop 32 data) as [|p1 [|p2 [|n1 [|n2 [|]]]]]; try done.
  pose proof (parseHeader_app (take 32 data) p1 p2 n1 n2 [] H32) as Hp'.
  rewrite app_nil_r in Hp'. rewrite Hp' in Hp. injection Hp as <-.
  rewrite marshal_ok by (eapply parseHeader_wf, Hp'). cbn [h_dhPub h_prevNo h_msgNo].
  by rewrite !bytes_be16.
Qed.
