(* ===== verification/Primitives.v ===== *)
(** * Functions required by the Double Ratchet (src/doubleratchet/primitives.go)

    Key generation, Diffie-Hellman, the two key derivation functions and the
    ENCRYPT/DECRYPT pair, on top of the primitives of [Crypto]. The CBC mode of
    [crypto/cipher] is defined here over the block cipher. *)

From Stdlib Require Import ZArith Lia.
From stdpp Require Import base list numbers option strings.
From S2P Require Import Prelude Crypto ToyCrypto Pkcs7.

Local Open Scope nat_scope.

(** [aes.BlockSize] and [sha256.Size] *)
Definition aesBlockSize : nat := 16.
Definition sha256Size : nat := 32.

(** ** CBC mode of [crypto/cipher] *)

Definition byte_xor (a b : byte) : byte := byte_of_Z (Z.lxor (byte_to_Z a) (byte_to_Z b)).
Definition xor_block (a b : bytes) : bytes := zip_with byte_xor a b.

(** The 16-byte blocks of a message. *)
Definition blocks (src : bytes) : list bytes :=
  reshape (replicate (length src / aesBlockSize) aesBlockSize) src.

Section Primitives.
Context `{RatchetCrypto}.

Fixpoint cbc_encrypt (key prev : bytes) (src : list bytes) : list bytes :=
  match src with
  | [] => []
  | b :: rest =>
      let c := aes_encrypt key (xor_block b prev) in
      c :: cbc_encrypt key c rest
  end.

Fixpoint cbc_decrypt (key prev : bytes) (src : list bytes) : list bytes :=
  match src with
  | [] => []
  | c :: rest => xor_block (aes_decrypt key c) prev :: cbc_decrypt key c rest
  end.

(** [aes.NewCipher(key)] *)
Definition aes_newCipher (key : bytes) : result bytes :=
  if bool_decide (length key ∈ [16; 24; 32]) then Ok key
  else Err (Errorf "crypto/aes: invalid key size %d").

(** [cipher.NewCBCEncrypter(block, iv)] and [CryptBlocks], and the same for
    decryption: they panic on an IV or an input of the wrong length. *)
Definition cbc_crypt (crypt : bytes → bytes → list bytes → list bytes)
    (key iv src : bytes) : result bytes :=
  if bool_decide (length iv = aesBlockSize) && bool_decide (length src mod aesBlockSize = 0)
  then Ok (mjoin (crypt key iv (blocks src)))
  else Panic.

(** ** The functions of primitives.go *)

(** [dhKeyPair]: the public key, the private key and the error. *)
Definition dhKeyPair (e : entropy) : bytes * bytes * option error * entropy :=
  let '(privKey, err, e') := rand_read 32 e in
  match err with
  | Some _ => ([], privKey, err, e')
  | None =>
      match x25519 privKey basepoint with
      | Some pubKey => (pubKey, privKey, None, e')
      | None => ([], privKey, Some (Errorf "bad input point: low order point"), e')
      end
  end.

(** [dh] *)
Definition dh (privKey pubKey : bytes) : result bytes :=
  if negb (length privKey =? 32)
  then Err (Errorf "private key MUST be of %d bytes")
  else if negb (length pubKey =? 32)
  then Err (Errorf "public key MUST be of %d bytes")
  else
    match x25519 privKey pubKey with
    | Some sharedSec => Ok sharedSec
    | None => Err (Errorf "bad input point: low order point")
    end.

(** [chainKdf]: the next chain key and the message key. *)
Definition chainKdf (ckIn : bytes) : result (bytes * bytes) :=
  if negb (length ckIn =? 32)
  then Err (Errorf "input chain key MUST be of 32 bytes")
  else Ok (hmac_sha256 ckIn [Byte.x00], hmac_sha256 ckIn [Byte.x01]).

(** [rootKdf]: the next root key and a chain key, two consecutive reads of
    the HKDF stream. *)
Definition rootKdf (rkIn dhOut : bytes) : result (bytes * bytes) :=
  if negb (length rkIn =? 32)
  then Err (Errorf "input chain key MUST be of 32 bytes")
  else
    let kdf := hkdf_sha256 dhOut rkIn [Byte.x02] in
    Ok (kdf 0 32, kdf 32 32).

(** [encryptParams]: encryption key, authentication key and IV. *)
Definition encryptParams (msgKey : bytes) : result (bytes * bytes * bytes) :=
  if negb (length msgKey =? 32)
  then Err (Errorf "message key MUST be of 32 bytes")
  else
    let kdf := hkdf_sha256 msgKey (replicate sha256Size Byte.x00) [Byte.x03] in
    Ok (kdf 0 32, kdf 32 32, kdf 64 aesBlockSize).

(** [encrypt] *)
Definition encrypt (msgKey plaintext associatedData : bytes) : result bytes :=
  '(encKey, authKey, iv) ← encryptParams msgKey;
  padded ← pkcs7Pad plaintext (Z.of_nat aesBlockSize);
  block ← aes_newCipher encKey;
  aesCipher ← cbc_crypt cbc_encrypt block iv padded;
  let mac := hmac_sha256 authKey associatedData in
  Ok (aesCipher ++ mac).

(** [decrypt] *)
Definition decrypt (msgKey ciphertext associatedData : bytes) : result gslice :=
  '(encKey, authKey, iv) ← encryptParams msgKey;
  block ← aes_newCipher encKey;
  if (blen ciphertext - Z.of_nat sha256Size <? 0)%Z
  then Err (Errorf "ciphertext is too short")
  else
    aesCipher ← slice_to ciphertext (blen ciphertext - Z.of_nat sha256Size);
    if negb (length aesCipher mod aesBlockSize =? 0)
    then Err (Errorf "ciphertext is not aligned to block size")
    else
      padded ← cbc_crypt cbc_decrypt block iv aesCipher;
      plaintext ← pkcs7Unpad padded (Z.of_nat aesBlockSize);
      tag ← slice_from ciphertext (blen aesCipher);
      let macExpect := hmac_sha256 authKey associatedData in
      if negb (bool_decide (tag = macExpect))
      then Err (Errorf "HMAC differs")
      else Ok plaintext.
End Primitives.

(** ** Lemmas on blocks and CBC *)

Lemma byte_xor_cancel a b : byte_xor (byte_xor a b) b = a.
Proof.
  unfold byte_xor. rewrite byte_to_of_Z.
  pose proof (byte_to_Z_range a). pose proof (byte_to_Z_range b).
  change 256%Z with (2 ^ 8)%Z in *. rewrite <-Z.land_ones by lia.
  rewrite <-(byte_of_to_Z a) at 2. f_equal.
  apply Z.bits_inj'. intros n Hn. rewrite Z.lxor_spec, Z.land_spec, Z.lxor_spec.
  destruct (decide (n < 8)%Z).
  - rewrite Z.ones_spec_low by lia. by destruct (Z.testbit (byte_to_Z a) n), (Z.testbit (byte_to_Z b) n).
  - rewrite <-(Z.mod_small (byte_to_Z a) (2 ^ 8)), <-(Z.mod_small (byte_to_Z b) (2 ^ 8)) by lia.
    rewrite !Z.mod_pow2_bits_high, Z.ones_spec_high by lia. done.
Qed.

Lemma xor_block_cancel a b : length a = length b → xor_block (xor_block a b) b = a.
Proof.
  revert b. induction a as [|x a IH]; intros [|y b]; simpl; intros; try done.
  f_equal; [apply byte_xor_cancel|apply IH; lia].
Qed.

Lemma length_xor_block a b : length a = length b → length (xor_block a b) = length a.
Proof. intros. unfold xor_block. rewrite length_zip_with. lia. Qed.

(** Lists of 16-byte blocks. *)
Abbreviation block_list := (Forall (λ b : bytes, length b = aesBlockSize)).

Lemma length_mjoin_blocks (bs : list bytes) :
  block_list bs → length (mjoin bs) = length bs * aesBlockSize.
Proof. induction 1 as [|b bs Hb _ IH]; simpl; [done|]. rewrite length_app, IH. unfold aesBlockSize in *. lia. Qed.

Lemma blocks_mjoin (bs : list bytes) : block_list bs → blocks (mjoin bs) = bs.
Proof.
  intros Hbs. unfold blocks. rewrite length_mjoin_blocks, Nat.div_mul by done.
  induction Hbs as [|b bs Hb _ IH]; simpl; [done|].
  rewrite take_app_length', drop_app_length' by done. by rewrite IH.
Qed.

(** Every byte string of aligned length is the join of its blocks. *)
Lemma blocks_spec (src : bytes) :
  length src mod aesBlockSize = 0 → block_list (blocks src) ∧ mjoin (blocks src) = src.
Proof.
  intros Hal. unfold blocks. pose proof (Nat.div_mod_eq (length src) aesBlockSize) as Hdm.
  remember (length src / aesBlockSize) as k eqn:Hk. clear Hk.
  rewrite Hal, Nat.add_0_r in Hdm. clear Hal. unfold aesBlockSize in *.
  revert src Hdm. induction k as [|k IH]; simpl; intros src Hlen.
  - split; [constructor|]. by destruct src.
  - destruct (IH (drop 16 src)) as [Hf Hj]; [len|]. split.
    + constructor; [len|done].
    + rewrite Hj. apply take_drop.
Qed.

Section CBC.
Context `{RatchetCryptoLaws} (key : bytes).

Lemma cbc_encrypt_blocks prev bs :
  length prev = 16 → block_list bs →
  block_list (cbc_encrypt key prev bs) ∧ length (cbc_encrypt key prev bs) = length bs.
Proof.
  intros Hprev Hbs. revert prev Hprev.
  induction Hbs as [|b bs Hb _ IH]; simpl; intros prev Hprev; [done|].
  unfold aesBlockSize in *.
  assert (length (aes_encrypt key (xor_block b prev)) = 16).
  { apply aes_encrypt_length. rewrite length_xor_block; lia. }
  destruct (IH (aes_encrypt key (xor_block b prev))) as [Hf Hl]; [done|].
  split; [by constructor|lia].
Qed.

Lemma cbc_decrypt_encrypt prev bs :
  length key = 32 → length prev = 16 → block_list bs →
  cbc_decrypt key prev (cbc_encrypt key prev bs) = bs.
Proof.
  intros Hkey Hprev Hbs. revert prev Hprev.
  induction Hbs as [|b bs Hb _ IH]; simpl; intros prev Hprev; [done|].
  unfold aesBlockSize in *. rewrite aes_decrypt_encrypt; [|done|rewrite length_xor_block; lia].
  rewrite xor_block_cancel by lia. f_equal. apply IH.
  apply aes_encrypt_length. rewrite length_xor_block; lia.
Qed.
End CBC.

(** ** Lemmas on the key derivations and on encryption *)

(** The per-message parameters derived from a message key. *)
Definition enc_key `{RatchetCrypto} (msgKey : bytes) : bytes :=
  hkdf_sha256 msgKey (replicate sha256Size Byte.x00) [Byte.x03] 0 32.
Definition auth_key `{RatchetCrypto} (msgKey : bytes) : bytes :=
  hkdf_sha256 msgKey (replicate sha256Size Byte.x00) [Byte.x03] 32 32.
Definition enc_iv `{RatchetCrypto} (msgKey : bytes) : bytes :=
  hkdf_sha256 msgKey (replicate sha256Size Byte.x00) [Byte.x03] 64 aesBlockSize.

Section EncryptLemmas.
Context `{RatchetCryptoLaws}.

Lemma chainKdf_ok ck :
  length ck = 32 → chainKdf ck = Ok (hmac_sha256 ck [Byte.x00], hmac_sha256 ck [Byte.x01]).
Proof. intros Hck. unfold chainKdf. by rewrite Hck. Qed.

Lemma chainKdf_inv ck p :
  chainKdf ck = Ok p → length ck = 32 ∧ p = (hmac_sha256 ck [Byte.x00], hmac_sha256 ck [Byte.x01]).
Proof. unfold chainKdf. destruct (Nat.eqb_spec (length ck) 32); by intros; simplify_eq/=. Qed.

Lemma rootKdf_ok rk s :
  length rk = 32 → ∃ rk' ck, rootKdf rk s = Ok (rk', ck) ∧ length rk' = 32 ∧ length ck = 32.
Proof.
  intros Hrk. unfold rootKdf. rewrite Hrk. simpl.
  do 2 eexists. split_and!; [done|apply hkdf_sha256_length..].
Qed.

Lemma rootKdf_inv rk s rk' ck :
  rootKdf rk s = Ok (rk', ck) → length rk = 32 ∧ length rk' = 32 ∧ length ck = 32.
Proof.
  unfold rootKdf. destruct (Nat.eqb_spec (length rk) 32); intros; simplify_eq/=.
  by rewrite !hkdf_sha256_length.
Qed.

Lemma dh_agree pubA privA pubB privB :
  dh_pair pubA privA → dh_pair pubB privB →
  ∃ s, dh privA pubB = Ok s ∧ dh privB pubA = Ok s.
Proof.
  intros HA HB. destruct (x25519_agree _ _ _ _ HA HB) as (s & _ & E1 & E2).
  destruct HA as (LA & LA' & _), HB as (LB & LB' & _). exists s. unfold dh.
  by rewrite LA, LA', LB, LB', E1, E2.
Qed.

Lemma dhKeyPair_ok (e : entropy) :
  32 <= length e →
  ∃ pub, dhKeyPair e = (pub, take 32 e, None, drop 32 e) ∧ dh_pair pub (take 32 e).
Proof.
  intros He. destruct (x25519_public (take 32 e)) as [pub Hpair]; [len|].
  exists pub. split; [|done]. unfold dhKeyPair. rewrite rand_read_ok by done.
  destruct Hpair as (_ & _ & E). by rewrite E.
Qed.

Lemma encryptParams_ok mk :
  length mk = 32 → encryptParams mk = Ok (enc_key mk, auth_key mk, enc_iv mk).
Proof. intros Hmk. unfold encryptParams. by rewrite Hmk. Qed.

Lemma aes_newCipher_ok mk : aes_newCipher (enc_key mk) = Ok (enc_key mk).
Proof.
  unfold aes_newCipher, enc_key. rewrite hkdf_sha256_length.
  rewrite bool_decide_eq_true_2; [done|]. do 2 right. left.
Qed.

(** The CBC body of the ciphertext of [pt]. *)
Definition cbc_body (mk padded : bytes) : bytes :=
  mjoin (cbc_encrypt (enc_key mk) (enc_iv mk) (blocks padded)).

Lemma enc_iv_length mk : length (enc_iv mk) = 16.
Proof. apply hkdf_sha256_length. Qed.

Lemma cbc_crypt_ok crypt mk src :
  length src mod 16 = 0 →
  cbc_crypt crypt (enc_key mk) (enc_iv mk) src = Ok (mjoin (crypt (enc_key mk) (enc_iv mk) (blocks src))).
Proof.
  intros Hal. unfold cbc_crypt.
  rewrite !bool_decide_eq_true_2 by (done || apply enc_iv_length). done.
Qed.

Lemma padded_aligned pt padded :
  pkcs7Pad pt 16 = Ok padded → length padded mod 16 = 0 ∧ length pt < length padded.
Proof.
  rewrite pkcs7Pad_eq by lia. intros [= <-].
  pose proof (pad_len_range (blen pt) 16 ltac:(unfold blen; lia) ltac:(lia)).
  pose proof (pad_len_aligned (blen pt) 16 ltac:(unfold blen; lia) ltac:(lia)) as Hal.
  rewrite Z.rem_mod_nonneg in Hal by (unfold blen in *; lia).
  rewrite length_app, length_replicate. unfold blen in *. split; [|lia].
  apply Nat2Z.inj. rewrite Nat2Z.inj_mod, Nat2Z.inj_add, Z2Nat.id by lia. done.
Qed.

Lemma cbc_body_spec mk padded :
  length padded mod 16 = 0 →
  length (cbc_body mk padded) = length padded ∧
  block_list (cbc_encrypt (enc_key mk) (enc_iv mk) (blocks padded)).
Proof.
  intros Hal. destruct (blocks_spec padded Hal) as [Hb Hj].
  destruct (cbc_encrypt_blocks (enc_key mk) (enc_iv mk) (blocks padded)) as [Hf Hl];
    [apply enc_iv_length|done|]. split; [|done].
  unfold cbc_body. rewrite length_mjoin_blocks, Hl by done.
  by rewrite <-length_mjoin_blocks, Hj.
Qed.

(** What [encrypt] produces: the CBC body, then a tag that depends on the
    message key and the associated data only. *)
Lemma encrypt_eq mk pt ad :
  length mk = 32 →
  ∃ padded, pkcs7Pad pt 16 = Ok padded ∧
    encrypt mk pt ad = Ok (cbc_body mk padded ++ hmac_sha256 (auth_key mk) ad).
Proof.
  intros Hmk. destruct (pkcs7Pad pt 16) as [padded| |] eqn:Hpad;
    [|rewrite pkcs7Pad_eq in Hpad by lia; done..].
  exists padded. split; [done|]. unfold encrypt. rewrite encryptParams_ok by done.
  unfold mbind, result_bind. change (Z.of_nat aesBlockSize) with 16%Z.
  rewrite Hpad, aes_newCipher_ok, cbc_crypt_ok by (by eapply padded_aligned). done.
Qed.

(** What [decrypt] does with an aligned body followed by the right tag. *)
Lemma decrypt_body mk body ad :
  length mk = 32 → length body mod 16 = 0 →
  decrypt mk (body ++ hmac_sha256 (auth_key mk) ad) ad =
    pkcs7Unpad (mjoin (cbc_decrypt (enc_key mk) (enc_iv mk) (blocks body))) 16.
Proof.
  intros Hmk Hal. unfold decrypt. rewrite encryptParams_ok by done.
  unfold mbind, result_bind. rewrite aes_newCipher_ok.
  assert (blen (body ++ hmac_sha256 (auth_key mk) ad) - Z.of_nat sha256Size = blen body)%Z as ->.
  { unfold blen. rewrite length_app, hmac_sha256_length. unfold sha256Size. lia. }
  destruct (Z.ltb_spec (blen body) 0) as [|_]; [unfold blen in *; lia|].
  rewrite slice_to_ok by (unfold blen; len).
  replace (Z.to_nat (blen body)) with (length body) by (unfold blen; lia). rewrite take_app_length.
  change aesBlockSize with 16. rewrite Hal. simpl Nat.eqb. cbv [negb].
  rewrite cbc_crypt_ok by done. change (Z.of_nat 16) with 16%Z.
  destruct (pkcs7Unpad _ 16) as [s| |]; [|done..].
  rewrite slice_from_ok by (unfold blen; len). unfold blen. rewrite Nat2Z.id, drop_app_length.
  by rewrite bool_decide_eq_true_2.
Qed.

Lemma decrypt_encrypt mk pt ad :
  length mk = 32 →
  ∃ c, encrypt mk pt ad = Ok c ∧ length pt + 32 < length c ∧
  ∃ spare, decrypt mk c ad = Ok (GSlice pt spare) ∧ 16 <= length (pt ++ spare).
Proof.
  intros Hmk. destruct (encrypt_eq mk pt ad Hmk) as (padded & Hpad & He).
  destruct (padded_aligned pt padded Hpad) as [Hal Hlt].
  destruct (cbc_body_spec mk padded Hal) as [Hlen Hbl].
  destruct (blocks_spec padded Hal) as [Hb Hj].
  eexists. split; [done|]. split; [rewrite length_app, hmac_sha256_length; lia|].
  rewrite decrypt_body by (done || by rewrite Hlen).
  unfold cbc_body. rewrite blocks_mjoin, cbc_decrypt_encrypt, Hj
    by (done || apply hkdf_sha256_length).
  apply pkcs7Unpad_Pad in Hpad as (padding & Hun & Hp); [|lia].
  exists padding. split; [done|]. rewrite <-Hp.
  pose proof (Nat.div_mod_eq (length padded) 16). lia.
Qed.

(** Replacing the first cipher block leaves everything behind the second
    plaintext block as it was. *)
Lemma cbc_tamper key iv b1 b2 bs forged :
  length key = 32 → length iv = 16 → length b1 = 16 → length b2 = 16 → block_list bs →
  length forged = 16 →
  ∃ c1 cs p1 p2, cbc_encrypt key iv (b1 :: b2 :: bs) = c1 :: cs ∧ length c1 = 16 ∧
    block_list (forged :: cs) ∧
    cbc_decrypt key iv (forged :: cs) = p1 :: p2 :: bs ∧ length p1 = 16 ∧ length p2 = 16.
Proof.
  intros Hkey Hiv Hb1 Hb2 Hbs Hf. simpl. set (c1 := aes_encrypt key (xor_block b1 iv)).
  set (c2 := aes_encrypt key (xor_block b2 c1)).
  assert (Hc1 : length c1 = 16) by (apply aes_encrypt_length; rewrite length_xor_block; lia).
  assert (Hc2 : length c2 = 16) by (apply aes_encrypt_length; rewrite length_xor_block; lia).
  do 4 eexists. split; [done|]. split; [done|]. split.
  { constructor; [done|]. constructor; [done|]. by apply cbc_encrypt_blocks. }
  split; [simpl; by rewrite cbc_decrypt_encrypt|].
  split; rewrite length_xor_block; by rewrite !aes_decrypt_length.
Qed.

Lemma blocks_two (padded : bytes) :
  length padded mod 16 = 0 → 32 <= length padded →
  ∃ b1 b2 bs, blocks padded = b1 :: b2 :: bs ∧ length b1 = 16 ∧ length b2 = 16 ∧
    block_list bs ∧ drop 32 padded = mjoin bs.
Proof.
  intros Hal Hlen. destruct (blocks_spec padded Hal) as [Hbl Hj].
  pose proof (length_mjoin_blocks _ Hbl) as Hl. rewrite Hj in Hl. unfold aesBlockSize in *.
  destruct (blocks padded) as [|b1 [|b2 bs]]; simpl in Hl; [lia..|].
  apply Forall_cons in Hbl as [Hb1 Hbl]. apply Forall_cons in Hbl as [Hb2 Hbl].
  exists b1, b2, bs. split_and!; try done. rewrite <-Hj. simpl.
  rewrite app_assoc. apply drop_app_length'. len.
Qed.

(** The padding check only looks at the end of the padded text. *)
Lemma pkcs7Unpad_new_prefix pt padded pre :
  pkcs7Pad pt 16 = Ok padded → 32 <= length pt → length pre = 32 →
  ∃ s, pkcs7Unpad (pre ++ drop 32 padded) 16 = Ok s ∧ sl s = pre ++ drop 32 pt.
Proof.
  intros Hpad Hpt Hpre. rewrite pkcs7Pad_eq in Hpad by lia. injection Hpad as <-.
  rewrite drop_app_le, app_assoc by done.
  assert (blen (pre ++ drop 32 pt) = blen pt) as Hlen by (unfold blen; len).
  eexists. rewrite <-Hlen. split; [apply pkcs7Unpad_app|done].
  - lia.
  - apply pad_len_range; unfold blen; lia.
  - apply pad_len_aligned; unfold blen; lia.
Qed.
End EncryptLemmas.

(** ** Properties *)

Section PrimitiveProperties.
Context `{RatchetCryptoLaws}.

(** C21. ENCRYPT followed by DECRYPT under the same message key and associated
    data gives the plaintext back; a message key of any other length than 32
    bytes is refused by both. *)
Theorem encrypt_decrypt_roundtrip (msgKey plaintext ad : bytes) :
  (length msgKey = 32 →
     ∃ c spare, encrypt msgKey plaintext ad = Ok c ∧ decrypt msgKey c ad = Ok (GSlice plaintext spare)) ∧
  (length msgKey ≠ 32 →
     ∀ c, encrypt msgKey plaintext ad = Err (Errorf "message key MUST be of 32 bytes") ∧
          decrypt msgKey c ad = Err (Errorf "message key MUST be of 32 bytes")).
Proof.
  split.
  - intros Hmk. destruct (decrypt_encrypt msgKey plaintext ad Hmk) as (c & He & _ & spare & Hd & _).
    eauto.
  - intros Hmk c. unfold encrypt, decrypt, encryptParams.
    by rewrite (proj2 (Nat.eqb_neq _ _) Hmk).
Qed.

(** Neither function panics, whatever the key and the ciphertext are. *)
Theorem encrypt_decrypt_no_panic (msgKey data ad : bytes) :
  encrypt msgKey data ad ≠ Panic ∧ decrypt msgKey data ad ≠ Panic.
Proof.
  destruct (decide (length msgKey = 32)) as [Hmk|Hmk].
  2:{ unfold encrypt, decrypt, encryptParams. by rewrite (proj2 (Nat.eqb_neq _ _) Hmk). }
  split; [by destruct (encrypt_eq msgKey data ad Hmk) as (? & _ & ->)|].
  unfold decrypt. rewrite encryptParams_ok by done. unfold mbind, result_bind.
  rewrite aes_newCipher_ok. change (Z.of_nat sha256Size) with 32%Z. case_test; [done|].
  rewrite slice_to_ok by (unfold blen in *; lia).
  set (body := take _ data). change aesBlockSize with 16.
  destruct (Nat.eqb_spec (length body mod 16) 0) as [Hal|]; [|done]. simpl.
  rewrite cbc_crypt_ok by done.
  destruct (pkcs7Unpad _ _) as [s| |] eqn:Hun; [|done|by apply pkcs7_no_panic in Hun].
  rewrite slice_from_ok by (unfold body, blen in *; len). by case_bool_decide.
Qed.

(** C35. The HMAC covers the associated data but not the ciphertext: in the
    encryption of a plaintext of at least 32 bytes the first AES block can be
    replaced by any other block, and [decrypt] still accepts the message. Only
    the first two blocks of the plaintext change. *)
Theorem decrypt_accepts_forged_block (msgKey plaintext ad c forged : bytes)
  (Hmk : length msgKey = 32) (Hpt : 32 <= length plaintext)
  (Henc : encrypt msgKey plaintext ad = Ok c) (Hf : length forged = 16) :
  ∃ s, decrypt msgKey (forged ++ drop 16 c) ad = Ok s ∧
       length (sl s) = length plaintext ∧ drop 32 (sl s) = drop 32 plaintext.
Proof.
  destruct (encrypt_eq msgKey plaintext ad Hmk) as (padded & Hpad & He).
  rewrite He in Henc. injection Henc as <-.
  destruct (padded_aligned _ _ Hpad) as [Hal Hlt].
  destruct (blocks_two padded) as (b1 & b2 & bs & Hb & Hb1 & Hb2 & Hbs & Hj); [done|lia|].
  destruct (cbc_tamper (enc_key msgKey) (enc_iv msgKey) b1 b2 bs forged)
    as (c1 & cs & p1 & p2 & Hcs & Hc1 & Hfb & Hdec & Hp1 & Hp2);
    [apply hkdf_sha256_length..|done|done|done|done|].
  unfold cbc_body. rewrite Hb, Hcs. change (mjoin (c1 :: cs)) with (c1 ++ mjoin cs).
  rewrite <-app_assoc, drop_app_length' by done. rewrite app_assoc.
  change (forged ++ mjoin cs) with (mjoin (forged :: cs)).
  rewrite decrypt_body by (done || (rewrite length_mjoin_blocks by done; apply Nat.Div0.mod_mul)).
  rewrite blocks_mjoin, Hdec by done.
  change (mjoin (p1 :: p2 :: bs)) with (p1 ++ p2 ++ mjoin bs).
  rewrite app_assoc, <-Hj.
  destruct (pkcs7Unpad_new_prefix plaintext padded (p1 ++ p2)) as (s & Hun & Hs); [done|done|len|].
  exists s. rewrite Hs, drop_app_length' by len. split_and!; [done|len|done].
Qed.
End PrimitiveProperties.

(** ** Concrete runs *)

#[local] Existing Instances toy_ratchet_crypto toy_ratchet_laws.

Lemma encrypt_decrypt_roundtrip_witness :
  ∃ c spare, encrypt (zeros 32) (str "attack at dawn") (str "ad") = Ok c ∧
             decrypt (zeros 32) c (str "ad") = Ok (GSlice (str "attack at dawn") spare).
Proof. apply encrypt_decrypt_roundtrip. reflexivity. Defined.

Lemma decrypt_accepts_forged_block_witness :
  ∃ c s, encrypt (zeros 32) (str "pay 0000000100 euro to the account of bob") (str "ad") = Ok c ∧
    decrypt (zeros 32) (zeros 16 ++ drop 16 c) (str "ad") = Ok s ∧
    length (sl s) = 41 ∧ drop 32 (sl s) = str "nt of bob".
Proof.
  eexists. destruct (decrypt_accepts_forged_block (zeros 32)
    (str "pay 0000000100 euro to the account of bob") (str "ad") _ (zeros 16)
    ltac:(reflexivity) ltac:(simpl; lia) eq_refl ltac:(reflexivity)) as (s & H1 & H2 & H3).
  exists s. split; [reflexivity|]. split; [exact H1|]. split; [exact H2|exact H3].
Defined.
