(* ===== verification/KeyBuff.v ===== *)
(** * The buffer of skipped message keys (src/doubleratchet/key_buff.go)

    A ring of [maxSkipChains] slots; each used slot points to the message keys
    of one chain, keyed by the sender's DH public key. *)

From Stdlib Require Import ZArith Lia.
From stdpp Require Import base list numbers option strings gmap.
From S2P Require Import Prelude.

Local Open Scope Z_scope.

(** [maxSkipChains] and [maxSkipElements] *)
Definition maxSkipChains : nat := 8.
Definition maxSkipElements : Z := 32.

(** [keyBufferElement] *)
Record keyBufferElement := KeyBufferElement {
  kbe_dhPub : bytes;
  kbe_msgKeys : gmap Z bytes;
}.

(** ** [container/ring]

    A ring is the list of its values from the current element forwards. *)
Abbreviation ring A := (list (option A)).

(** [ring.New(n)], [r.Prev()] and the assignment to [r.Value] *)
Definition ring_new {A} (n : nat) : ring A := replicate n None.

Definition ring_prev {A} (r : ring A) : ring A :=
  match reverse r with
  | [] => []
  | v :: rest => v :: reverse rest
  end.

Definition ring_set_value {A} (v : A) (r : ring A) : ring A :=
  match r with
  | [] => []
  | _ :: rest => Some v :: rest
  end.

(** [keyBuffer] *)
Record keyBuffer := KeyBuffer { kb_buff : ring keyBufferElement }.

(** [newKeyBuffer] *)
Definition newKeyBuffer : keyBuffer := KeyBuffer (ring_new maxSkipChains).

(** The closure that [elementFind] passes to [Do]: every slot is visited in
    order and a match overwrites the result. A [*keyBufferElement] is the
    number of the slot that holds it. *)
Definition slot_matches (dhPub : bytes) (e : option keyBufferElement) : bool :=
  match e with
  | None => false
  | Some kbe => bool_decide (dhPub = kbe_dhPub kbe)
  end.

Fixpoint find_slot (dhPub : bytes) (i : nat) (kbe : option nat) (r : ring keyBufferElement) : option nat :=
  match r with
  | [] => kbe
  | e :: rest => find_slot dhPub (S i) (if slot_matches dhPub e then Some i else kbe) rest
  end.

(** [keyBuffer.elementFind] *)
Definition elementFind (kb : keyBuffer) (dhPub : bytes) : option nat :=
  find_slot dhPub 0 None (kb_buff kb).

(** [keyBuffer.elementAdd]: the buffer and the slot of the new element *)
Definition elementAdd (kb : keyBuffer) (dhPub : bytes) : keyBuffer * nat :=
  let kbe := {| kbe_dhPub := dhPub; kbe_msgKeys := ∅ |} in
  (KeyBuffer (ring_set_value kbe (ring_prev (kb_buff kb))), 0%nat).

(** The element a slot number refers to. *)
Definition element_at (kb : keyBuffer) (slot : nat) : option keyBufferElement :=
  mjoin (kb_buff kb !! slot).

(** [keyBuffer.find] *)
Definition find (kb : keyBuffer) (dhPub : bytes) (msgNo : Z) : result bytes :=
  match elementFind kb dhPub with
  | None => Err (Errorf "public key is not cached")
  | Some slot =>
      match element_at kb slot ≫= λ kbe, kbe_msgKeys kbe !! msgNo with
      | Some msgKey => Ok msgKey
      | None => Err (Errorf "message number is not cached")
      end
  end.

(** [kbe.msgKeys[msgNo] = msgKey] through the pointer [slot] *)
Definition element_store (kb : keyBuffer) (slot : nat) (msgNo : Z) (msgKey : bytes) : keyBuffer :=
  let store kbe := {| kbe_dhPub := kbe_dhPub kbe;
                      kbe_msgKeys := <[msgNo := msgKey]> (kbe_msgKeys kbe) |} in
  KeyBuffer (alter (fmap store) slot (kb_buff kb)).

(** [keyBuffer.insert] *)
Definition insert (kb : keyBuffer) (dhPub : bytes) (msgNo : Z) (msgKey : bytes) : keyBuffer :=
  match elementFind kb dhPub with
  | Some slot => element_store kb slot msgNo msgKey
  | None => let '(kb', slot) := elementAdd kb dhPub in element_store kb' slot msgNo msgKey
  end.

(** ** The abstract buffer

    What the ring implements: the cached chains, the most recently added first,
    at most [maxSkipChains] of them, no public key twice. *)
Module Spec.
Abbreviation chains := (list keyBufferElement).

Definition lookup (dhPub : bytes) (msgNo : Z) (cs : chains) : option bytes :=
  '(_, kbe) ← list_find (λ kbe, dhPub = kbe_dhPub kbe) cs; kbe_msgKeys kbe !! msgNo.

Definition known (dhPub : bytes) (cs : chains) : Prop := dhPub ∈ (kbe_dhPub <$> cs).

#[global] Instance known_dec dhPub cs : Decision (known dhPub cs).
Proof. unfold known. apply _. Defined.

Definition put (msgNo : Z) (msgKey : bytes) (kbe : keyBufferElement) : keyBufferElement :=
  {| kbe_dhPub := kbe_dhPub kbe; kbe_msgKeys := <[msgNo := msgKey]> (kbe_msgKeys kbe) |}.

Definition store (dhPub : bytes) (msgNo : Z) (msgKey : bytes) (cs : chains) : chains :=
  match list_find (λ kbe, dhPub = kbe_dhPub kbe) cs with
  | Some (j, _) => alter (put msgNo msgKey) j cs
  | None => take maxSkipChains
              ({| kbe_dhPub := dhPub; kbe_msgKeys := {[msgNo := msgKey]} |} :: cs)
  end.
End Spec.

(** The ring holds the chains in front and unused slots behind them. *)
Definition kb_repr (kb : keyBuffer) (cs : Spec.chains) : Prop :=
  kb_buff kb = (Some <$> cs) ++ replicate (maxSkipChains - length cs) None ∧
  (length cs <= maxSkipChains)%nat ∧ NoDup (kbe_dhPub <$> cs).

(** The slots in use *)
Lemma used_slots kb cs : kb_repr kb cs → omap id (kb_buff kb) = cs.
Proof.
  intros (Hb & _ & _). rewrite Hb, omap_app.
  replace (omap id (replicate _ None)) with (@nil keyBufferElement).
  - rewrite app_nil_r. clear Hb. induction cs as [|c cs IH]; [done|]. rewrite fmap_cons. simpl. by f_equal.
  - generalize (maxSkipChains - length cs)%nat. intros n. by induction n.
Qed.

(** Nothing is cached but keys of the chain [p]. *)
Definition only (p : bytes) (kb : keyBuffer) : Prop :=
  ∃ cs, kb_repr kb cs ∧ ∀ q, Spec.known q cs → q = p.

Lemma only_repr p kb cs : kb_repr kb cs → only p kb → ∀ q, Spec.known q cs → q = p.
Proof. intros Hr (cs' & Hr' & Hq). by rewrite <-(used_slots _ _ Hr), (used_slots _ _ Hr'). Qed.

(** ** Lemmas on slots *)

Lemma find_slot_app_false p i acc (r1 r2 : ring keyBufferElement) :
  Forall (λ e, slot_matches p e = false) r2 → find_slot p i acc (r1 ++ r2) = find_slot p i acc r1.
Proof.
  revert i acc. induction r1 as [|e r1 IH]; simpl; intros i acc Hf; [|by apply IH].
  revert i. induction Hf as [|e r2 He _ IH]; intros i; simpl; [done|]. by rewrite He.
Qed.

Lemma ring_prev_snoc {A} (r : ring A) v : ring_prev (r ++ [v]) = v :: r.
Proof. unfold ring_prev. by rewrite reverse_snoc, reverse_involutive. Qed.

(** ** The ring implements the abstract buffer *)

(** With every public key in one slot only, the last match is the first one. *)
Lemma find_slot_chains p i acc (cs : Spec.chains) :
  NoDup (kbe_dhPub <$> cs) →
  find_slot p i acc (Some <$> cs) =
    match list_find (λ kbe, p = kbe_dhPub kbe) cs with
    | Some (j, _) => Some (i + j)%nat
    | None => acc
    end.
Proof.
  revert i acc. induction cs as [|e cs IH]; intros i acc Hnd; [done|].
  rewrite fmap_cons in Hnd. apply NoDup_cons in Hnd as [Hni Hnd]. simpl.
  rewrite IH by done. case_bool_decide as Hp; simpl.
  - rewrite decide_True by done. simpl. rewrite Nat.add_0_r.
    destruct (list_find _ cs) as [[j e']|] eqn:Hf; [|done].
    apply list_find_Some in Hf as (Hj & He' & _). exfalso. apply Hni. rewrite <-Hp, He'.
    apply list_elem_of_fmap. exists e'. split; [done|]. by eapply list_elem_of_lookup_2.
  - rewrite decide_False by done. destruct (list_find _ cs) as [[j e']|]; simpl; [|done].
    f_equal. lia.
Qed.

Lemma elementFind_repr kb cs p :
  kb_repr kb cs → elementFind kb p = fst <$> list_find (λ kbe, p = kbe_dhPub kbe) cs.
Proof.
  intros (Hb & _ & Hnd). unfold elementFind. rewrite Hb, find_slot_app_false.
  - rewrite find_slot_chains by done. by destruct (list_find _ cs) as [[]|].
  - by apply Forall_replicate.
Qed.

Lemma element_at_repr kb cs j kbe :
  kb_repr kb cs → cs !! j = Some kbe → element_at kb j = Some kbe.
Proof.
  intros (Hb & _ & _) Hj. unfold element_at. rewrite Hb, lookup_app_l.
  - by rewrite list_lookup_fmap, Hj.
  - rewrite length_fmap. by eapply lookup_lt_Some.
Qed.

Lemma newKeyBuffer_repr : kb_repr newKeyBuffer [].
Proof. split_and!; [done|simpl; lia|constructor]. Qed.

Lemma find_repr kb cs p n :
  kb_repr kb cs →
  find kb p n =
    match Spec.lookup p n cs with
    | Some k => Ok k
    | None => Err (Errorf (if decide (Spec.known p cs) then "message number is not cached"
                           else "public key is not cached"))
    end.
Proof.
  intros Hr. unfold find, Spec.lookup. rewrite (elementFind_repr _ _ _ Hr).
  destruct (list_find _ cs) as [[j kbe]|] eqn:Hf; simpl.
  - apply list_find_Some in Hf as (Hj & Hp & _). rewrite (element_at_repr _ _ _ _ Hr Hj). simpl.
    destruct (kbe_msgKeys kbe !! n); [done|]. rewrite decide_True; [done|].
    unfold Spec.known. rewrite Hp. apply list_elem_of_fmap. exists kbe. split; [done|].
    by eapply list_elem_of_lookup_2.
  - rewrite decide_False; [done|]. apply list_find_None in Hf. unfold Spec.known.
    rewrite list_elem_of_fmap. intros (kbe & Hp & Hin). rewrite Forall_forall in Hf.
    by apply (Hf kbe).
Qed.

Lemma put_pubs n k j (cs : Spec.chains) : kbe_dhPub <$> alter (Spec.put n k) j cs = kbe_dhPub <$> cs.
Proof.
  apply list_eq. intros i. rewrite !list_lookup_fmap, list_lookup_alter.
  case_decide; [subst|done]. by destruct (cs !! i).
Qed.

Lemma alter_fmap_Some {A} (f : A → A) j (l : list A) (k : list (option A)) :
  (j < length l)%nat → alter (fmap f) j ((Some <$> l) ++ k) = (Some <$> alter f j l) ++ k.
Proof.
  intros Hj. rewrite alter_app_l by (by rewrite length_fmap). f_equal.
  apply list_eq. intros i. rewrite list_lookup_alter, !list_lookup_fmap, list_lookup_alter.
  case_decide; [subst|done]. by destruct (l !! i).
Qed.

(** The ring after the oldest slot was given up. *)
Lemma repr_evict kb cs :
  kb_repr kb cs →
  ∃ v, kb_buff kb = ((Some <$> take 7 cs) ++ replicate (7 - length cs) None) ++ [v].
Proof.
  intros (Hb & Hlen & _). unfold maxSkipChains in *. rewrite Hb.
  destruct (decide (length cs = 8%nat)) as [H8|H8].
  - destruct (lookup_lt_is_Some_2 cs 7) as [e He]; [lia|].
    rewrite H8. simpl. rewrite !app_nil_r. exists (Some e).
    rewrite <-(take_drop_middle cs 7 e) at 1 by done. rewrite drop_ge by lia.
    by rewrite fmap_app.
  - exists None. rewrite take_ge by lia. rewrite <-app_assoc. f_equal.
    replace (8 - length cs)%nat with (7 - length cs + 1)%nat by lia. by rewrite replicate_add.
Qed.

Lemma insert_repr kb cs p n k :
  kb_repr kb cs → kb_repr (insert kb p n k) (Spec.store p n k cs).
Proof.
  intros Hr. pose proof Hr as (Hb & Hlen & Hnd). unfold insert, Spec.store.
  rewrite (elementFind_repr _ _ _ Hr). destruct (list_find _ cs) as [[j kbe]|] eqn:Hf; simpl.
  - apply list_find_Some in Hf as (Hj & _ & _). apply lookup_lt_Some in Hj.
    unfold element_store, kb_repr; simpl. rewrite put_pubs, length_alter, Hb.
    split_and!; [by apply alter_fmap_Some|done|done].
  - destruct (repr_evict kb cs Hr) as [v Hv]. rewrite Hv, ring_prev_snoc.
    apply list_find_None in Hf. unfold element_store, kb_repr, maxSkipChains in *. simpl.
    rewrite insert_empty. split_and!.
    + do 2 f_equal. f_equal. len.
    + len.
    + constructor.
      * rewrite list_elem_of_fmap. intros (kbe & Hp & Hin). rewrite Forall_forall in Hf.
        apply elem_of_take in Hin as (i & Hi & _).
        apply (Hf kbe); [by eapply list_elem_of_lookup_2|done].
      * rewrite <-(take_drop 7 cs), fmap_app in Hnd. by apply NoDup_app in Hnd as [Hnd _].
Qed.

(** ** Laws of the abstract buffer *)

Lemma lookup_cons p m e cs :
  Spec.lookup p m (e :: cs) =
    if decide (p = kbe_dhPub e) then kbe_msgKeys e !! m else Spec.lookup p m cs.
Proof.
  unfold Spec.lookup. simpl. destruct (decide (p = kbe_dhPub e)); [done|].
  by destruct (list_find _ cs) as [[]|].
Qed.

Lemma lookup_unknown p m cs : ¬ Spec.known p cs → Spec.lookup p m cs = None.
Proof.
  unfold Spec.known. induction cs as [|e cs IH]; [done|]. rewrite lookup_cons, fmap_cons, not_elem_of_cons.
  intros [Hp Hn]. rewrite decide_False by done. by apply IH.
Qed.

Lemma list_find_unknown p cs : list_find (λ kbe, p = kbe_dhPub kbe) cs = None ↔ ¬ Spec.known p cs.
Proof.
  unfold Spec.known. induction cs as [|e cs IH]; simpl.
  - split; [intros _; apply not_elem_of_nil|done].
  - rewrite not_elem_of_cons, <-IH. case_decide; [naive_solver|].
    rewrite fmap_None. naive_solver.
Qed.

(** Storing under a public key that is already there touches that chain only. *)
Lemma lookup_put p q m n k cs j e :
  list_find (λ kbe, q = kbe_dhPub kbe) cs = Some (j, e) →
  Spec.lookup p m (alter (Spec.put n k) j cs) =
    if decide (p = q ∧ m = n) then Some k else Spec.lookup p m cs.
Proof.
  revert j. induction cs as [|e' cs IH]; intros j; simpl; [done|].
  destruct (decide (q = kbe_dhPub e')) as [Hq|Hq]; intros Hf.
  - simplify_eq. change (alter (Spec.put n k) 0%nat (e :: cs)) with (Spec.put n k e :: cs).
    rewrite !lookup_cons. simpl. destruct (decide (p = kbe_dhPub e)).
    + rewrite lookup_insert. repeat case_decide; naive_solver.
    + rewrite decide_False by naive_solver. done.
  - apply fmap_Some in Hf as ([j' e''] & Hf & ?). simplify_eq/=.
    change (alter (Spec.put n k) (S j') (e' :: cs)) with (e' :: alter (Spec.put n k) j' cs).
    rewrite !lookup_cons. destruct (decide (p = kbe_dhPub e')); [|by apply IH].
    rewrite decide_False by naive_solver. done.
Qed.

Lemma lookup_take_mono p m i cs k : Spec.lookup p m (take i cs) = Some k → Spec.lookup p m cs = Some k.
Proof.
  revert i. induction cs as [|e cs IH]; intros [|i]; try done.
  rewrite firstn_cons, !lookup_cons. case_decide; [done|apply IH].
Qed.

Lemma lookup_store_same p n k m cs :
  Spec.lookup p m (Spec.store p n k cs) = if decide (m = n) then Some k else Spec.lookup p m cs.
Proof.
  unfold Spec.store. destruct (list_find _ cs) as [[j e]|] eqn:Hf.
  - rewrite (lookup_put _ _ _ _ _ _ _ _ Hf). repeat case_decide; naive_solver.
  - unfold maxSkipChains. rewrite firstn_cons, lookup_cons, decide_True by done. simpl.
    apply list_find_unknown in Hf. rewrite lookup_singleton, (lookup_unknown p m cs) by done.
    repeat case_decide; naive_solver.
Qed.

Lemma lookup_store_other p q n k m k' cs :
  p ≠ q → Spec.lookup p m (Spec.store q n k cs) = Some k' → Spec.lookup p m cs = Some k'.
Proof.
  intros Hpq. unfold Spec.store. destruct (list_find _ cs) as [[j e]|] eqn:Hf.
  - rewrite (lookup_put _ _ _ _ _ _ _ _ Hf), decide_False by naive_solver. done.
  - unfold maxSkipChains. rewrite firstn_cons, lookup_cons, decide_False by done.
    apply lookup_take_mono.
Qed.

Lemma lookup_store_room p q n k m cs :
  p ≠ q → Spec.known q cs ∨ (length cs < maxSkipChains)%nat →
  Spec.lookup p m (Spec.store q n k cs) = Spec.lookup p m cs.
Proof.
  intros Hpq Hroom. unfold Spec.store. destruct (list_find _ cs) as [[j e]|] eqn:Hf.
  - by rewrite (lookup_put _ _ _ _ _ _ _ _ Hf), decide_False by naive_solver.
  - apply list_find_unknown in Hf. destruct Hroom as [|Hlt]; [done|].
    rewrite take_ge by (simpl; lia). by rewrite lookup_cons, decide_False.
Qed.

Lemma known_store p q n k cs : Spec.known p (Spec.store q n k cs) → p = q ∨ Spec.known p cs.
Proof.
  unfold Spec.store. destruct (list_find _ cs) as [[j e]|].
  - unfold Spec.known. rewrite put_pubs. by right.
  - unfold Spec.known, maxSkipChains. rewrite firstn_cons, fmap_cons, elem_of_cons.
    intros [->|Hin]; [by left|right]. apply list_elem_of_fmap in Hin as (e & -> & He).
    apply elem_of_take in He as (i & Hi & _). apply list_elem_of_fmap.
    exists e. split; [done|by eapply list_elem_of_lookup_2].
Qed.

(** ** Properties *)

(** C17. The ring buffer refines the abstract buffer: a new buffer is the empty
    list of chains, [find] is lookup, and [insert] stores into the chain of its
    public key or adds a chain in front, giving up the oldest of eight. *)
Theorem keyBuffer_refines :
  kb_repr newKeyBuffer [] ∧
  ∀ kb cs, kb_repr kb cs →
    (∀ p n k, kb_repr (insert kb p n k) (Spec.store p n k cs)) ∧
    (∀ p n k, find kb p n = Ok k ↔ Spec.lookup p n cs = Some k) ∧
    (∀ p n, find kb p n ≠ Panic).
Proof.
  split; [apply newKeyBuffer_repr|]. intros kb cs Hr.
  split_and!; [by intros; apply insert_repr|intros p n k|intros p n];
    rewrite (find_repr _ _ _ _ Hr); destruct (Spec.lookup p n cs); naive_solver.
Qed.

Lemma keyBuffer_refines_witness :
  kb_repr (insert newKeyBuffer (str "pub") 3 (str "key"))
          [{| kbe_dhPub := str "pub"; kbe_msgKeys := {[3 := str "key"]} |}].
Proof.
  apply (proj1 (proj2 keyBuffer_refines newKeyBuffer [] (proj1 keyBuffer_refines))).
Defined.

(** What was inserted is found, the other message keys of that chain are
    kept, and the other chains are kept while a slot is free. *)
Theorem find_after_insert (kb : keyBuffer) (cs : Spec.chains) (p q : bytes) (n m : Z) (k : bytes)
  (Hr : kb_repr kb cs) (Hroom : q = p ∨ Spec.known p cs ∨ (length cs < maxSkipChains)%nat) :
  find (insert kb p n k) p n = Ok k ∧
  ((q, m) ≠ (p, n) → ∀ k', find (insert kb p n k) q m = Ok k' ↔ find kb q m = Ok k').
Proof.
  rewrite !(find_repr _ _ _ _ (insert_repr _ _ p n k Hr)), !(find_repr _ _ _ _ Hr).
  rewrite lookup_store_same, decide_True by done. split; [done|]. intros Hne k'.
  destruct (decide (q = p)) as [->|Hqp].
  - rewrite lookup_store_same, decide_False by congruence. by destruct (Spec.lookup p m cs).
  - rewrite lookup_store_room by (naive_solver). by destruct (Spec.lookup q m cs).
Qed.

