(* ===== verification/DhRatchet.v ===== *)
(** * The Diffie-Hellman ratchet (src/doubleratchet/dh_ratchet.go)

    The ratchet with its linked root chain. Every function gives its results
    next to its error, as the Go functions do: what was assigned before an error
    return stays assigned. *)

From Stdlib Require Import ZArith Lia.
From stdpp Require Import base list option strings.
From S2P Require Import Prelude Crypto Primitives.

(** [dhRatchet] *)
Record dhRatchet := DhRatchet {
  dhr_rootKey : bytes;
  dhr_dhPub : bytes;
  dhr_dhPriv : bytes;
  dhr_peerDhPub : bytes;
  dhr_isActive : bool;
  dhr_isInitialized : bool;
}.

Definition dhr_set_rootKey (k : bytes) (r : dhRatchet) : dhRatchet :=
  DhRatchet k (dhr_dhPub r) (dhr_dhPriv r) (dhr_peerDhPub r) (dhr_isActive r) (dhr_isInitialized r).
Definition dhr_set_pair (pub priv : bytes) (r : dhRatchet) : dhRatchet :=
  DhRatchet (dhr_rootKey r) pub priv (dhr_peerDhPub r) (dhr_isActive r) (dhr_isInitialized r).
Definition dhr_set_peerDhPub (p : bytes) (r : dhRatchet) : dhRatchet :=
  DhRatchet (dhr_rootKey r) (dhr_dhPub r) (dhr_dhPriv r) p (dhr_isActive r) (dhr_isInitialized r).
Definition dhr_set_isInitialized (b : bool) (r : dhRatchet) : dhRatchet :=
  DhRatchet (dhr_rootKey r) (dhr_dhPub r) (dhr_dhPriv r) (dhr_peerDhPub r) (dhr_isActive r) b.

(** The four results of [step]; the two chain keys are nil until assigned. *)
Record step_result := StepResult {
  sr_dhPub : bytes;
  sr_sendKey : option bytes;
  sr_recvKey : option bytes;
  sr_err : option error;
}.

(** An error of a callee, as the caller's [err] variable. *)
Definition panic_error : error := Errorf "panic".

Definition as_error {A} (r : result A) : error :=
  match r with Err e => e | _ => panic_error end.

Section DhRatchet.
Context `{RatchetCrypto}.

(** [dhRatchetActive] *)
Definition dhRatchetActive (rootKey peerDhPub : bytes) (e : entropy)
    : dhRatchet * option error * entropy :=
  let '(dhPub, dhPriv, err, e') := dhKeyPair e in
  (DhRatchet rootKey dhPub dhPriv peerDhPub true false, err, e').

(** [dhRatchetPassive] *)
Definition dhRatchetPassive (rootKey dhPub dhPriv : bytes) : dhRatchet :=
  DhRatchet rootKey dhPub dhPriv [] false false.

(** [r.rootKey, key, err = rootKdf(r.rootKey, dhOut)], nil on error. *)
Definition rootStep (r : dhRatchet) (dhOut : bytes) : option bytes * option error * dhRatchet :=
  match rootKdf (dhr_rootKey r) dhOut with
  | Ok (rk, ck) => (Some ck, None, dhr_set_rootKey rk r)
  | err => (None, Some (as_error err), dhr_set_rootKey [] r)
  end.

(** [dhRatchet.step] *)
Definition step (peerDhPub : bytes) (r : dhRatchet) (e : entropy)
    : step_result * dhRatchet * entropy :=
  if dhr_isActive r && negb (dhr_isInitialized r) then
    let dhPub := dhr_dhPub r in
    match dh (dhr_dhPriv r) (dhr_peerDhPub r) with
    | Ok secret =>
        match rootStep r secret with
        | (sendKey, Some err, r1) => (StepResult dhPub sendKey None (Some err), r1, e)
        | (sendKey, None, r1) => (StepResult dhPub sendKey None None, dhr_set_isInitialized true r1, e)
        end
    | err => (StepResult dhPub None None (Some (as_error err)), r, e)
    end
  else
    let r1 := dhr_set_peerDhPub peerDhPub r in
    match dh (dhr_dhPriv r1) (dhr_peerDhPub r1) with
    | Ok secret =>
        match rootStep r1 secret with
        | (recvKey, Some err, r2) => (StepResult [] None recvKey (Some err), r2, e)
        | (recvKey, None, r2) =>
            let '(newPub, newPriv, kerr, e') := dhKeyPair e in
            let r3 := dhr_set_pair newPub newPriv r2 in
            match kerr with
            | Some _ => (StepResult [] None recvKey kerr, r3, e')
            | None =>
                let dhPub := dhr_dhPub r3 in
                match dh (dhr_dhPriv r3) (dhr_peerDhPub r3) with
                | Ok secret' =>
                    let '(sendKey, err, r4) := rootStep r3 secret' in
                    (StepResult dhPub sendKey recvKey err, r4, e')
                | err => (StepResult dhPub None recvKey (Some (as_error err)), r3, e')
                end
            end
        end
    | err => (StepResult [] None None (Some (as_error err)), r1, e)
    end.
End DhRatchet.

(** ** Lemmas *)

Section DhRatchetLemmas.
Context `{RatchetCryptoLaws}.

Lemma rootStep_ok r s rk ck :
  rootKdf (dhr_rootKey r) s = Ok (rk, ck) → rootStep r s = (Some ck, None, dhr_set_rootKey rk r).
Proof. intros Hr. unfold rootStep. by rewrite Hr. Qed.

(** The active party's first step. *)
Lemma step_initial r p e secret rk ck :
  dhr_isActive r = true → dhr_isInitialized r = false →
  dh (dhr_dhPriv r) (dhr_peerDhPub r) = Ok secret →
  rootKdf (dhr_rootKey r) secret = Ok (rk, ck) →
  step p r e = (StepResult (dhr_dhPub r) (Some ck) None None,
                dhr_set_isInitialized true (dhr_set_rootKey rk r), e).
Proof.
  intros Ha Hi Hd Hr. unfold step. rewrite Ha, Hi, Hd. simpl. by rewrite (rootStep_ok _ _ _ _ Hr).
Qed.

(** Any later step: receive under the old key pair, send under a new one. *)
Lemma step_regular r peer priv_peer e s_recv rk1 ck_recv :
  dhr_isActive r && negb (dhr_isInitialized r) = false →
  dh_pair (dhr_dhPub r) (dhr_dhPriv r) → dh_pair peer priv_peer →
  dh priv_peer (dhr_dhPub r) = Ok s_recv →
  rootKdf (dhr_rootKey r) s_recv = Ok (rk1, ck_recv) →
  32 <= length e →
  ∃ pub secret rk2 ck_send,
    dhKeyPair e = (pub, take 32 e, None, drop 32 e) ∧ dh_pair pub (take 32 e) ∧
    dh (take 32 e) peer = Ok secret ∧ rootKdf rk1 secret = Ok (rk2, ck_send) ∧
    step peer r e =
      (StepResult pub (Some ck_send) (Some ck_recv) None,
       DhRatchet rk2 pub (take 32 e) peer (dhr_isActive r) (dhr_isInitialized r), drop 32 e).
Proof.
  intros Hinit Hpair Hpeer Hrecv Hroot He.
  destruct (dh_agree _ _ _ _ Hpair Hpeer) as (s & Hd & Hd').
  rewrite Hrecv in Hd'. injection Hd' as <-.
  destruct (dhKeyPair_ok e He) as (pub & Hkp & Hnew).
  destruct (dh_agree _ _ _ _ Hnew Hpeer) as (s' & Hs' & _).
  pose proof (rootKdf_inv _ _ _ _ Hroot) as (_ & Hrk1 & _).
  destruct (rootKdf_ok rk1 s' Hrk1) as (rk2 & ck2 & Hroot2 & _ & _).
  exists pub, s', rk2, ck2. split_and!; try done.
  unfold step. rewrite Hinit. simpl. rewrite Hd.
  rewrite (rootStep_ok _ _ rk1 ck_recv) by done. rewrite Hkp. simpl. rewrite Hs'.
  by rewrite (rootStep_ok _ _ rk2 ck2).
Qed.
End DhRatchetLemmas.
