(* ===== verification/DoubleRatchet.v ===== *)
(** * The Double Ratchet (src/doubleratchet/doubleratchet.go)

    The state of one party and its operations. A call runs on the pair of the
    object and the random tape. *)

From Stdlib Require Import ZArith Lia.
From stdpp Require Import base list numbers option strings gmap.
From S2P Require Import Prelude Crypto ToyCrypto MsgHeader Pkcs7 Primitives KeyBuff DhRatchet.

Local Open Scope Z_scope.

(** [DoubleRatchet]; the two chain keys are tested against nil by the code. *)
Record DoubleRatchet := mkDoubleRatchet {
  dr_associatedData : bytes;
  dr_dhr : dhRatchet;
  dr_peerDhPub : bytes;
  dr_chainKeySend : option bytes;
  dr_chainKeyRecv : option bytes;
  dr_sendNo : Z;
  dr_recvNo : Z;
  dr_prevSendNo : Z;
  dr_msgKeyBuffer : keyBuffer;
}.

Definition set_peerDhPub (p : bytes) (d : DoubleRatchet) : DoubleRatchet :=
  mkDoubleRatchet (dr_associatedData d) (dr_dhr d) p (dr_chainKeySend d) (dr_chainKeyRecv d)
    (dr_sendNo d) (dr_recvNo d) (dr_prevSendNo d) (dr_msgKeyBuffer d).
Definition set_chainKeySend (k : option bytes) (d : DoubleRatchet) : DoubleRatchet :=
  mkDoubleRatchet (dr_associatedData d) (dr_dhr d) (dr_peerDhPub d) k (dr_chainKeyRecv d)
    (dr_sendNo d) (dr_recvNo d) (dr_prevSendNo d) (dr_msgKeyBuffer d).
Definition set_chainKeyRecv (k : option bytes) (d : DoubleRatchet) : DoubleRatchet :=
  mkDoubleRatchet (dr_associatedData d) (dr_dhr d) (dr_peerDhPub d) (dr_chainKeySend d) k
    (dr_sendNo d) (dr_recvNo d) (dr_prevSendNo d) (dr_msgKeyBuffer d).
Definition set_sendNo (n : Z) (d : DoubleRatchet) : DoubleRatchet :=
  mkDoubleRatchet (dr_associatedData d) (dr_dhr d) (dr_peerDhPub d) (dr_chainKeySend d)
    (dr_chainKeyRecv d) n (dr_recvNo d) (dr_prevSendNo d) (dr_msgKeyBuffer d).
Definition set_recvNo (n : Z) (d : DoubleRatchet) : DoubleRatchet :=
  mkDoubleRatchet (dr_associatedData d) (dr_dhr d) (dr_peerDhPub d) (dr_chainKeySend d)
    (dr_chainKeyRecv d) (dr_sendNo d) n (dr_prevSendNo d) (dr_msgKeyBuffer d).
Definition set_prevSendNo (n : Z) (d : DoubleRatchet) : DoubleRatchet :=
  mkDoubleRatchet (dr_associatedData d) (dr_dhr d) (dr_peerDhPub d) (dr_chainKeySend d)
    (dr_chainKeyRecv d) (dr_sendNo d) (dr_recvNo d) n (dr_msgKeyBuffer d).
Definition set_msgKeyBuffer (kb : keyBuffer) (d : DoubleRatchet) : DoubleRatchet :=
  mkDoubleRatchet (dr_associatedData d) (dr_dhr d) (dr_peerDhPub d) (dr_chainKeySend d)
    (dr_chainKeyRecv d) (dr_sendNo d) (dr_recvNo d) (dr_prevSendNo d) kb.

(** An object together with the random tape. *)
Abbreviation drst := (DoubleRatchet * entropy)%type.

Definition update (f : DoubleRatchet → DoubleRatchet) : ST drst unit :=
  modify (λ '(d, e), (f d, e)).

Section DoubleRatchet.
Context `{RatchetCrypto}.

(** [CreateActive] *)
Definition CreateActive (sessKey associatedData peerDhPub : bytes) (e : entropy)
    : result DoubleRatchet * entropy :=
  let '(dhr, err, e') := dhRatchetActive sessKey peerDhPub e in
  match err with
  | Some er => (Err er, e')
  | None =>
      (Ok {| dr_associatedData := associatedData; dr_dhr := dhr; dr_peerDhPub := peerDhPub;
             dr_chainKeySend := None; dr_chainKeyRecv := None;
             dr_sendNo := 0; dr_recvNo := 0; dr_prevSendNo := 0;
             dr_msgKeyBuffer := newKeyBuffer |}, e')
  end.

(** [CreatePassive] *)
Definition CreatePassive (sessKey associatedData dhPub dhPriv : bytes) : result DoubleRatchet :=
  let dhr := dhRatchetPassive sessKey dhPub dhPriv in
  Ok {| dr_associatedData := associatedData; dr_dhr := dhr; dr_peerDhPub := [];
        dr_chainKeySend := None; dr_chainKeyRecv := None;
        dr_sendNo := 0; dr_recvNo := 0; dr_prevSendNo := 0;
        dr_msgKeyBuffer := newKeyBuffer |}.

(** [DoubleRatchet.dhStep]: both chain keys are assigned, on error too. *)
Definition dhStep : ST drst unit := λ '(d, e),
  let '(res, dhr', e') := step (dr_peerDhPub d) (dr_dhr d) e in
  let d' := {| dr_associatedData := dr_associatedData d; dr_dhr := dhr';
               dr_peerDhPub := dr_peerDhPub d;
               dr_chainKeySend := sr_sendKey res; dr_chainKeyRecv := sr_recvKey res;
               dr_sendNo := 0; dr_recvNo := 0; dr_prevSendNo := dr_sendNo d;
               dr_msgKeyBuffer := dr_msgKeyBuffer d |} in
  (match sr_err res with None => Ok tt | Some er => Err er end, (d', e')).

(** [dr.chainKeySend, msgKey, err = chainKdf(dr.chainKeySend)] and the return
    on error, which leaves a nil chain key behind. *)
Definition kdfSend : ST drst bytes := λ '(d, e),
  match chainKdf (default [] (dr_chainKeySend d)) with
  | Ok (ck, msgKey) => (Ok msgKey, (set_chainKeySend (Some ck) d, e))
  | Err er => (Err er, (set_chainKeySend None d, e))
  | Panic => (Panic, (d, e))
  end.

(** The same for the receiving chain. *)
Definition kdfRecv : ST drst bytes := λ '(d, e),
  match chainKdf (default [] (dr_chainKeyRecv d)) with
  | Ok (ck, msgKey) => (Ok msgKey, (set_chainKeyRecv (Some ck) d, e))
  | Err er => (Err er, (set_chainKeyRecv None d, e))
  | Panic => (Panic, (d, e))
  end.

(** [DoubleRatchet.Encrypt] *)
Definition Encrypt (plaintext : bytes) : ST drst bytes :=
  d0 ← gets fst;
  _ ← match dr_chainKeySend d0 with None => dhStep | Some _ => mret tt end;
  msgKey ← kdfSend;
  d ← gets fst;
  let h := {| h_dhPub := dhr_dhPub (dr_dhr d);
              h_prevNo := dr_prevSendNo d;
              h_msgNo := dr_sendNo d |} in
  _ ← update (λ d, set_sendNo (int64 (dr_sendNo d + 1)) d);
  hData ← lift (marshal h);
  ciphertext ← lift (encrypt msgKey plaintext (dr_associatedData d));
  mret (hData ++ ciphertext).

(** The loop of [skipMsgKeys]; [fuel] bounds the number of iterations. *)
Fixpoint skipLoop (fuel : nat) (until : Z) : ST drst unit :=
  match fuel with
  | O => mret tt
  | S fuel' =>
      d ← gets fst;
      if dr_recvNo d <? until then
        msgKey ← kdfRecv;
        _ ← update (λ d, set_msgKeyBuffer
               (insert (dr_msgKeyBuffer d) (dr_peerDhPub d) (dr_recvNo d) msgKey) d);
        _ ← update (λ d, set_recvNo (int64 (dr_recvNo d + 1)) d);
        skipLoop fuel' until
      else mret tt
  end.

(** [DoubleRatchet.skipMsgKeys] *)
Definition skipMsgKeys (until : Z) : ST drst unit :=
  d ← gets fst;
  if int64 (dr_recvNo d + maxSkipElements) <? until
  then throw (Errorf "cannot skip until %d, maximum is %d")
  else
    match dr_chainKeyRecv d with
    | None => mret tt
    | Some _ => skipLoop (Z.to_nat (until - dr_recvNo d)) until
    end.

(** The first half of [Decrypt]: follow the peer to a new public key. *)
Definition followRatchet (h : header) : ST drst unit :=
  d ← gets fst;
  if negb (bool_decide (h_dhPub h = dr_peerDhPub d)) then
    _ ← skipMsgKeys (h_prevNo h);
    _ ← update (set_peerDhPub (h_dhPub h));
    dhStep
  else mret tt.

(** The switch of [Decrypt]: the message key from the buffer, or from the
    receiving chain after skipping to the message (the second case falls
    through to the third). *)
Definition messageKey (h : header) : ST drst bytes :=
  d ← gets fst;
  if h_msgNo h <? dr_recvNo d then
    lift (find (dr_msgKeyBuffer d) (h_dhPub h) (h_msgNo h))
  else
    _ ← (if h_msgNo h >? dr_recvNo d then skipMsgKeys (h_msgNo h) else mret tt);
    msgKey ← kdfRecv;
    _ ← update (λ d, set_recvNo (int64 (dr_recvNo d + 1)) d);
    mret msgKey.

(** [DoubleRatchet.Decrypt] *)
Definition Decrypt (ciphertext : bytes) : ST drst gslice :=
  if blen ciphertext <=? headerLen
  then throw (Errorf "ciphertext is too short")
  else
    h ← lift (parseHeader (take (Z.to_nat headerLen) ciphertext));
    _ ← followRatchet h;
    msgKey ← messageKey h;
    d ← gets fst;
    lift (decrypt msgKey (drop (Z.to_nat headerLen) ciphertext) (dr_associatedData d)).
End DoubleRatchet.

(** ** Symmetric chains

    The chain key after [n] derivations from [CK], and the message key of
    message [n]. *)
Section Chains.
Context `{RatchetCrypto}.

Definition ck_at (CK : bytes) (n : Z) : bytes :=
  Nat.iter (Z.to_nat n) (λ ck, hmac_sha256 ck [Byte.x00]) CK.

Definition mk_at (CK : bytes) (n : Z) : bytes := hmac_sha256 (ck_at CK n) [Byte.x01].

(** The cached chains after the message keys of [cnt] messages from number
    [from] on were stored under the public key [p]. *)
Fixpoint store_range (p CK : bytes) (from : Z) (cnt : nat) (cs : Spec.chains) : Spec.chains :=
  match cnt with
  | O => cs
  | S cnt' => store_range p CK (from + 1) cnt' (Spec.store p from (mk_at CK from) cs)
  end.

(** The ciphertext of message [n] of the chain [CK]. *)
Definition chain_msg (CK ad pub : bytes) (prevNo n : Z) (pt ct : bytes) : Prop :=
  header_wf (Header pub prevNo n) ∧
  ∃ hData body, marshal (Header pub prevNo n) = Ok hData ∧
    encrypt (mk_at CK n) pt ad = Ok body ∧ ct = hData ++ body.
End Chains.

Section ChainLemmas.
Context `{RatchetCryptoLaws}.

Lemma ck_at_succ CK n : 0 <= n → hmac_sha256 (ck_at CK n) [Byte.x00] = ck_at CK (n + 1).
Proof. intros Hn. unfold ck_at. replace (Z.to_nat (n + 1)) with (S (Z.to_nat n)) by lia. done. Qed.

Lemma ck_at_length CK n : length CK = 32%nat → length (ck_at CK n) = 32%nat.
Proof.
  intros HCK. unfold ck_at. destruct (Z.to_nat n); [done|]. simpl. apply hmac_sha256_length.
Qed.

Lemma mk_at_length CK n : length (mk_at CK n) = 32%nat.
Proof. apply hmac_sha256_length. Qed.

Lemma kdfRecv_chain CK n d e :
  length CK = 32%nat → 0 <= n → dr_chainKeyRecv d = Some (ck_at CK n) →
  kdfRecv (d, e) = (Ok (mk_at CK n), (set_chainKeyRecv (Some (ck_at CK (n + 1))) d, e)).
Proof.
  intros HCK Hn Hd. unfold kdfRecv. rewrite Hd. simpl default.
  by rewrite chainKdf_ok, ck_at_succ by auto using ck_at_length.
Qed.

Lemma kdfSend_chain CK n d e :
  length CK = 32%nat → 0 <= n → dr_chainKeySend d = Some (ck_at CK n) →
  kdfSend (d, e) = (Ok (mk_at CK n), (set_chainKeySend (Some (ck_at CK (n + 1))) d, e)).
Proof.
  intros HCK Hn Hd. unfold kdfSend. rewrite Hd. simpl default.
  by rewrite chainKdf_ok, ck_at_succ by auto using ck_at_length.
Qed.

Lemma lookup_store_range p CK from cnt m cs :
  Spec.lookup p m (store_range p CK from cnt cs) =
    if decide (from <= m < from + Z.of_nat cnt) then Some (mk_at CK m) else Spec.lookup p m cs.
Proof.
  revert from cs. induction cnt as [|cnt IH]; intros from cs; simpl store_range.
  - by rewrite decide_False by lia.
  - rewrite IH, lookup_store_same.
    repeat case_decide; try lia; try done. by subst.
Qed.

Lemma known_store_range p q CK from cnt cs :
  Spec.known q (store_range p CK from cnt cs) → q = p ∨ Spec.known q cs.
Proof.
  revert from cs. induction cnt as [|cnt IH]; intros from cs; simpl; [by right|].
  intros [->|Hk]%IH; [by left|]. by apply known_store in Hk.
Qed.

(** What a receiving object looks like after its chain advanced to [n]. *)
Definition advanced (CK : bytes) (n : Z) (kb : keyBuffer) (d : DoubleRatchet) : DoubleRatchet :=
  set_recvNo n (set_chainKeyRecv (Some (ck_at CK n)) (set_msgKeyBuffer kb d)).

(** The receiving chain is [CK], advanced to [recvNo]. *)
Definition recv_chain (CK : bytes) (d : DoubleRatchet) : Prop :=
  length CK = 32%nat ∧ 0 <= dr_recvNo d <= 2 ^ 16 ∧
  dr_chainKeyRecv d = Some (ck_at CK (dr_recvNo d)).

Lemma advanced_recv_chain CK n kb d :
  length CK = 32%nat → 0 <= n <= 2 ^ 16 → recv_chain CK (advanced CK n kb d).
Proof. intros. split_and!; simpl; done || lia. Qed.

(** The loop runs until the message number is reached, given its fuel. *)
Lemma skipLoop_chain CK fuel until d e cs :
  recv_chain CK d → until = dr_recvNo d + Z.of_nat fuel → until <= 2 ^ 16 →
  kb_repr (dr_msgKeyBuffer d) cs →
  ∃ kb', kb_repr kb' (store_range (dr_peerDhPub d) CK (dr_recvNo d) fuel cs) ∧
    skipLoop fuel until (d, e) = (Ok tt, (advanced CK until kb' d, e)).
Proof.
  revert d cs. induction fuel as [|fuel IH]; intros d cs (HCK & Hr & Hck) Hu Hmax Hkb.
  { exists (dr_msgKeyBuffer d). split; [done|]. rewrite Nat2Z.inj_0, Z.add_0_r in Hu. subst until.
    destruct d; simpl in *. unfold advanced; simpl. by rewrite Hck. }
  cbn [skipLoop store_range]. st_pure.
  destruct (Z.ltb_spec (dr_recvNo d) until); [|lia].
  st_call (kdfRecv_chain CK (dr_recvNo d) d e HCK ltac:(lia) Hck).
  st_pure. st_pure. simpl.
  rewrite int64_id by (unfold int64_range; lia).
  match goal with |- context [skipLoop fuel until (?d', e)] =>
    destruct (IH d' (Spec.store (dr_peerDhPub d) (dr_recvNo d) (mk_at CK (dr_recvNo d)) cs))
      as (kb' & Hkb' & Hloop) end.
  - split_and!; simpl; [done|lia|lia|done].
  - simpl. lia.
  - done.
  - by apply insert_repr.
  - exists kb'. split; [done|]. by rewrite Hloop.
Qed.

Lemma skipMsgKeys_chain CK until d e cs :
  recv_chain CK d → dr_recvNo d <= until <= dr_recvNo d + maxSkipElements → until <= 2 ^ 16 →
  kb_repr (dr_msgKeyBuffer d) cs →
  ∃ kb', kb_repr kb' (store_range (dr_peerDhPub d) CK (dr_recvNo d)
                        (Z.to_nat (until - dr_recvNo d)) cs) ∧
    skipMsgKeys until (d, e) = (Ok tt, (advanced CK until kb' d, e)).
Proof.
  intros Hrc Hu Hmax Hkb. pose proof Hrc as (HCK & Hr & Hck). unfold maxSkipElements in *.
  unfold skipMsgKeys. st_pure.
  rewrite int64_id by (unfold int64_range, maxSkipElements; lia).
  destruct (Z.ltb_spec (dr_recvNo d + maxSkipElements) until) as [Hlt|_];
    [unfold maxSkipElements in Hlt; lia|].
  rewrite Hck. apply skipLoop_chain; try done. lia.
Qed.

(** Skipping does nothing before there is a receiving chain, and behind the
    current message number. *)
Lemma skipMsgKeys_noop until d e :
  0 <= dr_recvNo d <= 2 ^ 16 →
  (dr_chainKeyRecv d = None ∧ until <= dr_recvNo d + maxSkipElements) ∨ until <= dr_recvNo d →
  skipMsgKeys until (d, e) = (Ok tt, (d, e)).
Proof.
  intros Hr Hc. unfold skipMsgKeys. st_pure. unfold maxSkipElements in *.
  rewrite int64_id by (unfold int64_range; lia).
  destruct (Z.ltb_spec (dr_recvNo d + 32) until); [lia|].
  destruct (dr_chainKeyRecv d) as [ck|] eqn:Hck; [|done].
  destruct Hc as [[? _]|Hle]; [done|]. replace (Z.to_nat (until - dr_recvNo d)) with 0%nat by lia. done.
Qed.

(** The message key of a message that lies ahead, at most
    [maxSkipElements] messages away. *)
Lemma messageKey_ahead CK h d e cs :
  recv_chain CK d → dr_recvNo d <= h_msgNo h <= dr_recvNo d + maxSkipElements →
  h_msgNo h < 2 ^ 16 → kb_repr (dr_msgKeyBuffer d) cs →
  ∃ kb', kb_repr kb' (store_range (dr_peerDhPub d) CK (dr_recvNo d)
                        (Z.to_nat (h_msgNo h - dr_recvNo d)) cs) ∧
    messageKey h (d, e) = (Ok (mk_at CK (h_msgNo h)), (advanced CK (h_msgNo h + 1) kb' d, e)) ∧
    (h_msgNo h = dr_recvNo d → kb' = dr_msgKeyBuffer d).
Proof.
  intros Hrc Hn Hmax Hkb. pose proof Hrc as (HCK & Hr & Hck).
  destruct (skipMsgKeys_chain CK (h_msgNo h) d e cs) as (kb' & Hkb' & Hskip); [done..|lia|done|].
  exists kb'. split; [done|]. split.
  2:{ intros Heq. rewrite (skipMsgKeys_noop (h_msgNo h)) in Hskip by (lia || by right).
      injection Hskip as Hd. apply (f_equal dr_msgKeyBuffer) in Hd. by simpl in Hd. }
  unfold messageKey. st_pure.
  destruct (Z.ltb_spec (h_msgNo h) (dr_recvNo d)); [lia|].
  assert ((if h_msgNo h >? dr_recvNo d then skipMsgKeys (h_msgNo h) else mret tt) (d, e)
          = (Ok tt, (advanced CK (h_msgNo h) kb' d, e))) as Hjump.
  { destruct (Z.gtb_spec (h_msgNo h) (dr_recvNo d)) as [|Hle]; [done|].
    rewrite <-Hskip. symmetry. apply skipMsgKeys_noop; [lia|by right]. }
  st_call Hjump.
  st_call (kdfRecv_chain CK (h_msgNo h) (advanced CK (h_msgNo h) kb' d) e HCK ltac:(lia) eq_refl).
  st_pure. simpl. rewrite int64_id by (unfold int64_range; lia). done.
Qed.

Lemma messageKey_cached h d e k :
  h_msgNo h < dr_recvNo d → find (dr_msgKeyBuffer d) (h_dhPub h) (h_msgNo h) = Ok k →
  messageKey h (d, e) = (Ok k, (d, e)).
Proof.
  intros Hn Hf. unfold messageKey. st_pure. destruct (Z.ltb_spec (h_msgNo h) (dr_recvNo d)); [|lia].
  unfold lift. by rewrite Hf.
Qed.

Lemma followRatchet_same h d e :
  h_dhPub h = dr_peerDhPub d → followRatchet h (d, e) = (Ok tt, (d, e)).
Proof. intros Hp. unfold followRatchet. st_pure. by rewrite bool_decide_eq_true_2. Qed.

(** What [Decrypt] reads from the header of such a message. *)
Lemma chain_msg_header CK ad pub prevNo n pt ct :
  chain_msg CK ad pub prevNo n pt ct →
  headerLen < blen ct ∧ parseHeader (take (Z.to_nat headerLen) ct) = Ok (Header pub prevNo n).
Proof.
  intros (Hwf & hData & body & Hm & Henc & ->).
  destruct (decrypt_encrypt (mk_at CK n) pt ad (mk_at_length CK n)) as (c & Henc' & Hbody & _).
  rewrite Henc in Henc'. injection Henc' as <-. pose proof (marshal_length _ _ Hm) as Hlen.
  rewrite take_app_length' by done. split; [unfold blen, headerLen in *; len|by apply marshal_parse].
Qed.

(** The frame of [Decrypt] around the two halves. *)
Lemma Decrypt_chain_msg CK ad pub prevNo n pt ct d e d1 d2 e1 e2 :
  chain_msg CK ad pub prevNo n pt ct →
  followRatchet (Header pub prevNo n) (d, e) = (Ok tt, (d1, e1)) →
  messageKey (Header pub prevNo n) (d1, e1) = (Ok (mk_at CK n), (d2, e2)) →
  dr_associatedData d2 = ad →
  ∃ spare, Decrypt ct (d, e) = (Ok (GSlice pt spare), (d2, e2)) ∧ (16 <= length (pt ++ spare))%nat.
Proof.
  intros (Hwf & hData & body & Hm & Henc & ->) Hfollow Hkey Had.
  destruct (decrypt_encrypt (mk_at CK n) pt ad (mk_at_length CK n))
    as (c & Henc' & Hlen & spare & Hdec & Hcap).
  rewrite Henc in Henc'. injection Henc' as <-. exists spare. split; [|done].
  pose proof (marshal_length _ _ Hm) as Hhl.
  pose proof (marshal_parse _ _ Hwf Hm) as Hp.
  unfold Decrypt. destruct (Z.leb_spec (blen (hData ++ body)) headerLen) as [Hle|_].
  { unfold blen, headerLen in *. len. }
  rewrite take_app_length', drop_app_length' by done.
  unfold lift at 1. erewrite ST_bind_Ok by (by rewrite Hp).
  st_call Hfollow. st_call Hkey. st_pure. unfold lift. by rewrite Had, Hdec.
Qed.

(** The sending chain is [CK], advanced to [sendNo]. *)
Definition send_chain (CK : bytes) (d : DoubleRatchet) : Prop :=
  length CK = 32%nat ∧ 0 <= dr_sendNo d ∧
  dr_chainKeySend d = Some (ck_at CK (dr_sendNo d)).

Definition own_header (d : DoubleRatchet) : header :=
  Header (dhr_dhPub (dr_dhr d)) (dr_prevSendNo d) (dr_sendNo d).

(** What [Encrypt] leaves behind once a sending chain exists. *)
Definition sent (CK : bytes) (d : DoubleRatchet) : DoubleRatchet :=
  set_sendNo (dr_sendNo d + 1) (set_chainKeySend (Some (ck_at CK (dr_sendNo d + 1))) d).

(** A ciphertext is not empty. *)
Lemma Encrypt_nonempty pt s ct s' : Encrypt pt s = (Ok ct, s') → ct ≠ [].
Proof.
  unfold Encrypt. intros Henc.
  apply ST_bind_inv in Henc as (? & ? & _ & Henc). apply ST_bind_inv in Henc as (? & ? & _ & Henc).
  apply ST_bind_inv in Henc as (? & ? & _ & Henc). apply ST_bind_inv in Henc as (? & ? & _ & Henc).
  apply ST_bind_inv in Henc as (? & ? & _ & Henc). apply ST_bind_inv in Henc as (hData & ? & Hm & Henc).
  apply ST_bind_inv in Henc as (body & ? & _ & [= <- _]).
  injection Hm as Hm _. apply marshal_length in Hm. intros Hnil. apply (f_equal length) in Hnil.
  rewrite length_app, Hm in Hnil. done.
Qed.

Lemma Encrypt_chain CK pt d e :
  send_chain CK d → header_wf (own_header d) →
  ∃ ct, chain_msg CK (dr_associatedData d) (dhr_dhPub (dr_dhr d)) (dr_prevSendNo d) (dr_sendNo d) pt ct ∧
    Encrypt pt (d, e) = (Ok ct, (sent CK d, e)).
Proof.
  intros (HCK & Hn & Hck) Hwf. pose proof Hwf as (_ & _ & Hmax). simpl in Hmax.
  destruct (decrypt_encrypt (mk_at CK (dr_sendNo d)) pt (dr_associatedData d))
    as (body & Henc & _); [apply mk_at_length|].
  pose proof (marshal_ok _ Hwf) as Hm. unfold own_header in Hm.
  eexists. split; [by split; [|do 2 eexists; split_and!]|].
  unfold Encrypt. st_pure. rewrite Hck. st_pure.
  st_call (kdfSend_chain CK (dr_sendNo d) d e HCK Hn Hck). st_pure. st_pure.
  unfold lift. simpl. rewrite int64_id by (unfold int64_range; lia).
  erewrite ST_bind_Ok by (by rewrite Hm). erewrite ST_bind_Ok by (by rewrite Henc). done.
Qed.
End ChainLemmas.
