(* ===== verification/RatchetSync.v ===== *)
(** * Two parties in conversation

    The two Double Ratchets of an active and a passive party, the messages in
    flight between them, and the invariant that ties the two states together.
    The transition system only runs [Encrypt] and [Decrypt]; the network may
    lose messages, delay them and reorder them, and a party may be stored and
    restored between two calls. *)

From Stdlib Require Import ZArith Lia.
From stdpp Require Import base list numbers option strings gmap.
From S2P Require Import Prelude Crypto ToyCrypto MsgHeader Pkcs7 Primitives KeyBuff DhRatchet DoubleRatchet.

Local Open Scope Z_scope.

(** ** The system *)

(** A ciphertext with what its header says and the plaintext that went in. *)
Record msg := Msg { m_pub : bytes; m_prev : Z; m_no : Z; m_pt : bytes; m_ct : bytes }.

(** A party: its object and random tape, the messages it has sent, the numbers
    it has decrypted in the current receiving chain, and the public keys it has
    had so far. The last three are bookkeeping; the code does not see them. *)
Record party := Party {
  p_dr : DoubleRatchet;
  p_ent : entropy;
  p_out : list msg;
  p_seen : list Z;
  p_used : list bytes;
}.

Abbreviation dr_pub d := (dhr_dhPub (dr_dhr d)).
Abbreviation dr_priv d := (dhr_dhPriv (dr_dhr d)).
Abbreviation p_pub P := (dr_pub (p_dr P)).

(** The message that [Encrypt] returned, described by the state it left. *)
Definition sent_msg (d : DoubleRatchet) (pt ct : bytes) : msg :=
  Msg (dr_pub d) (dr_prevSendNo d) (dr_sendNo d - 1) pt ct.

Definition with_state (d : DoubleRatchet) (e : entropy) (P : party) : party :=
  Party d e (p_out P) (p_seen P) (p_used P).

Section System.
Context `{RatchetCrypto}.

(** The key pair of the next DH step can be drawn and has not been used. *)
Definition fresh_key (P : party) : Prop :=
  (32 <= length (p_ent P))%nat ∧ (dhKeyPair (p_ent P)).1.1.1 ∉ p_used P.

(** The messages of the peer [Q] that may reach [P] next: those of the chain
    that [P] is receiving, not yet decrypted, or those of the chain that [Q]
    is sending; in both cases at most [maxSkipElements] ahead. *)
Inductive deliverable (P Q : party) (m : msg) : Prop :=
  | deliver_current :
      m ∈ p_out Q → m_pub m = dr_peerDhPub (p_dr P) → m_no m ∉ p_seen P →
      m_no m <= dr_recvNo (p_dr P) + maxSkipElements → deliverable P Q m
  | deliver_next :
      m ∈ p_out Q → m_pub m = p_pub Q → m_pub m ≠ dr_peerDhPub (p_dr P) →
      m_prev m <= dr_recvNo (p_dr P) + maxSkipElements → m_no m <= maxSkipElements →
      fresh_key P → deliverable P Q m.

(** The numbers decrypted so far, after a message was taken. *)
Definition seen_after (P : party) (m : msg) : list Z :=
  if bool_decide (m_pub m = dr_peerDhPub (p_dr P)) then m_no m :: p_seen P else [m_no m].

Definition used_after (P : party) (d' : DoubleRatchet) : list bytes := dr_pub d' :: p_used P.

(** What an object may lose while it is put away: the length of the previous
    sending chain and keys of skipped messages. The messages whose keys are lost
    are not deliverable any more. *)
Definition forgets (d : DoubleRatchet) (p : Z) (kb : keyBuffer) (lost : list Z) : Prop :=
  0 <= p ∧ (∃ cs, kb_repr kb cs) ∧
  ∀ n k, (n ∉ lost) → n < dr_recvNo d → find (dr_msgKeyBuffer d) (dr_peerDhPub d) n = Ok k →
    find kb (dr_peerDhPub d) n = Ok k.

Definition forgot (p : Z) (kb : keyBuffer) (d : DoubleRatchet) : DoubleRatchet :=
  set_prevSendNo p (set_msgKeyBuffer kb d).

(** [P] encrypts the message [m], or decrypts it, and becomes [P']. *)
Definition sends (P : party) (m : msg) (P' : party) : Prop :=
  Encrypt (m_pt m) (p_dr P, p_ent P) = (Ok (m_ct m), (p_dr P', p_ent P')) ∧
  m = sent_msg (p_dr P') (m_pt m) (m_ct m) ∧
  P' = Party (p_dr P') (p_ent P') (m :: p_out P) (p_seen P) (used_after P (p_dr P')).

Definition receives (P : party) (m : msg) (P' : party) : Prop :=
  (∃ r, Decrypt (m_ct m) (p_dr P, p_ent P) = (r, (p_dr P', p_ent P'))) ∧
  P' = Party (p_dr P') (p_ent P') (p_out P) (seen_after P m) (used_after P (p_dr P')).

(** One step of a party [P] that talks to [Q]: it sends, it receives, or it is
    put away and comes back, with another position of the random source. *)
Inductive party_step (P Q : party) : party → Prop :=
  | step_send pt ct d' e' :
      Encrypt pt (p_dr P, p_ent P) = (Ok ct, (d', e')) →
      party_step P Q (Party d' e' (sent_msg d' pt ct :: p_out P) (p_seen P) (used_after P d'))
  | step_recv m r d' e' :
      deliverable P Q m →
      Decrypt (m_ct m) (p_dr P, p_ent P) = (r, (d', e')) →
      party_step P Q (Party d' e' (p_out P) (seen_after P m) (used_after P d'))
  | step_forget p kb lost e' :
      forgets (p_dr P) p kb lost →
      party_step P Q (Party (forgot p kb (p_dr P)) e' (p_out P) (lost ++ p_seen P) (p_used P)).

Inductive sys_step : party * party → party * party → Prop :=
  | sys_left A B A' : party_step A B A' → sys_step (A, B) (A', B)
  | sys_right A B B' : party_step B A B' → sys_step (A, B) (A, B').

(** The two parties as the session layer sets them up: one session key, one
    associated data string, and the passive party's key pair. The tapes that
    they go on with are arbitrary: others read from the random source, too. *)
Inductive sys_init : party * party → Prop :=
  | sys_init_intro sk ad pubB privB e0 e1 eA eB dA dB :
      length sk = 32%nat → dh_pair pubB privB → (32 <= length e0)%nat →
      CreateActive sk ad pubB e0 = (Ok dA, e1) →
      CreatePassive sk ad pubB privB = Ok dB →
      sys_init (Party dA eA [] [] [dr_pub dA], Party dB eB [] [] [pubB]).

Inductive reachable : party * party → Prop :=
  | reachable_init s : sys_init s → reachable s
  | reachable_step s s' : reachable s → sys_step s s' → reachable s'.

(** ** The invariant *)

Definition keys_ok (d : DoubleRatchet) : Prop :=
  dh_pair (dr_pub d) (dr_priv d) ∧
  dhr_isActive (dr_dhr d) && negb (dhr_isInitialized (dr_dhr d)) = false ∧
  0 <= dr_sendNo d ∧ 0 <= dr_prevSendNo d.

(** Every message sent under [pub] belongs to the chain [CK]. *)
Definition chain_out (CK ad pub : bytes) (out : list msg) : Prop :=
  ∀ m, m ∈ out → m_pub m = pub → chain_msg CK ad pub (m_prev m) (m_no m) (m_pt m) (m_ct m).

(** [P] is receiving the chain [CK]: what it skipped is in the buffer. *)
Definition recv_ok (CK : bytes) (P : party) : Prop :=
  recv_chain CK (p_dr P) ∧
  ∃ cs, kb_repr (dr_msgKeyBuffer (p_dr P)) cs ∧
    ∀ n, 0 <= n < dr_recvNo (p_dr P) → n ∉ p_seen P →
      Spec.lookup (dr_peerDhPub (p_dr P)) n cs = Some (mk_at CK n).

(** [P] has no receiving chain yet. *)
Definition recv_none (P : party) : Prop :=
  dr_chainKeyRecv (p_dr P) = None ∧ dr_recvNo (p_dr P) = 0 ∧
  ∃ cs, kb_repr (dr_msgKeyBuffer (p_dr P)) cs.

(** The public keys that occur are accounted for. *)
Definition used_ok (P : party) : Prop :=
  p_pub P ∈ p_used P ∧ ∀ m, m ∈ p_out P → m_pub m ∈ p_used P.

(** [S] has made a DH step that [R] has not seen yet. [CKn] is the chain [S]
    is sending, [back] the chain from [R] to [S], [old] the chain from [S]
    that [R] is still receiving. *)
Record ahead (S R : party) (CKn : bytes) (back old : option bytes) : Prop := {
  ah_ad : dr_associatedData (p_dr S) = dr_associatedData (p_dr R);
  ah_keysS : keys_ok (p_dr S);
  ah_keysR : keys_ok (p_dr R);
  ah_peer : dr_peerDhPub (p_dr S) = p_pub R;
  ah_unseen : dr_peerDhPub (p_dr R) ≠ p_pub S;
  ah_root : ∃ secret, dh (dr_priv (p_dr S)) (p_pub R) = Ok secret ∧
    rootKdf (dhr_rootKey (dr_dhr (p_dr R))) secret = Ok (dhr_rootKey (dr_dhr (p_dr S)), CKn);
  ah_send : send_chain CKn (p_dr S);
  ah_out : chain_out CKn (dr_associatedData (p_dr S)) (p_pub S) (p_out S);
  ah_back : match back with
    | Some CK => recv_ok CK S ∧ send_chain CK (p_dr R) ∧
                 chain_out CK (dr_associatedData (p_dr R)) (p_pub R) (p_out R)
    | None => recv_none S ∧ dr_chainKeySend (p_dr R) = None ∧ dr_peerDhPub (p_dr R) = [] ∧ p_out R = []
    end;
  ah_old : match old with
    | Some CK => recv_ok CK R ∧ chain_out CK (dr_associatedData (p_dr S)) (dr_peerDhPub (p_dr R)) (p_out S)
    | None => recv_none R ∧ ∀ m, m ∈ p_out S → m_pub m ≠ dr_peerDhPub (p_dr R)
    end;
  ah_usedS : used_ok S;
  ah_usedR : used_ok R;
}.

(** Before the active party's first message. *)
Record initial (A B : party) : Prop := {
  in_ad : dr_associatedData (p_dr A) = dr_associatedData (p_dr B);
  in_pairA : dh_pair (p_pub A) (dr_priv (p_dr A));
  in_pairB : dh_pair (p_pub B) (dr_priv (p_dr B));
  in_active : dhr_isActive (dr_dhr (p_dr A)) = true ∧ dhr_isInitialized (dr_dhr (p_dr A)) = false;
  in_passive : dhr_isActive (dr_dhr (p_dr B)) = false;
  in_peerA : dr_peerDhPub (p_dr A) = p_pub B ∧ dhr_peerDhPub (dr_dhr (p_dr A)) = p_pub B;
  in_peerB : dr_peerDhPub (p_dr B) = [];
  in_root : dhr_rootKey (dr_dhr (p_dr A)) = dhr_rootKey (dr_dhr (p_dr B)) ∧
            length (dhr_rootKey (dr_dhr (p_dr A))) = 32%nat;
  in_send : dr_chainKeySend (p_dr A) = None ∧ dr_chainKeySend (p_dr B) = None;
  in_recvA : recv_none A;
  in_recvB : recv_none B;
  in_out : p_out A = [] ∧ p_out B = [];
  in_nos : dr_sendNo (p_dr A) = 0 ∧ dr_sendNo (p_dr B) = 0 ∧
           0 <= dr_prevSendNo (p_dr A) ∧ 0 <= dr_prevSendNo (p_dr B);
  in_used : p_pub A ∈ p_used A ∧ p_pub B ∈ p_used B;
}.

(** In conversation, one of the two is ahead. *)
Definition conv (P Q : party) : Prop :=
  (∃ CKn back old, ahead P Q CKn back old) ∨ (∃ CKn back old, ahead Q P CKn back old).

Definition inv (A B : party) : Prop := initial A B ∨ conv A B.
End System.

(** ** Sending *)

Section Sending.
Context `{RatchetCryptoLaws}.

(** [Encrypt] refuses to send once a counter does not fit the header; the
    chain has advanced nevertheless. *)
Lemma Encrypt_overflow CK pt d e :
  send_chain CK d → 2 ^ 16 <= dr_sendNo d ∨ 2 ^ 16 <= dr_prevSendNo d →
  Encrypt pt (d, e) = (Err (Errorf "header numbers MUST be uint16"),
    (set_sendNo (int64 (dr_sendNo d + 1)) (set_chainKeySend (Some (ck_at CK (dr_sendNo d + 1))) d), e)).
Proof.
  intros (HCK & Hn & Hck) Hov. unfold Encrypt. st_pure. rewrite Hck. st_pure.
  st_call (kdfSend_chain CK (dr_sendNo d) d e HCK Hn Hck). st_pure. st_pure.
  unfold lift at 1, marshal. simpl. change (Z.shiftl 1 16) with (2 ^ 16).
  destruct (Z.geb_spec (dr_prevSendNo d) (2 ^ 16)), (Z.geb_spec (dr_sendNo d) (2 ^ 16));
    try lia; simpl; by erewrite ST_bind_Err.
Qed.

Lemma Encrypt_sent CK pt ct d e d' e' :
  send_chain CK d → keys_ok d → Encrypt pt (d, e) = (Ok ct, (d', e')) →
  d' = sent CK d ∧ e' = e ∧
  chain_msg CK (dr_associatedData d) (dr_pub d) (dr_prevSendNo d) (dr_sendNo d) pt ct.
Proof.
  intros Hs ((_ & Hpub & _) & _ & Hn & Hp) Henc.
  assert (header_wf (own_header d)) as Hwf.
  { unfold header_wf; simpl. split; [done|].
    destruct (decide (dr_prevSendNo d < 2 ^ 16)), (decide (dr_sendNo d < 2 ^ 16)); [lia|..];
      rewrite (Encrypt_overflow CK) in Henc; try done; lia. }
  destruct (Encrypt_chain CK pt d e Hs Hwf) as (ct' & Hmsg & Henc').
  rewrite Henc in Henc'. by simplify_eq.
Qed.

Lemma sent_msg_eq CK d pt ct :
  sent_msg (sent CK d) pt ct = Msg (dr_pub d) (dr_prevSendNo d) (dr_sendNo d) pt ct.
Proof. unfold sent_msg; simpl. f_equal. lia. Qed.

(** With no sending chain the DH step comes first. *)
Lemma Encrypt_after_step pt d e d1 e1 :
  dr_chainKeySend d = None → dhStep (d, e) = (Ok tt, (d1, e1)) → is_Some (dr_chainKeySend d1) →
  Encrypt pt (d, e) = Encrypt pt (d1, e1).
Proof.
  intros Hnone Hstep [ck Hsome]. unfold Encrypt. st_pure. rewrite Hnone. st_call Hstep.
  symmetry. st_pure. rewrite Hsome. st_pure. done.
Qed.

Lemma send_chain_sent CK d : send_chain CK d → send_chain CK (sent CK d).
Proof. intros (HCK & Hn & Hck). unfold sent. split_and!; simpl; [done|lia|done]. Qed.

Lemma chain_out_cons CK ad pub m out :
  chain_out CK ad pub out →
  (m_pub m = pub → chain_msg CK ad pub (m_prev m) (m_no m) (m_pt m) (m_ct m)) →
  chain_out CK ad pub (m :: out).
Proof. intros Ho Hm m' [->|Hin]%elem_of_cons Hp; auto. Qed.

Lemma used_ok_send P d' e' m :
  used_ok P → dr_pub d' = p_pub P → m_pub m = p_pub P →
  used_ok (Party d' e' (m :: p_out P) (p_seen P) (used_after P d')).
Proof.
  intros [Hp Ho] Hd Hm. split; simpl; [by left|].
  intros m' [->|Hin]%elem_of_cons; right; [by rewrite Hm|by apply Ho].
Qed.
End Sending.

(** ** Receiving *)

Section Receiving.
Context `{RatchetCryptoLaws}.

Lemma advanced_id CK d :
  recv_chain CK d → d = advanced CK (dr_recvNo d) (dr_msgKeyBuffer d) d.
Proof. intros (_ & _ & Hck). destruct d; simpl in *. unfold advanced; simpl. by rewrite Hck. Qed.

(** Skipping in a chain caches keys of that chain. *)
Lemma only_store_range p CK from cnt cs kb kb' :
  kb_repr kb cs → kb_repr kb' (store_range p CK from cnt cs) → only p kb → only p kb'.
Proof.
  intros Hr Hr' Ho. eexists. split; [exact Hr'|]. intros q [->|Hq]%known_store_range; [done|].
  exact (only_repr _ _ _ Hr Ho _ Hq).
Qed.

(** A message of the chain that is being received. *)
Lemma Decrypt_current CK P prevNo n pt ct :
  recv_ok CK P → n ∉ p_seen P → n <= dr_recvNo (p_dr P) + maxSkipElements →
  chain_msg CK (dr_associatedData (p_dr P)) (dr_peerDhPub (p_dr P)) prevNo n pt ct →
  ∃ spare N kb, Decrypt ct (p_dr P, p_ent P) = (Ok (GSlice pt spare), (advanced CK N kb (p_dr P), p_ent P)) ∧
    recv_ok CK (Party (advanced CK N kb (p_dr P)) (p_ent P) (p_out P) (n :: p_seen P)
                  (used_after P (advanced CK N kb (p_dr P)))) ∧
    (dr_recvNo (p_dr P) <= n → N = n + 1) ∧ (dr_recvNo (p_dr P) = n → kb = dr_msgKeyBuffer (p_dr P)) ∧
    dr_recvNo (p_dr P) <= N ∧ (only (dr_peerDhPub (p_dr P)) (dr_msgKeyBuffer (p_dr P)) → only (dr_peerDhPub (p_dr P)) kb).
Proof.
  destruct P as [d e out seen used]; simpl. intros (Hrc & cs & Hkb & Hcache) Hns Hmax Hmsg.
  pose proof Hrc as (HCK & Hr & Hck). simpl in *.
  pose proof Hmsg as (Hwf & _). pose proof Hwf as (_ & _ & Hn). simpl in Hn.
  set (h := Header (dr_peerDhPub d) prevNo n).
  destruct (decide (n < dr_recvNo d)) as [Hold|Hnew].
  - destruct (Decrypt_chain_msg CK _ _ _ _ _ _ d e d d e e Hmsg) as (spare & Hdec & _).
    { by apply followRatchet_same. }
    { apply messageKey_cached; [done|]. simpl.
      by rewrite (find_repr _ _ _ _ Hkb), (Hcache n) by (done || lia). }
    { done. }
    exists spare, (dr_recvNo d), (dr_msgKeyBuffer d). rewrite <-(advanced_id CK d Hrc).
    split; [done|]. split; [|split_and!; done || lia]. split; [done|]. exists cs. split; [done|]. simpl. intros i Hi Hni.
    apply Hcache; [lia|]. by apply not_elem_of_cons in Hni as [_ ?].
  - destruct (messageKey_ahead CK h d e cs Hrc) as (kb' & Hkb' & Hkey & Hsame);
      [unfold h; simpl; lia|unfold h; simpl; lia|done|].
    destruct (Decrypt_chain_msg CK _ _ _ _ _ _ d e d (advanced CK (n + 1) kb' d) e e Hmsg)
      as (spare & Hdec & _); [by apply followRatchet_same|done|done|].
    exists spare, (n + 1), kb'. split; [done|].
    split; [|split; [done|split; [intros Heq; by apply Hsame|split; [lia|by eapply only_store_range]]]].
    split; [by apply advanced_recv_chain; [|lia]|].
    eexists. split; [done|]. simpl. intros i Hi [Hin Hns']%not_elem_of_cons.
    rewrite lookup_store_range. case_decide; [done|]. apply Hcache; [lia|done].
Qed.

(** Leaving the old chain keeps everything but the receiving side. *)
Lemma skip_old CK P until :
  match CK with Some CK => recv_ok CK P | None => recv_none P end →
  until <= dr_recvNo (p_dr P) + maxSkipElements → until < 2 ^ 16 →
  ∃ N ck kb cs, kb_repr kb cs ∧ (until <= dr_recvNo (p_dr P) → kb = dr_msgKeyBuffer (p_dr P)) ∧
    skipMsgKeys until (p_dr P, p_ent P) =
      (Ok tt, (set_recvNo N (set_chainKeyRecv ck (set_msgKeyBuffer kb (p_dr P))), p_ent P)).
Proof.
  destruct P as [d e out seen used]; simpl. intros Hrecv Hmax H16.
  assert (d = set_recvNo (dr_recvNo d) (set_chainKeyRecv (dr_chainKeyRecv d)
                (set_msgKeyBuffer (dr_msgKeyBuffer d) d))) as Hd by (by destruct d).
  destruct CK as [CK|].
  - destruct Hrecv as (Hrc & cs & Hkb & _). simpl in *. pose proof Hrc as (_ & Hr & _).
    destruct (decide (until <= dr_recvNo d)) as [Hle|Hgt].
    + do 4 eexists. split; [done|]. split; [done|]. rewrite <-Hd. apply skipMsgKeys_noop; [lia|by right].
    + destruct (skipMsgKeys_chain CK until d e cs) as (kb' & Hkb' & Hs); [done|lia|lia|done|].
      do 4 eexists. split; [done|]. split; [lia|]. done.
  - destruct Hrecv as (Hck & Hr & cs & Hkb). simpl in *.
    do 4 eexists. split; [done|]. split; [done|]. rewrite <-Hd. apply skipMsgKeys_noop; [lia|by left].
Qed.
End Receiving.

(** ** Following the peer to a new chain *)

Section Following.
Context `{RatchetCryptoLaws}.

(** The state of [R] after the DH step that answers the step of [S]. *)
Definition followed (S R : party) (CKn ckSend rk pub : bytes) (kb : keyBuffer) : DoubleRatchet :=
  {| dr_associatedData := dr_associatedData (p_dr R);
     dr_dhr := DhRatchet rk pub (take 32 (p_ent R)) (p_pub S)
                 (dhr_isActive (dr_dhr (p_dr R))) (dhr_isInitialized (dr_dhr (p_dr R)));
     dr_peerDhPub := p_pub S;
     dr_chainKeySend := Some ckSend; dr_chainKeyRecv := Some CKn;
     dr_sendNo := 0; dr_recvNo := 0; dr_prevSendNo := dr_sendNo (p_dr R);
     dr_msgKeyBuffer := kb |}.

Lemma followRatchet_next S R CKn back old prevNo n :
  ahead S R CKn back old → fresh_key R →
  prevNo <= dr_recvNo (p_dr R) + maxSkipElements → prevNo < 2 ^ 16 →
  ∃ ckSend rk pub kb cs secret,
    kb_repr kb cs ∧ (prevNo <= dr_recvNo (p_dr R) → kb = dr_msgKeyBuffer (p_dr R)) ∧ pub = (dhKeyPair (p_ent R)).1.1.1 ∧ (pub ∉ p_used R) ∧ dh_pair pub (take 32 (p_ent R)) ∧
    dh (take 32 (p_ent R)) (p_pub S) = Ok secret ∧
    rootKdf (dhr_rootKey (dr_dhr (p_dr S))) secret = Ok (rk, ckSend) ∧
    followRatchet (Header (p_pub S) prevNo n) (p_dr R, p_ent R) =
      (Ok tt, (followed S R CKn ckSend rk pub kb, drop 32 (p_ent R))).
Proof.
  intros Ha [Hent Hfresh] Hmax H16. pose proof (ah_root _ _ _ _ _ Ha) as (s & Hdh & Hroot).
  pose proof (ah_keysR _ _ _ _ _ Ha) as (HpR & HiR & _).
  pose proof (ah_keysS _ _ _ _ _ Ha) as (HpS & _).
  destruct (skip_old old R prevNo) as (N & ck & kb & cs & Hkb & Hsame & Hskip);
    [pose proof (ah_old _ _ _ _ _ Ha); destruct old; naive_solver|done|done|].
  destruct (step_regular (dr_dhr (p_dr R)) (p_pub S) (dr_priv (p_dr S)) (p_ent R) s
              (dhr_rootKey (dr_dhr (p_dr S))) CKn)
    as (pub & s' & rk & cks & Hkp & Hpair & Hdh' & Hroot' & Hstep); [done..|].
  exists cks, rk, pub, kb, cs, s'. rewrite Hkp in *. split_and!; try done.
  unfold followRatchet. st_pure. rewrite bool_decide_eq_false_2.
  2:{ simpl. intros Heq. by apply (ah_unseen _ _ _ _ _ Ha). }
  cbn [negb h_prevNo h_dhPub]. st_call Hskip. st_pure. unfold dhStep. simpl. by rewrite Hstep.
Qed.

(** Decrypting a message of the new chain swaps the roles of the parties. *)
Lemma Decrypt_next S R CKn back old m :
  ahead S R CKn back old → m ∈ p_out S → m_pub m = p_pub S →
  m_prev m <= dr_recvNo (p_dr R) + maxSkipElements → m_no m <= maxSkipElements → fresh_key R →
  ∃ spare d' e' CKn',
    Decrypt (m_ct m) (p_dr R, p_ent R) = (Ok (GSlice (m_pt m) spare), (d', e')) ∧
    ahead (Party d' e' (p_out R) [m_no m] (used_after R d')) S CKn' (Some CKn) back ∧
    dr_sendNo d' = 0 ∧ dr_prevSendNo d' = dr_sendNo (p_dr R) ∧ dr_recvNo d' = m_no m + 1 ∧
    e' = drop 32 (p_ent R) ∧ dr_pub d' = (dhKeyPair (p_ent R)).1.1.1 ∧
    (m_prev m <= dr_recvNo (p_dr R) → m_no m = 0 → dr_msgKeyBuffer d' = dr_msgKeyBuffer (p_dr R)) ∧
    (m_prev m <= dr_recvNo (p_dr R) → only (p_pub S) (dr_msgKeyBuffer (p_dr R)) → only (p_pub S) (dr_msgKeyBuffer d')).
Proof.
  intros Ha Hin Hpub Hprev Hno Hfresh.
  pose proof (ah_out _ _ _ _ _ Ha m Hin Hpub) as Hmsg.
  pose proof Hmsg as ((_ & Hp16 & Hn16) & _). simpl in Hp16, Hn16.
  pose proof (ah_send _ _ _ _ _ Ha) as HsendS. pose proof HsendS as (HCKn & _ & _).
  destruct (followRatchet_next S R CKn back old (m_prev m) (m_no m) Ha Hfresh Hprev)
    as (cks & rk & pub & kb & cs & s & Hkb & Hsame & Hpubk & Hnew & Hpair & Hdh & Hroot & Hfollow); [lia|].
  set (d1 := followed S R CKn cks rk pub kb) in *.
  assert (recv_chain CKn d1) as Hrc by (unfold d1; split_and!; simpl; done || lia).
  destruct (messageKey_ahead CKn (Header (p_pub S) (m_prev m) (m_no m)) d1
              (drop 32 (p_ent R)) cs Hrc) as (kb' & Hkb' & Hkey & Hsame');
    [simpl; lia|simpl; lia|done|]. simpl in Hkey, Hkb', Hsame'.
  destruct (Decrypt_chain_msg CKn _ _ _ _ _ _ _ _ _ _ _ _ Hmsg Hfollow Hkey) as (spare & Hdec & _);
    [simpl; by rewrite (ah_ad _ _ _ _ _ Ha)|].
  exists spare, (advanced CKn (m_no m + 1) kb' d1), (drop 32 (p_ent R)), cks. split; [done|].
  pose proof (rootKdf_inv _ _ _ _ Hroot) as (_ & _ & Hcks).
  pose proof (ah_keysR _ _ _ _ _ Ha) as (_ & HiR & Hsn & _).
  pose proof (ah_usedR _ _ _ _ _ Ha) as [HuR HoR].
  assert (pub ≠ p_pub R) as HneR by (intros ->; done).
  assert (∀ m', m' ∈ p_out R → m_pub m' ≠ pub) as HoutR
    by (intros m' Hm' <-; by apply Hnew, HoR).
  split.
  2:{ do 5 (split; [done|]). split; intros Hp.
      - intros Hz. rewrite <-Hsame by done. by apply Hsame'.
      - rewrite <-Hsame by done. by eapply only_store_range. }
  split; simpl; unfold d1; simpl.
  - by rewrite (ah_ad _ _ _ _ _ Ha).
  - unfold keys_ok; simpl. split_and!; done || lia.
  - apply (ah_keysS _ _ _ _ _ Ha).
  - done.
  - rewrite (ah_peer _ _ _ _ _ Ha). done.
  - eauto.
  - unfold send_chain; simpl. split_and!; done || lia.
  - intros m' Hm' Heq. by apply HoutR in Hm'.
  - split_and!; [split; [by apply advanced_recv_chain; [|lia]|]|done|by apply (ah_out _ _ _ _ _ Ha)].
    eexists. split; [exact Hkb'|]. simpl. intros i Hi Hni.
    rewrite lookup_store_range. rewrite decide_True; [done|].
    assert (i ≠ m_no m) by (intros ->; apply Hni; left). lia.
  - destruct back as [CK|].
    + destruct (ah_back _ _ _ _ _ Ha) as (HrS & _ & HoR'). split; [done|].
      rewrite (ah_peer _ _ _ _ _ Ha). done.
    + destruct (ah_back _ _ _ _ _ Ha) as (HrS & _ & _ & HoR'). split; [done|].
      rewrite HoR'. intros m' Hm'. by apply not_elem_of_nil in Hm'.
  - split; simpl; [left|]. intros m' Hm'. right. by apply HoR.
  - apply (ah_usedS _ _ _ _ _ Ha).
Qed.
End Following.

(** ** The invariant is preserved *)

Section Invariant.
Context `{RatchetCryptoLaws}.

Lemma keys_ok_sent CK d : keys_ok d → keys_ok (sent CK d).
Proof. intros (Hp & Hi & Hn & Hv). unfold keys_ok, sent; simpl. split_and!; done || lia. Qed.

Lemma keys_ok_advanced CK N kb d : keys_ok d → keys_ok (advanced CK N kb d).
Proof. done. Qed.

(** The party that is ahead sends. *)
Lemma ahead_send S R CKn back old pt ct d' e' :
  ahead S R CKn back old → Encrypt pt (p_dr S, p_ent S) = (Ok ct, (d', e')) →
  ahead (Party d' e' (sent_msg d' pt ct :: p_out S) (p_seen S) (used_after S d')) R CKn back old.
Proof.
  intros Ha Henc.
  destruct (Encrypt_sent CKn pt ct (p_dr S) (p_ent S) d' e') as (-> & -> & Hmsg);
    [apply Ha|apply Ha|done|]. rewrite sent_msg_eq.
  destruct Ha as [Had HkS HkR Hpeer Huns Hroot Hsend Hout Hback Hold HuS HuR].
  split; simpl; try done.
  - by apply keys_ok_sent.
  - by apply send_chain_sent.
  - by apply chain_out_cons.
  - destruct old as [CK|].
    + destruct Hold as [Hr Ho]. split; [done|]. apply chain_out_cons; [done|]. simpl. congruence.
    + destruct Hold as [Hr Ho]. split; [done|]. intros m [->|Hm]%elem_of_cons; [|by apply Ho].
      simpl. congruence.
  - by apply used_ok_send.
Qed.

(** A passive party that has not received anything cannot send. *)
Lemma Encrypt_no_peer pt d e :
  dr_chainKeySend d = None → dr_peerDhPub d = [] → keys_ok d →
  ∃ er s', Encrypt pt (d, e) = (Err er, s').
Proof.
  intros Hs Hp (_ & Hi & _). unfold Encrypt. st_pure. rewrite Hs.
  assert (∃ er s', dhStep (d, e) = (Err er, s')) as (er & s' & Hstep).
  { unfold dhStep, step. rewrite Hi. simpl. rewrite Hp. unfold dh. simpl.
    destruct (length (dr_priv d) =? 32)%nat; simpl; eauto. }
  exists er, s'. by erewrite ST_bind_Err.
Qed.

(** The party that is behind sends on its old chain. *)
Lemma behind_send S R CKn back old pt ct d' e' :
  ahead S R CKn back old → Encrypt pt (p_dr R, p_ent R) = (Ok ct, (d', e')) →
  ahead S (Party d' e' (sent_msg d' pt ct :: p_out R) (p_seen R) (used_after R d')) CKn back old.
Proof.
  intros Ha Henc. destruct back as [CK|].
  2:{ destruct (ah_back _ _ _ _ _ Ha) as (_ & Hs & Hp & _).
      destruct (Encrypt_no_peer pt (p_dr R) (p_ent R)) as (er & s' & Herr); [done|done|apply Ha|].
      congruence. }
  destruct (ah_back _ _ _ _ _ Ha) as (HrS & HsR & HoR).
  destruct (Encrypt_sent CK pt ct (p_dr R) (p_ent R) d' e') as (-> & -> & Hmsg);
    [done|apply Ha|done|]. rewrite sent_msg_eq.
  destruct Ha as [Had HkS HkR Hpeer Huns Hroot Hsend Hout Hback Hold HuS HuR].
  split; simpl; try done.
  - by apply keys_ok_sent.
  - split_and!; [done|by apply send_chain_sent|by apply chain_out_cons].
  - by apply used_ok_send.
Qed.

Lemma used_ok_recv P d' e' seen :
  used_ok P → dr_pub d' = p_pub P → used_ok (Party d' e' (p_out P) seen (used_after P d')).
Proof.
  intros [Hp Ho] Hd. split; simpl; [by left|]. intros m Hm. right. by apply Ho.
Qed.

(** Messages of the chains that both parties already know. *)
(** What a message of the current chain that was not overtaken leaves behind *)
Definition takes_current (P : party) (n : Z) (d' : DoubleRatchet) : Prop :=
  dr_peerDhPub d' = dr_peerDhPub (p_dr P) ∧ (dr_recvNo (p_dr P) <= n → dr_recvNo d' = n + 1).

Lemma ahead_recv S R CKn back old m :
  ahead S R CKn back old → m ∈ p_out R → m_pub m = dr_peerDhPub (p_dr S) → (m_no m ∉ p_seen S) →
  m_no m <= dr_recvNo (p_dr S) + maxSkipElements →
  ∃ spare d' e', Decrypt (m_ct m) (p_dr S, p_ent S) = (Ok (GSlice (m_pt m) spare), (d', e')) ∧
    ahead (Party d' e' (p_out S) (m_no m :: p_seen S) (used_after S d')) R CKn back old ∧
    e' = p_ent S ∧ dr_pub d' = p_pub S ∧ dr_sendNo d' = dr_sendNo (p_dr S) ∧
    dr_prevSendNo d' = dr_prevSendNo (p_dr S) ∧
    (dr_recvNo (p_dr S) = m_no m → dr_recvNo d' = m_no m + 1 ∧ dr_msgKeyBuffer d' = dr_msgKeyBuffer (p_dr S)) ∧
    dr_recvNo (p_dr S) <= dr_recvNo d' ∧ (only (p_pub R) (dr_msgKeyBuffer (p_dr S)) → only (p_pub R) (dr_msgKeyBuffer d')) ∧
    takes_current S (m_no m) d'.
Proof.
  intros Ha Hin Hpub Hns Hmax. destruct back as [CK|].
  2:{ destruct (ah_back _ _ _ _ _ Ha) as (_ & _ & _ & Ho). rewrite Ho in Hin.
      by apply not_elem_of_nil in Hin. }
  destruct (ah_back _ _ _ _ _ Ha) as (HrS & HsR & HoR).
  pose proof (ah_peer _ _ _ _ _ Ha) as Hpeer.
  destruct (Decrypt_current CK S (m_prev m) (m_no m) (m_pt m) (m_ct m)) as (spare & N & kb & Hdec & Hr' & HN & Hkb & Hup & Honly);
    [done|done|done|rewrite (ah_ad _ _ _ _ _ Ha), Hpeer; apply HoR; [done|congruence]|].
  rewrite Hpeer in Honly. do 3 eexists. split; [exact Hdec|].
  split; [|split_and!; try done; intros Heq; split; [apply HN; lia|by apply Hkb]]. destruct Ha. split; simpl; try done.
  by apply used_ok_recv.
Qed.

Lemma behind_recv S R CKn back old m :
  ahead S R CKn back old → m ∈ p_out S → m_pub m = dr_peerDhPub (p_dr R) → (m_no m ∉ p_seen R) →
  m_no m <= dr_recvNo (p_dr R) + maxSkipElements →
  ∃ spare d' e', Decrypt (m_ct m) (p_dr R, p_ent R) = (Ok (GSlice (m_pt m) spare), (d', e')) ∧
    ahead S (Party d' e' (p_out R) (m_no m :: p_seen R) (used_after R d')) CKn back old ∧
    e' = p_ent R ∧ dr_pub d' = p_pub R ∧ dr_sendNo d' = dr_sendNo (p_dr R) ∧
    dr_prevSendNo d' = dr_prevSendNo (p_dr R) ∧ takes_current R (m_no m) d'.
Proof.
  intros Ha Hin Hpub Hns Hmax. destruct old as [CK|].
  2:{ destruct (ah_old _ _ _ _ _ Ha) as (_ & Ho). by apply Ho in Hin. }
  destruct (ah_old _ _ _ _ _ Ha) as (HrR & HoS).
  destruct (Decrypt_current CK R (m_prev m) (m_no m) (m_pt m) (m_ct m)) as (spare & N & kb & Hdec & Hr' & HN & _);
    [done|done|done|rewrite <-(ah_ad _ _ _ _ _ Ha); by apply HoS|].
  do 3 eexists. split; [exact Hdec|]. split; [|by split_and!]. destruct Ha. split; simpl; try done.
  by apply used_ok_recv.
Qed.
End Invariant.

(** ** Reachable systems *)

Section Reachable.
Context `{RatchetCryptoLaws}.

Lemma conv_sym P Q : conv P Q → conv Q P.
Proof. intros [Hc|Hc]; [by right|by left]. Qed.

Lemma conv_send P Q pt ct d' e' :
  conv P Q → Encrypt pt (p_dr P, p_ent P) = (Ok ct, (d', e')) →
  conv (Party d' e' (sent_msg d' pt ct :: p_out P) (p_seen P) (used_after P d')) Q.
Proof.
  intros [(CKn & back & old & Ha)|(CKn & back & old & Ha)] Henc.
  - left. do 3 eexists. by eapply ahead_send.
  - right. do 3 eexists. by eapply behind_send.
Qed.

Lemma conv_recv P Q m :
  conv P Q → deliverable P Q m →
  ∃ spare d' e', Decrypt (m_ct m) (p_dr P, p_ent P) = (Ok (GSlice (m_pt m) spare), (d', e')) ∧
    conv (Party d' e' (p_out P) (seen_after P m) (used_after P d')) Q.
Proof.
  intros [(CKn & back & old & Ha)|(CKn & back & old & Ha)] [Hin Hpub Hns Hmax|Hin Hpub Hne Hprev Hno Hf];
    unfold seen_after.
  - rewrite bool_decide_eq_true_2 by done.
    destruct (ahead_recv P Q CKn back old m) as (spare & d' & e' & Hdec & Ha' & _); [done..|].
    do 3 eexists. split; [done|]. left. eauto.
  - by rewrite (ah_peer _ _ _ _ _ Ha) in Hne.
  - rewrite bool_decide_eq_true_2 by done.
    destruct (behind_recv Q P CKn back old m) as (spare & d' & e' & Hdec & Ha' & _); [done..|].
    do 3 eexists. split; [done|]. right. eauto.
  - rewrite bool_decide_eq_false_2 by done.
    destruct (Decrypt_next Q P CKn back old m) as (spare & d' & e' & CKn' & Hdec & Ha' & _); [done..|].
    do 3 eexists. split; [done|]. left. eauto.
Qed.

(** Putting an object away. *)
Lemma recv_ok_forget CK P p kb lost e' :
  recv_ok CK P → forgets (p_dr P) p kb lost →
  recv_ok CK (Party (forgot p kb (p_dr P)) e' (p_out P) (lost ++ p_seen P) (p_used P)).
Proof.
  intros (Hrc & cs & Hkb & Hcache) (_ & [cs' Hkb'] & Hkeep). split; [done|]. exists cs'. split; [done|].
  simpl. intros n Hn [Hl Hs]%not_elem_of_app.
  pose proof (Hkeep n (mk_at CK n) Hl (proj2 Hn)) as Hf.
  rewrite (find_repr _ _ _ _ Hkb), (Hcache n Hn Hs), (find_repr _ _ _ _ Hkb') in Hf.
  specialize (Hf eq_refl). destruct (Spec.lookup _ _ cs'); congruence.
Qed.

Lemma recv_none_forget P p kb lost e' :
  recv_none P → forgets (p_dr P) p kb lost →
  recv_none (Party (forgot p kb (p_dr P)) e' (p_out P) (lost ++ p_seen P) (p_used P)).
Proof. intros (Hck & Hr & _) (_ & Hkb & _). by split_and!. Qed.

Lemma keys_ok_forget d p kb lost : keys_ok d → forgets d p kb lost → keys_ok (forgot p kb d).
Proof. intros (Hp & Hi & Hn & _) (Hv & _). by split_and!. Qed.

Lemma ahead_forget_left S R CKn back old p kb lost e' :
  ahead S R CKn back old → forgets (p_dr S) p kb lost →
  ahead (Party (forgot p kb (p_dr S)) e' (p_out S) (lost ++ p_seen S) (p_used S)) R CKn back old.
Proof.
  intros [Had HkS HkR Hpeer Huns Hroot Hsend Hout Hback Hold HuS HuR] Hf. split; simpl; try done.
  - by eapply keys_ok_forget.
  - destruct back as [CK|]; [|destruct Hback as (? & ?); split; [by apply recv_none_forget|done]].
    destruct Hback as (? & ?). split; [by apply recv_ok_forget|done].
Qed.

Lemma ahead_forget_right S R CKn back old p kb lost e' :
  ahead S R CKn back old → forgets (p_dr R) p kb lost →
  ahead S (Party (forgot p kb (p_dr R)) e' (p_out R) (lost ++ p_seen R) (p_used R)) CKn back old.
Proof.
  intros [Had HkS HkR Hpeer Huns Hroot Hsend Hout Hback Hold HuS HuR] Hf. split; simpl; try done.
  - by eapply keys_ok_forget.
  - destruct old as [CK|]; destruct Hold as (? & ?); split; [by apply recv_ok_forget|done|by apply recv_none_forget|done].
Qed.

Lemma conv_forget P Q p kb lost e' :
  conv P Q → forgets (p_dr P) p kb lost →
  conv (Party (forgot p kb (p_dr P)) e' (p_out P) (lost ++ p_seen P) (p_used P)) Q.
Proof.
  intros [(CKn & back & old & Ha)|(CKn & back & old & Ha)] Hf; [left|right]; exists CKn, back, old.
  - by apply ahead_forget_left.
  - by apply ahead_forget_right.
Qed.

Lemma initial_forget_left A B p kb lost e' :
  initial A B → forgets (p_dr A) p kb lost →
  initial (Party (forgot p kb (p_dr A)) e' (p_out A) (lost ++ p_seen A) (p_used A)) B.
Proof.
  intros [Had HpA HpB Hact Hpas HpeerA HpeerB Hroot Hsend HrA HrB Hout (HnA & HnB & HvA & HvB) Hu] Hf.
  split; simpl; try done; [by apply recv_none_forget|]. by destruct Hf.
Qed.

Lemma initial_forget_right A B p kb lost e' :
  initial A B → forgets (p_dr B) p kb lost →
  initial A (Party (forgot p kb (p_dr B)) e' (p_out B) (lost ++ p_seen B) (p_used B)).
Proof.
  intros [Had HpA HpB Hact Hpas HpeerA HpeerB Hroot Hsend HrA HrB Hout (HnA & HnB & HvA & HvB) Hu] Hf.
  split; simpl; try done; [by apply recv_none_forget|]. by destruct Hf.
Qed.

(** What may be delivered is a message of one of the peer's chains. *)
Lemma conv_chain_msg P Q m :
  conv P Q → deliverable P Q m →
  ∃ CK ad, chain_msg CK ad (m_pub m) (m_prev m) (m_no m) (m_pt m) (m_ct m).
Proof.
  intros [(CKn & back & old & Ha)|(CKn & back & old & Ha)] [Hin Hpub _ _|Hin Hpub Hne _ _ _].
  - destruct back as [CK|].
    + destruct (ah_back _ _ _ _ _ Ha) as (_ & _ & Ho). exists CK, (dr_associatedData (p_dr Q)).
      rewrite Hpub, (ah_peer _ _ _ _ _ Ha) in *. by apply Ho.
    + destruct (ah_back _ _ _ _ _ Ha) as (_ & _ & _ & Ho). rewrite Ho in Hin.
      by apply not_elem_of_nil in Hin.
  - by rewrite (ah_peer _ _ _ _ _ Ha) in Hne.
  - destruct old as [CK|].
    + destruct (ah_old _ _ _ _ _ Ha) as (_ & Ho). exists CK, (dr_associatedData (p_dr Q)).
      rewrite Hpub. by apply Ho.
    + destruct (ah_old _ _ _ _ _ Ha) as (_ & Ho). by apply Ho in Hin.
  - exists CKn, (dr_associatedData (p_dr Q)). rewrite Hpub. by apply (ah_out _ _ _ _ _ Ha).
Qed.

(** The active party's first step gives it a sending chain. *)
Definition started (A : party) (rk CKn : bytes) : DoubleRatchet :=
  {| dr_associatedData := dr_associatedData (p_dr A);
     dr_dhr := dhr_set_isInitialized true (dhr_set_rootKey rk (dr_dhr (p_dr A)));
     dr_peerDhPub := dr_peerDhPub (p_dr A); dr_chainKeySend := Some CKn;
     dr_chainKeyRecv := None; dr_sendNo := 0; dr_recvNo := 0;
     dr_prevSendNo := dr_sendNo (p_dr A); dr_msgKeyBuffer := dr_msgKeyBuffer (p_dr A) |}.

Lemma initial_step A B :
  initial A B → ∃ s rk CKn, length CKn = 32%nat ∧
    dh (dr_priv (p_dr A)) (p_pub B) = Ok s ∧
    rootKdf (dhr_rootKey (dr_dhr (p_dr A))) s = Ok (rk, CKn) ∧
    dhStep (p_dr A, p_ent A) = (Ok tt, (started A rk CKn, p_ent A)).
Proof.
  intros Hi. destruct (in_root _ _ Hi) as [Hroot Hrk]. destruct (in_active _ _ Hi) as [Hact Hini].
  destruct (in_peerA _ _ Hi) as [HpeerA HpeerA'].
  destruct (dh_agree _ _ _ _ (in_pairA _ _ Hi) (in_pairB _ _ Hi)) as (s & Hdh & _).
  destruct (rootKdf_ok (dhr_rootKey (dr_dhr (p_dr A))) s Hrk) as (rk & CKn & Hkdf & _ & HCK).
  exists s, rk, CKn. split_and!; [done..|].
  unfold dhStep. erewrite (step_initial (dr_dhr (p_dr A))) by (done || by rewrite HpeerA'). done.
Qed.

Lemma initial_encrypt A B pt :
  initial A B → ∃ ct d', Encrypt pt (p_dr A, p_ent A) = (Ok ct, (d', p_ent A)) ∧
    dr_pub d' = p_pub A ∧ dr_prevSendNo d' = 0 ∧ dr_sendNo d' = 1 ∧
    dr_recvNo d' = 0 ∧ dr_msgKeyBuffer d' = dr_msgKeyBuffer (p_dr A).
Proof.
  intros Hi. destruct (initial_step A B Hi) as (s & rk & CKn & HCK & _ & _ & Hstep).
  destruct (in_nos _ _ Hi) as (HnA & _). destruct (in_send _ _ Hi) as [HsA _].
  pose proof (in_pairA _ _ Hi) as (_ & Hpub & _).
  destruct (Encrypt_chain CKn pt (started A rk CKn) (p_ent A)) as (ct & _ & Henc).
  { by split_and!. }
  { split; [done|]. simpl. rewrite HnA. lia. }
  exists ct, (sent CKn (started A rk CKn)). split_and!; [|done..].
  by rewrite (Encrypt_after_step pt _ _ _ _ HsA Hstep) by (by eexists).
Qed.

(** The active party's first message starts the conversation. *)
Lemma initial_send A B pt ct d' e' :
  initial A B → Encrypt pt (p_dr A, p_ent A) = (Ok ct, (d', e')) →
  conv (Party d' e' (sent_msg d' pt ct :: p_out A) (p_seen A) (used_after A d')) B.
Proof.
  intros Hi Henc. destruct (initial_step A B Hi) as (s & rk & CKn & HCK & Hdh & Hkdf & Hstep).
  destruct Hi as [Had HpA HpB [Hact Hini] Hpas [HpeerA HpeerA'] HpeerB [Hroot Hrk] [HsA HsB] HrA HrB [HoA HoB]
            (HnA & HnB & HvA & HvB) [HuA HuB]].
  rewrite (Encrypt_after_step pt _ _ _ _ HsA Hstep) in Henc by (by eexists).
  apply (conv_send (with_state (started A rk CKn) (p_ent A) A) B) in Henc; [done|].
  left. exists CKn, None, None. split; simpl; try done.
  - unfold keys_ok; simpl. split_and!; try done; [by rewrite andb_false_r|lia].
  - unfold keys_ok; simpl. rewrite Hpas. split_and!; done || lia.
  - rewrite HpeerB. destruct HpA as (_ & HlA & _). intros Heq. by rewrite <-Heq in HlA.
  - exists s. split; [done|]. by rewrite <-Hroot.
  - rewrite HoA. intros m Hm. by apply not_elem_of_nil in Hm.
  - destruct HrA as (_ & _ & Hbuf). split_and!; done.
  - split; [done|]. rewrite HoA. intros m Hm. by apply not_elem_of_nil in Hm.
  - split; [done|]. simpl. rewrite HoA. intros m Hm. by apply not_elem_of_nil in Hm.
  - split; [done|]. rewrite HoB. intros m Hm. by apply not_elem_of_nil in Hm.
Qed.

Lemma init_initial A B : sys_init (A, B) → initial A B.
Proof.
  intros Hinit. inversion Hinit as [sk ad pubB privB e0 e1 eA eB dA dB Hsk HpB He0 HA HB Heq]. subst.
  unfold CreateActive, dhRatchetActive in HA.
  destruct (dhKeyPair_ok e0 He0) as (pubA & Hkp & HpA). rewrite Hkp in HA.
  injection HA as <- <-. injection HB as <-.
  split; simpl; try done.
  - by split_and!; [..|eexists; apply newKeyBuffer_repr].
  - by split_and!; [..|eexists; apply newKeyBuffer_repr].
  - split; left.
Qed.

Lemma initial_no_delivery A B m : initial A B → ¬ deliverable A B m ∧ ¬ deliverable B A m.
Proof.
  intros Hi. destruct (in_out _ _ Hi) as [HoA HoB].
  split; intros [Hin|Hin]; rewrite ?HoA, ?HoB in Hin; by apply not_elem_of_nil in Hin.
Qed.

Lemma conv_step P Q P' : conv P Q → party_step P Q P' → conv P' Q.
Proof.
  intros Hc Hstep. inversion Hstep as [pt ct d' e' Henc|m r d' e' Hdel Hdec|p kb lost e' Hf]; subst.
  - by eapply conv_send.
  - destruct (conv_recv P Q m Hc Hdel) as (spare & d1 & e1 & Hdec' & Hc').
    rewrite Hdec' in Hdec. by injection Hdec as <- <- <-.
  - by apply conv_forget.
Qed.

Lemma inv_left A B A' : inv A B → party_step A B A' → inv A' B.
Proof.
  intros [Hi|Hc] Hstep; [|right; by eapply conv_step].
  inversion Hstep as [pt ct d' e' Henc|m r d' e' Hdel Hdec|p kb lost e' Hf]; subst.
  - right. by eapply initial_send.
  - by apply (initial_no_delivery A B m Hi) in Hdel.
  - left. by apply initial_forget_left.
Qed.

Lemma inv_right A B B' : inv A B → party_step B A B' → inv A B'.
Proof.
  intros [Hi|Hc] Hstep; [|right; apply conv_sym; eapply conv_step; [by apply conv_sym|done]].
  inversion Hstep as [pt ct d' e' Henc|m r d' e' Hdel Hdec|p kb lost e' Hf]; subst.
  - exfalso. destruct (in_nos _ _ Hi) as (? & ? & ? & ?).
    destruct (Encrypt_no_peer pt (p_dr B) (p_ent B)) as (er & s' & Herr); [apply Hi|apply Hi| |congruence].
    unfold keys_ok. rewrite (in_passive _ _ Hi). split_and!; [apply Hi|done|lia|lia].
  - by apply (initial_no_delivery A B m Hi) in Hdel.
  - left. by apply initial_forget_right.
Qed.

Lemma inv_step s s' : inv s.1 s.2 → sys_step s s' → inv s'.1 s'.2.
Proof.
  intros Hi Hs. revert Hi. destruct Hs; simpl; intros Hi; [by eapply inv_left|by eapply inv_right].
Qed.

Lemma reachable_inv s : reachable s → inv s.1 s.2.
Proof.
  induction 1 as [[A B] Hinit|s s' _ IH Hstep]; [left; by apply init_initial|by eapply inv_step].
Qed.

(** A party that has a sending chain, with counters that fit the header, sends. *)
Definition can_send (d : DoubleRatchet) : Prop :=
  dr_chainKeySend d ≠ None ∧ dr_sendNo d < 2 ^ 16 ∧ dr_prevSendNo d < 2 ^ 16.

Lemma chain_sends CK d pt e :
  send_chain CK d → keys_ok d → can_send d → ∃ ct, Encrypt pt (d, e) = (Ok ct, (sent CK d, e)).
Proof.
  intros Hs ((_ & Hl & _) & _ & Hn & Hp) (_ & Hn16 & Hp16).
  destruct (Encrypt_chain CK pt d e Hs) as (ct & _ & Henc); [by split_and!|by exists ct].
Qed.

Lemma reachable_sends P Q pt :
  reachable (P, Q) ∨ reachable (Q, P) → can_send (p_dr P) →
  ∃ ct d', Encrypt pt (p_dr P, p_ent P) = (Ok ct, (d', p_ent P)).
Proof.
  intros Hr Hcan. assert (conv P Q) as Hc.
  { destruct Hr as [[Hi|Hc]%reachable_inv|[Hi|Hc]%reachable_inv]; simpl in *;
      [by destruct Hcan, (in_send _ _ Hi)|done|by destruct Hcan, (in_send _ _ Hi)|by apply conv_sym]. }
  assert (∃ CK, send_chain CK (p_dr P) ∧ keys_ok (p_dr P)) as (CK & Hs & Hk).
  { destruct Hc as [(CKn & back & old & Ha)|(CKn & back & old & Ha)]; [by exists CKn; split; apply Ha|].
    pose proof (ah_back _ _ _ _ _ Ha) as Hb. destruct back as [CK|].
    - exists CK. split; [apply Hb|apply Ha].
    - destruct Hcan as [Hne _]. by destruct Hb as (_ & Hnone & _). }
  destruct (chain_sends CK (p_dr P) pt (p_ent P) Hs Hk Hcan) as [ct Henc]. by exists ct, (sent CK (p_dr P)).
Qed.

Lemma reachable_decrypts P Q m :
  reachable (P, Q) ∨ reachable (Q, P) → deliverable P Q m →
  ∃ spare s', Decrypt (m_ct m) (p_dr P, p_ent P) = (Ok (GSlice (m_pt m) spare), s').
Proof.
  intros Hr Hdel. assert (conv P Q) as Hc.
  { destruct Hr as [Hr|Hr]; apply reachable_inv in Hr as [Hi|Hc]; simpl in *.
    - by destruct (initial_no_delivery P Q m Hi).
    - done.
    - by destruct (initial_no_delivery Q P m Hi).
    - by apply conv_sym. }
  destruct (conv_recv P Q m Hc Hdel) as (spare & d' & e' & Hdec & _). eauto.
Qed.

End Reachable.

(** ** A concrete conversation *)

Module Toy.
#[local] Existing Instances toy_ratchet_crypto toy_ratchet_laws.

Definition tape (seed : Z) (n : nat) : entropy :=
  (λ i, byte_of_Z (seed + 37 * Z.of_nat i)) <$> seq 0 n.

Definition sessKey : bytes := replicate 32 Byte.x2a.
Definition ad : bytes := str "AD".
Definition privB : bytes := replicate 32 Byte.x07.
Definition pubB : bytes := default [] (x25519 privB basepoint).

Definition no_ratchet : DoubleRatchet :=
  mkDoubleRatchet [] (DhRatchet [] [] [] [] false false) [] None None 0 0 0 newKeyBuffer.
Definition run {A} (d : A) (r : result A) : A := match r with Ok a => a | _ => d end.

(** Run one step and keep the books. *)
Definition send (pt : bytes) (P : party) : party :=
  let '(r, (d', e')) := Encrypt pt (p_dr P, p_ent P) in
  Party d' e' (sent_msg d' pt (run [] r) :: p_out P) (p_seen P) (used_after P d').
Definition recv (m : msg) (P : party) : party :=
  let '(_, (d', e')) := Decrypt (m_ct m) (p_dr P, p_ent P) in
  Party d' e' (p_out P) (seen_after P m) (used_after P d').
Definition sent_at (i : nat) (P : party) : msg :=
  default (Msg [] 0 0 [] []) (reverse (p_out P) !! i).

Definition alice0 : party :=
  let '(r, e) := CreateActive sessKey ad pubB (tape 5 256) in
  let d := run no_ratchet r in Party d e [] [] [dr_pub d].
Definition bob0 : party :=
  Party (run no_ratchet (CreatePassive sessKey ad pubB privB)) (tape 99 256) [] [] [pubB].

(** Alice sends three messages; Bob gets the third one first. *)
Definition alice3 : party := send (str "three") (send (str "two") (send (str "one") alice0)).
Definition bob1 : party := recv (sent_at 2 alice3) bob0.

Lemma send_step pt P Q :
  is_Ok (Encrypt pt (p_dr P, p_ent P)).1 = true → party_step P Q (send pt P).
Proof.
  unfold send. destruct (Encrypt pt _) as [[ct| |] [d' e']] eqn:He; intros; simplify_eq/=.
  by eapply step_send.
Qed.

Lemma recv_step m P Q : deliverable P Q m → party_step P Q (recv m P).
Proof.
  intros Hd. unfold recv. destruct (Decrypt _ _) as [r [d' e']] eqn:He. by eapply step_recv.
Qed.

Lemma init_reachable : reachable (alice0, bob0).
Proof.
  apply reachable_init.
  apply (sys_init_intro sessKey ad pubB privB (tape 5 256) (p_ent alice0) (p_ent alice0) (tape 99 256)
           (p_dr alice0) (p_dr bob0)).
  - reflexivity.
  - apply toy_dh_pair. reflexivity.
  - vm_compute. lia.
  - vm_compute. reflexivity.
  - reflexivity.
Qed.

Lemma alice3_reachable : reachable (alice3, bob0).
Proof.
  repeat (eapply reachable_step; [|apply sys_left, send_step; vm_compute; reflexivity]).
  apply init_reachable.
Qed.

Lemma third_deliverable : deliverable bob0 alice3 (sent_at 2 alice3).
Proof.
  apply deliver_next.
  - apply (list_elem_of_lookup_2 _ 0). vm_compute. reflexivity.
  - vm_compute. reflexivity.
  - vm_compute. done.
  - vm_compute. done.
  - vm_compute. done.
  - split; [vm_compute; lia|]. apply (bool_decide_unpack _). vm_compute. exact I.
Qed.

Lemma bob1_reachable : reachable (alice3, bob1).
Proof.
  eapply reachable_step; [apply alice3_reachable|]. apply sys_right, recv_step, third_deliverable.
Qed.

Lemma first_deliverable : deliverable bob1 alice3 (sent_at 0 alice3).
Proof.
  apply deliver_current.
  - apply (list_elem_of_lookup_2 _ 2). vm_compute. reflexivity.
  - vm_compute. reflexivity.
  - apply (bool_decide_unpack _). vm_compute. exact I.
  - vm_compute. done.
Qed.

Lemma first_plaintext : m_pt (sent_at 0 alice3) = str "one".
Proof. vm_compute. reflexivity. Qed.
End Toy.

