(* ===== verification/RatchetSafety.v ===== *)
(** * One party against an arbitrary peer

    What holds of [Encrypt] and [Decrypt] whatever bytes arrive: no run-time
    panic, a bounded buffer, counters in range; and what the code does with
    late, repeated and forged messages. *)

From Stdlib Require Import ZArith Lia.
From stdpp Require Import base list numbers option strings gmap.
From S2P Require Import Prelude Crypto ToyCrypto MsgHeader Pkcs7 Primitives KeyBuff DhRatchet DoubleRatchet RatchetSync.

Local Open Scope Z_scope.

(** The number of message keys in the buffer. *)
Definition slot_size (e : option keyBufferElement) : nat :=
  match e with Some kbe => size (kbe_msgKeys kbe) | None => 0%nat end.
Definition kb_size (kb : keyBuffer) : nat := sum_list_with slot_size (kb_buff kb).

(** Well-formed objects: the message number fits the header format and the
    buffer is a proper ring. *)
Definition dr_wf (d : DoubleRatchet) : Prop :=
  0 <= dr_recvNo d <= 2 ^ 16 ∧ ∃ cs, kb_repr (dr_msgKeyBuffer d) cs.

(** [d'] is well formed, has at most [k] message keys more than [d], and its
    message number is not beyond that of [d] and [b]. *)
Definition grown (k : nat) (b : Z) (d d' : DoubleRatchet) : Prop :=
  dr_wf d' ∧ (kb_size (dr_msgKeyBuffer d') <= kb_size (dr_msgKeyBuffer d) + k)%nat ∧
  dr_recvNo d' <= Z.max (dr_recvNo d) b.

(** A call that does not panic and lets the object grow within these bounds. *)
Definition safe {A} (k : nat) (b : Z) (m : ST drst A) : Prop :=
  ∀ d e r d' e', dr_wf d → m (d, e) = (r, (d', e')) → r ≠ Panic ∧ grown k b d d'.

(** ** The size of the buffer *)

Definition keys_in (c : keyBufferElement) : nat := size (kbe_msgKeys c).

Lemma kb_size_repr kb cs : kb_repr kb cs → kb_size kb = sum_list_with keys_in cs.
Proof.
  intros (Hb & _ & _). unfold kb_size. rewrite Hb, sum_list_with_app.
  replace (sum_list_with slot_size (replicate _ None)) with 0%nat.
  - rewrite Nat.add_0_r. clear Hb. induction cs as [|c cs IH]; [done|]. rewrite fmap_cons. simpl. unfold keys_in at 1. lia.
  - generalize (maxSkipChains - length cs)%nat. intros n. by induction n.
Qed.

Lemma sum_take {A} (f : A → nat) (l : list A) i :
  (sum_list_with f (take i l) <= sum_list_with f l)%nat.
Proof. rewrite <-(take_drop i l) at 2. rewrite sum_list_with_app. lia. Qed.

Lemma sum_put n k j (cs : Spec.chains) :
  (sum_list_with keys_in (alter (Spec.put n k) j cs) <= sum_list_with keys_in cs + 1)%nat.
Proof.
  revert j. induction cs as [|c cs IH]; intros [|j]; [simpl; lia..| |].
  - change (alter (Spec.put n k) 0%nat (c :: cs)) with (Spec.put n k c :: cs). simpl.
    unfold keys_in at 1 3. simpl. rewrite map_size_insert. case_match; simpl; lia.
  - change (alter (Spec.put n k) (S j) (c :: cs)) with (c :: alter (Spec.put n k) j cs). simpl.
    specialize (IH j). lia.
Qed.

Lemma kb_size_insert kb cs p n k :
  kb_repr kb cs → (kb_size (insert kb p n k) <= kb_size kb + 1)%nat.
Proof.
  intros Hr. rewrite (kb_size_repr _ _ Hr), (kb_size_repr _ _ (insert_repr _ _ p n k Hr)).
  unfold Spec.store. destruct (list_find _ cs) as [[j c]|]; [apply sum_put|].
  unfold maxSkipChains. rewrite firstn_cons. simpl. unfold keys_in at 1. simpl.
  rewrite map_size_singleton. pose proof (sum_take keys_in cs 7). lia.
Qed.

(** ** Composition of safe calls *)

Lemma grown_same d d' b :
  dr_wf d → dr_recvNo d' = dr_recvNo d → dr_msgKeyBuffer d' = dr_msgKeyBuffer d → grown 0 b d d'.
Proof. intros Hw Hn Hb. unfold grown, dr_wf. rewrite Hn, Hb. destruct Hw. split_and!; done || lia. Qed.

Lemma grown_refl d b : dr_wf d → grown 0 b d d.
Proof. intros. by apply grown_same. Qed.

Lemma grown_trans k1 k2 b1 b2 d1 d2 d3 :
  grown k1 b1 d1 d2 → grown k2 b2 d2 d3 → grown (k1 + k2) (Z.max b1 b2) d1 d3.
Proof. intros (? & ? & ?) (? & ? & ?). split_and!; [done|lia|lia]. Qed.

Lemma safe_bind {A B} k1 k2 b1 b2 (m : ST drst A) (f : A → ST drst B) :
  safe k1 b1 m → (∀ a, safe k2 b2 (f a)) → safe (k1 + k2) (Z.max b1 b2) (m ≫= f).
Proof.
  intros Hm Hf d e r d' e' Hw. unfold mbind, ST_bind.
  destruct (m (d, e)) as [r1 [d1 e1]] eqn:Em. destruct (Hm _ _ _ _ _ Hw Em) as [Hnp Hg].
  destruct r1 as [a|er|]; [|intros; simplify_eq; split; [done|]|done].
  - intros Ef. destruct (Hf a _ _ _ _ _ (proj1 Hg) Ef) as [Hnp2 Hg2].
    split; [done|]. by eapply grown_trans.
  - destruct Hg as (? & ? & ?). split_and!; [done|lia|lia].
Qed.

Lemma safe_weaken {A} k k' b b' (m : ST drst A) :
  safe k b m → (k <= k')%nat → b <= b' → safe k' b' m.
Proof.
  intros Hm Hk Hb d e r d' e' Hw Em. destruct (Hm _ _ _ _ _ Hw Em) as [Hnp (? & ? & ?)].
  split; [done|]. split_and!; [done|lia|lia].
Qed.

(** Calls that do not touch the receiving side. *)
Lemma safe_lift {A} b (r : result A) : r ≠ Panic → safe 0 b (lift r).
Proof. intros Hr d e r' d' e' Hw [= <- <- <-]. split; [done|by apply grown_refl]. Qed.

Lemma safe_ret {A} b (a : A) : safe 0 b (mret a).
Proof. by apply (safe_lift b (Ok a)). Qed.

Lemma safe_gets {A} b (f : drst → A) : safe 0 b (gets f).
Proof. intros d e r' d' e' Hw [= <- <- <-]. split; [done|by apply grown_refl]. Qed.

Lemma safe_update b f :
  (∀ d, dr_wf d → dr_recvNo (f d) = dr_recvNo d ∧ dr_msgKeyBuffer (f d) = dr_msgKeyBuffer d) →
  safe 0 b (update f).
Proof.
  intros Hf d e r' d' e' Hw [= <- <- <-]. destruct (Hf d Hw) as [H1 H2]. split; [done|].
  by apply grown_same.
Qed.

Section Safety.
Context `{RatchetCryptoLaws}.

Lemma chainKdf_no_panic ck : chainKdf ck ≠ Panic.
Proof. unfold chainKdf. by destruct (_ =? _)%nat. Qed.

Lemma kdfRecv_safe b : safe 0 b kdfRecv.
Proof.
  intros d e r d' e' Hw. unfold kdfRecv. pose proof (chainKdf_no_panic (default [] (dr_chainKeyRecv d))).
  destruct (chainKdf _) as [[ck mk]| |]; intros; simplify_eq; (split; [done|]); by apply grown_same.
Qed.

Lemma kdfSend_safe b : safe 0 b kdfSend.
Proof.
  intros d e r d' e' Hw. unfold kdfSend. pose proof (chainKdf_no_panic (default [] (dr_chainKeySend d))).
  destruct (chainKdf _) as [[ck mk]| |]; intros; simplify_eq; (split; [done|]); by apply grown_same.
Qed.

Lemma dhStep_safe b : safe 0 b dhStep.
Proof.
  intros d e r d' e' [Hr [cs Hkb]]. unfold dhStep. destruct (step _ _ _) as [[res dhr'] e1].
  intros; simplify_eq/=. split; [by destruct (sr_err res)|].
  unfold grown, dr_wf; simpl. split_and!; [lia|lia|by eexists|lia|lia].
Qed.

Lemma skipLoop_safe fuel until : until <= 2 ^ 16 → safe fuel until (skipLoop fuel until).
Proof.
  intros Hu. induction fuel as [|fuel IH]; [apply safe_ret|].
  intros d e r d' e' Hw. cbn [skipLoop]. st_pure.
  destruct (Z.ltb_spec (dr_recvNo d) until) as [Hlt|].
  2:{ intros [= <- <- <-]. split; [done|]. split_and!; done || lia. }
  unfold mbind at 1, ST_bind at 1.
  destruct (kdfRecv (d, e)) as [r1 [d1 e1]] eqn:Ek.
  destruct (kdfRecv_safe until _ _ _ _ _ Hw Ek) as [Hnp (Hw1 & Hs1 & Hr1)].
  assert (dr_recvNo d1 = dr_recvNo d) as Hrd.
  { unfold kdfRecv in Ek. destruct (chainKdf _) as [[]| |]; by simplify_eq. }
  destruct r1 as [mk|er|]; [|intros; simplify_eq; split; [done|]; split_and!; done || lia|done].
  st_pure. st_pure. intros El. simpl in El.
  destruct Hw1 as [Hr0 [cs Hkb]]. apply IH in El as [Hnp' (Hw' & Hs' & Hr')]; simpl in *.
  2:{ rewrite int64_id by (unfold int64_range; lia). split; simpl; [lia|]. eexists. by apply insert_repr. }
  rewrite int64_id in Hr' by (unfold int64_range; lia).
  pose proof (kb_size_insert _ _ (dr_peerDhPub d1) (dr_recvNo d1) mk Hkb).
  split; [done|]. split_and!; [done|lia|lia].
Qed.

Lemma skipMsgKeys_safe until : 0 <= until < 2 ^ 16 → safe 32 until (skipMsgKeys until).
Proof.
  intros Hu d e r d' e' Hw. pose proof Hw as [Hr _]. unfold skipMsgKeys. st_pure.
  rewrite int64_id by (unfold int64_range, maxSkipElements; lia). unfold maxSkipElements.
  destruct (Z.ltb_spec (dr_recvNo d + 32) until) as [|Hle].
  - intros [= <- <- <-]. split; [done|]. split_and!; [done|lia|lia].
  - destruct (dr_chainKeyRecv d).
    + apply (safe_weaken (Z.to_nat (until - dr_recvNo d)) 32 until until); [apply skipLoop_safe|..|done]; lia.
    + apply (safe_weaken 0 32 until until); [apply safe_ret|lia..|done].
Qed.

Lemma followRatchet_safe h b :
  0 <= h_prevNo h < 2 ^ 16 → h_prevNo h <= b → safe 32 b (followRatchet h).
Proof.
  intros Hp Hb. unfold followRatchet.
  apply (safe_weaken (0 + 32) 32 (Z.max b b) b); [|lia..]. apply safe_bind; [apply safe_gets|].
  intros d. destruct (negb _).
  - apply (safe_weaken (32 + (0 + 0)) 32 (Z.max (h_prevNo h) (Z.max b b)) b); [|lia..].
    apply safe_bind; [by apply skipMsgKeys_safe|]. intros _.
    apply safe_bind; [by apply safe_update|]. intros _. apply dhStep_safe.
  - apply (safe_weaken 0 32 b b); [apply safe_ret|lia..].
Qed.

Lemma messageKey_safe h : 0 <= h_msgNo h < 2 ^ 16 → safe 32 (2 ^ 16) (messageKey h).
Proof.
  intros Hn d e r d' e' Hw. pose proof Hw as [Hr [cs Hkb]]. unfold messageKey. st_pure.
  destruct (Z.ltb_spec (h_msgNo h) (dr_recvNo d)) as [|Hge].
  { apply (safe_weaken 0 32 (2 ^ 16) (2 ^ 16)); [apply safe_lift|lia..|done].
    rewrite (find_repr _ _ _ _ Hkb). by destruct (Spec.lookup _ _ _). }
  assert (safe 32 (h_msgNo h) (if h_msgNo h >? dr_recvNo d then skipMsgKeys (h_msgNo h) else mret tt)) as Hs.
  { destruct (h_msgNo h >? dr_recvNo d); [by apply skipMsgKeys_safe|].
    apply (safe_weaken 0 32 (h_msgNo h) (h_msgNo h)); [apply safe_ret|lia..]. }
  assert (safe 32 (h_msgNo h) ((if h_msgNo h >? dr_recvNo d then skipMsgKeys (h_msgNo h) else mret tt)
                               ≫= λ _, kdfRecv)) as Hs2.
  { apply (safe_weaken (32 + 0) 32 (Z.max (h_msgNo h) (h_msgNo h)) (h_msgNo h)); [|lia..].
    apply safe_bind; [done|]. intros _. apply kdfRecv_safe. }
  specialize (Hs2 d e). unfold mbind, ST_bind in Hs2 |- *.
  destruct ((if h_msgNo h >? dr_recvNo d then skipMsgKeys (h_msgNo h) else mret tt) (d, e))
    as [r1 [d1 e1]]; destruct r1 as [[]|er|].
  2-3: intros; simplify_eq; destruct (Hs2 _ _ _ Hw eq_refl) as [Hnp (? & ? & ?)]; try done;
    (split; [done|]); split_and!; done || lia.
  destruct (kdfRecv (d1, e1)) as [r2 [d2 e2]]; destruct r2 as [mk|er|].
  2-3: intros; simplify_eq; destruct (Hs2 _ _ _ Hw eq_refl) as [Hnp (? & ? & ?)]; try done;
    (split; [done|]); split_and!; done || lia.
  destruct (Hs2 _ _ _ Hw eq_refl) as [_ ([Hr2 Hkb2] & Hsz & Hb2)].
  intros [= <- <- <-]. split; [done|]. unfold grown, dr_wf; simpl.
  rewrite int64_id by (unfold int64_range; lia). split_and!; done || lia.
Qed.

Lemma Decrypt_safe ct : safe 64 (2 ^ 16) (Decrypt ct).
Proof.
  unfold Decrypt. case_test.
  { intros d e r d' e' Hw [= <- <- <-]. split; [done|]. by split_and!; [|lia|lia]. }
  intros d e r d' e' Hw. unfold lift at 1, mbind at 1, ST_bind at 1.
  pose proof (parseHeader_no_panic (take (Z.to_nat headerLen) ct)) as Hnp.
  destruct (parseHeader _) as [h|er|] eqn:Hp; [|intros [= <- <- <-]; split; [done|]; by split_and!; [|lia|lia]|done].
  apply parseHeader_wf in Hp as (_ & Hprev & Hn). revert Hw.
  apply (safe_weaken (32 + (32 + (0 + 0))) 64 (Z.max (2 ^ 16) (Z.max (2 ^ 16) (Z.max 0 0))) (2 ^ 16)); [|lia..].
  apply safe_bind; [apply followRatchet_safe; lia|]. intros _.
  apply safe_bind; [by apply messageKey_safe|]. intros k.
  apply safe_bind; [apply safe_gets|]. intros d1. apply safe_lift, encrypt_decrypt_no_panic.
Qed.

Lemma Encrypt_safe pt : safe 0 0 (Encrypt pt).
Proof.
  unfold Encrypt. apply (safe_bind 0 0 0 0); [apply safe_gets|intros d0].
  apply (safe_bind 0 0 0 0).
  { destruct (dr_chainKeySend d0); [apply safe_ret|apply dhStep_safe]. }
  intros _. apply (safe_bind 0 0 0 0); [apply kdfSend_safe|intros mk].
  apply (safe_bind 0 0 0 0); [apply safe_gets|intros d].
  apply (safe_bind 0 0 0 0); [by apply safe_update|intros _].
  apply (safe_bind 0 0 0 0); [apply safe_lift, marshal_no_panic|intros hData].
  apply (safe_bind 0 0 0 0); [apply safe_lift, encrypt_decrypt_no_panic|intros ct]. apply safe_ret.
Qed.
End Safety.

(** ** Arbitrary sequences of calls *)

Inductive call := CallEncrypt (plaintext : bytes) | CallDecrypt (ciphertext : bytes).

Definition is_decrypt (c : call) : bool := if c is CallDecrypt _ then true else false.

Section Calls.
Context `{RatchetCryptoLaws}.

(** What one call makes visible: whether it panicked; and a whole run. *)
Definition run_call (c : call) (s : drst) : bool * drst :=
  match c with
  | CallEncrypt pt => let '(r, s') := Encrypt pt s in (if r is Panic then true else false, s')
  | CallDecrypt ct => let '(r, s') := Decrypt ct s in (if r is Panic then true else false, s')
  end.

Fixpoint run_calls (cs : list call) (s : drst) : bool * drst :=
  match cs with
  | [] => (false, s)
  | c :: rest =>
      match run_call c s with
      | (true, s') => (true, s')
      | (false, s') => run_calls rest s'
      end
  end.

(** The objects the package hands out. *)
Definition created (d : DoubleRatchet) : Prop :=
  (∃ sk ad pub e e', CreateActive sk ad pub e = (Ok d, e')) ∨
  (∃ sk ad pub priv, CreatePassive sk ad pub priv = Ok d).

Lemma created_fresh d : created d → dr_recvNo d = 0 ∧ dr_msgKeyBuffer d = newKeyBuffer.
Proof.
  intros [(sk & ad & pub & e & e' & Hc)|(sk & ad & pub & priv & Hc)].
  - unfold CreateActive in Hc. destruct (dhRatchetActive _ _ _) as [[dhr [er|]] e1]; by simplify_eq.
  - unfold CreatePassive in Hc. by simplify_eq.
Qed.

Lemma run_call_safe c d e b d' e' :
  dr_wf d → run_call c (d, e) = (b, (d', e')) →
  b = false ∧ grown (if is_decrypt c then 64 else 0) (2 ^ 16) d d'.
Proof.
  intros Hw. unfold run_call. destruct c as [pt|ct].
  - destruct (Encrypt pt (d, e)) as [r [d1 e1]] eqn:E. apply Encrypt_safe in E as [Hnp (? & ? & ?)]; [|done].
    intros [= <- <- <-]. split; [by destruct r|]. split_and!; done || lia.
  - destruct (Decrypt ct (d, e)) as [r [d1 e1]] eqn:E. apply Decrypt_safe in E as [Hnp Hg]; [|done].
    intros [= <- <- <-]. split; [by destruct r|done].
Qed.

Lemma run_calls_safe cs d e :
  dr_wf d → ∃ d' e', run_calls cs (d, e) = (false, (d', e')) ∧ dr_wf d' ∧
    (kb_size (dr_msgKeyBuffer d') <= kb_size (dr_msgKeyBuffer d) + 64 * length (filter is_decrypt cs))%nat.
Proof.
  revert d e. induction cs as [|c cs IH]; intros d e Hw.
  { exists d, e. split_and!; [done|done|simpl; lia]. }
  destruct (run_call c (d, e)) as [b [d1 e1]] eqn:E.
  destruct (run_call_safe c d e b d1 e1 Hw E) as [-> (Hw1 & Hs1 & _)].
  destruct (IH d1 e1 Hw1) as (d' & e' & Hrun & Hw' & Hs'). exists d', e'. simpl run_calls. rewrite E.
  split_and!; [done|done|]. rewrite filter_cons. destruct c; simpl in *; lia.
Qed.

(** C9. Hostile input. Whatever bytes an object from [CreateActive] or
    [CreatePassive] is asked to encrypt or decrypt, in any order, no call
    panics, the message number stays within the 16-bit header range, the buffer
    remains a ring of at most eight chains without duplicates, and every
    [Decrypt] adds at most 64 message keys to it (two skips of 32). *)
Theorem hostile_input_safe (d : DoubleRatchet) (e : entropy) (cs : list call) (Hd : created d) :
  ∃ d' e', run_calls cs (d, e) = (false, (d', e')) ∧ dr_wf d' ∧
    (kb_size (dr_msgKeyBuffer d') <= 64 * length (filter is_decrypt cs))%nat.
Proof.
  apply created_fresh in Hd as [Hr Hb].
  destruct (run_calls_safe cs d e) as (d' & e' & Hrun & Hw & Hs).
  { split; [lia|]. rewrite Hb. eexists. apply newKeyBuffer_repr. }
  exists d', e'. rewrite Hb in Hs. by split_and!.
Qed.
End Calls.

(** ** What happens to late, repeated and forged messages *)

Section Messages.
Context `{RatchetCryptoLaws}.

Lemma skipMsgKeys_too_far until d e :
  0 <= dr_recvNo d <= 2 ^ 16 → dr_recvNo d + maxSkipElements < until →
  skipMsgKeys until (d, e) = (Err (Errorf "cannot skip until %d, maximum is %d"), (d, e)).
Proof.
  intros Hr Hu. unfold skipMsgKeys. st_pure. unfold maxSkipElements in *.
  rewrite int64_id by (unfold int64_range; lia). by destruct (Z.ltb_spec (dr_recvNo d + 32) until); [|lia].
Qed.

(** [Decrypt] once its header is known. *)
Lemma Decrypt_header ct h s :
  headerLen < blen ct → parseHeader (take (Z.to_nat headerLen) ct) = Ok h →
  Decrypt ct s = (_ ← followRatchet h; msgKey ← messageKey h; d ← gets fst;
    lift (decrypt msgKey (drop (Z.to_nat headerLen) ct) (dr_associatedData d))) s.
Proof.
  intros Hl Hp. unfold Decrypt. destruct (Z.leb_spec (blen ct) headerLen); [lia|].
  unfold lift at 1. by erewrite ST_bind_Ok by (by rewrite Hp).
Qed.

(** C18. A message that would make the receiver skip more than 32 message keys,
    in the current chain or at the end of the previous one, is refused and
    leaves the object and the random source untouched. *)
Theorem Decrypt_too_far_ahead (d : DoubleRatchet) (e : entropy) (ct : bytes) (h : header)
  (Hr : 0 <= dr_recvNo d <= 2 ^ 16) (Hl : headerLen < blen ct)
  (Hp : parseHeader (take (Z.to_nat headerLen) ct) = Ok h)
  (Hfar : dr_recvNo d + maxSkipElements <
          (if bool_decide (h_dhPub h = dr_peerDhPub d) then h_msgNo h else h_prevNo h)) :
  Decrypt ct (d, e) = (Err (Errorf "cannot skip until %d, maximum is %d"), (d, e)).
Proof.
  rewrite (Decrypt_header _ _ _ Hl Hp). case_bool_decide as Hpub.
  - st_call (followRatchet_same h d e Hpub). unfold messageKey. apply ST_bind_Err.
    st_pure. unfold maxSkipElements in *.
    destruct (Z.ltb_spec (h_msgNo h) (dr_recvNo d)), (Z.gtb_spec (h_msgNo h) (dr_recvNo d)); try lia.
    by apply ST_bind_Err, skipMsgKeys_too_far.
  - apply ST_bind_Err. unfold followRatchet. st_pure. rewrite bool_decide_eq_false_2 by done.
    by apply ST_bind_Err, skipMsgKeys_too_far.
Qed.

(** C19. Repeated messages. A message behind the current position of the
    receiving chain decrypts if and only if its key is in the buffer, and in
    both cases the object is unchanged: a message received in order is refused
    when it is repeated, but the key of a skipped message stays in the buffer,
    so that message is accepted every time it is delivered again. *)
Theorem Decrypt_behind (CK pt ct ad : bytes) (prevNo n : Z) (d : DoubleRatchet) (e : entropy)
  (cs : Spec.chains)
  (Hkb : kb_repr (dr_msgKeyBuffer d) cs) (Hn : n < dr_recvNo d) (Had : dr_associatedData d = ad)
  (Hmsg : chain_msg CK ad (dr_peerDhPub d) prevNo n pt ct) :
  (Spec.lookup (dr_peerDhPub d) n cs = Some (mk_at CK n) →
     ∃ spare, Decrypt ct (d, e) = (Ok (GSlice pt spare), (d, e))) ∧
  (Spec.lookup (dr_peerDhPub d) n cs = None →
     ∃ er, Decrypt ct (d, e) = (Err er, (d, e))).
Proof.
  split; intros Hlook.
  - destruct (Decrypt_chain_msg CK ad _ prevNo n pt ct d e d d e e Hmsg) as (spare & Hd & _).
    + by apply followRatchet_same.
    + apply messageKey_cached; [done|]. simpl. by rewrite (find_repr _ _ _ _ Hkb), Hlook.
    + done.
    + eauto.
  - destruct (chain_msg_header _ _ _ _ _ _ _ Hmsg) as [Hl Hp]. rewrite (Decrypt_header _ _ _ Hl Hp).
    st_call (followRatchet_same (Header (dr_peerDhPub d) prevNo n) d e eq_refl).
    eexists. apply ST_bind_Err. unfold messageKey. st_pure. cbn [h_msgNo h_dhPub].
    destruct (Z.ltb_spec n (dr_recvNo d)); [|lia]. unfold lift.
    by rewrite (find_repr _ _ _ _ Hkb), Hlook.
Qed.

Lemma followRatchet_resets h d e d1 e1 :
  h_dhPub h ≠ dr_peerDhPub d → followRatchet h (d, e) = (Ok tt, (d1, e1)) →
  dr_recvNo d1 = 0 ∧ dr_peerDhPub d1 = h_dhPub h.
Proof.
  intros Hp. unfold followRatchet. st_pure. rewrite bool_decide_eq_false_2 by done. cbn [negb].
  intros Hf. apply ST_bind_inv in Hf as (? & [d2 e2] & _ & Hf).
  apply ST_bind_inv in Hf as (? & s3 & [= <- <-] & Hf).
  unfold dhStep in Hf. destruct (step _ _ _) as [[res dhr'] e3]. by simplify_eq/=.
Qed.

(** Calls whose outcome does not depend on the buffer of skipped keys, nor on the
    length of the previous sending chain. *)
Definition bufless (d : DoubleRatchet) : DoubleRatchet :=
  set_prevSendNo 0 (set_msgKeyBuffer newKeyBuffer d).

Definition blind_at {A} (m1 m2 : ST drst A) (d1 d2 : DoubleRatchet) (e : entropy) : Prop :=
  (m1 (d1, e)).1 = (m2 (d2, e)).1 ∧ (m1 (d1, e)).2.2 = (m2 (d2, e)).2.2 ∧
  bufless (m1 (d1, e)).2.1 = bufless (m2 (d2, e)).2.1.

Definition blind {A} (m : ST drst A) : Prop :=
  ∀ d1 d2 e, bufless d1 = bufless d2 → blind_at m m d1 d2 e.

Lemma bufless_fields d1 d2 :
  bufless d1 = bufless d2 →
  d2 = set_prevSendNo (dr_prevSendNo d2) (set_msgKeyBuffer (dr_msgKeyBuffer d2) d1).
Proof. destruct d1, d2. unfold bufless, set_prevSendNo, set_msgKeyBuffer; simpl. by intros [= -> -> -> -> -> -> ->]. Qed.

Lemma blind_bind_at {A B} (m1 m2 : ST drst A) (f1 f2 : A → ST drst B) d1 d2 e :
  blind_at m1 m2 d1 d2 e →
  (∀ a d1' d2' e', m1 (d1, e) = (Ok a, (d1', e')) → bufless d1' = bufless d2' →
     blind_at (f1 a) (f2 a) d1' d2' e') →
  blind_at (m1 ≫= f1) (m2 ≫= f2) d1 d2 e.
Proof.
  unfold blind_at, mbind, ST_bind.
  destruct (m1 (d1, e)) as [r1 [d1' e1]], (m2 (d2, e)) as [r2 [d2' e2]]. simpl.
  intros (-> & -> & Hd) Hf. destruct r2; [by apply Hf|by split_and!..].
Qed.

Lemma blind_kdfRecv : blind kdfRecv.
Proof.
  intros d1 d2 e ->%bufless_fields. unfold blind_at, kdfRecv. simpl.
  by destruct (chainKdf _) as [[]| |].
Qed.

Lemma blind_dhStep : blind dhStep.
Proof.
  intros d1 d2 e ->%bufless_fields. unfold blind_at, dhStep. simpl.
  by destruct (step _ _ _) as [[]].
Qed.

Lemma blind_update f g :
  (∀ d1 d2, bufless d1 = bufless d2 → bufless (f d1) = bufless (g d2)) →
  ∀ d1 d2 e, bufless d1 = bufless d2 → blind_at (update f) (update g) d1 d2 e.
Proof. intros Hf d1 d2 e Hd. split_and!; [done|done|]. by apply Hf. Qed.

Lemma blind_skipLoop fuel until : blind (skipLoop fuel until).
Proof.
  induction fuel as [|fuel IH]; intros d1 d2 e Hd; [by split_and!|].
  cbn [skipLoop]. apply blind_bind_at with (m1 := gets (λ s, dr_recvNo s.1)) (m2 := gets (λ s, dr_recvNo s.1))
    (f1 := λ n, if n <? until then _ else _) (f2 := λ n, if n <? until then _ else _).
  { rewrite (bufless_fields _ _ Hd). by split_and!. }
  intros n d1' d2' e' [= <- <- <-] Hd'. destruct (_ <? until); [|by split_and!].
  apply blind_bind_at; [by apply blind_kdfRecv|]. intros mk d3 d4 e4 _ H34.
  apply blind_bind_at; [apply blind_update; [|done]|].
  { intros ? ? ->%bufless_fields. done. }
  intros _ d5 d6 e6 _ H56. apply blind_bind_at; [apply blind_update; [|done]|].
  { intros ? ? ->%bufless_fields. done. }
  intros _ d7 d8 e8 _ H78. by apply IH.
Qed.

Lemma blind_skipMsgKeys until : blind (skipMsgKeys until).
Proof.
  intros d1 d2 e Hd. pose proof (blind_skipLoop (Z.to_nat (until - dr_recvNo d1)) until d1 d2 e Hd) as Hl.
  rewrite (bufless_fields _ _ Hd) in Hl |- *. unfold blind_at, skipMsgKeys, mbind, ST_bind, gets in *. simpl.
  destruct (_ <? until); [done|]. by destruct (dr_chainKeyRecv d1).
Qed.

Lemma blind_followRatchet h : blind (followRatchet h).
Proof.
  intros d1 d2 e Hd.
  assert (dr_peerDhPub d2 = dr_peerDhPub d1) as Hpub by (by rewrite (bufless_fields _ _ Hd)).
  unfold followRatchet, blind_at. erewrite !ST_bind_Ok by reflexivity. simpl. rewrite Hpub.
  destruct (negb _); [|by split_and!].
  apply blind_bind_at; [by apply blind_skipMsgKeys|]. intros _ d3 d4 e4 _ H34.
  apply blind_bind_at; [apply blind_update; [|done]|].
  { intros ? ? ->%bufless_fields. done. }
  intros _ d5 d6 e6 _ H56. by apply blind_dhStep.
Qed.

Lemma blind_messageKey h d1 d2 e :
  dr_recvNo d1 <= h_msgNo h → bufless d1 = bufless d2 →
  blind_at (messageKey h) (messageKey h) d1 d2 e.
Proof.
  intros Hn Hd.
  assert (dr_recvNo d2 = dr_recvNo d1) as Hr2 by (by rewrite (bufless_fields _ _ Hd)).
  unfold messageKey, blind_at. erewrite !ST_bind_Ok by reflexivity. simpl. rewrite Hr2.
  destruct (Z.ltb_spec (h_msgNo h) (dr_recvNo d1)); [lia|].
  apply blind_bind_at.
  { destruct (_ >? _); [by apply blind_skipMsgKeys|by split_and!]. }
  intros _ d3 d4 e4 _ H34. apply blind_bind_at; [by apply blind_kdfRecv|].
  intros mk d5 d6 e6 _ H56. apply blind_bind_at; [apply blind_update; [|done]|].
  { intros ? ? ->%bufless_fields. done. }
  intros _ d7 d8 e8 _ H78. by split_and!.
Qed.

(** Messages that are not behind the receiving chain. *)
Definition not_behind (h : header) (d : DoubleRatchet) : Prop :=
  h_dhPub h = dr_peerDhPub d → dr_recvNo d <= h_msgNo h.

Lemma blind_Decrypt ct h d1 d2 e :
  headerLen < blen ct → parseHeader (take (Z.to_nat headerLen) ct) = Ok h →
  not_behind h d1 → bufless d1 = bufless d2 → blind_at (Decrypt ct) (Decrypt ct) d1 d2 e.
Proof.
  intros Hl Hp Hnb Hd. unfold blind_at. rewrite !(Decrypt_header _ _ _ Hl Hp).
  apply (blind_bind_at (followRatchet h) (followRatchet h)); [by apply blind_followRatchet|].
  intros [] d3 d4 e' Hf Hd'. apply blind_bind_at.
  { apply blind_messageKey; [|done]. destruct (decide (h_dhPub h = dr_peerDhPub d1)) as [Heq|Hne].
    - rewrite (followRatchet_same h d1 e Heq) in Hf. simplify_eq. by apply Hnb.
    - apply followRatchet_resets in Hf as [-> _]; [|done].
      apply parseHeader_wf in Hp as (_ & _ & ?). lia. }
  intros mk d5 d6 e6 _ ->%bufless_fields. by split_and!.
Qed.

(** C33. The keys of previous chains are never used. What [Decrypt] returns for
    a message whose header names another public key than the current one does
    not depend on the buffer: the message keys cached for that public key, if
    there are any, are not looked up. *)
Theorem previous_chain_keys_unused (d : DoubleRatchet) (e : entropy) (ct : bytes) (h : header)
  (kb : keyBuffer) (Hl : headerLen < blen ct)
  (Hp : parseHeader (take (Z.to_nat headerLen) ct) = Ok h) (Hpub : h_dhPub h ≠ dr_peerDhPub d) :
  (Decrypt ct (set_msgKeyBuffer kb d, e)).1 = (Decrypt ct (d, e)).1.
Proof. by apply (blind_Decrypt ct h (set_msgKeyBuffer kb d) d); [..|intros Heq; destruct Hpub|]. Qed.

(** What does not belong to the receiving chain *)
Definition sending_side (d : DoubleRatchet) : bytes * dhRatchet * bytes * option bytes * Z * Z :=
  (dr_associatedData d, dr_dhr d, dr_peerDhPub d, dr_chainKeySend d, dr_sendNo d, dr_prevSendNo d).

(** Calls that leave it and the random source alone, whatever their outcome. *)
Definition keeps_sending {A} (m : ST drst A) : Prop :=
  ∀ s, sending_side (m s).2.1 = sending_side s.1 ∧ (m s).2.2 = s.2.

Lemma keeps_sending_bind {A B} (m : ST drst A) (f : A → ST drst B) :
  keeps_sending m → (∀ a, keeps_sending (f a)) → keeps_sending (m ≫= f).
Proof.
  intros Hm Hf s. unfold mbind, ST_bind. specialize (Hm s). destruct (m s) as [[a| |] s']; try done.
  destruct (Hf a s') as [-> ->]. exact Hm.
Qed.

Lemma keeps_sending_kdfRecv : keeps_sending kdfRecv.
Proof. intros [d e]. unfold kdfRecv. by destruct (chainKdf _) as [[]| |]. Qed.

Lemma keeps_sending_skipLoop fuel until : keeps_sending (skipLoop fuel until).
Proof.
  induction fuel as [|fuel IH]; [by intros []|].
  apply keeps_sending_bind; [by intros []|]. intros d. destruct (_ <? until); [|by intros []].
  apply keeps_sending_bind; [apply keeps_sending_kdfRecv|]. intros mk.
  apply keeps_sending_bind; [by intros []|]. intros _. by apply keeps_sending_bind; [intros []|].
Qed.

Lemma keeps_sending_skipMsgKeys until : keeps_sending (skipMsgKeys until).
Proof.
  apply keeps_sending_bind; [by intros []|]. intros d. destruct (_ <? until); [by intros []|].
  destruct (dr_chainKeyRecv d); [apply keeps_sending_skipLoop|by intros []].
Qed.

Lemma keeps_sending_messageKey h : keeps_sending (messageKey h).
Proof.
  apply keeps_sending_bind; [by intros []|]. intros d. destruct (_ <? _); [by intros []|].
  apply keeps_sending_bind; [destruct (_ >? _); [apply keeps_sending_skipMsgKeys|by intros []]|]. intros _.
  apply keeps_sending_bind; [apply keeps_sending_kdfRecv|]. intros mk.
  by apply keeps_sending_bind; intros [].
Qed.

(** The state behind [Decrypt] does not depend on whether the text decrypts. *)
Lemma Decrypt_state ct h s :
  headerLen < blen ct → parseHeader (take (Z.to_nat headerLen) ct) = Ok h →
  (Decrypt ct s).2 = ((_ ← followRatchet h; messageKey h) s).2.
Proof.
  intros Hl Hp. rewrite (Decrypt_header _ _ _ Hl Hp). unfold mbind, ST_bind.
  destruct (followRatchet h s) as [[[]| |] s1]; try done.
  by destruct (messageKey h s1) as [[mk| |] s2].
Qed.

(** Following a header to another public key *)
Lemma followRatchet_steps h d e :
  h_dhPub h ≠ dr_peerDhPub d → (skipMsgKeys (h_prevNo h) (d, e)).1 = Ok tt →
  let '(res, dhr', e1) := step (h_dhPub h) (dr_dhr d) e in
  let s := (followRatchet h (d, e)).2 in
  sending_side s.1 = (dr_associatedData d, dhr', h_dhPub h, sr_sendKey res, 0, dr_sendNo d) ∧ s.2 = e1.
Proof.
  intros Hpub Hskip. unfold followRatchet. st_pure. rewrite bool_decide_eq_false_2 by done. cbn [negb].
  pose proof (keeps_sending_skipMsgKeys (h_prevNo h) (d, e)) as Hk.
  destruct (skipMsgKeys (h_prevNo h) (d, e)) as [r [d1 e1]] eqn:Hs. cbn [fst snd] in *. subst r.
  destruct Hk as [Hside ->]. injection Hside as Had Hdhr _ _ Hsn _. st_call Hs. st_pure.
  unfold dhStep. cbn [dr_peerDhPub set_peerDhPub dr_dhr dr_sendNo dr_associatedData]. rewrite Hdhr.
  destruct (step (h_dhPub h) (dr_dhr d) e) as [[res dhr'] e2]. cbn. by rewrite Had, Hsn.
Qed.

(** A ratchet that was used before replaces its key pair in a step. *)
Lemma step_new_pair peer r e :
  dhr_isActive r && negb (dhr_isInitialized r) = false →
  let '(res, r', e') := step peer r e in
  sr_err res = None → (dhr_dhPub r', dhr_dhPriv r') = (dhKeyPair e).1.1 ∧ e' = (dhKeyPair e).2.
Proof.
  intros Hreg. unfold step. rewrite Hreg. destruct (dh _ _) as [secret| |]; try done.
  unfold rootStep. destruct (rootKdf _ secret) as [[rk ck]| |]; try done.
  destruct (dhKeyPair e) as [[[pub priv] kerr] e']. destruct kerr; [done|].
  destruct (dh _ _) as [secret'| |]; try done. by destruct (rootKdf _ secret') as [[]| |].
Qed.

(** C34. The header takes effect before anything is authenticated, and nothing
    is rolled back. A message whose header names a new public key, and does not
    ask for too many skipped keys, moves the receiver to that public key and makes
    a DH step: the ratchet with its root key, the sending chain key and the
    counters of the sending side are those of the step, random bytes are
    used, and a ratchet that was in use has replaced its key pair. This is so whatever follows the
    header: any text under the same header, whether or not it decrypts, leads to
    the same state. *)
Theorem header_followed_unauthenticated (d : DoubleRatchet) (e : entropy) (ct : bytes) (h : header)
  (Hl : headerLen < blen ct) (Hp : parseHeader (take (Z.to_nat headerLen) ct) = Ok h)
  (Hpub : h_dhPub h ≠ dr_peerDhPub d) (Hskip : (skipMsgKeys (h_prevNo h) (d, e)).1 = Ok tt) :
  (let '(res, dhr', e1) := step (h_dhPub h) (dr_dhr d) e in
   let '(d', e') := (Decrypt ct (d, e)).2 in
   dr_dhr d' = dhr' ∧ dr_peerDhPub d' = h_dhPub h ∧ dr_chainKeySend d' = sr_sendKey res ∧
   dr_sendNo d' = 0 ∧ dr_prevSendNo d' = dr_sendNo d ∧ e' = e1 ∧
   (dhr_isActive (dr_dhr d) && negb (dhr_isInitialized (dr_dhr d)) = false → sr_err res = None →
    (dr_pub d', dr_priv d') = (dhKeyPair e).1.1 ∧ e' = (dhKeyPair e).2)) ∧
  ∀ ct', headerLen < blen ct' → take (Z.to_nat headerLen) ct' = take (Z.to_nat headerLen) ct →
    (Decrypt ct' (d, e)).2 = (Decrypt ct (d, e)).2.
Proof.
  split; [|intros ct' Hl' Eh; rewrite (Decrypt_state ct h), (Decrypt_state ct' h); by rewrite ?Eh].
  rewrite (Decrypt_state _ _ _ Hl Hp).
  pose proof (followRatchet_steps h d e Hpub Hskip) as Hf. pose proof (step_new_pair (h_dhPub h) (dr_dhr d) e) as Hn.
  destruct (step (h_dhPub h) (dr_dhr d) e) as [[res dhr'] e1]. unfold mbind, ST_bind.
  destruct (followRatchet h (d, e)) as [r [d1 e2]]. cbn [fst snd] in Hf. destruct Hf as [Hside ->].
  assert (∀ s : drst, sending_side s.1 = sending_side d1 ∧ s.2 = e1 →
    let '(d', e') := s in
    dr_dhr d' = dhr' ∧ dr_peerDhPub d' = h_dhPub h ∧ dr_chainKeySend d' = sr_sendKey res ∧
    dr_sendNo d' = 0 ∧ dr_prevSendNo d' = dr_sendNo d ∧ e' = e1 ∧
    (dhr_isActive (dr_dhr d) && negb (dhr_isInitialized (dr_dhr d)) = false → sr_err res = None →
     (dr_pub d', dr_priv d') = (dhKeyPair e).1.1 ∧ e' = (dhKeyPair e).2)) as Hfin.
  { intros [d' e'] [E He]. cbn [fst snd] in E, He. subst e'. rewrite Hside in E. injection E as _ -> -> -> -> ->. by split_and!. }
  destruct r as [[]| |]; [|by apply Hfin..]. apply Hfin. destruct (keeps_sending_messageKey h (d1, e1)) as [E1 E2].
  destruct (messageKey h (d1, e1)) as [[] s2]; by split.
Qed.

(** The sending side reports its limits as errors: the passive party cannot
    send before it has received, and no message is sent whose counters do not
    fit the 16-bit header. *)
Theorem Encrypt_refuses (d : DoubleRatchet) (pt : bytes) (e : entropy)
  (Hk : keys_ok d)
  (Hlim : (dr_chainKeySend d = None ∧ dr_peerDhPub d = []) ∨
          (∃ CK, send_chain CK d ∧ (2 ^ 16 <= dr_sendNo d ∨ 2 ^ 16 <= dr_prevSendNo d))) :
  ∃ er, (Encrypt pt (d, e)).1 = Err er.
Proof.
  destruct Hlim as [[Hs Hp]|(CK & Hs & Hov)].
  - destruct (Encrypt_no_peer pt d e Hs Hp Hk) as (er & s' & ->). by exists er.
  - rewrite (Encrypt_overflow CK pt d e Hs Hov). by eexists.
Qed.
End Messages.

(** ** Concrete runs *)

Module Runs.
Import Toy.
#[local] Existing Instances toy_ratchet_crypto toy_ratchet_laws.

Definition opened (P : party) (m : msg) : result bytes := sl <$> (Decrypt (m_ct m) (p_dr P, p_ent P)).1.

(** Alice sends "m0" and "m1"; "m0" is delayed. Bob replies, Alice makes a DH
    step and sends "m2" and "m3"; Bob receives "m2". *)
Definition alice_m1 : party := send (str "m1") (send (str "m0") alice0).
Definition bob_m1 : party := recv (sent_at 1 alice_m1) bob0.
Definition bob_r0 : party := send (str "r0") bob_m1.
Definition alice_m3 : party := send (str "m3") (send (str "m2") (recv (sent_at 0 bob_r0) alice_m1)).
Definition bob_m2 : party := recv (sent_at 2 alice_m3) bob_r0.

Definition late : msg := sent_at 0 alice_m3.

(** A header with a public key of the attacker's, and a body that is no
    ciphertext. *)
Definition forged : bytes := replicate 32 Byte.x42 ++ zeros 4 ++ str "garbage".

(** The chain of Alice's first messages, and what Bob cached of it. *)
Definition first_chain : bytes :=
  default [] (dr_chainKeySend (dhStep (p_dr alice0, p_ent alice0)).2.1).
Definition bob_m1_chains : Spec.chains :=
  [KeyBufferElement (m_pub late) {[0 := mk_at first_chain 0]}].

Lemma alice0_created : created (p_dr alice0).
Proof. left. exists sessKey, ad, pubB, (tape 5 256), (p_ent alice0). vm_compute. reflexivity. Qed.

Lemma bob_m2_wf : dr_wf (p_dr bob_m2).
Proof.
  unfold bob_m2, recv. destruct (Decrypt _ _) as [r [d' e']] eqn:E.
  refine (proj1 (proj2 (Decrypt_safe _ _ _ _ _ _ _ E))).
  unfold bob_r0, send. destruct (Encrypt _ _) as [r2 [d2 e2]] eqn:E2.
  refine (proj1 (proj2 (Encrypt_safe _ _ _ _ _ _ _ E2))).
  unfold bob_m1, recv. destruct (Decrypt _ (p_dr bob0, _)) as [r3 [d3 e3]] eqn:E3.
  refine (proj1 (proj2 (Decrypt_safe _ _ _ _ _ _ _ E3))).
  split; [simpl; lia|]. eexists. apply newKeyBuffer_repr.
Qed.
End Runs.

(** A message of the previous chain that arrives after the peer's DH step is
    lost although its key is cached, and it takes the session with it: in this
    run Bob holds the key of the delayed message "m0" and could read "m3";
    delivering "m0" fails, and after it "m3" fails as well. *)
Theorem late_message_breaks_session :
  Runs.opened Runs.bob_m1 Runs.late = Ok (str "m0") ∧
  is_Ok (find (dr_msgKeyBuffer (p_dr Runs.bob_m2)) (m_pub Runs.late) (m_no Runs.late)) = true ∧
  Runs.opened Runs.bob_m2 (Toy.sent_at 3 Runs.alice_m3) = Ok (str "m3") ∧
  is_Ok (Runs.opened Runs.bob_m2 Runs.late) = false ∧
  is_Ok (Runs.opened (Toy.recv Runs.late Runs.bob_m2) (Toy.sent_at 3 Runs.alice_m3)) = false.
Proof. vm_compute. by split_and!. Qed.

Lemma hostile_input_safe_witness :
  ∃ d' e', @run_calls toy_ratchet_crypto
      [CallDecrypt Runs.forged; CallEncrypt (str "hi"); CallDecrypt (str "short")]
      (p_dr Toy.alice0, p_ent Toy.alice0) = (false, (d', e')) ∧
    dr_wf d' ∧ (kb_size (dr_msgKeyBuffer d') <= 64 * 2)%nat.
Proof.
  apply (@hostile_input_safe toy_ratchet_crypto toy_ratchet_laws (p_dr Toy.alice0) (p_ent Toy.alice0)
    [CallDecrypt Runs.forged; CallEncrypt (str "hi"); CallDecrypt (str "short")]).
  apply Runs.alice0_created.
Defined.

Lemma Decrypt_too_far_ahead_witness :
  @Decrypt toy_ratchet_crypto (zeros 34 ++ [Byte.x00; Byte.x21] ++ str "body")
    (set_peerDhPub (zeros 32) Toy.no_ratchet, []) =
  (Err (Errorf "cannot skip until %d, maximum is %d"), (set_peerDhPub (zeros 32) Toy.no_ratchet, [])).
Proof.
  apply (@Decrypt_too_far_ahead toy_ratchet_crypto (set_peerDhPub (zeros 32) Toy.no_ratchet) []
    (zeros 34 ++ [Byte.x00; Byte.x21] ++ str "body") (Header (zeros 32) 0 33));
    vm_compute; done.
Defined.

(** Bob gets garbage under a header of somebody else: his key pair is gone. *)
Lemma header_followed_unauthenticated_witness :
  is_Ok (@Decrypt toy_ratchet_crypto Runs.forged (p_dr Runs.bob_m2, p_ent Runs.bob_m2)).1 = false ∧
  let d' := (@Decrypt toy_ratchet_crypto Runs.forged (p_dr Runs.bob_m2, p_ent Runs.bob_m2)).2.1 in
  dr_peerDhPub d' = replicate 32 Byte.x42 ∧ dr_sendNo d' = 0 ∧ dr_pub d' ≠ dr_pub (p_dr Runs.bob_m2).
Proof.
  split; [vm_compute; reflexivity|].
  destruct (@header_followed_unauthenticated toy_ratchet_crypto (p_dr Runs.bob_m2) (p_ent Runs.bob_m2)
    Runs.forged (Header (replicate 32 Byte.x42) 0 0)) as [Hf _]; [vm_compute; done..|].
  assert (dr_pub (@Decrypt toy_ratchet_crypto Runs.forged (p_dr Runs.bob_m2, p_ent Runs.bob_m2)).2.1 ≠ dr_pub (p_dr Runs.bob_m2)) as Hnew
    by (intros Heq; vm_compute in Heq; discriminate Heq).
  revert Hf Hnew. generalize (@step toy_ratchet_crypto (h_dhPub (Header (replicate 32 Byte.x42) 0 0)) (dr_dhr (p_dr Runs.bob_m2)) (p_ent Runs.bob_m2)).
  generalize (@Decrypt toy_ratchet_crypto Runs.forged (p_dr Runs.bob_m2, p_ent Runs.bob_m2)).
  intros [r [d' e']] [[res dhr'] e1] (_ & Hpeer & _ & Hno & _) Hnew. by split_and!.
Defined.

Lemma previous_chain_keys_unused_witness :
  (@Decrypt toy_ratchet_crypto (m_ct Runs.late)
     (set_msgKeyBuffer newKeyBuffer (p_dr Runs.bob_m2), p_ent Runs.bob_m2)).1 =
  (@Decrypt toy_ratchet_crypto (m_ct Runs.late) (p_dr Runs.bob_m2, p_ent Runs.bob_m2)).1.
Proof.
  apply (@previous_chain_keys_unused toy_ratchet_crypto (p_dr Runs.bob_m2) (p_ent Runs.bob_m2)
    (m_ct Runs.late) (Header (m_pub Runs.late) 0 0) newKeyBuffer).
  - vm_compute. done.
  - vm_compute. reflexivity.
  - apply (bool_decide_unpack _). vm_compute. exact I.
Defined.

Lemma Decrypt_behind_witness :
  ∃ spare, @Decrypt toy_ratchet_crypto (m_ct Runs.late) (p_dr Runs.bob_m1, p_ent Runs.bob_m1) =
    (Ok (GSlice (str "m0") spare), (p_dr Runs.bob_m1, p_ent Runs.bob_m1)).
Proof.
  apply (@Decrypt_behind toy_ratchet_crypto toy_ratchet_laws Runs.first_chain (str "m0") (m_ct Runs.late)
    Toy.ad 0 0 (p_dr Runs.bob_m1) (p_ent Runs.bob_m1) Runs.bob_m1_chains).
  - split_and!; [vm_compute; reflexivity|vm_compute; lia|].
    apply (bool_decide_unpack _). vm_compute. exact I.
  - vm_compute. reflexivity.
  - vm_compute. reflexivity.
  - split; [vm_compute; split_and!; done|].
    exists (take 36 (m_ct Runs.late)), (drop 36 (m_ct Runs.late)).
    split_and!; vm_compute; reflexivity.
  - vm_compute. reflexivity.
Defined.
