(* ===== verification/Limits.v ===== *)
(** * Limits of the Double Ratchet

    How long the loop of [skipMsgKeys] runs, and how many messages fit into one
    sending chain. *)

From Stdlib Require Import ZArith Lia.
From stdpp Require Import base list numbers option strings.
From S2P Require Import Prelude Crypto ToyCrypto MsgHeader Primitives KeyBuff DhRatchet DoubleRatchet RatchetSync.

Local Open Scope Z_scope.

(** ** The loop *)

Section Loop.
Context `{RatchetCrypto}.

Lemma kdfRecv_recvNo d e r d' e' : kdfRecv (d, e) = (r, (d', e')) → dr_recvNo d' = dr_recvNo d.
Proof. unfold kdfRecv. destruct (chainKdf _) as [[ck mk]| |]; by intros [= <- <- <-]. Qed.

(** More fuel than iterations does not matter, and the loop ends for the reason
    that the code gives. *)
Lemma skipLoop_enough n fuel until d e :
  int64_range (dr_recvNo d) → int64_range until → n = Z.to_nat (until - dr_recvNo d) → (n <= fuel)%nat →
  skipLoop fuel until (d, e) = skipLoop n until (d, e) ∧
  ∀ d' e', skipLoop n until (d, e) = (Ok tt, (d', e')) → until <= dr_recvNo d'.
Proof.
  intros Hr Hu. revert fuel d e Hr. induction n as [|n IH]; intros fuel d e Hr Hn Hf.
  - cbn [skipLoop]. split; [|intros d' e' [= <- <-]; lia]. destruct fuel as [|fuel]; [done|]. cbn [skipLoop]. st_pure.
    by destruct (Z.ltb_spec (dr_recvNo d) until); [lia|].
  - destruct fuel as [|fuel]; [lia|]. cbn [skipLoop].
    assert ((dr_recvNo d <? until) = true) as Hlt by (apply Z.ltb_lt; lia).
    assert (∀ fuel', (d0 ← gets fst; if dr_recvNo d0 <? until
       then msgKey ← kdfRecv; _ ← update (λ d, set_msgKeyBuffer (insert (dr_msgKeyBuffer d) (dr_peerDhPub d) (dr_recvNo d) msgKey) d);
            _ ← update (λ d, set_recvNo (int64 (dr_recvNo d + 1)) d); skipLoop fuel' until
       else mret tt) (d, e) =
      match kdfRecv (d, e) with
      | (Ok msgKey, (d1, e1)) =>
          skipLoop fuel' until (set_recvNo (int64 (dr_recvNo d1 + 1))
            (set_msgKeyBuffer (insert (dr_msgKeyBuffer d1) (dr_peerDhPub d1) (dr_recvNo d1) msgKey) d1), e1)
      | (Err er, s) => (Err er, s)
      | (Panic, s) => (Panic, s)
      end) as Hstep.
    { intros fuel'. st_pure. rewrite Hlt. unfold mbind at 1, ST_bind at 1.
      by destruct (kdfRecv (d, e)) as [[msgKey| |] [d1 e1]]. }
    rewrite !Hstep. destruct (kdfRecv (d, e)) as [[msgKey| |] [d1 e1]] eqn:Hk; [|done..].
    apply kdfRecv_recvNo in Hk. unfold int64_range in Hr, Hu.
    apply IH; simpl; rewrite ?Hk, ?int64_id by (unfold int64_range; lia); unfold int64_range; lia.
Qed.

(** C30. The loop ends. For a number from a message header [skipMsgKeys] either
    refuses, or has no chain to advance, or runs its loop, which then makes at
    most 32 iterations: with at least as many as there are numbers to skip it
    does not matter how often it may run. When it succeeds the receiving number has
    reached the target. This holds for every state, whatever its keys are. *)
Theorem skip_terminates (until : Z) (d : DoubleRatchet) (e : entropy)
  (Hu : 0 <= until < 2 ^ 16) (Hr : int64_range (dr_recvNo d)) :
  let n := Z.to_nat (until - dr_recvNo d) in
  (skipMsgKeys until (d, e) = (Err (Errorf "cannot skip until %d, maximum is %d"), (d, e)) ∨
   (dr_chainKeyRecv d = None ∧ skipMsgKeys until (d, e) = (Ok tt, (d, e))) ∨
   ((n <= 32)%nat ∧ ∀ fuel, (n <= fuel)%nat → skipMsgKeys until (d, e) = skipLoop fuel until (d, e))) ∧
  ∀ d' e', skipMsgKeys until (d, e) = (Ok tt, (d', e')) → dr_chainKeyRecv d = None ∨ until <= dr_recvNo d'.
Proof.
  intros n. assert (int64_range until) as Hu' by (unfold int64_range; lia).
  unfold skipMsgKeys. st_pure. destruct (Z.ltb_spec (int64 (dr_recvNo d + maxSkipElements)) until) as [Hlt|Hge].
  { split; [by left|]. intros d' e' Heq. discriminate Heq. }
  destruct (dr_chainKeyRecv d) as [ck|] eqn:Hck; [|split; [by right; left|by left]].
  assert ((n <= 32)%nat) as Hn.
  { unfold n, int64, int64_range, maxSkipElements in *.
    destruct (decide (dr_recvNo d + 32 < 2 ^ 63)); [rewrite Z.mod_small in Hge; lia|].
    replace (dr_recvNo d + 32 + 2 ^ 63) with (dr_recvNo d + 32 - 2 ^ 63 + 1 * 2 ^ 64) in Hge by lia.
    rewrite Z_mod_plus_full, Z.mod_small in Hge; lia. }
  split.
  - right; right. split; [done|]. intros fuel Hf. symmetry. by apply skipLoop_enough.
  - intros d' e' Hs. right. by eapply (proj2 (skipLoop_enough n n until d e Hr Hu' eq_refl (le_n n))).
Qed.
End Loop.

(** ** The counter of a sending chain *)

Section Budget.
Context `{RatchetCryptoLaws}.

(** Several messages, one after the other *)
Fixpoint encrypt_all (pts : list bytes) (s : drst) : list (result bytes) * drst :=
  match pts with
  | [] => ([], s)
  | pt :: pts =>
      let '(r, s1) := Encrypt pt s in
      let '(rs, s2) := encrypt_all pts s1 in (r :: rs, s2)
  end.

(** The state behind a message, sent or refused *)
Lemma Encrypt_counts CK pt d e :
  send_chain CK d → keys_ok d → dr_sendNo d + 1 < 2 ^ 63 →
  ∃ r, Encrypt pt (d, e) = (r, (sent CK d, e)) ∧
    if (dr_prevSendNo d <? 2 ^ 16) && (dr_sendNo d <? 2 ^ 16) then is_Ok r = true
    else r = Err (Errorf "header numbers MUST be uint16").
Proof.
  intros Hs Hk Hb. pose proof Hs as (_ & Hn & _). pose proof Hk as ((_ & Hl & _) & _ & _ & Hp0).
  assert (2 ^ 16 <= dr_sendNo d ∨ 2 ^ 16 <= dr_prevSendNo d →
    Encrypt pt (d, e) = (Err (Errorf "header numbers MUST be uint16"), (sent CK d, e))) as Hov.
  { intros Hge. rewrite (Encrypt_overflow CK pt d e Hs Hge), int64_id by (unfold int64_range; lia). done. }
  destruct (Z.ltb_spec (dr_prevSendNo d) (2 ^ 16)), (Z.ltb_spec (dr_sendNo d) (2 ^ 16)); cbn [andb];
    try (eexists; split; [apply Hov; lia|reflexivity]).
  destruct (Encrypt_chain CK pt d e Hs) as (ct & _ & Henc); [by split_and!|]. by exists (Ok ct).
Qed.

(** C31. A sending chain carries at most 65536 messages. As long as the peer does
    not answer, so that the chain stays the same, a message is encrypted if and
    only if its number and the length of the previous chain both fit the 16 bits
    of the header. So in a chain that follows one with more than 65535 messages,
    the refused ones included, nothing is ever sent, and in any other one the
    first 65536 messages are. The chain key advances and the counter counts all
    the same, for as long as the 64-bit counter does not overflow. *)
Theorem send_budget (CK : bytes) (d : DoubleRatchet) (e : entropy) (pts : list bytes)
  (Hs : send_chain CK d) (Hk : keys_ok d)
  (Hlen : dr_sendNo d + Z.of_nat (length pts) < 2 ^ 63) :
  ∃ rs d', encrypt_all pts (d, e) = (rs, (d', e)) ∧
    send_chain CK d' ∧ dr_sendNo d' = dr_sendNo d + Z.of_nat (length pts) ∧
    dr_prevSendNo d' = dr_prevSendNo d ∧ length rs = length pts ∧
    ∀ i r, rs !! i = Some r →
      if (dr_prevSendNo d <? 2 ^ 16) && (dr_sendNo d + Z.of_nat i <? 2 ^ 16) then is_Ok r = true
      else r = Err (Errorf "header numbers MUST be uint16").
Proof.
  revert d Hs Hk Hlen. induction pts as [|pt pts IH]; intros d Hs Hk Hlen.
  { exists [], d. split_and!; try done. simpl. lia. }
  cbn [length] in Hlen. destruct (Encrypt_counts CK pt d e Hs Hk) as (r & Henc & Hr); [lia|].
  destruct (IH (sent CK d)) as (rs & d' & Hall & Hs' & Hn' & Hp' & Hl' & Hrs);
    [by apply send_chain_sent|by apply keys_ok_sent|simpl; lia|].
  exists (r :: rs), d'. cbn [encrypt_all]. rewrite Henc, Hall. split; [done|]. split; [done|].
  split; [rewrite Hn'; simpl; lia|]. split; [done|]. split; [simpl; by rewrite Hl'|].
  intros [|i] r' Hi; [injection Hi as <-; by rewrite Z.add_0_r|].
  specialize (Hrs i r' Hi). simpl in Hrs. by replace (dr_sendNo d + Z.of_nat (S i)) with (dr_sendNo d + 1 + Z.of_nat i) by lia.
Qed.
End Budget.

(** ** Instances *)

#[local] Existing Instances toy_ratchet_crypto toy_ratchet_laws.

Lemma skip_terminates_witness :
  let n := Z.to_nat (5 - 3) in
  (skipMsgKeys 5 (p_dr Toy.bob1, []) = (Err (Errorf "cannot skip until %d, maximum is %d"), (p_dr Toy.bob1, [])) ∨
   (dr_chainKeyRecv (p_dr Toy.bob1) = None ∧ skipMsgKeys 5 (p_dr Toy.bob1, []) = (Ok tt, (p_dr Toy.bob1, []))) ∨
   ((n <= 32)%nat ∧ ∀ fuel, (n <= fuel)%nat → skipMsgKeys 5 (p_dr Toy.bob1, []) = skipLoop fuel 5 (p_dr Toy.bob1, []))) ∧
  ∀ d' e', skipMsgKeys 5 (p_dr Toy.bob1, []) = (Ok tt, (d', e')) →
    dr_chainKeyRecv (p_dr Toy.bob1) = None ∨ 5 <= dr_recvNo d'.
Proof.
  change 3 with (dr_recvNo (p_dr Toy.bob1)).
  apply (skip_terminates 5 (p_dr Toy.bob1) []); [lia|vm_compute; split; congruence].
Defined.

(** A chain with one number left. *)
Definition nearly_full : DoubleRatchet := set_sendNo (2 ^ 16 - 1) (set_chainKeySend (Some (ck_at (replicate 32 Byte.x2a) (2 ^ 16 - 1))) (p_dr Toy.alice3)).

Lemma keys_ok_counter n ck d : 0 <= n → keys_ok d → keys_ok (set_sendNo n (set_chainKeySend ck d)).
Proof. intros Hn (Hp & Hi & _ & Hv). by split_and!. Qed.

Lemma send_budget_witness :
  ∃ rs d', encrypt_all [str "the last one"; str "one too many"] (nearly_full, []) = (rs, (d', [])) ∧
    send_chain (replicate 32 Byte.x2a) d' ∧ dr_sendNo d' = 2 ^ 16 - 1 + 2 ∧ dr_prevSendNo d' = 0 ∧ length rs = 2%nat ∧
    ∀ i r, rs !! i = Some r →
      if 2 ^ 16 - 1 + Z.of_nat i <? 2 ^ 16 then is_Ok r = true
      else r = Err (Errorf "header numbers MUST be uint16").
Proof.
  apply (send_budget (replicate 32 Byte.x2a) nearly_full [] [str "the last one"; str "one too many"]).
  - split; [reflexivity|]. split; [discriminate|reflexivity].
  - apply keys_ok_counter; [lia|]. split; [split_and!; vm_compute; reflexivity|]. split; [reflexivity|].
    split; vm_compute; discriminate.
  - reflexivity.
Defined.
