(* ===== verification/Gob.v ===== *)
(** * Stored state (encoding/gob)

    The packages store their state with [encoding/gob]: every object is copied
    into a struct of exported fields and that struct is encoded. What the code
    relies on is the value that a stream carries: a struct is sent as the list
    of its non-zero fields, by name; a slice of elements that marshal themselves
    is sent as the list of their encodings. The bytes of a stream also contain
    type numbers that the Go run-time hands out in the order of first use, so
    the byte format is a parameter of the model, with the round trip as its
    law. *)

From Stdlib Require Import ZArith Lia.
From stdpp Require Import base list numbers option strings gmap.
From S2P Require Import Prelude.

Local Open Scope Z_scope.

(** The field values that occur: byte slices and strings, integers, booleans
    and [map[int][]byte]. *)
Inductive gob_field :=
  | GBytes (b : bytes)
  | GInt (z : Z)
  | GBool (b : bool)
  | GMap (kv : list (Z * bytes)).

Inductive gob_value :=
  | GStruct (fields : list (string * gob_field))
  | GList (elements : list bytes).

(** The wire format: [gob.NewEncoder(&buf).Encode] and
    [gob.NewDecoder(bytes.NewReader(b)).Decode]. A decoder that fails may have set
    some fields of the target before it did; these are what [gob_partial] gives. *)
Class GobWire := {
  gob_write : gob_value → bytes;
  gob_read : bytes → option gob_value;
  gob_partial : bytes → list (string * gob_field);
}.

Class GobWireLaws `{GobWire} : Prop := {
  gob_read_write : ∀ v, gob_read (gob_write v) = Some v;
  gob_write_nonempty : ∀ v, gob_write v ≠ [];
}.

(** Zero-valued fields are not sent; a non-nil map is. *)
Definition gob_zero (f : gob_field) : bool :=
  match f with
  | GBytes b => bool_decide (b = [])
  | GInt z => z =? 0
  | GBool b => negb b
  | GMap _ => false
  end.

Definition gob_struct (fields : list (string * gob_field)) : gob_value :=
  GStruct (base.filter (λ f, gob_zero f.2 = false) fields).

(** What arrives in a field of the target struct: what was sent under its name,
    or the zero value. *)
Definition gob_get (name : string) (fields : list (string * gob_field)) : option gob_field :=
  snd <$> (snd <$> list_find (λ f, f.1 = name) fields).

Definition gob_bytes (name : string) (fields : list (string * gob_field)) : bytes :=
  match gob_get name fields with Some (GBytes b) => b | _ => [] end.
Definition gob_int (name : string) (fields : list (string * gob_field)) : Z :=
  match gob_get name fields with Some (GInt z) => z | _ => 0 end.
Definition gob_bool (name : string) (fields : list (string * gob_field)) : bool :=
  match gob_get name fields with Some (GBool b) => b | _ => false end.
Definition gob_map (name : string) (fields : list (string * gob_field)) : gmap Z bytes :=
  match gob_get name fields with Some (GMap kv) => list_to_map kv | _ => ∅ end.

(** The types of the target's fields; a stream with a field of another type does
    not decode. *)
Inductive gob_type := TBytes | TInt | TBool | TMap.

Definition has_type (t : gob_type) (f : gob_field) : bool :=
  match t, f with
  | TBytes, GBytes _ | TInt, GInt _ | TBool, GBool _ | TMap, GMap _ => true
  | _, _ => false
  end.

Definition gob_typed (types : list (string * gob_type)) (fields : list (string * gob_field)) : bool :=
  forallb (λ '(name, t), match gob_get name fields with None => true | Some f => has_type t f end) types.

Section Gob.
Context `{GobWire}.

(** Decode into a struct variable, or into a slice of self-decoding elements. *)
Definition gob_read_struct (types : list (string * gob_type)) (b : bytes)
    : result (list (string * gob_field)) :=
  match gob_read b with
  | Some (GStruct fields) =>
      if gob_typed types fields then Ok fields else Err (Errorf "gob: type mismatch")
  | _ => Err (Errorf "gob: decode")
  end.

Definition gob_read_list (b : bytes) : result (list bytes) :=
  match gob_read b with
  | Some (GList l) => Ok l
  | _ => Err (Errorf "gob: decode")
  end.
End Gob.

(** ** What comes back *)

Abbreviation nonzero fields := (base.filter (λ f : string * gob_field, gob_zero f.2 = false) fields).

Lemma gob_get_nonzero name f fields :
  NoDup fields.*1 → (name, f) ∈ fields →
  gob_get name (nonzero fields) = if gob_zero f then None else Some f.
Proof.
  unfold gob_get. induction fields as [|[n g] fields IH]; intros Hnd Hin.
  { by apply not_elem_of_nil in Hin. }
  rewrite fmap_cons in Hnd. apply NoDup_cons in Hnd as [Hn Hnd].
  rewrite filter_cons. simpl. apply elem_of_cons in Hin as [Heq|Hin].
  - injection Heq as <- <-. destruct (gob_zero f) eqn:Hz; simpl.
    + enough (list_find (λ f0 : string * gob_field, f0.1 = name) (nonzero fields) = None) as -> by done.
      apply list_find_None, Forall_forall. intros [m g] Hm Heq. apply list_elem_of_filter in Hm as [_ Hm].
      simpl in Heq. subst m. apply Hn. apply list_elem_of_fmap. by exists (name, g).
    + by rewrite decide_True.
  - assert (n ≠ name) as Hne.
    { intros ->. apply Hn, list_elem_of_fmap. by exists (name, f). }
    specialize (IH Hnd Hin). destruct (gob_zero g); simpl; [done|]. rewrite decide_False by done.
    by destruct (list_find _ (nonzero fields)) as [[]|].
Qed.

Lemma gob_bytes_sent name b fields :
  NoDup fields.*1 → (name, GBytes b) ∈ fields → gob_bytes name (nonzero fields) = b.
Proof.
  intros Hnd Hin. unfold gob_bytes. rewrite (gob_get_nonzero _ _ _ Hnd Hin). simpl. by case_bool_decide.
Qed.

Lemma gob_int_sent name z fields :
  NoDup fields.*1 → (name, GInt z) ∈ fields → gob_int name (nonzero fields) = z.
Proof.
  intros Hnd Hin. unfold gob_int. rewrite (gob_get_nonzero _ _ _ Hnd Hin). simpl.
  by destruct (Z.eqb_spec z 0).
Qed.

Lemma gob_bool_sent name b fields :
  NoDup fields.*1 → (name, GBool b) ∈ fields → gob_bool name (nonzero fields) = b.
Proof.
  intros Hnd Hin. unfold gob_bool. rewrite (gob_get_nonzero _ _ _ Hnd Hin). by destruct b.
Qed.

Lemma gob_map_sent name m fields :
  NoDup fields.*1 → (name, GMap (map_to_list m)) ∈ fields → gob_map name (nonzero fields) = m.
Proof.
  intros Hnd Hin. unfold gob_map. rewrite (gob_get_nonzero _ _ _ Hnd Hin). apply list_to_map_to_list.
Qed.

(** A struct whose fields have the types of the target decodes. *)
Lemma gob_typed_sent types fields :
  NoDup fields.*1 →
  Forall (λ t, ∃ f, (t.1, f) ∈ fields ∧ has_type t.2 f = true) types →
  gob_typed types (nonzero fields) = true.
Proof.
  intros Hnd Hall. apply forallb_forall. intros [name t] Hin%list_elem_of_In.
  rewrite Forall_forall in Hall. destruct (Hall _ Hin) as (f & Hf & Ht). simpl in *.
  rewrite (gob_get_nonzero _ _ _ Hnd Hf). by destruct (gob_zero f).
Qed.

Lemma gob_read_struct_sent `{GobWireLaws} types fields :
  NoDup fields.*1 →
  Forall (λ t, ∃ f, (t.1, f) ∈ fields ∧ has_type t.2 f = true) types →
  gob_read_struct types (gob_write (gob_struct fields)) = Ok (nonzero fields).
Proof.
  intros Hnd Hall. unfold gob_read_struct. rewrite gob_read_write. simpl.
  by rewrite gob_typed_sent.
Qed.

(** Membership in the field list of a struct, by position. *)
Ltac gob_field :=
  repeat first [by apply list_elem_of_here | apply list_elem_of_further].
Ltac gob_names := apply (bool_decide_unpack _); vm_compute; exact I.
Ltac gob_types := repeat constructor; simpl; eexists; (split; [gob_field|reflexivity]).

(** ** A wire format

    A concrete instance of the parameter, to run the model with. *)
Module ToyWire.
#[global] Instance gob_field_eq_dec : EqDecision gob_field.
Proof. solve_decision. Defined.
#[global] Instance gob_value_eq_dec : EqDecision gob_value.
Proof. solve_decision. Defined.

#[global] Instance gob_field_countable : Countable gob_field :=
  inj_countable'
    (λ f, match f with
          | GBytes b => inl (inl b) | GInt z => inl (inr z)
          | GBool b => inr (inl b) | GMap kv => inr (inr kv) end)
    (λ s, match s with
          | inl (inl b) => GBytes b | inl (inr z) => GInt z
          | inr (inl b) => GBool b | inr (inr kv) => GMap kv end) ltac:(by intros []).

#[global] Instance gob_value_countable : Countable gob_value :=
  inj_countable'
    (λ v, match v with GStruct fs => inl fs | GList l => inr l end)
    (λ s, match s with inl fs => GStruct fs | inr l => GList l end) ltac:(by intros []).

Fixpoint write_pos (p : positive) : bytes :=
  match p with
  | xH => [Byte.xff]
  | xO q => Byte.x00 :: write_pos q
  | xI q => Byte.x01 :: write_pos q
  end.

Fixpoint read_pos (b : bytes) : option positive :=
  match b with
  | [Byte.xff] => Some xH
  | Byte.x00 :: b' => xO <$> read_pos b'
  | Byte.x01 :: b' => xI <$> read_pos b'
  | _ => None
  end.

Lemma read_write_pos p : read_pos (write_pos p) = Some p.
Proof. induction p as [p IH|p IH|]; simpl; [by rewrite IH..|done]. Qed.

Definition toy_wire : GobWire := {|
  gob_write v := write_pos (encode v);
  gob_read b := read_pos b ≫= decode;
  gob_partial _ := [];
|}.

Lemma toy_wire_laws : @GobWireLaws toy_wire.
Proof.
  split; simpl.
  - intros v. rewrite read_write_pos. apply decode_encode.
  - intros v. by destruct (encode v).
Qed.
End ToyWire.
