(* ===== verification/Marshal.v ===== *)
(** * Storing a Double Ratchet (src/doubleratchet/marshal.go)

    The [MarshalBinary] and [UnmarshalBinary] methods of the package, and what a
    stored and restored object can still do. *)

From Stdlib Require Import ZArith Lia.
From stdpp Require Import base list numbers option strings gmap.
From S2P Require Import Prelude Crypto ToyCrypto MsgHeader KeyBuff DhRatchet DoubleRatchet RatchetSync RatchetSafety Gob.

Local Open Scope Z_scope.

(** A byte slice field: nil is sent as an empty slice, and an empty slice
    arrives as nil. *)
Definition from_nil (b : option bytes) : bytes := default [] b.
Definition to_nil (b : bytes) : option bytes := if b is [] then None else Some b.

(** ** The structs of exported fields *)

Definition dhr_fields (dhr : dhRatchet) : list (string * gob_field) :=
  [("RootKey", GBytes (dhr_rootKey dhr)); ("DhPub", GBytes (dhr_dhPub dhr));
   ("DhPriv", GBytes (dhr_dhPriv dhr)); ("PeerDhPub", GBytes (dhr_peerDhPub dhr));
   ("IsActive", GBool (dhr_isActive dhr)); ("IsInitialized", GBool (dhr_isInitialized dhr))]%string.
Definition dhr_types : list (string * gob_type) :=
  [("RootKey", TBytes); ("DhPub", TBytes); ("DhPriv", TBytes); ("PeerDhPub", TBytes);
   ("IsActive", TBool); ("IsInitialized", TBool)]%string.

Definition kbe_fields (kbe : keyBufferElement) : list (string * gob_field) :=
  [("DhPub", GBytes (kbe_dhPub kbe)); ("MsgKeys", GMap (map_to_list (kbe_msgKeys kbe)))]%string.
Definition kbe_types : list (string * gob_type) := [("DhPub", TBytes); ("MsgKeys", TMap)]%string.

Definition dr_fields (d : DoubleRatchet) (dhr mkb : bytes) : list (string * gob_field) :=
  [("AssociatedData", GBytes (dr_associatedData d)); ("Dhr", GBytes dhr);
   ("PeerDhPub", GBytes (dr_peerDhPub d)); ("ChainKeySend", GBytes (from_nil (dr_chainKeySend d)));
   ("ChainKeyRecv", GBytes (from_nil (dr_chainKeyRecv d))); ("SendNo", GInt (dr_sendNo d));
   ("RecvNo", GInt (dr_recvNo d)); ("PrevSendNo", GInt (dr_prevSendNo d));
   ("MsgKeyBuffer", GBytes mkb)]%string.
Definition dr_types : list (string * gob_type) :=
  [("AssociatedData", TBytes); ("Dhr", TBytes); ("PeerDhPub", TBytes); ("ChainKeySend", TBytes);
   ("ChainKeyRecv", TBytes); ("SendNo", TInt); ("RecvNo", TInt); ("PrevSendNo", TInt);
   ("MsgKeyBuffer", TBytes)]%string.

(** The zero values [dhRatchet{}] and [DoubleRatchet{}]. The nil pointers of the
    latter are the zero ratchet and the empty buffer: the code replaces both
    before it reads them. *)
Definition dhr_zero : dhRatchet := DhRatchet [] [] [] [] false false.
Definition dr_zero : DoubleRatchet :=
  mkDoubleRatchet [] dhr_zero [] None None 0 0 0 newKeyBuffer.

Section Marshal.
Context `{GobWire}.

(** [dhRatchet.MarshalBinary] *)
Definition dhr_MarshalBinary (dhr : dhRatchet) : bytes := gob_write (gob_struct (dhr_fields dhr)).

(** The assignments of [dhRatchet.UnmarshalBinary], from the decoded struct *)
Definition dhr_of (o : list (string * gob_field)) : dhRatchet :=
  {| dhr_rootKey := gob_bytes "RootKey" o; dhr_dhPub := gob_bytes "DhPub" o;
     dhr_dhPriv := gob_bytes "DhPriv" o; dhr_peerDhPub := gob_bytes "PeerDhPub" o;
     dhr_isActive := gob_bool "IsActive" o; dhr_isInitialized := gob_bool "IsInitialized" o |}.

(** [dhRatchet.UnmarshalBinary]: the assignments are made also when decoding
    failed on the way. *)
Definition dhr_UnmarshalBinary (b : bytes) : ST dhRatchet unit := λ dhr,
  if (length b =? 0)%nat then (Ok tt, dhr)
  else
    match gob_read_struct dhr_types b with
    | Ok o => (Ok tt, dhr_of o)
    | Err er => (Err er, dhr_of (gob_partial b))
    | Panic => (Panic, dhr)
    end.

(** [keyBufferElement.MarshalBinary] and [keyBufferElement.UnmarshalBinary] *)
Definition kbe_MarshalBinary (kbe : keyBufferElement) : bytes := gob_write (gob_struct (kbe_fields kbe)).

Definition kbe_UnmarshalBinary (b : bytes) : result keyBufferElement :=
  o ← gob_read_struct kbe_types b;
  Ok {| kbe_dhPub := gob_bytes "DhPub" o; kbe_msgKeys := gob_map "MsgKeys" o |}.

(** [keyBuffer.MarshalBinary]: the used slots in ring order *)
Definition kb_MarshalBinary (kb : keyBuffer) : bytes :=
  gob_write (GList (kbe_MarshalBinary <$> omap id (kb_buff kb))).

(** [keyBuffer.UnmarshalBinary]: the loop assigns to the current slot; the result
    of [kb.buff.Prev()] is not used, so the current slot stays the same. *)
Definition kb_UnmarshalBinary (b : bytes) (kb : keyBuffer) : result keyBuffer :=
  if (length b =? 0)%nat then Ok kb
  else
    l ← gob_read_list b;
    lis ← foldr (λ x acc, kbe ← kbe_UnmarshalBinary x; rest ← acc; Ok (kbe :: rest)) (Ok []) l;
    Ok (foldl (λ kb kbe, KeyBuffer (ring_set_value kbe (kb_buff kb))) kb lis).

(** [DoubleRatchet.MarshalBinary] *)
Definition MarshalBinary (d : DoubleRatchet) : bytes :=
  gob_write (gob_struct (dr_fields d (dhr_MarshalBinary (dr_dhr d)) (kb_MarshalBinary (dr_msgKeyBuffer d)))).

(** [DoubleRatchet.UnmarshalBinary]; [prevSendNo] is not assigned *)
Definition UnmarshalBinary (b : bytes) : ST DoubleRatchet unit := λ d,
  if (length b =? 0)%nat then (Ok tt, d)
  else
    match gob_read_struct dr_types b with
    | Ok o =>
        let '(r, dhr) := dhr_UnmarshalBinary (gob_bytes "Dhr" o) dhr_zero in
        let d1 kb := {| dr_associatedData := gob_bytes "AssociatedData" o; dr_dhr := dhr;
                        dr_peerDhPub := gob_bytes "PeerDhPub" o;
                        dr_chainKeySend := to_nil (gob_bytes "ChainKeySend" o);
                        dr_chainKeyRecv := to_nil (gob_bytes "ChainKeyRecv" o);
                        dr_sendNo := gob_int "SendNo" o; dr_recvNo := gob_int "RecvNo" o;
                        dr_prevSendNo := dr_prevSendNo d; dr_msgKeyBuffer := kb |} in
        match r with
        | Ok _ =>
            match kb_UnmarshalBinary (gob_bytes "MsgKeyBuffer" o) newKeyBuffer with
            | Ok kb => (Ok tt, d1 kb)
            | Err er => (Err er, d1 newKeyBuffer)
            | Panic => (Panic, d)
            end
        | Err er => (Err er, d1 (dr_msgKeyBuffer d))
        | Panic => (Panic, d)
        end
    | Err er => (Err er, d)
    | Panic => (Panic, d)
    end.
End Marshal.

(** ** What is restored *)

(** The buffer that comes back: the oldest chain only. *)
Definition restored_buffer (kb : keyBuffer) : keyBuffer :=
  match last (omap id (kb_buff kb)) with
  | Some kbe => KeyBuffer (ring_set_value kbe (kb_buff newKeyBuffer))
  | None => newKeyBuffer
  end.

Definition restored (prevSendNo : Z) (d : DoubleRatchet) : DoubleRatchet :=
  set_prevSendNo prevSendNo (set_msgKeyBuffer (restored_buffer (dr_msgKeyBuffer d)) d).

(** Chain keys are nil or not empty. *)
Definition keys_nonempty (d : DoubleRatchet) : Prop :=
  dr_chainKeySend d ≠ Some [] ∧ dr_chainKeyRecv d ≠ Some [].

Section Restored.
Context `{GobWireLaws}.

Lemma to_from_nil b : b ≠ Some [] → to_nil (from_nil b) = b.
Proof. by destruct b as [[]|]. Qed.

Lemma written_nonempty v : (length (gob_write v) =? 0)%nat = false.
Proof. apply Nat.eqb_neq. intros Hl%nil_length_inv. by eapply gob_write_nonempty. Qed.

Lemma dhr_roundtrip dhr r0 : dhr_UnmarshalBinary (dhr_MarshalBinary dhr) r0 = (Ok tt, dhr).
Proof.
  unfold dhr_UnmarshalBinary, dhr_MarshalBinary, dhr_of. rewrite written_nonempty.
  rewrite gob_read_struct_sent by (gob_names || gob_types).
  do 2 f_equal. destruct dhr; unfold dhr_fields; simpl.
  f_equal; (apply gob_bytes_sent || apply gob_bool_sent); gob_names || gob_field.
Qed.

Lemma kbe_roundtrip kbe : kbe_UnmarshalBinary (kbe_MarshalBinary kbe) = Ok kbe.
Proof.
  unfold kbe_UnmarshalBinary, kbe_MarshalBinary.
  rewrite gob_read_struct_sent by (gob_names || gob_types).
  unfold mbind, result_bind. f_equal. destruct kbe; unfold kbe_fields; simpl.
  f_equal; [apply gob_bytes_sent|apply gob_map_sent]; gob_names || gob_field.
Qed.

Lemma kbes_roundtrip l :
  foldr (λ x acc, kbe ← kbe_UnmarshalBinary x; rest ← acc; Ok (kbe :: rest)) (Ok [])
    (kbe_MarshalBinary <$> l) = Ok l.
Proof.
  induction l as [|kbe l IH]; [done|]. rewrite fmap_cons. simpl. by rewrite IH, kbe_roundtrip.
Qed.

(** Assigning one after the other to the same slot keeps the last. *)
Lemma assign_last (lis : list keyBufferElement) kb :
  kb_buff kb ≠ [] →
  foldl (λ kb kbe, KeyBuffer (ring_set_value kbe (kb_buff kb))) kb lis =
    match last lis with Some kbe => KeyBuffer (ring_set_value kbe (kb_buff kb)) | None => kb end.
Proof.
  revert kb. induction lis as [|kbe lis IH]; intros [r] Hr; [done|]. destruct r as [|x r]; [done|].
  simpl foldl. rewrite IH by done. rewrite last_cons. by destruct (last lis).
Qed.

Lemma kb_roundtrip kb :
  kb_UnmarshalBinary (kb_MarshalBinary kb) newKeyBuffer = Ok (restored_buffer kb).
Proof.
  unfold kb_UnmarshalBinary, kb_MarshalBinary. rewrite written_nonempty.
  unfold gob_read_list. rewrite gob_read_write. unfold mbind, result_bind at 1.
  pose proof (kbes_roundtrip (omap id (kb_buff kb))) as Hl. unfold mbind in Hl. rewrite Hl.
  simpl result_bind. rewrite assign_last by done. unfold restored_buffer. by destruct (last _).
Qed.

Lemma dr_names d x y : NoDup (dr_fields d x y).*1.
Proof. unfold dr_fields. cbn. gob_names. Qed.

Lemma dr_bytes_sent d x y i name b :
  dr_fields d x y !! i = Some (name, GBytes b) → gob_bytes name (nonzero (dr_fields d x y)) = b.
Proof. intros Hi. apply gob_bytes_sent; [apply dr_names|by eapply list_elem_of_lookup_2]. Qed.

Lemma dr_int_sent d x y i name z :
  dr_fields d x y !! i = Some (name, GInt z) → gob_int name (nonzero (dr_fields d x y)) = z.
Proof. intros Hi. apply gob_int_sent; [apply dr_names|by eapply list_elem_of_lookup_2]. Qed.

Lemma UnmarshalBinary_Marshal d d0 :
  keys_nonempty d → UnmarshalBinary (MarshalBinary d) d0 = (Ok tt, restored (dr_prevSendNo d0) d).
Proof.
  intros [Hs Hr]. unfold UnmarshalBinary, MarshalBinary. rewrite written_nonempty.
  pose proof (dhr_roundtrip (dr_dhr d) dhr_zero) as Hx. pose proof (kb_roundtrip (dr_msgKeyBuffer d)) as Hy.
  revert Hx Hy. generalize (dhr_MarshalBinary (dr_dhr d)) (kb_MarshalBinary (dr_msgKeyBuffer d)).
  intros x y Hx Hy.
  rewrite gob_read_struct_sent; [|apply dr_names|unfold dr_types, dr_fields; gob_types].
  rewrite (dr_bytes_sent d x y 1 "Dhr" x), (dr_bytes_sent d x y 8 "MsgKeyBuffer" y) by done.
  rewrite Hx, Hy.
  rewrite (dr_bytes_sent d x y 0 "AssociatedData" (dr_associatedData d)),
    (dr_bytes_sent d x y 2 "PeerDhPub" (dr_peerDhPub d)),
    (dr_bytes_sent d x y 3 "ChainKeySend" (from_nil (dr_chainKeySend d))),
    (dr_bytes_sent d x y 4 "ChainKeyRecv" (from_nil (dr_chainKeyRecv d))),
    (dr_int_sent d x y 5 "SendNo" (dr_sendNo d)), (dr_int_sent d x y 6 "RecvNo" (dr_recvNo d)) by done.
  by rewrite !to_from_nil.
Qed.
End Restored.

Lemma restored_buffer_repr kb cs :
  kb_repr kb cs → kb_repr (restored_buffer kb) (option_list (last cs)).
Proof.
  intros Hr. unfold restored_buffer. rewrite (used_slots _ _ Hr).
  destruct (last cs) as [c|]; [|apply newKeyBuffer_repr].
  split_and!; [done|vm_compute; lia|]. apply NoDup_singleton.
Qed.

Lemma restored_bufless p d : bufless (restored p d) = bufless d.
Proof. done. Qed.

(** The skipped messages of the current chain whose keys do not come back. *)
Definition cached_numbers (kb : keyBuffer) (p : bytes) : list Z :=
  match elementFind kb p ≫= element_at kb with
  | Some kbe => (map_to_list (kbe_msgKeys kbe)).*1
  | None => []
  end.

Definition lost_numbers (d : DoubleRatchet) : list Z :=
  base.filter (λ n, n < dr_recvNo d ∧ is_Ok (find (restored_buffer (dr_msgKeyBuffer d)) (dr_peerDhPub d) n) = false)
    (cached_numbers (dr_msgKeyBuffer d) (dr_peerDhPub d)).

Lemma find_cached kb p n k : find kb p n = Ok k → n ∈ cached_numbers kb p.
Proof.
  unfold find, cached_numbers. destruct (elementFind kb p) as [slot|]; [|done]. simpl.
  destruct (element_at kb slot) as [kbe|]; [|done]. simpl.
  destruct (kbe_msgKeys kbe !! n) as [k'|] eqn:Hk; [|done]. intros _.
  apply list_elem_of_fmap. exists (n, k'). split; [done|]. by apply elem_of_map_to_list.
Qed.

Lemma cached_find kb p n : n ∈ cached_numbers kb p → ∃ k, find kb p n = Ok k.
Proof.
  unfold find, cached_numbers. destruct (elementFind kb p) as [slot|]; simpl; [|by intros ?%not_elem_of_nil].
  destruct (element_at kb slot) as [kbe|]; simpl; [|by intros ?%not_elem_of_nil].
  intros ([n' k] & -> & Hk)%list_elem_of_fmap. apply elem_of_map_to_list in Hk. exists k. simpl. by rewrite Hk.
Qed.

Lemma lookup_last p n cs c k k' :
  NoDup (kbe_dhPub <$> cs) → last cs = Some c →
  Spec.lookup p n [c] = Some k' → Spec.lookup p n cs = Some k → k' = k.
Proof.
  intros Hnd Hl. apply last_Some in Hl as [l ->]. rewrite lookup_cons. case_decide as Hp; [|done].
  rewrite fmap_app in Hnd. apply NoDup_app in Hnd as (_ & Hdis & _).
  intros Hk. induction l as [|x l IH]; simpl app; rewrite lookup_cons; [by case_decide; congruence|].
  rewrite decide_False; [apply IH; intros y Hy; apply Hdis; by right|].
  intros Hx. apply (Hdis (kbe_dhPub x)); [by left|]. apply list_elem_of_singleton. congruence.
Qed.

(** Storing and restoring is a step of the two-party system. *)
Lemma restored_forgets d cs p :
  kb_repr (dr_msgKeyBuffer d) cs → 0 <= p →
  forgets d p (restored_buffer (dr_msgKeyBuffer d)) (lost_numbers d).
Proof.
  intros Hkb Hp. pose proof (restored_buffer_repr _ _ Hkb) as Hr. split_and!; [done|by eexists|].
  intros n k Hn Hlt Hf. pose proof (find_cached _ _ _ _ Hf) as Hc.
  destruct (find (restored_buffer _) _ n) as [k'|er|] eqn:Hf'.
  - f_equal. rewrite (find_repr _ _ _ _ Hkb) in Hf. rewrite (find_repr _ _ _ _ Hr) in Hf'.
    destruct (Spec.lookup _ _ cs) as [k1|] eqn:H1; [|done].
    destruct (Spec.lookup _ _ (option_list (last cs))) as [k2|] eqn:H2; [|done].
    destruct (last cs) as [c|] eqn:Hl; [|done]. simplify_eq. by eapply lookup_last; [apply Hkb|..].
  - exfalso. apply Hn, list_elem_of_filter. by rewrite Hf'.
  - by rewrite (find_repr _ _ _ _ Hr) in Hf'; destruct (Spec.lookup _ _ _).
Qed.

Section RestoredSession.
Context `{RatchetCryptoLaws} `{GobWireLaws}.

Lemma conv_buffer P Q : conv P Q → ∃ cs, kb_repr (dr_msgKeyBuffer (p_dr P)) cs.
Proof.
  intros [(CKn & back & old & Ha)|(CKn & back & old & Ha)].
  - pose proof (ah_back _ _ _ _ _ Ha) as Hb. destruct back as [CK|].
    + destruct Hb as ((_ & cs & Hcs & _) & _). by exists cs.
    + by destruct Hb as ((_ & _ & Hcs) & _).
  - pose proof (ah_old _ _ _ _ _ Ha) as Hb. destruct old as [CK|].
    + destruct Hb as ((_ & cs & Hcs & _) & _). by exists cs.
    + by destruct Hb as ((_ & _ & Hcs) & _).
Qed.

Lemma reachable_buffer A B :
  reachable (A, B) ∨ reachable (B, A) → ∃ cs, kb_repr (dr_msgKeyBuffer (p_dr A)) cs.
Proof.
  intros [[Hi|Hc]%reachable_inv|[Hi|Hc]%reachable_inv]; simpl in *.
  - by destruct (in_recvA _ _ Hi) as (_ & _ & Hcs).
  - by eapply conv_buffer.
  - by destruct (in_recvB _ _ Hi) as (_ & _ & Hcs).
  - by eapply conv_buffer, conv_sym.
Qed.

(** The chain keys of a reachable system can be stored. *)
Lemma chain_nonempty CK n : length CK = 32%nat → Some (ck_at CK n) ≠ Some [].
Proof. intros HCK [= Hnil]. pose proof (ck_at_length CK n HCK) as Hl. by rewrite Hnil in Hl. Qed.

Lemma recv_nonempty CK P : recv_ok CK P → dr_chainKeyRecv (p_dr P) ≠ Some [].
Proof. intros ((HCK & _ & ->) & _). by apply chain_nonempty. Qed.

Lemma send_nonempty CK d : send_chain CK d → dr_chainKeySend d ≠ Some [].
Proof. intros (HCK & _ & ->). by apply chain_nonempty. Qed.

Lemma conv_keys P Q : conv P Q → keys_nonempty (p_dr P).
Proof.
  intros [(CKn & back & old & Ha)|(CKn & back & old & Ha)];
    pose proof (ah_send _ _ _ _ _ Ha) as Hs; pose proof (ah_back _ _ _ _ _ Ha) as Hb;
    pose proof (ah_old _ _ _ _ _ Ha) as Ho.
  - split; [by eapply send_nonempty|]. destruct back as [CK|].
    + destruct Hb as (Hr & _). by eapply recv_nonempty.
    + destruct Hb as ((-> & _) & _). done.
  - split.
    + destruct back as [CK|]; [destruct Hb as (_ & Hq & _); by eapply send_nonempty|].
      destruct Hb as (_ & -> & _). done.
    + destruct old as [CK|]; [destruct Ho as (Hr & _); by eapply recv_nonempty|].
      destruct Ho as ((-> & _) & _). done.
Qed.

Lemma reachable_keys A B : reachable (A, B) ∨ reachable (B, A) → keys_nonempty (p_dr A).
Proof.
  intros [[Hi|Hc]%reachable_inv|[Hi|Hc]%reachable_inv]; simpl in *.
  - destruct (in_send _ _ Hi) as [Hs _], (in_recvA _ _ Hi) as (Hr & _). unfold keys_nonempty. by rewrite Hs, Hr.
  - by eapply conv_keys.
  - destruct (in_send _ _ Hi) as [_ Hs], (in_recvB _ _ Hi) as (Hr & _). unfold keys_nonempty. by rewrite Hs, Hr.
  - by eapply conv_keys, conv_sym.
Qed.

(** The party after its object was stored and read into a fresh object. *)
Definition restored_party (P : party) (e' : entropy) : party :=
  Party (restored 0 (p_dr P)) e' (p_out P) (lost_numbers (p_dr P) ++ p_seen P) (p_used P).

Lemma reachable_restored A B e' :
  (reachable (A, B) → reachable (restored_party A e', B)) ∧
  (reachable (B, A) → reachable (B, restored_party A e')).
Proof.
  split; intros Hr.
  - destruct (reachable_buffer A B) as [cs Hcs]; [by left|]. eapply reachable_step; [exact Hr|].
    apply sys_left, step_forget. by eapply restored_forgets.
  - destruct (reachable_buffer A B) as [cs Hcs]; [by right|]. eapply reachable_step; [exact Hr|].
    apply sys_right, step_forget. by eapply restored_forgets.
Qed.

(** C14. Storing and restoring. [UnmarshalBinary] reads back what
    [MarshalBinary] wrote without error and restores every field except two:
    [prevSendNo] keeps the value it has in the receiver, and of the cached
    chains of message keys only the oldest one survives. *)
Theorem store_restore (d d0 : DoubleRatchet) (cs : Spec.chains)
  (Hkeys : keys_nonempty d) (Hkb : kb_repr (dr_msgKeyBuffer d) cs) :
  ∃ kb, UnmarshalBinary (MarshalBinary d) d0 =
          (Ok tt, set_prevSendNo (dr_prevSendNo d0) (set_msgKeyBuffer kb d)) ∧
        kb_repr kb (option_list (last cs)).
Proof.
  exists (restored_buffer (dr_msgKeyBuffer d)).
  split; [by apply UnmarshalBinary_Marshal|by apply restored_buffer_repr].
Qed.

Lemma forgot_restored d : restored 0 d = forgot 0 (restored_buffer (dr_msgKeyBuffer d)) d.
Proof. reflexivity. Qed.

(** What may be delivered may be delivered after storing, unless its key was lost. *)
Lemma restored_deliverable A B m :
  deliverable A B m → ¬ (m_pub m = dr_peerDhPub (p_dr A) ∧ m_no m ∈ lost_numbers (p_dr A)) →
  deliverable (restored_party A (p_ent A)) B m.
Proof.
  intros [Hin Hpub Hns Hmax|Hin Hpub Hne Hprev Hno Hf] Hl.
  - apply deliver_current; try done. simpl. intros [?|?]%elem_of_app; auto.
  - by apply deliver_next.
Qed.

(** C13. A restored session goes on. In every reachable system either party can be
    stored and read into a fresh object. That object is the old one but for
    [prevSendNo] and the buffer of skipped keys, and decrypts each message
    that might have been delivered before, except that a skipped message
    of the current chain needs its key in the buffer that came back. The system
    with the restored party is reachable again, so that all of this holds
    however often parties are stored; what is recorded as lost there
    are the numbers of skipped messages whose keys were cached before and did
    not come back. *)
Theorem restored_session_delivers (A B : party) (d1 : DoubleRatchet)
  (Hreach : reachable (A, B) ∨ reachable (B, A)) (Hkeys : keys_nonempty (p_dr A))
  (Hrest : UnmarshalBinary (MarshalBinary (p_dr A)) dr_zero = (Ok tt, d1)) :
  d1 = forgot 0 (dr_msgKeyBuffer d1) (p_dr A) ∧
  (∀ m, deliverable A B m →
     (m_pub m = dr_peerDhPub (p_dr A) → m_no m < dr_recvNo (p_dr A) →
      is_Ok (find (dr_msgKeyBuffer d1) (m_pub m) (m_no m)) = true) →
     ∃ spare s', Decrypt (m_ct m) (d1, p_ent A) = (Ok (GSlice (m_pt m) spare), s')) ∧
  ∃ A' lost, (reachable (A', B) ∨ reachable (B, A')) ∧
    A' = Party d1 (p_ent A) (p_out A) (lost ++ p_seen A) (p_used A) ∧
    ∀ n, n ∈ lost → n < dr_recvNo (p_dr A) ∧
      is_Ok (find (dr_msgKeyBuffer (p_dr A)) (dr_peerDhPub (p_dr A)) n) = true ∧
      is_Ok (find (dr_msgKeyBuffer d1) (dr_peerDhPub d1) n) = false.
Proof.
  rewrite UnmarshalBinary_Marshal in Hrest by done. injection Hrest as <-.
  assert (reachable (restored_party A (p_ent A), B) ∨ reachable (B, restored_party A (p_ent A))) as Hr
    by (destruct Hreach; [left|right]; by apply reachable_restored).
  split; [apply forgot_restored|]. split.
  - intros m Hdel Hkey. apply (reachable_decrypts (restored_party A (p_ent A)) B m Hr).
    apply restored_deliverable; [done|]. intros [Hpub [[Hlt Hf] _]%list_elem_of_filter].
    specialize (Hkey Hpub Hlt). simpl in Hkey. rewrite Hpub in Hkey. by rewrite Hf in Hkey.
  - exists (restored_party A (p_ent A)), (lost_numbers (p_dr A)). split; [done|]. split; [done|].
    intros n [[Hlt Hf] Hc]%list_elem_of_filter. split_and!; [done| |done].
    by destruct (cached_find _ _ _ Hc) as [k ->].
Qed.

(** A message that was skipped before the session was stored is lost, unless
    its chain is the oldest cached one: its key is not found after restoring,
    although it was there before. *)
Theorem restore_forgets_recent_chains (d d0 d1 : DoubleRatchet) (cs : Spec.chains)
  (oldest : keyBufferElement) (p : bytes) (n : Z)
  (Hkeys : keys_nonempty d) (Hkb : kb_repr (dr_msgKeyBuffer d) cs)
  (Hold : last cs = Some oldest) (Hp : p ≠ kbe_dhPub oldest)
  (Hrest : UnmarshalBinary (MarshalBinary d) d0 = (Ok tt, d1)) :
  find (dr_msgKeyBuffer d1) p n = Err (Errorf "public key is not cached").
Proof.
  rewrite UnmarshalBinary_Marshal in Hrest by done. injection Hrest as <-. simpl.
  pose proof (restored_buffer_repr _ _ Hkb) as Hr. rewrite Hold in Hr. simpl in Hr.
  rewrite (find_repr _ _ _ _ Hr), lookup_cons, !decide_False; [done| |done].
  intros Hk. by apply list_elem_of_singleton in Hk.
Qed.
End RestoredSession.

(** ** Instances *)

#[local] Existing Instances toy_ratchet_crypto toy_ratchet_laws ToyWire.toy_wire ToyWire.toy_wire_laws.

Lemma store_restore_witness :
  ∃ kb, UnmarshalBinary (MarshalBinary (p_dr Toy.bob1)) dr_zero =
          (Ok tt, set_prevSendNo 0 (set_msgKeyBuffer kb (p_dr Toy.bob1))) ∧
        kb_repr kb (option_list (last (omap id (kb_buff (dr_msgKeyBuffer (p_dr Toy.bob1)))))).
Proof.
  apply (store_restore (p_dr Toy.bob1) dr_zero).
  - split; vm_compute; discriminate.
  - split_and!; [vm_compute; reflexivity|vm_compute; lia|].
    apply (bool_decide_unpack _). vm_compute. exact I.
Defined.

(** Bob has skipped two messages and is stored: the first one still decrypts. *)
Lemma restored_session_delivers_witness :
  ∃ spare s', Decrypt (m_ct (Toy.sent_at 0 Toy.alice3)) (restored 0 (p_dr Toy.bob1), p_ent Toy.bob1) =
    (Ok (GSlice (str "one") spare), s').
Proof.
  rewrite <-Toy.first_plaintext.
  refine (proj1 (proj2 (restored_session_delivers Toy.bob1 Toy.alice3 (restored 0 (p_dr Toy.bob1)) _ _ _)) _ _ _).
  - right. apply Toy.bob1_reachable.
  - split; vm_compute; discriminate.
  - vm_compute. reflexivity.
  - exact Toy.first_deliverable.
  - intros _ _. vm_compute. reflexivity.
Defined.
