(* ===== verification/Liveness.v ===== *)
(** * Progress of a conversation

    RatchetSync shows that what may be delivered is decrypted. Here: two parties
    that have received all of each other's messages stay so when one of them
    sends and the other receives, and the message always may be delivered. What
    it takes is random bytes for new keys and room in the 16-bit counters. *)

From Stdlib Require Import ZArith Lia.
From stdpp Require Import base list numbers option strings.
From S2P Require Import Prelude Crypto MsgHeader Primitives KeyBuff DhRatchet DoubleRatchet RatchetSync Gob Marshal.

Local Open Scope Z_scope.

Section Liveness.
Context `{RatchetCryptoLaws}.

(** [S] has made a DH step, on which it sent nothing yet, and nothing is on its
    way in either direction; nothing was ever skipped. *)
Record synced (S R : party) : Prop := {
  sy_ahead : ∃ CKn CK old, ahead S R CKn (Some CK) old;
  sy_first : dr_sendNo (p_dr S) = 0;
  sy_prev : dr_prevSendNo (p_dr S) <= dr_recvNo (p_dr R);
  sy_back : dr_sendNo (p_dr R) = dr_recvNo (p_dr S);
  sy_seen : Forall (λ n, n < dr_recvNo (p_dr S)) (p_seen S);
  sy_buffers : dr_msgKeyBuffer (p_dr S) = newKeyBuffer ∧ dr_msgKeyBuffer (p_dr R) = newKeyBuffer;
}.

Definition in_step (P Q : party) : Prop := synced P Q ∨ synced Q P.

Lemma in_step_sym P Q : in_step P Q → in_step Q P.
Proof. intros [?|?]; [by right|by left]. Qed.

(** There is room for [n] more messages. *)
Definition room (n : nat) (d : DoubleRatchet) : Prop :=
  dr_sendNo d + Z.of_nat n <= 2 ^ 16 ∧ dr_prevSendNo d + Z.of_nat n <= 2 ^ 16.

Lemma room_less n d : room (S n) d → room n d.
Proof. unfold room. lia. Qed.

(** The tape holds [k] new keys. *)
Definition tape_key (e : entropy) : bytes := (dhKeyPair e).1.1.1.

Lemma tape_key_priv e : (32 <= length e)%nat → x25519 (take 32 e) basepoint = Some (tape_key e).
Proof.
  intros He. destruct (dhKeyPair_ok e He) as (pub & Hkp & (_ & _ & Hp)). unfold tape_key. by rewrite Hkp.
Qed.

Fixpoint fresh_tape (k : nat) (used : list bytes) (e : entropy) : Prop :=
  match k with
  | O => True
  | S k' => (32 <= length e)%nat ∧ (tape_key e ∉ used) ∧ fresh_tape k' (tape_key e :: used) (drop 32 e)
  end.

Lemma fresh_tape_mono k used used' e :
  (∀ x, x ∈ used' → x ∈ used) → fresh_tape k used e → fresh_tape k used' e.
Proof.
  revert used used' e. induction k as [|k IH]; intros used used' e Hsub; [done|].
  intros (Hl & Hn & Hf). split_and!; [done|auto|]. eapply IH; [|exact Hf].
  intros x [->|Hx]%elem_of_cons; [by left|right; auto].
Qed.

Lemma fresh_tape_less k used e : fresh_tape (S k) used e → fresh_tape k used e.
Proof.
  revert used e. induction k as [|k IH]; intros used e; [done|].
  intros (Hl & Hn & Hf). split_and!; [done..|]. by apply IH.
Qed.

Lemma fresh_tape_key k P : fresh_tape (S k) (p_used P) (p_ent P) → fresh_key P.
Proof. by intros (Hl & Hn & _). Qed.

(** ** Sending *)

Lemma in_step_can_send P Q n : in_step P Q → room (S n) (p_dr P) → can_send (p_dr P).
Proof.
  intros Hs [Hr1 Hr2]. unfold can_send. split; [|lia].
  destruct Hs as [[(CKn & CK & old & Ha) _ _ _ _ _]|[(CKn & CK & old & Ha) _ _ _ _ _]].
  - destruct (ah_send _ _ _ _ _ Ha) as (_ & _ & ->). done.
  - destruct (ah_back _ _ _ _ _ Ha) as (_ & (_ & _ & ->) & _). done.
Qed.

Lemma ahead_sends S R CKn back old m S' :
  ahead S R CKn back old → sends S m S' →
  ahead S' R CKn back old ∧ p_dr S' = sent CKn (p_dr S) ∧ p_ent S' = p_ent S ∧
  m = Msg (p_pub S) (dr_prevSendNo (p_dr S)) (dr_sendNo (p_dr S)) (m_pt m) (m_ct m) ∧
  p_out S' = m :: p_out S ∧ p_seen S' = p_seen S ∧ p_used S' = p_pub S :: p_used S.
Proof.
  intros Ha (Henc & Hm & HS). pose proof (ahead_send _ _ _ _ _ _ _ _ _ Ha Henc) as Ha'.
  destruct (Encrypt_sent CKn (m_pt m) (m_ct m) (p_dr S) (p_ent S) _ _ (ah_send _ _ _ _ _ Ha) (ah_keysS _ _ _ _ _ Ha) Henc)
    as (Hd & He & _).
  rewrite <-Hm, <-HS in Ha'. split; [done|]. split; [done|]. split; [done|].
  split; [rewrite Hm at 1; by rewrite Hd, sent_msg_eq|]. rewrite HS. simpl. unfold used_after. by rewrite Hd.
Qed.

Lemma behind_sends S R CKn CK old m R' :
  ahead S R CKn (Some CK) old → sends R m R' →
  ahead S R' CKn (Some CK) old ∧ p_dr R' = sent CK (p_dr R) ∧ p_ent R' = p_ent R ∧
  m = Msg (p_pub R) (dr_prevSendNo (p_dr R)) (dr_sendNo (p_dr R)) (m_pt m) (m_ct m) ∧
  p_out R' = m :: p_out R ∧ p_seen R' = p_seen R ∧ p_used R' = p_pub R :: p_used R.
Proof.
  intros Ha (Henc & Hm & HR). pose proof (behind_send _ _ _ _ _ _ _ _ _ Ha Henc) as Ha'.
  destruct (ah_back _ _ _ _ _ Ha) as (_ & HsR & _).
  destruct (Encrypt_sent CK (m_pt m) (m_ct m) (p_dr R) (p_ent R) _ _ HsR (ah_keysR _ _ _ _ _ Ha) Henc)
    as (Hd & He & _).
  rewrite <-Hm, <-HR in Ha'. split; [done|]. split; [done|]. split; [done|].
  split; [rewrite Hm at 1; by rewrite Hd, sent_msg_eq|]. rewrite HR. simpl. unfold used_after. by rewrite Hd.
Qed.

(** ** One message *)

(** The party that is ahead sends the first message of its new chain. *)
Lemma exchange_next S R m S' :
  synced S R → fresh_key R → sends S m S' →
  deliverable R S' m ∧ ∀ R', receives R m R' →
    synced R' S' ∧ p_ent R' = drop 32 (p_ent R) ∧ p_used R' = tape_key (p_ent R) :: p_used R ∧
    dr_sendNo (p_dr R') = 0 ∧ dr_prevSendNo (p_dr R') = dr_sendNo (p_dr R).
Proof.
  intros [(CKn & CK & old & Ha) Hfirst Hprev Hback Hseen [HbS HbR]] Hfresh Hsend.
  destruct (ahead_sends _ _ _ _ _ _ _ Ha Hsend) as (Ha' & Hd & He & Hm & Hout & Hsn & Hus).
  assert (m_pub m = p_pub S') as Hpub by (by rewrite Hm, Hd).
  assert (m_no m = 0) as Hno by (by rewrite Hm).
  assert (m_prev m <= dr_recvNo (p_dr R)) as Hp by (by rewrite Hm).
  assert (m ∈ p_out S') as Hin by (rewrite Hout; by left).
  destruct (Decrypt_next S' R CKn (Some CK) old m) as (spare & d' & e' & CKn' & Hdec & Har & Hs0 & Hp0 & Hr0 & He' & Hpk & Hkb & _);
    [done..|unfold maxSkipElements; lia|unfold maxSkipElements; lia|done|].
  split. { apply deliver_next; [done|done| |unfold maxSkipElements; lia..|done]. rewrite Hpub. apply not_eq_sym, Ha'. }
  intros R' [[r Hdec'] HR]. rewrite Hdec in Hdec'. injection Hdec' as _ Hdd Hee.
  rewrite Hdd, Hee in *. unfold seen_after in HR.
  rewrite bool_decide_eq_false_2 in HR by (rewrite Hpub; apply not_eq_sym, Ha').
  split; [|by rewrite HR; simpl; unfold used_after; rewrite Hpk].
  rewrite HR. split; simpl.
  - by exists CKn', CKn, (Some CK).
  - exact Hs0.
  - rewrite Hp0, Hback, Hd. done.
  - rewrite Hr0, Hd, Hno. simpl. by rewrite Hfirst.
  - apply Forall_singleton. lia.
  - split; [|by rewrite Hd]. by rewrite Hkb.
Qed.

(** The other party sends on its current chain. *)
Lemma exchange_current S R m R' :
  synced S R → sends R m R' →
  deliverable S R' m ∧ ∀ S', receives S m S' →
    synced S' R' ∧ p_ent S' = p_ent S ∧ p_used S' = p_pub S :: p_used S ∧
    dr_sendNo (p_dr S') = dr_sendNo (p_dr S) ∧ dr_prevSendNo (p_dr S') = dr_prevSendNo (p_dr S).
Proof.
  intros [(CKn & CK & old & Ha) Hfirst Hprev Hback Hseen [HbS HbR]] Hsend.
  destruct (behind_sends _ _ _ _ _ _ _ Ha Hsend) as (Ha' & Hd & He & Hm & Hout & Hsn & Hus).
  assert (m_pub m = dr_peerDhPub (p_dr S)) as Hpub by (rewrite Hm; symmetry; apply Ha).
  assert (m_no m = dr_recvNo (p_dr S)) as Hno by (by rewrite Hm).
  assert (m_no m ∉ p_seen S) as Hns.
  { intros Hi. eapply Forall_forall in Hseen; [|exact Hi]. simpl in Hseen. lia. }
  assert (m ∈ p_out R') as Hin by (rewrite Hout; by left).
  destruct (ahead_recv S R' CKn (Some CK) old m) as (spare & d' & e' & Hdec & Har & He' & Hpk & Hs0 & Hp0 & Hr0 & _);
    [done..|unfold maxSkipElements; lia|].
  split. { apply deliver_current; [done..|unfold maxSkipElements; lia]. }
  intros S' [[r Hdec'] HS]. rewrite Hdec in Hdec'. injection Hdec' as _ Hdd Hee.
  rewrite Hdd, Hee in *. unfold seen_after in HS. rewrite bool_decide_eq_true_2 in HS by done.
  destruct Hr0 as [Hr0 Hkb]; [done|].
  split; [|by rewrite HS; simpl; unfold used_after; rewrite Hpk].
  rewrite HS. split; simpl.
  - by exists CKn, CK, old.
  - congruence.
  - rewrite Hp0, Hd. done.
  - rewrite Hr0, Hd, Hno. simpl. lia.
  - rewrite Hr0. apply Forall_cons. split; [lia|]. eapply Forall_impl; [exact Hseen|]. simpl. lia.
  - rewrite Hkb, Hd. done.
Qed.

(** What receiving takes from the tape, and the keys used afterwards *)
Definition spends (P P' : party) : Prop :=
  (p_ent P' = p_ent P ∧ p_used P' ⊆ p_used P) ∨
  (p_ent P' = drop 32 (p_ent P) ∧ p_used P' ⊆ tape_key (p_ent P) :: p_used P).

(** A message between parties that are in step may be delivered, and leaves them
    in step. *)
Lemma exchange P Q m P' n k :
  in_step P Q → room (S n) (p_dr P) → room (S n) (p_dr Q) → fresh_tape (S k) (p_used Q) (p_ent Q) →
  sends P m P' →
  deliverable Q P' m ∧ ∀ Q', receives Q m Q' →
    in_step P' Q' ∧ room n (p_dr P') ∧ room n (p_dr Q') ∧ fresh_tape k (p_used Q') (p_ent Q') ∧
    p_ent P' = p_ent P ∧ p_used P' ⊆ p_used P ∧ spends Q Q'.
Proof.
  intros [Hs|Hs] HrP HrQ Hft Hsend; pose proof Hs as [(CKn & CK & old & Ha) Hfirst Hprev Hback _ _].
  - destruct (ahead_sends _ _ _ _ _ _ _ Ha Hsend) as (_ & Hd & He & _ & _ & _ & Hus).
    destruct (exchange_next P Q m P' Hs (fresh_tape_key _ _ Hft) Hsend) as [Hdel Hrecv]. split; [done|].
    intros Q' HQ. destruct (Hrecv Q' HQ) as (Hs' & HeQ & HuQ & Hn & Hp). split; [by right|].
    split; [rewrite Hd; unfold room in *; simpl; lia|]. split; [unfold room in *; lia|].
    unfold spends. rewrite HeQ, HuQ, He, Hus. split; [apply Hft|]. split; [done|]. split; [|by right].
    intros x [->|Hx]%elem_of_cons; [apply (ah_usedS _ _ _ _ _ Ha)|done].
  - destruct (behind_sends _ _ _ _ _ _ _ Ha Hsend) as (_ & Hd & He & _ & _ & _ & Hus).
    destruct (exchange_current Q P m P' Hs Hsend) as [Hdel Hrecv]. split; [done|].
    intros Q' HQ. destruct (Hrecv Q' HQ) as (Hs' & HeQ & HuQ & Hn & Hp). split; [by right|].
    split; [rewrite Hd; unfold room in *; simpl; lia|]. split; [unfold room in *; lia|].
    unfold spends. rewrite HeQ, HuQ, He, Hus. split.
    + eapply fresh_tape_mono; [|by apply fresh_tape_less].
      intros x [->|Hx]%elem_of_cons; [apply (ah_usedS _ _ _ _ _ Ha)|done].
    + split; [done|]. split; [intros x [->|Hx]%elem_of_cons; [apply (ah_usedR _ _ _ _ _ Ha)|done]|].
      left. split; [done|]. intros x [->|Hx]%elem_of_cons; [apply (ah_usedS _ _ _ _ _ Ha)|done].
Qed.

(** ** Storing and restoring *)

(** Both parties read one random source: each goes on where the other left it. *)
Definition retape (e : entropy) (P : party) : party :=
  Party (p_dr P) e (p_out P) (p_seen P) (p_used P).

Lemma forgot_nothing d e P :
  Party (forgot (dr_prevSendNo d) (dr_msgKeyBuffer d) d) e (p_out P) ([] ++ p_seen P) (p_used P) =
    Party d e (p_out P) (p_seen P) (p_used P).
Proof. by destruct d. Qed.

Lemma forgets_nothing P Q CKn CK old :
  ahead P Q CKn (Some CK) old ∨ ahead Q P CKn (Some CK) old → dr_msgKeyBuffer (p_dr P) = newKeyBuffer →
  forgets (p_dr P) (dr_prevSendNo (p_dr P)) (dr_msgKeyBuffer (p_dr P)) [].
Proof.
  intros Ha Hb. split_and!; [|rewrite Hb; eexists; apply newKeyBuffer_repr|done].
  destruct Ha as [Ha|Ha]; [apply (ah_keysS _ _ _ _ _ Ha)|apply (ah_keysR _ _ _ _ _ Ha)].
Qed.

Lemma in_step_retape e P Q : in_step P Q → in_step (retape e P) Q.
Proof.
  intros [[(CKn & CK & old & Ha) ? ? ? ? [HbS HbR]]|[(CKn & CK & old & Ha) ? ? ? ? [HbS HbR]]].
  - left. pose proof (ahead_forget_left _ _ _ _ _ _ _ _ e Ha (forgets_nothing P Q _ _ _ (or_introl Ha) HbS)) as Ha'.
    rewrite forgot_nothing in Ha'. split; simpl; try done. by do 3 eexists.
  - right. pose proof (ahead_forget_right _ _ _ _ _ _ _ _ e Ha (forgets_nothing P Q _ _ _ (or_intror Ha) HbR)) as Ha'.
    rewrite forgot_nothing in Ha'. split; simpl; try done. by do 3 eexists.
Qed.

Lemma reachable_retape e P Q :
  in_step P Q → reachable (P, Q) ∨ reachable (Q, P) → reachable (retape e P, Q) ∨ reachable (Q, retape e P).
Proof.
  intros Hs Hr.
  assert (party_step P Q (retape e P)) as Hstep.
  { unfold retape. rewrite <-(forgot_nothing (p_dr P)). apply step_forget.
    destruct Hs as [[(CKn & CK & old & Ha) _ _ _ _ [Hb _]]|[(CKn & CK & old & Ha) _ _ _ _ [_ Hb]]];
      (eapply forgets_nothing; [|exact Hb]); eauto. }
  destruct Hr as [Hr|Hr]; [left|right]; (eapply reachable_step; [exact Hr|]); [by apply sys_left|by apply sys_right].
Qed.

Lemma restored_new : restored_buffer newKeyBuffer = newKeyBuffer.
Proof. reflexivity. Qed.

Lemma lost_none d : dr_msgKeyBuffer d = newKeyBuffer → lost_numbers d = [].
Proof.
  intros Hb. unfold lost_numbers, cached_numbers. rewrite Hb.
  by rewrite (elementFind_repr _ _ _ newKeyBuffer_repr).
Qed.

Lemma in_step_restored P Q e : in_step P Q → in_step (restored_party P e) Q.
Proof.
  intros Hs. assert (dr_msgKeyBuffer (p_dr P) = newKeyBuffer) as Hb
    by (destruct Hs as [[_ _ _ _ _ [Hb _]]|[_ _ _ _ _ [_ Hb]]]; exact Hb).
  pose proof newKeyBuffer_repr as Hrep. rewrite <-Hb in Hrep.
  pose proof (restored_forgets (p_dr P) [] 0 Hrep ltac:(lia)) as Hf.
  unfold restored_party. destruct Hs as [[(CKn & CK & old & Ha) ? Hp ? Hseen [HbS HbR]]|[(CKn & CK & old & Ha) ? ? ? ? [HbS HbR]]].
  - left. pose proof (ahead_forget_left _ _ _ _ _ _ _ _ e Ha Hf) as Ha'. split; simpl; try done.
    + by do 3 eexists.
    + assert (0 <= dr_recvNo (p_dr Q)); [|lia].
      pose proof (ah_old _ _ _ _ _ Ha) as Ho. destruct old as [CKo|].
      * destruct Ho as [[(_ & Hr & _) _] _]. lia.
      * destruct Ho as [(_ & Hr & _) _]. lia.
    + rewrite lost_none by done. done.
    + by rewrite HbS, HbR.
  - right. pose proof (ahead_forget_right _ _ _ _ _ _ _ _ e Ha Hf) as Ha'. split; simpl; try done.
    + by do 3 eexists.
    + by rewrite HbS, HbR.
Qed.

Lemma room_restored P Q n : in_step P Q → room n (p_dr P) → room n (restored 0 (p_dr P)).
Proof.
  intros Hs. assert (0 <= dr_sendNo (p_dr P)).
  { destruct Hs as [[(CKn & CK & old & Ha) _ _ _ _ _]|[(CKn & CK & old & Ha) _ _ _ _ _]];
      [apply (ah_keysS _ _ _ _ _ Ha)|apply (ah_keysR _ _ _ _ _ Ha)]. }
  unfold room. simpl. lia.
Qed.
End Liveness.
