(* ===== verification/Base64.v ===== *)
(** * Unpadded URL-safe base64 (encoding/base64, [RawURLEncoding])

    The text encoding of [xochimilco] messages: RFC 4648 with the URL alphabet,
    no padding, trailing bits not checked, and line breaks ignored on input. *)

From Stdlib Require Import ZArith Lia.
From stdpp Require Import base list numbers option strings.
From S2P Require Import Prelude.

Local Open Scope Z_scope.

Definition alphabet : bytes := str "ABCDEFGHIJKLMNOPQRSTUVWXYZabcdefghijklmnopqrstuvwxyz0123456789-_".

Definition enc_char (v : Z) : byte := default Byte.x00 (alphabet !! Z.to_nat v).

Definition dec_char (c : byte) : option Z :=
  (λ p, Z.of_nat p.1) <$> list_find (λ a, a = c) alphabet.

(** Three bytes become four characters; one or two bytes at the end become two
    or three. *)
Fixpoint base64_encode (data : bytes) : bytes :=
  match data with
  | a :: b :: c :: rest =>
      let v := byte_to_Z a * 65536 + byte_to_Z b * 256 + byte_to_Z c in
      enc_char (v / 262144) :: enc_char (v / 4096 mod 64) :: enc_char (v / 64 mod 64)
        :: enc_char (v mod 64) :: base64_encode rest
  | [a; b] =>
      let v := byte_to_Z a * 65536 + byte_to_Z b * 256 in
      [enc_char (v / 262144); enc_char (v / 4096 mod 64); enc_char (v / 64 mod 64)]
  | [a] =>
      let v := byte_to_Z a * 65536 in
      [enc_char (v / 262144); enc_char (v / 4096 mod 64)]
  | [] => []
  end.

Definition corrupt {A} : result A := Err (Errorf "illegal base64 data at input byte").

Definition char_value (c : byte) : result Z :=
  match dec_char c with Some v => Ok v | None => corrupt end.

Fixpoint base64_quanta (s : bytes) : result bytes :=
  match s with
  | c1 :: c2 :: c3 :: c4 :: rest =>
      v1 ← char_value c1; v2 ← char_value c2; v3 ← char_value c3; v4 ← char_value c4;
      let v := v1 * 262144 + v2 * 4096 + v3 * 64 + v4 in
      tail ← base64_quanta rest;
      Ok (byte_of_Z (v / 65536) :: byte_of_Z (v / 256) :: byte_of_Z v :: tail)
  | [c1; c2; c3] =>
      v1 ← char_value c1; v2 ← char_value c2; v3 ← char_value c3;
      let v := v1 * 262144 + v2 * 4096 + v3 * 64 in
      Ok [byte_of_Z (v / 65536); byte_of_Z (v / 256)]
  | [c1; c2] =>
      v1 ← char_value c1; v2 ← char_value c2;
      let v := v1 * 262144 + v2 * 4096 in
      Ok [byte_of_Z (v / 65536)]
  | [_] => corrupt
  | [] => Ok []
  end.

(** Carriage returns and line feeds are skipped wherever they occur. *)
Definition not_newline (c : byte) : Prop := c ≠ Byte.x0a ∧ c ≠ Byte.x0d.
#[global] Instance not_newline_dec c : Decision (not_newline c).
Proof. unfold not_newline. apply _. Defined.

Definition base64_decode (s : bytes) : result bytes := base64_quanta (base.filter not_newline s).

(** ** Lemmas *)

Definition is_char (c : byte) : Prop := c ∈ alphabet.

Lemma alphabet_dec_enc :
  forallb (λ n, bool_decide (dec_char (enc_char (Z.of_nat n)) = Some (Z.of_nat n)) &&
                bool_decide (enc_char (Z.of_nat n) ∈ alphabet)) (seq 0 64) = true.
Proof. vm_compute. reflexivity. Qed.

Lemma enc_char_ok v : 0 <= v < 64 → dec_char (enc_char v) = Some v ∧ is_char (enc_char v).
Proof.
  intros Hv. pose proof alphabet_dec_enc as Hall. rewrite forallb_forall in Hall.
  specialize (Hall (Z.to_nat v)). rewrite andb_true_iff, !bool_decide_eq_true, Z2Nat.id in Hall by lia.
  apply Hall. apply list_elem_of_In, elem_of_seq. lia.
Qed.

Lemma char_value_enc v : 0 <= v < 64 → char_value (enc_char v) = Ok v.
Proof. intros Hv. unfold char_value. by rewrite (proj1 (enc_char_ok v Hv)). Qed.

Lemma alphabet_no_newline c : is_char c → not_newline c.
Proof.
  intros Hc. assert (Forall not_newline alphabet) as Hall.
  { apply (bool_decide_unpack _). vm_compute. exact I. }
  rewrite Forall_forall in Hall. by apply Hall.
Qed.

Ltac byte_ranges :=
  repeat match goal with
  | b : Byte.byte |- _ =>
      lazymatch goal with
      | _ : 0 <= byte_to_Z b < 256 |- _ => fail
      | _ => pose proof (byte_to_Z_range b)
      end
  end.

Ltac div_lia := Z.to_euclidean_division_equations; lia.

(** Induction over groups of three bytes. *)
Lemma bytes_ind3 (P : bytes → Prop) :
  P [] → (∀ a, P [a]) → (∀ a b, P [a; b]) → (∀ a b c l, P l → P (a :: b :: c :: l)) → ∀ l, P l.
Proof.
  intros H0 H1 H2 H3. fix IH 1. intros [|a [|b [|c l]]]; [done|apply H1|apply H2|apply H3, IH].
Qed.

Lemma byte_of_Z_eq b z : z mod 256 = byte_to_Z b → byte_of_Z z = b.
Proof. intros Hz. by rewrite <-byte_of_Z_mod, Hz, byte_of_to_Z. Qed.

Lemma base64_encode_chars data : Forall is_char (base64_encode data).
Proof.
  induction data as [|a|a b|a b c l IH] using bytes_ind3; simpl; byte_ranges;
    rewrite ?Forall_cons, ?Forall_nil; split_and?; try done; apply enc_char_ok; div_lia.
Qed.

Lemma base64_quanta_encode data : base64_quanta (base64_encode data) = Ok data.
Proof.
  induction data as [|a|a b|a b c l IH] using bytes_ind3; [done|..]; byte_ranges;
    cbn [base64_encode base64_quanta]; rewrite !char_value_enc by div_lia;
    unfold mbind, result_bind; rewrite ?IH; do 2 f_equal; try f_equal; try f_equal;
    apply byte_of_Z_eq; div_lia.
Qed.

Lemma filter_all {A} (P : A → Prop) `{∀ x, Decision (P x)} (l : list A) :
  Forall P l → base.filter P l = l.
Proof. induction 1 as [|x l Hx _ IH]; [done|]. by rewrite filter_cons_True, IH. Qed.

Lemma base64_decode_encode data : base64_decode (base64_encode data) = Ok data.
Proof.
  unfold base64_decode. rewrite filter_all; [apply base64_quanta_encode|].
  eapply Forall_impl; [apply base64_encode_chars|apply alphabet_no_newline].
Qed.

(** Induction over groups of four characters. *)
Lemma bytes_ind4 (P : bytes → Prop) :
  P [] → (∀ a, P [a]) → (∀ a b, P [a; b]) → (∀ a b c, P [a; b; c]) →
  (∀ a b c d l, P l → P (a :: b :: c :: d :: l)) → ∀ l, P l.
Proof.
  intros H0 H1 H2 H3 H4. fix IH 1.
  intros [|a [|b [|c [|d l]]]]; [done|apply H1|apply H2|apply H3|apply H4, IH].
Qed.

Lemma char_value_no_panic c : char_value c ≠ Panic.
Proof. unfold char_value. by destruct (dec_char c). Qed.

Lemma base64_decode_no_panic s : base64_decode s ≠ Panic.
Proof.
  unfold base64_decode. pose proof char_value_no_panic as Hc.
  induction (base.filter not_newline s) as [|a|a b|a b c|a b c d l IH] using bytes_ind4;
    [done|done|..]; cbn [base64_quanta]; unfold mbind, result_bind;
    repeat match goal with |- context [char_value ?x] =>
      pose proof (Hc x); destruct (char_value x) end; try done.
  by destruct (base64_quanta l).
Qed.
