(* ===== verification/Message.v ===== *)
(** * Messages on the wire (src/xochimilco/message.go)

    The five message types with their binary encodings, the printable frame
    around them, and the anonymous box that hides an offer. *)

From Stdlib Require Import ZArith Lia.
From stdpp Require Import base list numbers option strings.
From S2P Require Import Prelude Crypto ToyCrypto Base64.

Local Open Scope Z_scope.

(** [messageType] and its constants *)
Definition sessOffer : Z := 1.
Definition sessAck : Z := 2.
Definition sessData : Z := 3.
Definition sessClose : Z := 4.
Definition sessSealed : Z := 5.

(** [Prefix] and [Suffix] *)
Definition Prefix : bytes := str "!RAT!".
Definition Suffix : bytes := str "!CHT!".

(** ** The message types *)

(** [offerMessage] *)
Record offerMessage := OfferMessage {
  om_idKey : bytes; om_spKey : bytes; om_spSig : bytes; om_uuid : bytes; om_nick : bytes;
}.

Definition offer_MarshalBinary (msg : offerMessage) : bytes :=
  copied 32 (om_idKey msg) ++ copied 32 (om_spKey msg) ++ copied 64 (om_spSig msg)
    ++ copied 16 (om_uuid msg) ++ om_nick msg.

Definition offer_UnmarshalBinary (data : bytes) : result offerMessage :=
  if blen data <? 32 + 32 + 64 + 16
  then Err (Errorf "sessOffer payload MUST be greater than 144 byte")
  else Ok {| om_idKey := subslice 0 32 data; om_spKey := subslice 32 64 data;
             om_spSig := subslice 64 128 data; om_uuid := subslice 128 144 data;
             om_nick := drop 144 data |}.

(** [ackMessage] *)
Record ackMessage := AckMessage {
  am_idKey : bytes; am_eKey : bytes; am_uuid : bytes; am_cipher : bytes;
}.

Definition ack_MarshalBinary (msg : ackMessage) : bytes :=
  copied 32 (am_idKey msg) ++ copied 32 (am_eKey msg) ++ copied 16 (am_uuid msg) ++ am_cipher msg.

Definition ack_UnmarshalBinary (data : bytes) : result ackMessage :=
  if blen data <=? 32 + 32 + 16
  then Err (Errorf "sessAck payload MUST be >= 80 byte")
  else Ok {| am_idKey := subslice 0 32 data; am_eKey := subslice 32 64 data;
             am_uuid := subslice 64 80 data; am_cipher := drop 80 data |}.

(** [dataMessage] *)
Record dataMessage := DataMessage { dm_uuid : bytes; dm_payload : bytes }.

Definition data_MarshalBinary (msg : dataMessage) : bytes :=
  copied 16 (dm_uuid msg) ++ dm_payload msg.

Definition data_UnmarshalBinary (data : bytes) : result dataMessage :=
  if blen data <=? 16
  then Err (Errorf "sessAck payload MUST be >= 16 byte")
  else Ok {| dm_uuid := subslice 0 16 data; dm_payload := drop 16 data |}.

(** [closeMessage] *)
Record closeMessage := CloseMessage { cm_uuid : bytes; cm_payload : bytes }.

Definition close_MarshalBinary (msg : closeMessage) : bytes :=
  copied 16 (cm_uuid msg) ++ cm_payload msg.

Definition close_UnmarshalBinary (data : bytes) : result closeMessage :=
  if blen data <=? 16
  then Err (Errorf "sessAck payload MUST be >= 16 byte")
  else
    let msg := {| cm_uuid := subslice 0 16 data; cm_payload := drop 16 data |} in
    if bool_decide (cm_payload msg = [Byte.xff]) then Ok msg
    else Err (Errorf "sessClose has an inavlid payload").

(** [sealedMessage] is its own encoding. *)
Definition sealed_UnmarshalBinary (data : bytes) : result bytes :=
  if blen data <=? 1 then Err (Errorf "sessAck payload MUST be >= 1 byte") else Ok data.

(** [Msg]: what [container] can hold, with the methods of the interface *)
Inductive Msg :=
  | Offer (m : offerMessage)
  | Ack (m : ackMessage)
  | Data (m : dataMessage)
  | Close (m : closeMessage)
  | Sealed (s : bytes).

Definition ID (m : Msg) : bytes :=
  match m with
  | Offer m => om_uuid m | Ack m => am_uuid m | Data m => dm_uuid m | Close m => cm_uuid m
  | Sealed _ => []
  end.

Definition Msg_MarshalBinary (m : Msg) : bytes :=
  match m with
  | Offer m => offer_MarshalBinary m | Ack m => ack_MarshalBinary m
  | Data m => data_MarshalBinary m | Close m => close_MarshalBinary m
  | Sealed s => s
  end.

(** ** The frame *)

(** [container] gives an empty message of a type, into which [UnmarshalBinary]
    decodes. *)
Inductive msgKind := KOffer | KAck | KData | KClose | KSealed.

Definition container (t : Z) : result msgKind :=
  if t =? sessOffer then Ok KOffer
  else if t =? sessAck then Ok KAck
  else if t =? sessData then Ok KData
  else if t =? sessClose then Ok KClose
  else if t =? sessSealed then Ok KSealed
  else Err (Errorf "unsupported message type %d").

Definition Msg_UnmarshalBinary (k : msgKind) (data : bytes) : result Msg :=
  match k with
  | KOffer => Offer <$> offer_UnmarshalBinary data
  | KAck => Ack <$> ack_UnmarshalBinary data
  | KData => Data <$> data_UnmarshalBinary data
  | KClose => Close <$> close_UnmarshalBinary data
  | KSealed => Sealed <$> sealed_UnmarshalBinary data
  end.

(** [fmt.Fprint(b, int(t))]: the decimal digits of a byte value *)
Definition digit (n : Z) : byte := byte_of_Z (48 + n).
Definition decimal (t : Z) : bytes :=
  if t <? 10 then [digit t]
  else if t <? 100 then [digit (t / 10); digit (t mod 10)]
  else [digit (t / 100); digit (t / 10 mod 10); digit (t mod 10)].

(** [marshalMessage] *)
Definition marshalMessage (t : Z) (m : Msg) : bytes :=
  Prefix ++ decimal t ++ base64_encode (Msg_MarshalBinary m) ++ Suffix.

(** [unmarshalMessage] *)
Definition unmarshalMessage (input : bytes) : result (Z * Msg) :=
  if negb (hasPrefix input Prefix) || negb (hasSuffix input Suffix)
  then Err (Errorf "message string misses pre- and/or suffix")
  else
    c ← index input (blen Prefix);
    let t := (byte_to_Z c - 48) mod 256 in
    k ← container t;
    body ← slice_range input (blen Prefix + 1) (blen input - blen Suffix);
    data ← base64_decode body;
    m ← Msg_UnmarshalBinary k data;
    Ok (t, m).

(** [Parse] *)
Definition Parse (input : bytes) : result Msg := snd <$> unmarshalMessage input.

(** ** Sealed messages *)

Section Sealed.
Context `{BoxCrypto}.

(** [Seal] *)
Definition Seal (m : Msg) (key : bytes) (e : entropy) : result bytes * entropy :=
  let data := Msg_MarshalBinary m in
  match m with
  | Offer _ => box_seal e (str "1" ++ data) key
  | Ack _ => box_seal e (str "2" ++ data) key
  | Data _ => box_seal e (str "3" ++ data) key
  | Close _ => box_seal e (str "4" ++ data) key
  | Sealed _ => (Err (Errorf "unsupported message type %T"), e)
  end.

(** [sealedMessage.Unseal] *)
Definition Unseal (s : bytes) (priv pub : bytes) : result Msg :=
  match box_open s pub priv with
  | None => Err (Errorf "unseal invalid")
  | Some data =>
      c ← index data 0;
      k ← container ((byte_to_Z c - 48) mod 256);
      rest ← slice_from data 1;
      Msg_UnmarshalBinary k rest
  end.
End Sealed.

(** ** Lemmas *)

(** The type number under which a message is sent, and the messages that the
    formats can represent. *)
Definition msg_type (m : Msg) : Z :=
  match m with
  | Offer _ => sessOffer | Ack _ => sessAck | Data _ => sessData | Close _ => sessClose
  | Sealed _ => sessSealed
  end.

Definition msg_kind (m : Msg) : msgKind :=
  match m with Offer _ => KOffer | Ack _ => KAck | Data _ => KData | Close _ => KClose | Sealed _ => KSealed end.

Definition msg_wf (m : Msg) : Prop :=
  match m with
  | Offer m => length (om_idKey m) = 32%nat ∧ length (om_spKey m) = 32%nat ∧
               length (om_spSig m) = 64%nat ∧ length (om_uuid m) = 16%nat
  | Ack m => length (am_idKey m) = 32%nat ∧ length (am_eKey m) = 32%nat ∧
             length (am_uuid m) = 16%nat ∧ am_cipher m ≠ []
  | Data m => length (dm_uuid m) = 16%nat ∧ dm_payload m ≠ []
  | Close m => length (cm_uuid m) = 16%nat ∧ cm_payload m = [Byte.xff]
  | Sealed s => (2 <= length s)%nat
  end.

#[global] Instance msg_wf_dec m : Decision (msg_wf m).
Proof. destruct m; simpl; apply _. Defined.

(** Reading a part of a concatenation. *)
Lemma subslice_take (i j : nat) (l k : bytes) :
  length l = j → i = 0%nat → subslice i j (l ++ k) = l.
Proof. intros <- ->. unfold subslice. by rewrite Nat.sub_0_r, drop_0, take_app_length. Qed.

Lemma subslice_skip (i j n : nat) (l k : bytes) :
  length l = n → (n <= i)%nat → subslice i j (l ++ k) = subslice (i - n) (j - n) k.
Proof.
  intros <- Hi. unfold subslice. rewrite drop_app_ge by lia. f_equal. lia.
Qed.

Lemma drop_skip (i n : nat) (l k : bytes) :
  length l = n → (n <= i)%nat → drop i (l ++ k) = drop (i - n) k.
Proof. intros <- Hi. by rewrite drop_app_ge. Qed.

Ltac parts :=
  repeat first [ rewrite subslice_take by done
               | rewrite (subslice_skip _ _ 64) by (done || lia)
               | rewrite (subslice_skip _ _ 32) by (done || lia)
               | rewrite (subslice_skip _ _ 16) by (done || lia)
               | rewrite (drop_skip _ 64) by (done || lia)
               | rewrite (drop_skip _ 32) by (done || lia)
               | rewrite (drop_skip _ 16) by (done || lia) ]; simpl.

Lemma length_subslice i j data : (j <= length data)%nat → length (subslice i j data) = (j - i)%nat.
Proof. intros. unfold subslice. len. Qed.

(** The binary encodings. *)
Lemma Msg_roundtrip m : msg_wf m → Msg_UnmarshalBinary (msg_kind m) (Msg_MarshalBinary m) = Ok m.
Proof.
  destruct m as [m|m|m|m|s]; simpl.
  - destruct m as [idKey spKey spSig uuid nick]; simpl. intros (H1 & H2 & H3 & H4).
    unfold offer_UnmarshalBinary, offer_MarshalBinary; simpl. rewrite !copied_exact by done.
    destruct (Z.ltb_spec (blen (idKey ++ spKey ++ spSig ++ uuid ++ nick)) (32 + 32 + 64 + 16)) as [Hl|_];
      [unfold blen in Hl; len|]. by parts.
  - destruct m as [idKey eKey uuid cipher]; simpl. intros (H1 & H2 & H3 & H4).
    unfold ack_UnmarshalBinary, ack_MarshalBinary; simpl. rewrite !copied_exact by done.
    destruct (Z.leb_spec (blen (idKey ++ eKey ++ uuid ++ cipher)) (32 + 32 + 16)) as [Hl|_];
      [unfold blen in Hl; destruct cipher; [done|]; len|]. by parts.
  - destruct m as [uuid payload]; simpl. intros [H1 H2].
    unfold data_UnmarshalBinary, data_MarshalBinary; simpl. rewrite !copied_exact by done.
    destruct (Z.leb_spec (blen (uuid ++ payload)) 16) as [Hl|_];
      [unfold blen in Hl; destruct payload; [done|]; len|]. by parts.
  - destruct m as [uuid payload]; simpl. intros [H1 ->].
    unfold close_UnmarshalBinary, close_MarshalBinary; simpl. rewrite !copied_exact by done.
    destruct (Z.leb_spec (blen (uuid ++ [Byte.xff])) 16) as [Hl|_]; [unfold blen in Hl; len|]. by parts.
  - intros Hs. unfold sealed_UnmarshalBinary. destruct (Z.leb_spec (blen s) 1) as [Hl|_]; [unfold blen in Hl; lia|done].
Qed.

(** What is accepted is well formed, and the decoders do not panic. *)
Lemma Msg_UnmarshalBinary_total k data :
  (∃ e, Msg_UnmarshalBinary k data = Err e) ∨
  (∃ m, Msg_UnmarshalBinary k data = Ok m ∧ msg_wf m ∧ msg_kind m = k).
Proof.
  assert (∀ n : nat, Z.of_nat n < blen data → drop n data ≠ []) as Hne.
  { intros n Hn Hd. apply (f_equal length) in Hd. unfold blen in Hn. len. }
  destruct k; simpl.
  - unfold offer_UnmarshalBinary. case_test; [by left; eexists|right]. unfold blen in *.
    eexists. split; [done|]. simpl. rewrite !length_subslice by lia. done.
  - unfold ack_UnmarshalBinary. case_test; [by left; eexists|right].
    eexists. split; [done|]. simpl. rewrite !length_subslice by (unfold blen in *; lia).
    split_and!; try done. by apply Hne.
  - unfold data_UnmarshalBinary. case_test; [by left; eexists|right].
    eexists. split; [done|]. simpl. rewrite !length_subslice by (unfold blen in *; lia).
    split_and!; try done. by apply Hne.
  - unfold close_UnmarshalBinary. case_test; [by left; eexists|]. simpl. case_bool_decide; [right|by left; eexists].
    eexists. split; [done|]. simpl. rewrite !length_subslice by (unfold blen in *; lia). done.
  - unfold sealed_UnmarshalBinary. case_test; [by left; eexists|right]. eexists. split; [done|].
    split; [simpl; unfold blen in *; lia|done].
Qed.

Lemma container_no_panic t : container t ≠ Panic.
Proof. unfold container. by repeat case_test. Qed.

Lemma container_type m : container (msg_type m) = Ok (msg_kind m).
Proof. by destruct m. Qed.

Lemma container_inv t k : container t = Ok k → ∀ m, msg_kind m = k → t = msg_type m.
Proof.
  intros Hc m <-. revert Hc. unfold container. repeat (case_test; [by destruct m|]). done.
Qed.

Lemma framed_prefix s : hasPrefix (Prefix ++ s) Prefix = true.
Proof. unfold hasPrefix. apply bool_decide_eq_true. by rewrite take_app_length. Qed.

Lemma framed_suffix s : hasSuffix (s ++ Suffix) Suffix = true.
Proof.
  unfold hasSuffix. apply andb_true_intro. split; [apply Nat.leb_le; len|].
  apply bool_decide_eq_true. rewrite length_app, Nat.add_sub. by rewrite drop_app_length.
Qed.

Lemma hasPrefix_inv s p : hasPrefix s p = true → ∃ k, s = p ++ k.
Proof.
  unfold hasPrefix. intros Hp%bool_decide_eq_true. exists (drop (length p) s).
  rewrite <-(take_drop (length p) s) at 1. by rewrite Hp.
Qed.

Lemma hasSuffix_inv s p : hasSuffix s p = true → ∃ k, s = k ++ p.
Proof.
  unfold hasSuffix. intros [_ Hp%bool_decide_eq_true]%andb_prop.
  exists (take (length s - length p) s). by rewrite <-Hp at 2; rewrite take_drop.
Qed.

(** A string with the prefix, a digit and the suffix is long enough to cut the
    body out: prefix and suffix can overlap only where no digit is read. *)
Lemma framed_length input c :
  hasPrefix input Prefix = true → hasSuffix input Suffix = true →
  input !! 5%nat = Some c → c ≠ Byte.x21 → c ≠ Byte.x43 → 11 <= blen input.
Proof.
  intros (k & ->)%hasPrefix_inv (l & Hl)%hasSuffix_inv Hc H1 H2. unfold blen.
  assert (length (Prefix ++ k) = length (l ++ Suffix)) as Hlen by (by rewrite Hl).
  rewrite !length_app in Hlen. simpl in Hlen.
  rewrite lookup_app_r in Hc by (simpl; lia). change (k !! 0%nat = Some c) in Hc.
  rewrite length_app. simpl.
  destruct (decide (6 <= length k)%nat) as [|Hk]; [lia|exfalso].
  destruct k as [|k0 k]; [done|]. injection Hc as ->.
  assert (length l <= 5)%nat by (simpl in *; lia).
  destruct l as [|l0 [|l1 [|l2 [|l3 [|l4 [|]]]]]]; 
    unfold Prefix, Suffix in Hl; simpl in *; try lia; simplify_eq.
Qed.

Lemma unmarshal_marshal m : msg_wf m →
  unmarshalMessage (marshalMessage (msg_type m) m) = Ok (msg_type m, m).
Proof.
  intros Hwf.
  assert (∃ c, decimal (msg_type m) = [c] ∧ (byte_to_Z c - 48) mod 256 = msg_type m) as (c & Hd & Hc)
    by (destruct m; eexists; split; vm_compute; reflexivity).
  unfold unmarshalMessage, marshalMessage. rewrite Hd, framed_prefix.
  set (body := base64_encode _).
  assert (Prefix ++ [c] ++ body ++ Suffix = (Prefix ++ [c] ++ body) ++ Suffix) as Happ
    by (by rewrite <-!app_assoc).
  rewrite Happ, framed_suffix, <-Happ. simpl orb.
  change (blen Prefix) with (Z.of_nat 5). rewrite (index_ok _ _ c) by done.
  unfold mbind at 1, result_bind at 1. rewrite Hc, container_type. unfold mbind at 1, result_bind at 1.
  rewrite slice_range_ok by (unfold blen; rewrite !length_app; simpl; lia).
  assert (subslice (Z.to_nat (Z.of_nat 5 + 1)) (Z.to_nat (blen (Prefix ++ [c] ++ body ++ Suffix) - blen Suffix))
            (Prefix ++ [c] ++ body ++ Suffix) = body) as ->.
  { unfold subslice, blen. rewrite !length_app. change (length Prefix) with 5%nat.
    change (length Suffix) with 5%nat. change (length [c]) with 1%nat.
    change (drop _ (Prefix ++ _)) with (body ++ Suffix). apply take_app_length'. simpl. lia. }
  unfold mbind at 1, result_bind at 1, body. rewrite base64_decode_encode.
  unfold mbind, result_bind. by rewrite Msg_roundtrip.
Qed.

(** ** Properties *)

(** C12. Every message survives its way through the wire format: what
    [marshalMessage] printed, [unmarshalMessage] reads back with its type. *)
Theorem message_roundtrip (m : Msg) (Hwf : msg_wf m) :
  unmarshalMessage (marshalMessage (msg_type m) m) = Ok (msg_type m, m).
Proof. by apply unmarshal_marshal. Qed.

Lemma unmarshalMessage_cases input :
  (∃ e, unmarshalMessage input = Err e) ∨
  (∃ m, unmarshalMessage input = Ok (msg_type m, m) ∧ msg_wf m).
Proof.
  unfold unmarshalMessage. destruct (hasPrefix input Prefix) eqn:Hp; [|by left; eexists].
  destruct (hasSuffix input Suffix) eqn:Hs; [|by left; eexists]. simpl negb. simpl orb.
  change (blen Prefix) with (Z.of_nat 5). destruct (input !! 5%nat) as [c|] eqn:Hc.
  2:{ exfalso. destruct (hasPrefix_inv _ _ Hp) as [k ->], (hasSuffix_inv _ _ Hs) as [l Hl].
      destruct k; [|done]. destruct l as [|l0 l]; [done|]. apply (f_equal length) in Hl.
      rewrite !length_app in Hl. simpl in Hl. destruct l; simpl in Hl; lia. }
  rewrite (index_ok _ _ c Hc). unfold mbind, result_bind.
  destruct (container _) as [k|er|] eqn:Hk; [|by left; eexists|by apply container_no_panic in Hk].
  assert (11 <= blen input) as Hlen.
  { apply (framed_length input c); try done; intros ->; vm_compute in Hk; done. }
  rewrite slice_range_ok by (change (blen Suffix) with 5; lia).
  destruct (base64_decode _) as [data|er|] eqn:Hd; [|by left; eexists|by apply base64_decode_no_panic in Hd].
  destruct (Msg_UnmarshalBinary_total k data) as [[er Hm]|(m & Hm & Hwf & Hmk)]; rewrite Hm; [by left; eexists|].
  right. exists m. by rewrite (container_inv _ _ Hk m Hmk).
Qed.

Lemma unmarshalMessage_no_panic input : unmarshalMessage input ≠ Panic.
Proof. by destruct (unmarshalMessage_cases input) as [[er ->]|(m & -> & _)]. Qed.

(** C11. [unmarshalMessage] is total on hostile input: every string is either
    rejected with an error or yields a message whose fields have the lengths
    that the session code relies on, with the type number that was read; no
    index or slice expression of the parser is out of range. *)
Theorem unmarshalMessage_total (input : bytes) :
  (∃ e, unmarshalMessage input = Err e) ∨
  (∃ m, unmarshalMessage input = Ok (msg_type m, m) ∧ msg_wf m).
Proof. apply unmarshalMessage_cases. Qed.

Lemma message_roundtrip_witness :
  unmarshalMessage (marshalMessage sessData (Data (DataMessage (replicate 16 Byte.x07) (str "payload")))) =
  Ok (sessData, Data (DataMessage (replicate 16 Byte.x07) (str "payload"))).
Proof. apply (message_roundtrip (Data (DataMessage (replicate 16 Byte.x07) (str "payload")))). by split. Defined.


Section SealedProperties.
Context `{BoxCryptoLaws}.

Lemma seal_box (m : Msg) (c : byte) pub priv e :
  msg_wf m → (32 <= length e)%nat → dh_pair pub priv → (byte_to_Z c - 48) mod 256 = msg_type m →
  ∃ s, box_seal e ([c] ++ Msg_MarshalBinary m) pub = (Ok s, drop 32 e) ∧ (2 <= length s)%nat ∧
    Unseal s priv pub = Ok m.
Proof.
  intros Hwf He Hkey Hc.
  destruct (box_open_seal e ([c] ++ Msg_MarshalBinary m) pub priv He Hkey) as (s & Hs & Hl & Ho).
  exists s. split_and!; [done|lia|]. unfold Unseal. rewrite Ho. unfold mbind, result_bind. simpl.
  rewrite Hc, container_type. rewrite slice_from_ok by (unfold blen; simpl; lia).
  by apply Msg_roundtrip.
Qed.

(** A sealed message opens to the message that was sealed, for the owner of
    the key; a sealed message cannot be sealed again. *)
Theorem seal_unseal (m : Msg) (pub priv : bytes) (e : entropy)
  (Hwf : msg_wf m) (He : (32 <= length e)%nat) (Hkey : dh_pair pub priv) :
  match m with
  | Sealed _ => ∃ er, Seal m pub e = (Err er, e)
  | _ => ∃ s, Seal m pub e = (Ok s, drop 32 e) ∧ Unseal s priv pub = Ok m
  end.
Proof.
  destruct m as [o|a|d|cl|b].
  - destruct (seal_box _ Byte.x31 pub priv e Hwf He Hkey eq_refl) as (s & Hs & _ & Hu). by exists s.
  - destruct (seal_box _ Byte.x32 pub priv e Hwf He Hkey eq_refl) as (s & Hs & _ & Hu). by exists s.
  - destruct (seal_box _ Byte.x33 pub priv e Hwf He Hkey eq_refl) as (s & Hs & _ & Hu). by exists s.
  - destruct (seal_box _ Byte.x34 pub priv e Hwf He Hkey eq_refl) as (s & Hs & _ & Hu). by exists s.
  - by eexists.
Qed.

(** [Unseal] panics on exactly one kind of input: a box that opens to the
    empty message, which anybody who knows the public key can make. Its index
    expression [data[0]] is not guarded. *)
Theorem Unseal_panics_iff (s priv pub : bytes) :
  Unseal s priv pub = Panic ↔ box_open s pub priv = Some [].
Proof.
  unfold Unseal. destruct (box_open s pub priv) as [data|]; [|done].
  destruct data as [|c data]; [done|]. unfold mbind, result_bind. simpl.
  pose proof (container_no_panic ((byte_to_Z c - 48) mod 256)) as Hk.
  destruct (container _) as [k|er|]; [|done..].
  rewrite slice_from_ok by (unfold blen; simpl; lia).
  destruct (Msg_UnmarshalBinary_total k (drop (Z.to_nat 1) (c :: data))) as [[er Hm]|(m & Hm & _)];
    by rewrite Hm.
Qed.
End SealedProperties.

