(* ===== verification/X3dh.v ===== *)
(** * The X3DH key agreement (src/x3dh/x3dh.go, src/x3dh/curve25519_conv.go)

    Signed prekeys, the two sides of the key agreement, and the conversion of
    Ed25519 identity keys to X25519 keys on big integers. *)

From Stdlib Require Import ZArith Lia Znumtheory Zcong.
From stdpp Require Import base list numbers option strings.
From S2P Require Import Prelude Crypto ToyCrypto.

Local Open Scope Z_scope.

(** ** Key conversion *)

(** [curve25519P], the literal of the source *)
Definition curve25519P : Z :=
  57896044618658097711785492504343953926634992332820282019728792003956564819949.

(** [big.Int.SetBytes] reads big-endian bytes; [big.Int.Bytes] writes them
    without leading zeros, at most 32 of them for the numbers below the prime. *)
Definition SetBytes (b : bytes) : Z := le_value (reverse b).
Definition Bytes (u : Z) : bytes := reverse (le_bytes 32 u).

(** [z.ModInverse(g, n)]: the inverse if there is one, else [z] is unchanged. *)
Definition ModInverse (z g n : Z) : Z := if Z.gcd g n =? 1 then Z.invmod g n else z.

(** [b &= 0b0111_1111] on the first byte *)
Definition mask_first (b : bytes) : bytes :=
  match b with
  | [] => []
  | x :: rest => byte_of_Z (Z.land (byte_to_Z x) 127) :: rest
  end.

(** [ed25519PublicKeyToCurve25519]: [denom] is overwritten by the subtraction
    before [ModInverse] reads it. *)
Definition ed25519PublicKeyToCurve25519 (pk : bytes) : result bytes :=
  if (32 <? length pk)%nat then Panic
  else
    let bigEndianY := mask_first (zeros (32 - length pk) ++ reverse pk) in
    let y := SetBytes bigEndianY in
    let denom := 1 in
    let denom := denom - y in
    let denom := ModInverse denom denom curve25519P in
    let u := ((y + 1) * denom) mod curve25519P in
    let uBytes := Bytes u in
    if (32 <? length uBytes)%nat then Panic else Ok (copied 32 (reverse uBytes)).

Section X3dh.
Context `{RatchetCrypto} `{IdentityCrypto}.

(** [ed25519.PrivateKey.Seed], [.Public] and [ed25519.Sign] with the run-time
    checks on the length of the key *)
Definition ed25519_Seed (priv : bytes) : result bytes := slice_to priv 32.
Definition ed25519_Public (priv : bytes) : result bytes := copied 32 <$> slice_from priv 32.
Definition ed25519_Sign (priv msg : bytes) : result bytes :=
  if (length priv =? 64)%nat then Ok (ed25519_sign priv msg) else Panic.

(** [ed25519PrivateKeyToCurve25519] *)
Definition ed25519PrivateKeyToCurve25519 (pk : bytes) : result bytes :=
  seed ← ed25519_Seed pk;
  slice_to (sha512 seed) 32.

(** [curve25519.X25519] with its error *)
Definition X25519 (scalar point : bytes) : result bytes :=
  match x25519 scalar point with
  | Some s => Ok s
  | None => Err (Errorf "bad input point: low order point")
  end.

(** [CreateNewSpk] *)
Definition CreateNewSpk (idKey : bytes) (e : entropy) : result (bytes * bytes * bytes) * entropy :=
  let '(spkPriv, err, e') := rand_read 32 e in
  match err with
  | Some er => (Err er, e')
  | None =>
      (spkPub ← X25519 spkPriv basepoint;
       spkSig ← ed25519_Sign idKey spkPub;
       Ok (spkPub, spkPriv, spkSig), e')
  end.

(** [kdf] *)
Definition kdf (km : bytes) : bytes :=
  hkdf_sha256 (zeros 32 ++ km) (zeros 32) [Byte.xff] 0 32.

(** The loop over [dhSteps], which appends to [dhOut]. *)
Fixpoint dhLoop (dhSteps : list (bytes * bytes)) (dhOut : bytes) : result bytes :=
  match dhSteps with
  | [] => Ok dhOut
  | (scalar, point) :: rest =>
      dhTmp ← X25519 scalar point;
      dhLoop rest (dhOut ++ dhTmp)
  end.

(** [CreateInitialMessage] *)
Definition CreateInitialMessage (idKey peerIdKey spkPub spkSig : bytes) (e : entropy)
    : result (bytes * bytes * bytes) * entropy :=
  if negb (length peerIdKey =? 32)%nat then (Err (Errorf "invalid peer public key size"), e)
  else if negb (ed25519_verify peerIdKey spkPub spkSig) then (Err (Errorf "invalid SPK signature"), e)
  else
    let '(ekPriv, err, e') := rand_read 32 e in
    match err with
    | Some er => (Err er, e')
    | None =>
        (ekPub ← X25519 ekPriv basepoint;
         idXKey ← ed25519PrivateKeyToCurve25519 idKey;
         peerIdXKey ← ed25519PublicKeyToCurve25519 peerIdKey;
         dhOut ← dhLoop [(idXKey, spkPub); (ekPriv, peerIdXKey); (ekPriv, spkPub)] (zeros (3 * 32));
         pub ← ed25519_Public idKey;
         Ok (kdf dhOut, pub ++ peerIdKey, ekPub), e')
    end.

(** [ReceiveInitialMessage] *)
Definition ReceiveInitialMessage (idKey peerIdKey spkPriv ekPub : bytes) : result (bytes * bytes) :=
  if negb (length peerIdKey =? 32)%nat then Err (Errorf "invalid peer public key size")
  else
    idXKey ← ed25519PrivateKeyToCurve25519 idKey;
    peerIdXKey ← ed25519PublicKeyToCurve25519 peerIdKey;
    dhOut ← dhLoop [(spkPriv, peerIdXKey); (idXKey, ekPub); (spkPriv, ekPub)] (zeros (3 * 32));
    pub ← ed25519_Public idKey;
    Ok (kdf dhOut, peerIdKey ++ pub).
End X3dh.

(** ** The conversion computes (1 + y) / (1 - y) *)

Lemma curve25519P_eq : curve25519P = 2 ^ 255 - 19.
Proof. reflexivity. Qed.

Lemma SetBytes_masked (pk : bytes) :
  length pk = 32%nat → SetBytes (mask_first (zeros (32 - length pk) ++ reverse pk)) = ed25519_y pk.
Proof.
  intros Hl. rewrite Hl. change (zeros (32 - 32)) with (@nil byte). rewrite app_nil_l.
  destruct pk as [|top pre _] using rev_ind; [done|]. rewrite length_app in Hl. simpl in Hl.
  rewrite reverse_snoc. unfold SetBytes, ed25519_y. cbn [mask_first].
  rewrite reverse_cons, reverse_involutive, !le_value_app.
  replace (length pre) with 31%nat by lia.
  assert (∀ b, le_value [b] = byte_to_Z b) as Hone by (intros; unfold le_value; simpl; lia).
  rewrite !Hone, byte_to_of_Z. change 127 with (Z.ones 7). rewrite Z.land_ones by lia.
  pose proof (le_value_range pre) as Hpre. replace (length pre) with 31%nat in Hpre by lia.
  pose proof (byte_to_Z_range top).
  change (256 ^ Z.of_nat 31) with (2 ^ 248) in *. change (2 ^ 255) with (2 ^ 248 * 2 ^ 7).
  rewrite (Z.mod_small (_ mod 2 ^ 7)) by (pose proof (Z.mod_pos_bound (byte_to_Z top) (2 ^ 7)); lia).
  symmetry. rewrite Z.rem_mul_r by lia.
  rewrite (Z.mul_comm (2 ^ 248) (byte_to_Z top)).
  rewrite Z_mod_plus_full, Z.mod_small by lia. rewrite Z.div_add, Z.div_small by lia. by rewrite Z.add_0_l.
Qed.

Lemma Bytes_length u : (32 <? length (Bytes u))%nat = false.
Proof. apply Nat.ltb_ge. unfold Bytes. rewrite length_reverse. apply length_le_bytes. Qed.

(** The u coordinate before it is written out. *)
Definition montgomery_u (y : Z) : Z :=
  ((y + 1) * ModInverse (1 - y) (1 - y) curve25519P) mod curve25519P.

Lemma montgomery_u_range y : 0 <= montgomery_u y < curve25519P.
Proof. apply Z.mod_pos_bound. reflexivity. Qed.

Lemma montgomery_u_regular y :
  Z.gcd (1 - y) curve25519P = 1 →
  (montgomery_u y * (1 - y)) mod curve25519P = (1 + y) mod curve25519P.
Proof.
  intros Hg. unfold montgomery_u, ModInverse. rewrite Hg. simpl.
  rewrite Z.mul_mod_idemp_l, <-Z.mul_assoc by done.
  rewrite <-Z.mul_mod_idemp_r, Z.invmod_coprime by (done || unfold curve25519P; lia).
  f_equal. lia.
Qed.

Lemma montgomery_u_neutral y : (1 - y) mod curve25519P = 0 → montgomery_u y = 0.
Proof.
  intros Hz. unfold montgomery_u, ModInverse.
  assert (Z.gcd (1 - y) curve25519P = curve25519P) as ->.
  { apply Z.mod_divide in Hz as Hd; [|done]. rewrite Z.gcd_comm. by apply Z.divide_gcd_iff. }
  change (curve25519P =? 1) with false. cbn iota.
  by rewrite <-Z.mul_mod_idemp_r, Hz, Z.mul_0_r.
Qed.

Lemma convert_public pk :
  length pk = 32%nat →
  ∃ u, ed25519PublicKeyToCurve25519 pk = Ok u ∧ length u = 32%nat ∧
       le_value u = montgomery_u (ed25519_y pk).
Proof.
  intros Hl. eexists. unfold ed25519PublicKeyToCurve25519. rewrite Hl at 1. simpl (32 <? 32)%nat.
  rewrite SetBytes_masked by done. rewrite Bytes_length. split; [done|]. split; [apply length_copied|].
  fold (montgomery_u (ed25519_y pk)). unfold Bytes. rewrite reverse_involutive.
  rewrite le_value_copied by apply length_le_bytes. apply le_value_bytes.
  pose proof (montgomery_u_range (ed25519_y pk)) as Hu. unfold curve25519P in Hu. simpl Z.of_nat.
  change (256 ^ 32) with (2 ^ 256). lia.
Qed.

(** C36. The conversion of a 32-byte Ed25519 public key returns the 32
    little-endian bytes of u = (1 + y) / (1 - y) modulo 2^255 - 19, reduced, for
    the encoded y; for y = 1, where the code calls [ModInverse] on a number
    without an inverse, it returns zero. *)
Theorem public_key_conversion (pk : bytes) (Hl : length pk = 32%nat) :
  ∃ u, ed25519PublicKeyToCurve25519 pk = Ok u ∧ length u = 32%nat ∧
    0 <= le_value u < 2 ^ 255 - 19 ∧
    (Z.gcd (1 - ed25519_y pk) (2 ^ 255 - 19) = 1 →
       (le_value u * (1 - ed25519_y pk)) mod (2 ^ 255 - 19) = (1 + ed25519_y pk) mod (2 ^ 255 - 19)) ∧
    ((1 - ed25519_y pk) mod (2 ^ 255 - 19) = 0 → le_value u = 0).
Proof.
  destruct (convert_public pk Hl) as (u & Hu & Hlu & Hv). rewrite <-curve25519P_eq.
  exists u. rewrite Hv. split_and!; [done|done|apply montgomery_u_range..| |].
  - apply montgomery_u_regular.
  - apply montgomery_u_neutral.
Qed.

Lemma public_key_conversion_witness :
  ∃ u, ed25519PublicKeyToCurve25519 (Byte.x03 :: zeros 31) = Ok u ∧
    (le_value u * (1 - 3)) mod (2 ^ 255 - 19) = 4.
Proof.
  destruct (public_key_conversion (Byte.x03 :: zeros 31)) as (u & Hu & _ & _ & Hreg & _); [reflexivity|].
  exists u. split; [exact Hu|]. exact (Hreg ltac:(vm_compute; reflexivity)).
Defined.

(** ** Agreement *)

Section Agreement.
Context `{RatchetCryptoLaws} `{!IdentityCrypto} `{!IdentityCryptoLaws}.

(** The two conversions of an identity key belong together. *)
Lemma convert_pair priv :
  ed25519_key priv →
  ∃ uX sX, ed25519PublicKeyToCurve25519 (drop 32 priv) = Ok uX ∧
    ed25519PrivateKeyToCurve25519 priv = Ok sX ∧ dh_pair uX sX.
Proof.
  intros [Hlen Hpub]. assert (length (take 32 priv) = 32%nat) as Hseed by len.
  destruct (convert_public (drop 32 priv)) as (uX & Hu & Hlu & Hv); [len|].
  exists uX, (take 32 (sha512 (take 32 priv))). split; [done|]. split.
  - unfold ed25519PrivateKeyToCurve25519, ed25519_Seed. rewrite slice_to_ok by (unfold blen; lia).
    unfold mbind, result_bind. change (Z.to_nat 32) with 32%nat.
    rewrite slice_to_ok by (unfold blen; rewrite sha512_length; lia). done.
  - split_and!; [rewrite length_take, sha512_length; lia|done|]. rewrite Hpub in Hv.
    pose proof (ed25519_y_regular _ Hseed) as Hreg. apply ed25519_montgomery; try done; rewrite Hv.
    + rewrite <-curve25519P_eq. apply montgomery_u_range.
    + rewrite <-curve25519P_eq in *. by apply montgomery_u_regular.
Qed.

Lemma X25519_agree pubA privA pubB privB :
  dh_pair pubA privA → dh_pair pubB privB →
  ∃ s, X25519 privA pubB = Ok s ∧ X25519 privB pubA = Ok s.
Proof.
  intros HA HB. destruct (x25519_agree _ _ _ _ HA HB) as (s & _ & E1 & E2).
  exists s. unfold X25519. by rewrite E1, E2.
Qed.

Lemma ed25519_Public_ok priv : ed25519_key priv → ed25519_Public priv = Ok (drop 32 priv).
Proof.
  intros [Hlen _]. unfold ed25519_Public. rewrite slice_from_ok by (unfold blen; lia). simpl.
  by rewrite copied_exact by len.
Qed.

Lemma CreateNewSpk_ok idKey e :
  ed25519_key idKey → (32 <= length e)%nat →
  ∃ spkPub spkSig, CreateNewSpk idKey e = (Ok (spkPub, take 32 e, spkSig), drop 32 e) ∧
    dh_pair spkPub (take 32 e) ∧ length spkSig = 64%nat ∧
    ed25519_verify (drop 32 idKey) spkPub spkSig = true.
Proof.
  intros Hid He. destruct (x25519_public (take 32 e)) as [pub Hp]; [len|].
  exists pub, (ed25519_sign idKey pub). split_and!; [|done|apply ed25519_sign_length|by apply ed25519_verify_sign].
  unfold CreateNewSpk. rewrite rand_read_ok by done. unfold X25519. destruct Hp as (_ & _ & ->).
  unfold ed25519_Sign. destruct Hid as [-> _]. done.
Qed.

(** Both sides derive the same key and the same associated data. *)
Lemma x3dh_agree idA idB spkPub spkPriv spkSig e :
  ed25519_key idA → ed25519_key idB → dh_pair spkPub spkPriv →
  ed25519_verify (drop 32 idB) spkPub spkSig = true → (32 <= length e)%nat →
  ∃ sk ekPub, length sk = 32%nat ∧ dh_pair ekPub (take 32 e) ∧
    CreateInitialMessage idA (drop 32 idB) spkPub spkSig e =
      (Ok (sk, drop 32 idA ++ drop 32 idB, ekPub), drop 32 e) ∧
    ReceiveInitialMessage idB (drop 32 idA) spkPriv ekPub = Ok (sk, drop 32 idA ++ drop 32 idB).
Proof.
  intros HA HB Hspk Hsig He. destruct (x25519_public (take 32 e)) as [ek Hek]; [len|].
  destruct (convert_pair idA HA) as (uA & sA & HuA & HsA & HpA).
  destruct (convert_pair idB HB) as (uB & sB & HuB & HsB & HpB).
  destruct (X25519_agree _ _ _ _ HpA Hspk) as (s1 & E1 & E1').
  destruct (X25519_agree _ _ _ _ Hek HpB) as (s2 & E2 & E2').
  destruct (X25519_agree _ _ _ _ Hek Hspk) as (s3 & E3 & E3').
  pose proof (ed25519_Public_ok idA HA) as HPA. pose proof (ed25519_Public_ok idB HB) as HPB.
  assert (length (drop 32 idA) = 32%nat) as HlA by (destruct HA; len).
  assert (length (drop 32 idB) = 32%nat) as HlB by (destruct HB; len).
  eexists _, ek. split_and!; [apply hkdf_sha256_length|done| |].
  - unfold CreateInitialMessage. rewrite HlB, Hsig, rand_read_ok by done. simpl negb.
    assert (X25519 (take 32 e) basepoint = Ok ek) as -> by (unfold X25519; by destruct Hek as (_ & _ & ->)).
    rewrite HsA, HuB. unfold mbind, result_bind. simpl dhLoop.
    unfold mbind, result_bind. by rewrite E1, E2, E3, HPA.
  - unfold ReceiveInitialMessage. rewrite HlA, HsB, HuA. simpl negb. simpl dhLoop.
    unfold mbind, result_bind. by rewrite E1', E2', E3', HPB.
Qed.

(** C10. The key agreement. For two parties with proper identity keys and a
    random source that does not fail, every step of X3DH succeeds and both
    parties end up with the same 32-byte session key and the same associated
    data, the two public identity keys in the order initiator, responder. *)
Theorem x3dh_agreement (idA idB : bytes) (eA eB : entropy)
  (HA : ed25519_key idA) (HB : ed25519_key idB)
  (HeA : (32 <= length eA)%nat) (HeB : (32 <= length eB)%nat) :
  ∃ spkPub spkPriv spkSig sk ad ekPub,
    CreateNewSpk idB eB = (Ok (spkPub, spkPriv, spkSig), drop 32 eB) ∧
    CreateInitialMessage idA (drop 32 idB) spkPub spkSig eA = (Ok (sk, ad, ekPub), drop 32 eA) ∧
    ReceiveInitialMessage idB (drop 32 idA) spkPriv ekPub = Ok (sk, ad) ∧
    length sk = 32%nat ∧ ad = drop 32 idA ++ drop 32 idB.
Proof.
  destruct (CreateNewSpk_ok idB eB HB HeB) as (spkPub & spkSig & Hspk & Hp & _ & Hv).
  destruct (x3dh_agree idA idB spkPub (take 32 eB) spkSig eA) as (sk & ekPub & Hsk & _ & Hc & Hr); [done..|].
  by exists spkPub, (take 32 eB), spkSig, sk, (drop 32 idA ++ drop 32 idB), ekPub.
Qed.
End Agreement.

(** The initiator refuses a prekey that the peer's identity key has not
    signed, and a peer key of the wrong size, before it draws any randomness. *)
Theorem unsigned_prekey_refused `{RatchetCrypto} `{IdentityCrypto}
  (idKey peerIdKey spkPub spkSig : bytes) (e : entropy)
  (Hbad : length peerIdKey ≠ 32%nat ∨ ed25519_verify peerIdKey spkPub spkSig = false) :
  ∃ er, CreateInitialMessage idKey peerIdKey spkPub spkSig e = (Err er, e).
Proof.
  unfold CreateInitialMessage. destruct (Nat.eqb_spec (length peerIdKey) 32) as [Hl|]; [|by eexists].
  destruct Hbad as [Hbad|Hbad]; [done|rewrite Hbad]. by eexists.
Qed.

(** ** Instances *)

Lemma x3dh_agreement_witness :
  ∃ spkPub spkPriv spkSig sk ad ekPub,
    @CreateNewSpk toy_ratchet_crypto toy_identity_crypto (toy_identity Byte.x02) (replicate 40 Byte.x11) =
      (Ok (spkPub, spkPriv, spkSig), drop 32 (replicate 40 Byte.x11)) ∧
    @CreateInitialMessage toy_ratchet_crypto toy_identity_crypto (toy_identity Byte.x01)
      (drop 32 (toy_identity Byte.x02)) spkPub spkSig (replicate 40 Byte.x12) =
      (Ok (sk, ad, ekPub), drop 32 (replicate 40 Byte.x12)) ∧
    @ReceiveInitialMessage toy_ratchet_crypto toy_identity_crypto (toy_identity Byte.x02)
      (drop 32 (toy_identity Byte.x01)) spkPriv ekPub = Ok (sk, ad) ∧
    length sk = 32%nat ∧ ad = drop 32 (toy_identity Byte.x01) ++ drop 32 (toy_identity Byte.x02).
Proof.
  apply (@x3dh_agreement toy_ratchet_crypto toy_ratchet_laws toy_identity_crypto toy_identity_laws
    (toy_identity Byte.x01) (toy_identity Byte.x02) (replicate 40 Byte.x12) (replicate 40 Byte.x11)).
  - apply toy_identity_key.
  - apply toy_identity_key.
  - vm_compute. lia.
  - vm_compute. lia.
Defined.
