(* ===== verification/Session.v ===== *)
(** * Sessions (src/xochimilco/session.go)

    A session between two parties: the handshake that agrees on the keys of the
    Double Ratchet, the messages that follow, and the stored form. *)

From Stdlib Require Import ZArith Lia.
From stdpp Require Import base list numbers option strings.
From S2P Require Import Prelude Crypto ToyCrypto MsgHeader Primitives KeyBuff DhRatchet DoubleRatchet RatchetSync RatchetSafety Gob Marshal Liveness Base64 Message X3dh.

Local Open Scope Z_scope.

(** [Session]; a nil [doubleRatchet] is [None], a nil slice is empty. *)
Record Session := mkSession {
  s_LocalUUID : bytes;
  s_RemoteUUID : bytes;
  s_Me : bytes;
  s_IdentityKey : bytes;
  s_VerifyPeer : bytes → bool;
  s_spkPub : bytes;
  s_spkPriv : bytes;
  s_doubleRatchet : option DoubleRatchet;
}.

Definition set_RemoteUUID (u : bytes) (s : Session) : Session :=
  mkSession (s_LocalUUID s) u (s_Me s) (s_IdentityKey s) (s_VerifyPeer s) (s_spkPub s) (s_spkPriv s) (s_doubleRatchet s).
Definition set_IdentityKey (k : bytes) (s : Session) : Session :=
  mkSession (s_LocalUUID s) (s_RemoteUUID s) (s_Me s) k (s_VerifyPeer s) (s_spkPub s) (s_spkPriv s) (s_doubleRatchet s).
Definition set_spk (pub priv : bytes) (s : Session) : Session :=
  mkSession (s_LocalUUID s) (s_RemoteUUID s) (s_Me s) (s_IdentityKey s) (s_VerifyPeer s) pub priv (s_doubleRatchet s).
Definition set_doubleRatchet (d : option DoubleRatchet) (s : Session) : Session :=
  mkSession (s_LocalUUID s) (s_RemoteUUID s) (s_Me s) (s_IdentityKey s) (s_VerifyPeer s) (s_spkPub s) (s_spkPriv s) d.

(** [Session.Active] *)
Definition Active (s : Session) : bool := if s_doubleRatchet s is Some _ then true else false.

(** A session together with the random tape. *)
Abbreviation sst := (Session * entropy)%type.

Definition s_update (f : Session → Session) : ST sst unit := modify (λ '(s, e), (f s, e)).

(** A call that only reads the random source, and a call of a method of the
    session's Double Ratchet. *)
Definition with_rand {A} (f : entropy → result A * entropy) : ST sst A := λ '(s, e),
  let '(r, e') := f e in (r, (s, e')).

Definition with_ratchet {A} (m : ST drst A) : ST sst A := λ '(s, e),
  match s_doubleRatchet s with
  | None => (Panic, (s, e))
  | Some d => let '(r, (d', e')) := m (d, e) in (r, (set_doubleRatchet (Some d') s, e'))
  end.

(** [rand.Read(initialPayload[16:])] *)
Definition read_bytes (n : nat) (e : entropy) : result bytes * entropy :=
  let '(b, err, e') := rand_read n e in
  (match err with None => Ok b | Some er => Err er end, e').

(** The time component of a message identifier: [ulid.ULID.SetTime] on 16 bytes,
    with the time in milliseconds. *)
Class Ulid := ulid_SetTime : Z → bytes → bytes.
Class UlidLaws `{Ulid} : Prop := {
  ulid_SetTime_length : ∀ ms u, length u = 16%nat → length (ulid_SetTime ms u) = 16%nat;
  (** the ten bytes after the time are not touched *)
  ulid_SetTime_entropy : ∀ ms u, length u = 16%nat → drop 6 (ulid_SetTime ms u) = drop 6 u;
}.

Section Session.
Context `{RatchetCrypto} `{IdentityCrypto} `{BoxCrypto} `{Ulid}.

(** [Session.createOffer] *)
Definition createOffer : ST sst offerMessage :=
  s ← gets fst;
  '(spkPub, spkPriv, spkSig) ← with_rand (CreateNewSpk (s_IdentityKey s));
  _ ← s_update (set_spk spkPub spkPriv);
  idKey ← lift (ed25519_Public (s_IdentityKey s));
  mret {| om_uuid := s_LocalUUID s; om_nick := s_Me s; om_idKey := idKey;
          om_spKey := spkPub; om_spSig := spkSig |}.

(** [Session.Offer] *)
Definition Offer : ST sst bytes :=
  offer ← createOffer;
  mret (marshalMessage sessOffer (Message.Offer offer)).

(** [Session.OfferSealed] *)
Definition OfferSealed (k : bytes) : ST sst bytes :=
  offer ← createOffer;
  sealed ← with_rand (Seal (Message.Offer offer) k);
  mret (marshalMessage sessSealed (Sealed sealed)).

(** [sess.doubleRatchet, err = doubleratchet.CreateActive(...)], nil on error *)
Definition openActive (sessKey associatedData peerDhPub : bytes) : ST sst unit := λ '(s, e),
  match CreateActive sessKey associatedData peerDhPub e with
  | (Ok d, e') => (Ok tt, (set_doubleRatchet (Some d) s, e'))
  | (Err er, e') => (Err er, (set_doubleRatchet None s, e'))
  | (Panic, e') => (Panic, (s, e'))
  end.

(** [Session.receiveOffer]: [isEstablished] and the acknowledgement *)
Definition receiveOffer (offer : offerMessage) : ST sst (bool * bytes) :=
  s ← gets fst;
  if negb (s_VerifyPeer s (om_idKey offer))
  then throw (Errorf "verification function refuses public key")
  else
    '(sessKey, associatedData, ekPub) ← with_rand
       (CreateInitialMessage (s_IdentityKey s) (om_idKey offer) (om_spKey offer) (om_spSig offer));
    _ ← s_update (set_RemoteUUID (om_uuid offer));
    _ ← openActive sessKey associatedData (om_spKey offer);
    pad ← with_rand (read_bytes 7);
    let initialPayload := copied 16 (s_LocalUUID s) ++ pad in
    initialCiphertext ← with_ratchet (Encrypt initialPayload);
    s ← gets fst;
    idKey ← lift (ed25519_Public (s_IdentityKey s));
    let ack := {| am_idKey := idKey; am_eKey := ekPub; am_cipher := initialCiphertext;
                  am_uuid := s_RemoteUUID s |} in
    _ ← s_update (set_IdentityKey []);
    mret (true, marshalMessage sessAck (Ack ack)).

(** [Session.Acknowledge] *)
Definition Acknowledge (offerMsg : bytes) : ST sst bytes :=
  '(msgType, offerIf) ← lift (unmarshalMessage offerMsg);
  if negb (msgType =? sessOffer) then throw (Errorf "unexpected message type %d")
  else
    match offerIf with
    | Message.Offer offer => '(_, ackMsg) ← receiveOffer offer; mret ackMsg
    | _ => lift Panic
    end.

(** [Session.receiveAck] *)
Definition receiveAck (ack : ackMessage) : ST sst bool :=
  s ← gets fst;
  if Active s then throw (Errorf "received sessAck while being in an active session")
  else if negb (s_VerifyPeer s (am_idKey ack))
  then throw (Errorf "verification function refuses public key")
  else
    '(sessKey, associatedData) ← lift
       (ReceiveInitialMessage (s_IdentityKey s) (am_idKey ack) (s_spkPriv s) (am_eKey ack));
    d ← lift (CreatePassive sessKey associatedData (s_spkPub s) (s_spkPriv s));
    _ ← s_update (set_doubleRatchet (Some d));
    _ ← s_update (set_spk [] []);
    plaintext ← with_ratchet (Decrypt (am_cipher ack));
    uuid ← lift (reslice plaintext 16);
    _ ← s_update (set_RemoteUUID (sl uuid));
    _ ← s_update (set_IdentityKey []);
    mret true.

(** [Session.receiveData] *)
Definition receiveData (data : dataMessage) : ST sst bytes :=
  s ← gets fst;
  if negb (Active s) then throw (Errorf "received sessData while not being in an active session")
  else
    plaintext ← with_ratchet (Decrypt (dm_payload data));
    mret (sl plaintext).

(** [Session.ReceiveMsg]: [isEstablished], [isClosed] and the plaintext *)
Definition ReceiveMsg (msg : Msg) : ST sst (bool * bool * bytes) :=
  match msg with
  | Message.Offer m => '(isEstablished, txt) ← receiveOffer m; mret (isEstablished, false, txt)
  | Ack m => isEstablished ← receiveAck m; mret (isEstablished, false, [])
  | Data m => plaintext ← receiveData m; mret (false, false, plaintext)
  | Message.Close m => mret (false, true, [])
  | Sealed _ => throw (Errorf "received an unexpected message type %T")
  end.

(** [Session.Receive] *)
Definition Receive (msg : bytes) : ST sst (bool * bool * bytes) :=
  '(_, msgIf) ← lift (unmarshalMessage msg);
  ReceiveMsg msgIf.

(** [encTime] at the time [ms] *)
Definition encTime (ms : Z) (input : bytes) : bytes := ulid_SetTime ms (copied 16 input).

(** [Session.Send] at the time [ms] *)
Definition Send (ms : Z) (plaintext : bytes) : ST sst bytes :=
  s ← gets fst;
  if negb (Active s) then throw (Errorf "cannot encrypt data without being in an active session")
  else
    ciphertext ← with_ratchet (Encrypt plaintext);
    s ← gets fst;
    mret (marshalMessage sessData (Data (DataMessage (encTime ms (s_RemoteUUID s)) ciphertext))).

(** [Session.Close] *)
Definition Close : ST sst bytes :=
  _ ← s_update (set_spk [] []);
  _ ← s_update (set_doubleRatchet None);
  s ← gets fst;
  mret (marshalMessage sessClose (Message.Close (CloseMessage (s_RemoteUUID s) [Byte.xff]))).
End Session.

(** ** The handshake *)

Section Handshake.
Context `{RatchetCryptoLaws} `{!IdentityCrypto} `{!IdentityCryptoLaws} `{BoxCrypto} `{UlidLaws}.

Lemma with_rand_run {A} (f : entropy → result A * entropy) s e r e' :
  f e = (r, e') → with_rand f (s, e) = (r, (s, e')).
Proof. intros Hf. unfold with_rand. by rewrite Hf. Qed.

Lemma with_ratchet_run {A} (m : ST drst A) s e d r d' e' :
  s_doubleRatchet s = Some d → m (d, e) = (r, (d', e')) →
  with_ratchet m (s, e) = (r, (set_doubleRatchet (Some d') s, e')).
Proof. intros Hd Hm. unfold with_ratchet. by rewrite Hd, Hm. Qed.

(** A session that can start a handshake. *)
Definition ready (s : Session) : Prop :=
  ed25519_key (s_IdentityKey s) ∧ length (s_LocalUUID s) = 16%nat.

Definition identity (s : Session) : bytes := drop 32 (s_IdentityKey s).

Lemma identity_length s : ready s → length (identity s) = 32%nat.
Proof. intros [[Hl _] _]. unfold identity. len. Qed.

(** An offer that its maker can be acknowledged for. *)
Definition offer_of (s : Session) (spkPriv : bytes) (offer : offerMessage) : Prop :=
  om_idKey offer = identity s ∧ om_uuid offer = s_LocalUUID s ∧
  dh_pair (om_spKey offer) spkPriv ∧ length (om_spSig offer) = 64%nat ∧
  ed25519_verify (om_idKey offer) (om_spKey offer) (om_spSig offer) = true.

(** The same of a session under some identifier. *)
Definition offer_under (uuid : bytes) (s : Session) : Session :=
  mkSession uuid (s_RemoteUUID s) (s_Me s) (s_IdentityKey s) (s_VerifyPeer s) (s_spkPub s) (s_spkPriv s)
    (s_doubleRatchet s).

Lemma createOffer_ok s e :
  ready s → (32 <= length e)%nat →
  ∃ offer, offer_of s (take 32 e) offer ∧
    createOffer (s, e) = (Ok offer, (set_spk (om_spKey offer) (take 32 e) s, drop 32 e)).
Proof.
  intros [Hid Hu] He.
  destruct (CreateNewSpk_ok (s_IdentityKey s) e Hid He) as (spkPub & spkSig & Hspk & Hp & Hl & Hv).
  eexists (OfferMessage _ _ _ _ _). split; [|unfold createOffer; st_pure;
    st_call (with_rand_run _ s e _ _ Hspk); st_pure; unfold lift;
    erewrite ST_bind_Ok by (by rewrite ed25519_Public_ok); done].
  by split_and!.
Qed.

Lemma Offer_ok s e :
  ready s → (32 <= length e)%nat →
  ∃ offer, offer_of s (take 32 e) offer ∧
    Offer (s, e) = (Ok (marshalMessage sessOffer (Message.Offer offer)),
                    (set_spk (om_spKey offer) (take 32 e) s, drop 32 e)).
Proof.
  intros Hr He. destruct (createOffer_ok s e Hr He) as (offer & Ho & Hc). exists offer. split; [done|].
  unfold Offer. by st_call Hc.
Qed.

(** The state in which the two Double Ratchets start: [B] acknowledges, [A] has
    offered. *)
Definition handshake_payload (B : Session) (pad : bytes) : bytes := copied 16 (s_LocalUUID B) ++ pad.

Lemma receiveOffer_ok A B offer spkPriv e :
  ready A → ed25519_key (s_IdentityKey B) → s_VerifyPeer B (identity A) = true → offer_of A spkPriv offer →
  (71 <= length e)%nat →
  ∃ sk ad ekPub d0 ct d1,
    length sk = 32%nat ∧ length ekPub = 32%nat ∧
    ReceiveInitialMessage (s_IdentityKey A) (identity B) spkPriv ekPub = Ok (sk, ad) ∧
    CreateActive sk ad (om_spKey offer) (drop 32 e) = (Ok d0, drop 64 e) ∧
    Encrypt (handshake_payload B (take 7 (drop 64 e))) (d0, drop 71 e) = (Ok ct, (d1, drop 71 e)) ∧
    dr_pub d1 = dr_pub d0 ∧ dr_prevSendNo d1 = 0 ∧ dr_sendNo d1 = 1 ∧
    receiveOffer offer (B, e) =
      (Ok (true, marshalMessage sessAck (Ack (AckMessage (identity B) ekPub (s_LocalUUID A) ct))),
       (set_IdentityKey [] (set_doubleRatchet (Some d1) (set_RemoteUUID (s_LocalUUID A) B)), drop 71 e)).
Proof.
  intros HA HB Hver (Hik & Hou & Hspk & Hsl & Hsig) He. pose proof HA as [HkA HuA]. pose proof HB as HkB.
  destruct (x3dh_agree (s_IdentityKey B) (s_IdentityKey A) (om_spKey offer) spkPriv (om_spSig offer) e)
    as (sk & ekPub & Hsk & Hek & Hinit & Hrecv); [done..|unfold identity in Hik; by rewrite <-Hik|lia|].
  fold (identity A) (identity B) in *. set (ad := identity B ++ identity A) in *.
  destruct (dhKeyPair_ok (drop 32 e)) as (pub0 & Hkp & Hp0); [len|].
  assert (∃ d0, CreateActive sk ad (om_spKey offer) (drop 32 e) = (Ok d0, drop 64 e)) as [d0 Hact].
  { unfold CreateActive, dhRatchetActive. rewrite Hkp. eexists. by rewrite drop_drop. }
  assert (∃ dP, CreatePassive sk ad (om_spKey offer) spkPriv = Ok dP) as [dP HdP] by (by eexists).
  destruct (initial_encrypt (Party d0 (drop 71 e) [] [] [dr_pub d0])
    (Party dP [] [] [] [om_spKey offer]) (handshake_payload B (take 7 (drop 64 e))))
    as (ct & d1 & Henc & Hpub & Hprev & Hsend & _).
  { eapply init_initial, (sys_init_intro sk ad _ spkPriv (drop 32 e)); [done|done|len|done|done]. }
  exists sk, ad, ekPub, d0, ct, d1.
  split_and!; [done|by destruct Hek as (_ & ? & _)|done..|].
  unfold receiveOffer. st_pure. rewrite Hik, Hver. cbn [negb].
  st_call (with_rand_run _ B e _ _ Hinit). st_pure.
  assert (openActive sk ad (om_spKey offer) (set_RemoteUUID (om_uuid offer) B, drop 32 e) =
    (Ok tt, (set_doubleRatchet (Some d0) (set_RemoteUUID (om_uuid offer) B), drop 64 e))) as Hopen
    by (unfold openActive; by rewrite Hact).
  st_call Hopen.
  assert (read_bytes 7 (drop 64 e) = (Ok (take 7 (drop 64 e)), drop 71 e)) as Hpad.
  { unfold read_bytes. rewrite rand_read_ok by len. by rewrite drop_drop. }
  st_call (with_rand_run _ _ _ _ _ Hpad).
  st_call (with_ratchet_run _ (set_doubleRatchet (Some d0) (set_RemoteUUID (om_uuid offer) B)) _ _ _ _ _ eq_refl Henc).
  st_pure. unfold lift. erewrite ST_bind_Ok by (by rewrite ed25519_Public_ok). st_pure.
  rewrite Hou. done.
Qed.

(** The Double Ratchets after the acknowledgement was sent and received: in
    step, and with the rest of the tapes for new keys. *)
Record after_handshake (PA PB : party) (spkPub : bytes) (eA eB0 eB : entropy) : Prop := {
  ha_synced : synced PA PB;
  ha_room : ∀ n, Z.of_nat n < 2 ^ 16 → room n (p_dr PA) ∧ room n (p_dr PB);
  ha_freshA : ∀ k, fresh_tape (S k) [spkPub] eA → fresh_tape k (p_used PA) (p_ent PA);
  ha_freshB : ∀ k, fresh_tape k [tape_key eB0] eB → fresh_tape k (p_used PB) (p_ent PB);
  ha_tapes : p_ent PA = drop 32 eA ∧ p_ent PB = eB;
  ha_usedA : ∀ x, x ∈ p_used PA → x = spkPub ∨ x = tape_key eA;
  ha_usedB : ∀ x, x ∈ p_used PB → x = tape_key eB0;
}.

Lemma CreateActive_key sk ad peer e0 d e1 : CreateActive sk ad peer e0 = (Ok d, e1) → dr_pub d = tape_key e0.
Proof.
  unfold CreateActive, dhRatchetActive, tape_key.
  destruct (dhKeyPair e0) as [[[pub priv] [er|]] e2]; intros [= <- <-]. done.
Qed.

Lemma handshake_synced dP eA PB1 m spare d' e' CKn back old spkPub eB0 :
  let PA0 := Party dP eA [] [] [spkPub] in
  ahead PB1 PA0 CKn back old →
  dr_sendNo dP = 0 ∧ dr_recvNo dP = 0 ∧ dr_msgKeyBuffer dP = newKeyBuffer →
  dr_msgKeyBuffer (p_dr PB1) = newKeyBuffer ∧ 0 <= dr_recvNo (p_dr PB1) →
  dr_sendNo (p_dr PB1) = 1 → dr_prevSendNo (p_dr PB1) = 0 → p_used PB1 = [tape_key eB0; tape_key eB0] →
  m ∈ p_out PB1 → m_pub m = p_pub PB1 → m_prev m = 0 → m_no m = 0 → fresh_key PA0 →
  Decrypt (m_ct m) (dP, eA) = (Ok (GSlice (m_pt m) spare), (d', e')) →
  after_handshake (Party d' e' [] (seen_after PA0 m) (used_after PA0 d')) PB1 spkPub eA eB0 (p_ent PB1).
Proof.
  intros PA0 Ha (Hs0 & HrA & HbA) (HbB & HrB) HsB HpB Hused Hin Hpub Hmp Hmn Hfresh Hdec.
  assert (m_pub m ≠ dr_peerDhPub dP) as Hne by (rewrite Hpub; apply not_eq_sym, (ah_unseen _ _ _ _ _ Ha)).
  destruct (Decrypt_next PB1 PA0 CKn back old m Ha Hin Hpub) as
    (spare' & d1 & e1 & CKn' & Hdec' & Ha' & HnA & HpA & HrA' & He & Hk & Hkb & _);
    [simpl; unfold maxSkipElements; lia..|done|].
  simpl in *. rewrite Hdec in Hdec'. injection Hdec' as _ <- <-.
  unfold seen_after. rewrite bool_decide_eq_false_2 by done.
  split.
  - split; simpl; try lia; [by do 3 eexists|apply Forall_singleton; lia|]. split; [|done]. by rewrite Hkb by lia.
  - intros n Hn. unfold room. simpl. lia.
  - intros k (_ & _ & Hf). simpl. unfold used_after. by rewrite He, Hk.
  - intros k. apply fresh_tape_mono. rewrite Hused.
    intros x [->|Hx]%elem_of_cons; [by left|done].
  - done.
  - simpl. unfold used_after. rewrite Hk. intros x [->|Hx%list_elem_of_singleton]%elem_of_cons; [by right|by left].
  - rewrite Hused. intros x [->|Hx%list_elem_of_singleton]%elem_of_cons; done.
Qed.

Lemma handshake_system sk ad spkPub spkPriv eB0 eB1 eB eA d0 d1 dP payload ct :
  length sk = 32%nat → dh_pair spkPub spkPriv → (32 <= length eB0)%nat → (32 <= length eA)%nat →
  (dhKeyPair eA).1.1.1 ≠ spkPub →
  CreateActive sk ad spkPub eB0 = (Ok d0, eB1) → CreatePassive sk ad spkPub spkPriv = Ok dP →
  Encrypt payload (d0, eB) = (Ok ct, (d1, eB)) →
  dr_pub d1 = dr_pub d0 → dr_prevSendNo d1 = 0 → dr_sendNo d1 = 1 →
  ∃ spare PA PB, reachable (PB, PA) ∧ p_dr PB = d1 ∧ p_ent PB = eB ∧
    can_send (p_dr PA) ∧ can_send (p_dr PB) ∧ after_handshake PA PB spkPub eA eB0 eB ∧
    Decrypt ct (dP, eA) = (Ok (GSlice payload spare), (p_dr PA, p_ent PA)).
Proof.
  intros Hsk Hspk He0 HeA Hfresh Hact Hpas Henc Hpub Hprev Hno.
  set (PB0 := Party d0 eB [] [] [dr_pub d0]). set (PA0 := Party dP eA [] [] [spkPub]).
  assert (sys_init (PB0, PA0)) as Hsys by (by eapply (sys_init_intro sk ad spkPub spkPriv eB0)).
  set (m := sent_msg d1 payload ct).
  set (PB1 := Party d1 eB [m] [] (used_after PB0 d1)).
  pose proof (init_initial _ _ Hsys) as Hi. pose proof (in_pairA _ _ Hi) as (_ & Hl0 & _).
  assert (deliverable PA0 PB1 m) as Hdel.
  { apply deliver_next; simpl; rewrite ?Hprev, ?Hno; try done.
    - by apply list_elem_of_singleton.
    - unfold CreatePassive in Hpas. injection Hpas as <-. simpl. rewrite Hpub.
      intros Heq. simpl in Hl0. by rewrite Heq in Hl0.
    - pose proof (proj1 (proj2 (in_recvB _ _ Hi))) as Hr0. simpl in Hr0. by rewrite Hr0.
    - split; [done|]. simpl. by rewrite list_elem_of_singleton. }
  assert (conv PA0 PB1) as Hc by (apply conv_sym; by apply (initial_send PB0 PA0 payload)).
  destruct Hc as [(CKn & back & old & Ha)|(CKn & back & old & Ha)].
  { exfalso. apply ah_peer in Ha. simpl in Ha. rewrite Hpub in Ha.
    unfold CreatePassive in Hpas. injection Hpas as <-. simpl in Ha, Hl0. by rewrite <-Ha in Hl0. }
  destruct (Decrypt_next PB1 PA0 CKn back old m Ha) as (spare & d' & e' & CKn' & Hdec & Ha' & HnA & HpA & HrA & HeA' & HpubA & HkbA & _).
  1-5: destruct Hdel as [Hin Heq|Hin Heq Hne Hpr Hnn Hfr]; [|done]; exfalso;
       unfold CreatePassive in Hpas; injection Hpas as <-; simpl in Heq; rewrite Hpub in Heq;
       simpl in Hl0; by rewrite Heq in Hl0.
  exists spare, (Party d' e' [] (seen_after PA0 m) (used_after PA0 d')), PB1.
  assert (dr_sendNo dP = 0 ∧ dr_recvNo dP = 0 ∧ dr_msgKeyBuffer dP = newKeyBuffer) as HdP
    by (unfold CreatePassive in Hpas; by injection Hpas as <-).
  assert (dr_sendNo dP = 0) as HnP by apply HdP.
  destruct (initial_encrypt PB0 PA0 payload Hi) as (ct' & d1' & Henc' & _ & _ & _ & HrB & HkbB).
  assert (d1' = d1) as -> by (simpl in Henc'; congruence). clear Henc'.
  assert (dr_msgKeyBuffer d0 = newKeyBuffer) as Hnew0.
  { unfold CreateActive, dhRatchetActive in Hact. destruct (dhKeyPair_ok eB0 He0) as (pub & Hkp & _).
    rewrite Hkp in Hact. by injection Hact as <- <-. }
  assert (after_handshake (Party d' e' [] (seen_after PA0 m) (used_after PA0 d')) PB1 spkPub eA eB0 eB) as Hah.
  { apply (handshake_synced dP eA PB1 m spare d' e' CKn back old spkPub eB0); try done.
    - simpl. split; [by rewrite HkbB|by rewrite HrB].
    - simpl. unfold used_after. simpl. by rewrite Hpub, (CreateActive_key _ _ _ _ _ _ Hact).
    - by left.
    - simpl. lia.
    - split; [done|]. simpl. by rewrite list_elem_of_singleton. }
  assert (can_send d') as HcA.
  { pose proof (ah_send _ _ _ _ _ Ha') as (_ & _ & Hck). simpl in Hck, HpA. unfold can_send.
    rewrite HnA, HpA, HnP, Hck. done. }
  assert (can_send d1) as HcB.
  { pose proof (ah_send _ _ _ _ _ Ha) as (_ & _ & Hck). simpl in Hck. unfold can_send. by rewrite Hprev, Hno, Hck. }
  split_and!; [|done..].
  eapply reachable_step; [eapply reachable_step; [by apply reachable_init|]|].
  - by apply sys_left, step_send.
  - by eapply sys_right, step_recv.
Qed.

Lemma receiveAck_ok A ack sk ad dP payload spare d' e e' :
  s_doubleRatchet A = None → s_VerifyPeer A (am_idKey ack) = true →
  ReceiveInitialMessage (s_IdentityKey A) (am_idKey ack) (s_spkPriv A) (am_eKey ack) = Ok (sk, ad) →
  CreatePassive sk ad (s_spkPub A) (s_spkPriv A) = Ok dP →
  Decrypt (am_cipher ack) (dP, e) = (Ok (GSlice payload spare), (d', e')) →
  (16 <= length payload)%nat →
  receiveAck ack (A, e) =
    (Ok true, (set_IdentityKey [] (set_RemoteUUID (take 16 payload)
                 (set_doubleRatchet (Some d') (set_spk [] [] A))), e')).
Proof.
  intros Hdr Hver Hinit Hpas Hdec Hl. unfold receiveAck. st_pure. unfold Active. rewrite Hdr, Hver. cbn [negb].
  unfold lift at 1. erewrite ST_bind_Ok by (by rewrite Hinit). cbv beta iota.
  unfold lift at 1. erewrite ST_bind_Ok by (by rewrite Hpas). st_pure. st_pure.
  erewrite ST_bind_Ok by (by apply (with_ratchet_run _ _ _ dP)).
  assert (∃ sp, reslice (GSlice payload spare) 16 = Ok (GSlice (take 16 payload) sp)) as [sp Hre].
  { unfold reslice. simpl sl. simpl sl_spare.
    destruct (Z.leb_spec 16 (Z.of_nat (length (payload ++ spare)))) as [_|Hlt]; [|rewrite length_app in Hlt; lia].
    simpl. eexists. rewrite take_app_le by done. done. }
  unfold lift. erewrite ST_bind_Ok by (by rewrite Hre). done.
Qed.

Lemma offer_of_wf A spkPriv offer : ready A → offer_of A spkPriv offer → msg_wf (Message.Offer offer).
Proof.
  intros HA (Hik & Hou & Hspk & Hsl & _). simpl. rewrite Hik, Hou.
  split_and!; [by apply identity_length|apply Hspk|done|apply HA].
Qed.

(** From an offer to two linked Double Ratchets. The identifier of [A] may have
    been filled up in the offer, and [B] need not have a proper one. *)
Lemma handshake_under A B u offer spkPriv eA eB :
  ready (offer_under u A) → ed25519_key (s_IdentityKey B) → s_doubleRatchet A = None →
  s_VerifyPeer A (identity B) = true → s_VerifyPeer B (identity A) = true →
  offer_of (offer_under u A) spkPriv offer →
  (32 <= length eA)%nat → (71 <= length eB)%nat →
  x25519 (take 32 eA) basepoint ≠ x25519 spkPriv basepoint →
  ∃ ack PA PB, msg_wf (Ack ack) ∧ am_uuid ack = u ∧ reachable (PB, PA) ∧
    can_send (p_dr PA) ∧ can_send (p_dr PB) ∧
    after_handshake PA PB (om_spKey offer) eA (drop 32 eB) (drop 71 eB) ∧
    receiveOffer offer (B, eB) =
      (Ok (true, marshalMessage sessAck (Ack ack)),
       (set_IdentityKey [] (set_doubleRatchet (Some (p_dr PB)) (set_RemoteUUID u B)), p_ent PB)) ∧
    receiveAck ack (set_spk (om_spKey offer) spkPriv A, eA) =
      (Ok true, (set_IdentityKey [] (set_RemoteUUID (copied 16 (s_LocalUUID B))
                   (set_doubleRatchet (Some (p_dr PA)) (set_spk [] [] A))), p_ent PA)).
Proof.
  intros HA HB Hnew HvA HvB Hoff HeA HeB Hfresh.
  destruct (receiveOffer_ok (offer_under u A) B offer spkPriv eB HA HB HvB Hoff HeB)
    as (sk & ad & ekPub & d0 & ct & d1 & Hsk & Hek & Hinit & Hact & Henc & Hpub & Hprev & Hno & Hrecv).
  pose proof Hoff as (Hik & Hou & Hspk & Hsl & Hsig).
  assert (∃ dP, CreatePassive sk ad (om_spKey offer) spkPriv = Ok dP) as [dP HdP] by (by eexists).
  destruct (handshake_system sk ad (om_spKey offer) spkPriv (drop 32 eB) (drop 64 eB) (drop 71 eB)
    eA d0 d1 dP (handshake_payload B (take 7 (drop 64 eB))) ct)
    as (spare & PA & PB & Hreach & HPB & HeB' & HcA & HcB & Hah & Hdec); try done; [len| |].
  { destruct (dhKeyPair_ok eA) as (pub & Hkp & (_ & _ & Hp)); [len|]. rewrite Hkp. simpl.
    intros ->. apply Hfresh. rewrite Hp. symmetry. apply Hspk. }
  set (ack := AckMessage (identity B) ekPub u ct) in *.
  assert (ct ≠ []) as Hct by (by eapply Encrypt_nonempty).
  assert (length (identity B) = 32%nat) as HlB by (unfold identity; destruct HB; len).
  pose proof (receiveAck_ok (set_spk (om_spKey offer) spkPriv A) ack sk ad dP _ spare (p_dr PA) eA (p_ent PA)
    Hnew HvA Hinit HdP Hdec) as Hra.
  assert (length (copied 16 (s_LocalUUID B)) = 16%nat) as H16 by apply length_copied.
  exists ack, PA, PB. rewrite HPB, HeB' in *. split_and!; try done.
  - simpl. split_and!; [done|done|apply HA|done].
  - rewrite Hra by (unfold handshake_payload; len). unfold handshake_payload.
    rewrite take_app_length' by done. done.
Qed.

Lemma handshake_ok A B offer spkPriv eA eB :
  ready A → ready B → s_doubleRatchet A = None →
  s_VerifyPeer A (identity B) = true → s_VerifyPeer B (identity A) = true → offer_of A spkPriv offer →
  (32 <= length eA)%nat → (71 <= length eB)%nat →
  x25519 (take 32 eA) basepoint ≠ x25519 spkPriv basepoint →
  ∃ ack PA PB, msg_wf (Ack ack) ∧ am_uuid ack = s_LocalUUID A ∧ reachable (PB, PA) ∧
    can_send (p_dr PA) ∧ can_send (p_dr PB) ∧
    after_handshake PA PB (om_spKey offer) eA (drop 32 eB) (drop 71 eB) ∧
    receiveOffer offer (B, eB) =
      (Ok (true, marshalMessage sessAck (Ack ack)),
       (set_IdentityKey [] (set_doubleRatchet (Some (p_dr PB)) (set_RemoteUUID (s_LocalUUID A) B)), p_ent PB)) ∧
    receiveAck ack (set_spk (om_spKey offer) spkPriv A, eA) =
      (Ok true, (set_IdentityKey [] (set_RemoteUUID (s_LocalUUID B)
                   (set_doubleRatchet (Some (p_dr PA)) (set_spk [] [] A))), p_ent PA)).
Proof.
  intros HA HB Hnew HvA HvB Hoff HeA HeB Hfresh.
  destruct (handshake_under A B (s_LocalUUID A) offer spkPriv eA eB)
    as (ack & PA & PB & Hh); try done; [apply HB|]. rewrite copied_exact in Hh by apply HB. by exists ack, PA, PB.
Qed.

(** C2. The handshake. For two sessions with proper identity keys that accept
    each other's public keys, [Offer], [Acknowledge] and [Receive] succeed one
    after the other, given a working random source: both sessions are active,
    each knows the other's identifier, the identity keys are forgotten, and the
    two Double Ratchets are in a reachable state of the system for which
    delivery is proved, with sending chains on both sides. *)
Theorem handshake_establishes (A B : Session) (eA eB : entropy)
  (HA : ready A) (HB : ready B) (Hnew : s_doubleRatchet A = None)
  (HvA : s_VerifyPeer A (identity B) = true) (HvB : s_VerifyPeer B (identity A) = true)
  (HeA : (64 <= length eA)%nat) (HeB : (71 <= length eB)%nat)
  (Hfresh : x25519 (take 32 (drop 32 eA)) basepoint ≠ x25519 (take 32 eA) basepoint) :
  ∃ offerMsg ackMsg A1 A2 B1 eA1 eA2 eB1 PA PB,
    Offer (A, eA) = (Ok offerMsg, (A1, eA1)) ∧
    Acknowledge offerMsg (B, eB) = (Ok ackMsg, (B1, eB1)) ∧
    Receive ackMsg (A1, eA1) = (Ok (true, false, []), (A2, eA2)) ∧
    s_RemoteUUID A2 = s_LocalUUID B ∧ s_RemoteUUID B1 = s_LocalUUID A ∧
    s_IdentityKey A2 = [] ∧ s_IdentityKey B1 = [] ∧
    reachable (PB, PA) ∧ can_send (p_dr PA) ∧ can_send (p_dr PB) ∧
    s_doubleRatchet A2 = Some (p_dr PA) ∧ eA2 = p_ent PA ∧
    s_doubleRatchet B1 = Some (p_dr PB) ∧ eB1 = p_ent PB.
Proof.
  destruct (Offer_ok A eA HA) as (offer & Hoff & HO); [lia|].
  destruct (handshake_ok A B offer (take 32 eA) (drop 32 eA) eB) as (ack & PA & PB & Hwa & _ & Hreach & HcA & HcB & _ & Hro & Hra);
    try done; [len|].
  pose proof (unmarshal_marshal _ (offer_of_wf _ _ _ HA Hoff)) as Huo. pose proof (unmarshal_marshal _ Hwa) as Hua.
  cbn [msg_type] in Huo, Hua.
  eexists _, _, _, _, _, _, _, _, PA, PB. split; [exact HO|]. split.
  { unfold Acknowledge, lift. erewrite ST_bind_Ok by (by rewrite Huo).
    cbv beta iota. change (negb (sessOffer =? sessOffer)) with false. cbv iota. st_call Hro. done. }
  split.
  { unfold Receive, lift. erewrite ST_bind_Ok by (by rewrite Hua).
    cbv beta iota. cbn [ReceiveMsg]. st_call Hra. done. }
  simpl. by split_and!.
Qed.
End Handshake.

(** ** Established sessions *)

Section Established.
Context `{RatchetCryptoLaws} `{!IdentityCrypto} `{BoxCrypto} `{UlidLaws}.

(** Two sessions whose Double Ratchets are a reachable system. *)
Definition linked (A B : Session) (PA PB : party) : Prop :=
  (reachable (PA, PB) ∨ reachable (PB, PA)) ∧
  s_doubleRatchet A = Some (p_dr PA) ∧ s_doubleRatchet B = Some (p_dr PB).

(** A ratchet message as a session puts it on the wire. *)
Definition data_wire (uuid : bytes) (m : msg) : bytes :=
  marshalMessage sessData (Data (DataMessage uuid (m_ct m))).

Lemma linked_sym A B PA PB : linked A B PA PB → linked B A PB PA.
Proof. intros (Hr & HA & HB). split_and!; [tauto|done|done]. Qed.

(** A linked session that is stored and restored stays linked. *)
Lemma linked_restored A B PA PB A' e' :
  linked A B PA PB → s_doubleRatchet A' = restored 0 <$> s_doubleRatchet A →
  linked A' B (restored_party PA e') PB.
Proof.
  intros (Hr & HA & HB) HA'. rewrite HA in HA'. split_and!; [|done|done].
  destruct Hr as [Hr|Hr]; [left|right]; by apply reachable_restored.
Qed.

Lemma linked_keys A B PA PB : linked A B PA PB → keys_nonempty (p_dr PA).
Proof. intros (Hr & _). by eapply reachable_keys. Qed.

Lemma linked_conv A B PA PB m : linked A B PA PB → deliverable PB PA m → conv PB PA.
Proof.
  intros ([Hr|Hr] & _) Hdel; apply reachable_inv in Hr as [Hi|Hc]; simpl in *;
    [by apply (initial_no_delivery _ _ m Hi) in Hdel|by apply conv_sym
    |by apply (initial_no_delivery _ _ m Hi) in Hdel|done].
Qed.

Lemma encTime_length ms u : length (encTime ms u) = 16%nat.
Proof. apply ulid_SetTime_length, length_copied. Qed.

Lemma linked_send A B PA PB ms pt wire A' e' :
  linked A B PA PB → Send ms pt (A, p_ent PA) = (Ok wire, (A', e')) →
  ∃ m PA', linked A' B PA' PB ∧ p_ent PA' = e' ∧ m ∈ p_out PA' ∧ m_pt m = pt ∧
    wire = data_wire (encTime ms (s_RemoteUUID A)) m ∧ A' = set_doubleRatchet (Some (p_dr PA')) A ∧
    sends PA m PA'.
Proof.
  intros (Hr & HA & HB). unfold Send. st_pure. unfold Active. rewrite HA. cbn [negb]. intros Hs.
  apply ST_bind_inv in Hs as (ct & [s1 e1] & Henc & Hs). unfold with_ratchet in Henc. rewrite HA in Henc.
  destruct (Encrypt pt (p_dr PA, p_ent PA)) as [r [d' e'']] eqn:He. injection Henc as -> <- <-.
  apply ST_bind_inv in Hs as (s2 & s3 & [= <- <-] & [= <- <- <-]). simpl.
  exists (sent_msg d' pt ct), (Party d' e'' (sent_msg d' pt ct :: p_out PA) (p_seen PA) (used_after PA d')).
  split_and!; [|done|by left|done|done|done|done].
  split_and!; [|done|done]. destruct Hr as [Hr|Hr]; [left|right]; (eapply reachable_step; [exact Hr|]).
  - by apply sys_left, step_send.
  - by apply sys_right, step_send.
Qed.

Lemma linked_can_send A B PA PB ms pt :
  linked A B PA PB → can_send (p_dr PA) →
  ∃ wire A', Send ms pt (A, p_ent PA) = (Ok wire, (A', p_ent PA)).
Proof.
  intros (Hr & HA & HB) Hcan. destruct (reachable_sends PA PB pt Hr Hcan) as (ct & d' & Henc).
  unfold Send. st_pure. unfold Active. rewrite HA. cbn [negb].
  st_call (with_ratchet_run _ _ _ _ _ _ _ HA Henc). st_pure. by do 2 eexists.
Qed.

Lemma linked_receiveMsg A B PA PB m uuid :
  linked A B PA PB → deliverable PB PA m → length uuid = 16%nat →
  msg_wf (Data (DataMessage uuid (m_ct m))) ∧
  ∃ PB', receives PB m PB' ∧ linked A (set_doubleRatchet (Some (p_dr PB')) B) PA PB' ∧
    ReceiveMsg (Data (DataMessage uuid (m_ct m))) (B, p_ent PB) =
      (Ok (false, false, m_pt m), (set_doubleRatchet (Some (p_dr PB')) B, p_ent PB')).
Proof.
  intros Hl Hdel Hu. pose proof (linked_conv A B PA PB m Hl Hdel) as Hc.
  destruct Hl as (Hr & HA & HB).
  destruct (conv_recv PB PA m Hc Hdel) as (spare & d' & e' & Hdec & _).
  destruct (conv_chain_msg PB PA m Hc Hdel) as (CK & ad & Hm).
  apply chain_msg_header in Hm as [Hlen _]. split.
  { split; [done|]. simpl. intros Hnil. by rewrite Hnil in Hlen. }
  exists (Party d' e' (p_out PB) (seen_after PB m) (used_after PB d')).
  split; [by split; [eexists|]|]. split.
  - split_and!; [|done|done]. destruct Hr as [Hr|Hr]; [left|right]; (eapply reachable_step; [exact Hr|]).
    + by eapply sys_right, step_recv.
    + by eapply sys_left, step_recv.
  - cbn [ReceiveMsg]. unfold receiveData. cbn [dm_payload].
    erewrite ST_bind_Ok; [done|]. st_pure. unfold Active. rewrite HB. cbn [negb].
    erewrite ST_bind_Ok by (by apply (with_ratchet_run _ _ _ (p_dr PB))). done.
Qed.

Lemma linked_receive A B PA PB m uuid :
  linked A B PA PB → deliverable PB PA m → length uuid = 16%nat →
  ∃ PB', receives PB m PB' ∧ linked A (set_doubleRatchet (Some (p_dr PB')) B) PA PB' ∧
    Receive (data_wire uuid m) (B, p_ent PB) =
      (Ok (false, false, m_pt m), (set_doubleRatchet (Some (p_dr PB')) B, p_ent PB')).
Proof.
  intros Hl Hdel Hu. destruct (linked_receiveMsg A B PA PB m uuid Hl Hdel Hu) as (Hwf & PB' & Hr & Hl' & Hrecv).
  exists PB'. split; [done|]. split; [done|]. apply unmarshal_marshal in Hwf. cbn [msg_type] in Hwf.
  unfold Receive, lift, data_wire. by erewrite ST_bind_Ok by (by rewrite Hwf).
Qed.

(** C3. Established sessions carry messages. As long as two sessions are linked
    to a reachable system of Double Ratchets, as the handshake leaves them: [Send]
    succeeds while there is a sending chain whose counters fit the header, what
    it prints is a data message of that system and keeps the sessions
    linked, and every data message that may be delivered is read by [Receive]
    as the plaintext that was sent, neither as a handshake nor as a closing
    message, and keeps the sessions linked. *)
Theorem linked_sessions_converse (A B : Session) (PA PB : party) (Hl : linked A B PA PB) :
  (can_send (p_dr PA) → ∀ ms pt, ∃ wire A', Send ms pt (A, p_ent PA) = (Ok wire, (A', p_ent PA))) ∧
  (∀ ms pt wire A' e', Send ms pt (A, p_ent PA) = (Ok wire, (A', e')) →
     ∃ m PA', linked A' B PA' PB ∧ p_ent PA' = e' ∧ m ∈ p_out PA' ∧ m_pt m = pt ∧
       wire = data_wire (encTime ms (s_RemoteUUID A)) m) ∧
  (∀ m uuid, deliverable PB PA m → length uuid = 16%nat →
     ∃ PB', linked A (set_doubleRatchet (Some (p_dr PB')) B) PA PB' ∧
       Receive (data_wire uuid m) (B, p_ent PB) =
         (Ok (false, false, m_pt m), (set_doubleRatchet (Some (p_dr PB')) B, p_ent PB'))).
Proof.
  split_and!.
  - intros Hcan ms pt. by eapply linked_can_send.
  - intros ms pt wire A' e' Hs. destruct (linked_send _ _ _ _ _ _ _ _ _ Hl Hs) as (m & PA' & ? & ? & ? & ? & ? & _).
    by exists m, PA'.
  - intros m uuid Hdel Hu. destruct (linked_receive A B PA PB m uuid Hl Hdel Hu) as (PB' & _ & Hr). by exists PB'.
Qed.
End Established.

(** ** The life cycle *)

Section LifeCycle.
Context `{RatchetCrypto} `{IdentityCrypto} `{BoxCrypto} `{UlidLaws}.

(** What a session refuses. Without a Double Ratchet, [Send] and data
    messages are refused; with one, an acknowledgement is; a peer key that the
    callback rejects is refused in both handshake messages; a sealed message
    must be opened first. In each case nothing changes. *)
Theorem session_refuses (s : Session) (e : entropy) :
  (Active s = false → ∀ ms pt, ∃ er, Send ms pt (s, e) = (Err er, (s, e))) ∧
  (Active s = false → ∀ m, ∃ er, ReceiveMsg (Data m) (s, e) = (Err er, (s, e))) ∧
  (Active s = true → ∀ m, ∃ er, ReceiveMsg (Ack m) (s, e) = (Err er, (s, e))) ∧
  (∀ m, s_VerifyPeer s (om_idKey m) = false →
     ∃ er, ReceiveMsg (Message.Offer m) (s, e) = (Err er, (s, e))) ∧
  (∀ m, s_VerifyPeer s (am_idKey m) = false → ∃ er, ReceiveMsg (Ack m) (s, e) = (Err er, (s, e))) ∧
  (∀ b, ∃ er, ReceiveMsg (Sealed b) (s, e) = (Err er, (s, e))).
Proof.
  split_and!.
  - intros Ha ms pt. unfold Send. eexists. st_pure. by rewrite Ha.
  - intros Ha m. cbn [ReceiveMsg]. eexists. apply ST_bind_Err. unfold receiveData. st_pure. by rewrite Ha.
  - intros Ha m. cbn [ReceiveMsg]. eexists. apply ST_bind_Err. unfold receiveAck. st_pure. by rewrite Ha.
  - intros m Hv. cbn [ReceiveMsg]. eexists. apply ST_bind_Err. unfold receiveOffer. st_pure. by rewrite Hv.
  - intros m Hv. cbn [ReceiveMsg]. unfold receiveAck. destruct (Active s) eqn:Ha; eexists; apply ST_bind_Err;
      st_pure; rewrite Ha; [done|]. by rewrite Hv.
  - intros b. by eexists.
Qed.

Lemma Close_run s e :
  Close (s, e) = (Ok (marshalMessage sessClose (Message.Close (CloseMessage (s_RemoteUUID s) [Byte.xff]))),
                  (set_doubleRatchet None (set_spk [] [] s), e)).
Proof. unfold Close. st_pure. st_pure. st_pure. reflexivity. Qed.

Lemma Receive_close uuid s e :
  length uuid = 16%nat →
  Receive (marshalMessage sessClose (Message.Close (CloseMessage uuid [Byte.xff]))) (s, e) =
    (Ok (false, true, []), (s, e)).
Proof.
  intros Hu. assert (msg_wf (Message.Close (CloseMessage uuid [Byte.xff]))) as Hwf by done.
  apply unmarshal_marshal in Hwf. cbn [msg_type] in Hwf.
  unfold Receive, lift. erewrite ST_bind_Ok by (by rewrite Hwf). done.
Qed.

(** Closing. [Close] always succeeds, drops the Double Ratchet and the
    prekey and leaves the rest of the session alone; the peer reads the message
    as a closing message and, as documented, keeps its own state until it closes
    itself. *)
Theorem close_resets (s peer : Session) (e e' : entropy) (Hu : length (s_RemoteUUID s) = 16%nat) :
  ∃ closeMsg s', Close (s, e) = (Ok closeMsg, (s', e)) ∧ Active s' = false ∧
    s' = set_doubleRatchet None (set_spk [] [] s) ∧
    Receive closeMsg (peer, e') = (Ok (false, true, []), (peer, e')).
Proof. do 2 eexists. split; [apply Close_run|]. split; [done|]. split; [done|]. by apply Receive_close. Qed.

(** C37. A failed acknowledgement is final. If the payload of an acknowledgement
    does not decrypt, the session is active nevertheless and has lost its
    prekey: no later acknowledgement is accepted, and the session stays in this
    state until it is closed. *)
Theorem failed_ack_blocks_session (s : Session) (ack : ackMessage) (e e' : entropy)
  (sk ad : bytes) (dP d' : DoubleRatchet) (er : error)
  (Hnew : Active s = false) (Hver : s_VerifyPeer s (am_idKey ack) = true)
  (Hinit : ReceiveInitialMessage (s_IdentityKey s) (am_idKey ack) (s_spkPriv s) (am_eKey ack) = Ok (sk, ad))
  (HdP : CreatePassive sk ad (s_spkPub s) (s_spkPriv s) = Ok dP)
  (Hdec : Decrypt (am_cipher ack) (dP, e) = (Err er, (d', e'))) :
  ∃ s', ReceiveMsg (Ack ack) (s, e) = (Err er, (s', e')) ∧
    s' = set_doubleRatchet (Some d') (set_spk [] [] s) ∧
    ∀ ack2, ∃ er2, ReceiveMsg (Ack ack2) (s', e') = (Err er2, (s', e')).
Proof.
  exists (set_doubleRatchet (Some d') (set_spk [] [] s)). split; [|split; [done|]].
  - cbn [ReceiveMsg]. apply ST_bind_Err. unfold receiveAck. st_pure. rewrite Hnew, Hver. cbn [negb].
    unfold lift at 1. erewrite ST_bind_Ok by (by rewrite Hinit). cbv beta iota.
    unfold lift at 1. erewrite ST_bind_Ok by (by rewrite HdP). st_pure. st_pure.
    erewrite ST_bind_Err by (by apply (with_ratchet_run _ _ _ dP)). done.
  - intros ack2. cbn [ReceiveMsg]. eexists. apply ST_bind_Err. unfold receiveAck. st_pure. done.
Qed.

(** C38. A second offer crashes an established session. The handshake clears the
    identity key; an offer that arrives afterwards, with a key that the callback
    accepts and a properly signed prekey, makes [receiveOffer] take the seed of
    the nil key, which panics. *)
Theorem offer_after_handshake_panics (s : Session) (offer : offerMessage) (e : entropy)
  (Hid : s_IdentityKey s = []) (Hver : s_VerifyPeer s (om_idKey offer) = true)
  (Hlen : length (om_idKey offer) = 32%nat)
  (Hsig : ed25519_verify (om_idKey offer) (om_spKey offer) (om_spSig offer) = true)
  (He : (32 <= length e)%nat) (Hek : is_Some (x25519 (take 32 e) basepoint)) :
  ReceiveMsg (Message.Offer offer) (s, e) = (Panic, (s, drop 32 e)).
Proof.
  cbn [ReceiveMsg]. unfold receiveOffer, mbind, ST_bind, gets. cbn [fst]. rewrite Hver. cbn [negb].
  unfold with_rand, CreateInitialMessage. rewrite Hid, Hlen, Hsig, rand_read_ok by done. cbn [negb Nat.eqb].
  unfold X25519. destruct Hek as [ek Hek]. rewrite Hek. done.
Qed.
End LifeCycle.

(** ** Stored sessions *)

Definition session_fields (s : Session) (dr : bytes) : list (string * gob_field) :=
  [("LocalUUID", GBytes (s_LocalUUID s)); ("RemoteUUID", GBytes (s_RemoteUUID s));
   ("Me", GBytes (s_Me s)); ("SpkPub", GBytes (s_spkPub s)); ("SpkPriv", GBytes (s_spkPriv s));
   ("DoubleRatchet", GBytes dr)]%string.
Definition session_types : list (string * gob_type) :=
  [("LocalUUID", TBytes); ("RemoteUUID", TBytes); ("Me", TBytes); ("SpkPub", TBytes);
   ("SpkPriv", TBytes); ("DoubleRatchet", TBytes)]%string.

Section Stored.
Context `{GobWire}.

(** [Session.MarshalBinary] *)
Definition Session_MarshalBinary (s : Session) : bytes :=
  let dr := match s_doubleRatchet s with Some d => MarshalBinary d | None => [] end in
  gob_write (gob_struct (session_fields s dr)).

(** [Session.UnmarshalBinary]: the identity key and the callback are not stored;
    the Double Ratchet is replaced only if one was stored. *)
Definition Session_UnmarshalBinary (b : bytes) : ST Session unit := λ s,
  match gob_read_struct session_types b with
  | Ok o =>
      let s1 := {| s_LocalUUID := gob_bytes "LocalUUID" o; s_RemoteUUID := gob_bytes "RemoteUUID" o;
                   s_Me := gob_bytes "Me" o; s_IdentityKey := s_IdentityKey s;
                   s_VerifyPeer := s_VerifyPeer s; s_spkPub := gob_bytes "SpkPub" o;
                   s_spkPriv := gob_bytes "SpkPriv" o; s_doubleRatchet := s_doubleRatchet s |} in
      let dr := gob_bytes "DoubleRatchet" o in
      if (0 <? length dr)%nat then
        let '(r, d) := UnmarshalBinary dr dr_zero in (r, set_doubleRatchet (Some d) s1)
      else (Ok tt, s1)
  | Err er => (Err er, s)
  | Panic => (Panic, s)
  end.
End Stored.

Section StoredProperties.
Context `{GobWireLaws}.

Lemma session_names s dr : NoDup (session_fields s dr).*1.
Proof. unfold session_fields. cbn. gob_names. Qed.

Lemma session_bytes_sent s dr i name b :
  session_fields s dr !! i = Some (name, GBytes b) → gob_bytes name (nonzero (session_fields s dr)) = b.
Proof. intros Hi. apply gob_bytes_sent; [apply session_names|by eapply list_elem_of_lookup_2]. Qed.

Lemma Session_roundtrip s s0 :
  match s_doubleRatchet s with Some d => keys_nonempty d | None => True end →
  Session_UnmarshalBinary (Session_MarshalBinary s) s0 =
    (Ok tt, mkSession (s_LocalUUID s) (s_RemoteUUID s) (s_Me s) (s_IdentityKey s0) (s_VerifyPeer s0)
              (s_spkPub s) (s_spkPriv s)
              (match s_doubleRatchet s with
               | Some d => Some (restored 0 d)
               | None => s_doubleRatchet s0
               end)).
Proof.
  intros Hk.
  unfold Session_UnmarshalBinary, Session_MarshalBinary.
  set (dr := match s_doubleRatchet s with Some d => MarshalBinary d | None => [] end).
  rewrite gob_read_struct_sent; [|apply session_names|unfold session_types, session_fields; gob_types].
  rewrite (session_bytes_sent s dr 0 "LocalUUID" (s_LocalUUID s)),
    (session_bytes_sent s dr 1 "RemoteUUID" (s_RemoteUUID s)), (session_bytes_sent s dr 2 "Me" (s_Me s)),
    (session_bytes_sent s dr 3 "SpkPub" (s_spkPub s)), (session_bytes_sent s dr 4 "SpkPriv" (s_spkPriv s)),
    (session_bytes_sent s dr 5 "DoubleRatchet" dr) by done.
  unfold dr. destruct (s_doubleRatchet s) as [d|]; [|done].
  destruct (Nat.ltb_spec 0 (length (MarshalBinary d))) as [_|Hle].
  - by rewrite UnmarshalBinary_Marshal.
  - exfalso. apply (gob_write_nonempty (gob_struct (dr_fields d (dhr_MarshalBinary (dr_dhr d))
      (kb_MarshalBinary (dr_msgKeyBuffer d))))). apply nil_length_inv. unfold MarshalBinary in Hle. lia.
Qed.
(** Storing a session. A stored session comes back with its identifiers, its
    nick, its prekey and its Double Ratchet, restored as a Double Ratchet is; the
    identity key and the callback are those of the session it is read into. A
    session without a Double Ratchet keeps the one of the session it is read
    into, so it comes back inactive only into an inactive session. *)
Theorem session_store_restore (s s0 : Session)
  (Hk : match s_doubleRatchet s with Some d => keys_nonempty d | None => True end) :
  Session_UnmarshalBinary (Session_MarshalBinary s) s0 =
    (Ok tt, mkSession (s_LocalUUID s) (s_RemoteUUID s) (s_Me s) (s_IdentityKey s0) (s_VerifyPeer s0)
              (s_spkPub s) (s_spkPriv s)
              (match s_doubleRatchet s with
               | Some d => Some (restored 0 d)
               | None => s_doubleRatchet s0
               end)).
Proof. by apply Session_roundtrip. Qed.
End StoredProperties.

(** ** Instances *)

Module SRuns.
#[local] Existing Instances toy_ratchet_crypto toy_ratchet_laws toy_identity_crypto toy_identity_laws
  toy_box_crypto ToyWire.toy_wire ToyWire.toy_wire_laws.

(** [SetTime] writes 48 bits, big-endian; a later time is an error and changes
    nothing. *)
Definition toy_ulid : Ulid := λ ms u,
  if (0 <=? ms) && (ms <? 2 ^ 48)
  then ((λ i, byte_of_Z (Z.shiftr ms (40 - 8 * Z.of_nat i))) <$> seq 0 6) ++ drop 6 u
  else u.

Lemma toy_ulid_laws : @UlidLaws toy_ulid.
Proof.
  split; intros ms u Hu; unfold ulid_SetTime, toy_ulid; destruct (_ && _); try done.
  rewrite length_app, length_fmap, length_seq. len.
Qed.
#[local] Existing Instances toy_ulid toy_ulid_laws.

Definition new_session (me peer uuid : byte) : Session :=
  {| s_LocalUUID := replicate 16 uuid; s_RemoteUUID := []; s_Me := str "me";
     s_IdentityKey := toy_identity me;
     s_VerifyPeer := λ k, bool_decide (k = drop 32 (toy_identity peer));
     s_spkPub := []; s_spkPriv := []; s_doubleRatchet := None |}.
Definition alice : Session := new_session Byte.x01 Byte.x02 Byte.xaa.
Definition bob : Session := new_session Byte.x02 Byte.x01 Byte.xbb.

(** Sessions around the Double Ratchets of a conversation. *)
Definition alice_in : Session := set_doubleRatchet (Some (p_dr Toy.alice3)) alice.
Definition bob_in : Session := set_doubleRatchet (Some (p_dr Toy.bob0)) bob.

(** Bob's offer-time session with a prekey, and an acknowledgement that carries
    Alice's public key but no valid payload. *)
Definition bob_offered : Session := (Offer (bob, Toy.tape 5 256)).2.1.
Definition bad_ack : ackMessage :=
  AckMessage (drop 32 (toy_identity Byte.x01)) Toy.pubB (zeros 16) Runs.forged.
Definition bad_keys : bytes * bytes :=
  Toy.run ([], []) (ReceiveInitialMessage (s_IdentityKey bob_offered) (am_idKey bad_ack)
                      (s_spkPriv bob_offered) (am_eKey bad_ack)).
Definition bad_ratchet : DoubleRatchet :=
  Toy.run Toy.no_ratchet (CreatePassive bad_keys.1 bad_keys.2 (s_spkPub bob_offered) (s_spkPriv bob_offered)).

Definition bad_outcome : result gslice * drst :=
  Decrypt (am_cipher bad_ack) (bad_ratchet, Toy.tape 3 64).

(** A properly signed offer of Alice's. *)
Definition alice_offer : offerMessage :=
  Toy.run (OfferMessage [] [] [] [] []) (createOffer (alice, Toy.tape 7 64)).1.
End SRuns.

#[local] Existing Instances toy_ratchet_crypto toy_ratchet_laws toy_identity_crypto toy_identity_laws
  toy_box_crypto SRuns.toy_ulid SRuns.toy_ulid_laws ToyWire.toy_wire ToyWire.toy_wire_laws.

Lemma handshake_establishes_witness :
  ∃ offerMsg ackMsg A1 A2 B1 eA1 eA2 eB1 PA PB,
    Offer (SRuns.alice, Toy.tape 5 256) = (Ok offerMsg, (A1, eA1)) ∧
    Acknowledge offerMsg (SRuns.bob, Toy.tape 99 256) = (Ok ackMsg, (B1, eB1)) ∧
    Receive ackMsg (A1, eA1) = (Ok (true, false, []), (A2, eA2)) ∧
    s_RemoteUUID A2 = s_LocalUUID SRuns.bob ∧ s_RemoteUUID B1 = s_LocalUUID SRuns.alice ∧
    s_IdentityKey A2 = [] ∧ s_IdentityKey B1 = [] ∧
    reachable (PB, PA) ∧ can_send (p_dr PA) ∧ can_send (p_dr PB) ∧
    s_doubleRatchet A2 = Some (p_dr PA) ∧ eA2 = p_ent PA ∧
    s_doubleRatchet B1 = Some (p_dr PB) ∧ eB1 = p_ent PB.
Proof.
  apply (handshake_establishes SRuns.alice SRuns.bob (Toy.tape 5 256) (Toy.tape 99 256)).
  - split; [apply toy_identity_key|reflexivity].
  - split; [apply toy_identity_key|reflexivity].
  - reflexivity.
  - by apply bool_decide_eq_true.
  - by apply bool_decide_eq_true.
  - vm_compute. lia.
  - vm_compute. lia.
  - vm_compute. discriminate.
Defined.

Lemma linked_sessions_converse_witness :
  ∃ PB', linked SRuns.alice_in (set_doubleRatchet (Some (p_dr PB')) SRuns.bob_in) Toy.alice3 PB' ∧
    Receive (data_wire (zeros 16) (Toy.sent_at 2 Toy.alice3)) (SRuns.bob_in, p_ent Toy.bob0) =
      (Ok (false, false, m_pt (Toy.sent_at 2 Toy.alice3)),
       (set_doubleRatchet (Some (p_dr PB')) SRuns.bob_in, p_ent PB')).
Proof.
  apply (linked_sessions_converse SRuns.alice_in SRuns.bob_in Toy.alice3 Toy.bob0).
  - split_and!; [left; apply Toy.alice3_reachable|reflexivity|reflexivity].
  - apply Toy.third_deliverable.
  - reflexivity.
Defined.

Lemma failed_ack_blocks_session_witness :
  ∃ s', ReceiveMsg (Ack SRuns.bad_ack) (SRuns.bob_offered, Toy.tape 3 64) =
      (Err (as_error SRuns.bad_outcome.1), (s', SRuns.bad_outcome.2.2)) ∧
    s' = set_doubleRatchet (Some SRuns.bad_outcome.2.1) (set_spk [] [] SRuns.bob_offered) ∧
    ∀ ack2, ∃ er2, ReceiveMsg (Ack ack2) (s', SRuns.bad_outcome.2.2) = (Err er2, (s', SRuns.bad_outcome.2.2)).
Proof.
  apply (failed_ack_blocks_session SRuns.bob_offered SRuns.bad_ack (Toy.tape 3 64) SRuns.bad_outcome.2.2
    SRuns.bad_keys.1 SRuns.bad_keys.2 SRuns.bad_ratchet SRuns.bad_outcome.2.1 (as_error SRuns.bad_outcome.1));
    vm_compute; reflexivity.
Defined.

Lemma offer_after_handshake_panics_witness :
  ReceiveMsg (Message.Offer SRuns.alice_offer) (set_IdentityKey [] SRuns.bob_in, Toy.tape 3 64) =
    (Panic, (set_IdentityKey [] SRuns.bob_in, drop 32 (Toy.tape 3 64))).
Proof.
  apply (offer_after_handshake_panics (set_IdentityKey [] SRuns.bob_in) SRuns.alice_offer (Toy.tape 3 64)).
  - reflexivity.
  - vm_compute. reflexivity.
  - vm_compute. reflexivity.
  - vm_compute. reflexivity.
  - vm_compute. lia.
  - vm_compute. by eexists.
Defined.
