(* ===== verification/Fuzz.v ===== *)
(** * The fuzz driver (src/xochimilco/session_fuzz.go)

    [Fuzz] runs a handshake, one message and the closing between two sessions and
    hands its input to both of them at a point that the first byte chooses. A
    failure of the proper messages is a panic. *)

From Stdlib Require Import ZArith Lia.
From stdpp Require Import base list numbers option strings.
From S2P Require Import Prelude Crypto ToyCrypto MsgHeader Primitives DhRatchet DoubleRatchet RatchetSync Gob Marshal Liveness Base64 Message X3dh Session.

Local Open Scope Z_scope.

(** ** The driver *)

(** The two sessions of a run and the random source *)
Record fuzz := mkFuzz { fz_alice : Session; fz_bob : Session; fz_ent : entropy }.

Section Fuzz.
Context `{RatchetCrypto} `{IdentityCrypto} `{BoxCrypto} `{Ulid}.

(** [ed25519.GenerateKey(nil)] with its error ignored: the keys are nil then *)
Definition GenerateKey (e : entropy) : (bytes * bytes) * entropy :=
  let '(seed, err, e') := rand_read 32 e in
  match err with
  | None => ((ed25519_point seed, seed ++ ed25519_point seed), e')
  | Some _ => (([], []), e')
  end.

Definition fuzz_session (priv peerPub : bytes) : Session :=
  mkSession [] [] [] priv (λ peer, bool_decide (peer = peerPub)) [] [] None.

(** Calls of methods of the two sessions *)
Definition on_alice {A} (m : ST sst A) : ST fuzz A := λ f,
  let '(r, (s, e)) := m (fz_alice f, fz_ent f) in (r, mkFuzz s (fz_bob f) e).
Definition on_bob {A} (m : ST sst A) : ST fuzz A := λ f,
  let '(r, (s, e)) := m (fz_bob f, fz_ent f) in (r, mkFuzz (fz_alice f) s e).

(** [_, _, _, _ = m()] drops the error, [if err != nil { panic(err) }] does not. *)
Definition ignore {A} (m : ST fuzz A) : ST fuzz unit := λ f,
  match m f with (Panic, f') => (Panic, f') | (_, f') => (Ok tt, f') end.
Definition must {A} (m : ST fuzz A) : ST fuzz A := λ f,
  match m f with (Err _, f') => (Panic, f') | out => out end.

(** The fuzzed message goes to both sessions. *)
Definition hostile (now : bool) (msg : bytes) : ST fuzz unit :=
  if now then _ ← ignore (on_alice (Receive msg)); ignore (on_bob (Receive msg)) else mret tt.

(** The body of [Fuzz] once the sessions and the message were made; [ms] is the
    time of the data message *)
Definition fuzz_run (ms mode : Z) (msg : bytes) : ST fuzz Z :=
  _ ← hostile (mode =? 0) msg;
  offerMsg ← must (on_alice Offer);
  _ ← hostile (mode =? 1) msg;
  ackMsg ← must (on_bob (Acknowledge offerMsg));
  _ ← hostile (mode =? 2) msg;
  '(isEstablished, isClosed, plaintext) ← must (on_alice (Receive ackMsg));
  _ ← (if negb isEstablished || isClosed || (0 <? blen plaintext) then lift Panic else mret tt);
  _ ← hostile (mode =? 2) msg;
  dataMsg ← must (on_alice (Send ms (str "hello bob")));
  _ ← hostile (mode =? 3) msg;
  '(isEstablished, isClosed, _) ← must (on_bob (Receive dataMsg));
  _ ← (if (isEstablished : bool) || isClosed then lift Panic else mret tt);
  _ ← hostile (mode =? 4) msg;
  closeMsg ← must (on_alice Close);
  _ ← hostile (mode =? 5) msg;
  '(isEstablished, isClosed, _) ← must (on_bob (Receive closeMsg));
  _ ← (if (isEstablished : bool) || negb isClosed then lift Panic else mret tt);
  _ ← hostile (mode =? 6) msg;
  _ ← must (on_bob Close);
  _ ← hostile (mode =? 7) msg;
  mret 0.

(** [Fuzz] on a random tape *)
Definition Fuzz (ms : Z) (data : bytes) (e : entropy) : result Z :=
  match data with
  | [] => Ok 0
  | b :: data =>
      let mode := byte_to_Z b mod 8 in
      if negb (hasPrefix data Prefix) then Ok (-1)
      else
        let '((alicePub, alicePriv), e1) := GenerateKey e in
        let '((bobPub, bobPriv), e2) := GenerateKey e1 in
        let msg := Prefix ++ data ++ Suffix in
        (fuzz_run ms mode msg
           (mkFuzz (fuzz_session alicePriv bobPub) (fuzz_session bobPriv alicePub) e2)).1
  end.
End Fuzz.

(** ** The driver never reaches the sessions *)

Section Refused.
Context `{RatchetCrypto} `{IdentityCrypto} `{BoxCrypto} `{Ulid}.

(** The input has to start with the prefix, and gets it a second time. *)
Lemma double_prefix_refused data :
  hasPrefix data Prefix = true → ∃ er, unmarshalMessage (Prefix ++ data ++ Suffix) = Err er.
Proof.
  intros (k & ->)%hasPrefix_inv. unfold unmarshalMessage. rewrite framed_prefix.
  rewrite !(assoc_L (++)), framed_suffix. cbn [negb orb].
  rewrite <-!(assoc_L (++)). eexists. reflexivity.
Qed.

Lemma Receive_refused data s e :
  hasPrefix data Prefix = true → ∃ er, Receive (Prefix ++ data ++ Suffix) (s, e) = (Err er, (s, e)).
Proof.
  intros [er Her]%double_prefix_refused. exists er. unfold Receive, lift. by rewrite (ST_bind_Err _ _ _ (s, e) er) by (by rewrite Her).
Qed.

Lemma hostile_noop now data f :
  hasPrefix data Prefix = true → hostile now (Prefix ++ data ++ Suffix) f = (Ok tt, f).
Proof.
  intros Hp. destruct now; [|done]. destruct f as [a b e].
  destruct (Receive_refused data a e Hp) as [er1 Ha], (Receive_refused data b e Hp) as [er2 Hb].
  assert (ignore (on_alice (Receive (Prefix ++ data ++ Suffix))) (mkFuzz a b e) = (Ok tt, mkFuzz a b e)) as Hal
    by (unfold ignore, on_alice; cbn [fz_alice fz_ent fz_bob]; by rewrite Ha).
  unfold hostile. st_call Hal. unfold ignore, on_bob. cbn [fz_alice fz_ent fz_bob]. by rewrite Hb.
Qed.
End Refused.

(** ** The proper messages get through *)

Section Run.
Context `{RatchetCryptoLaws} `{!IdentityCrypto} `{!IdentityCryptoLaws} `{BoxCrypto} `{UlidLaws}.

Lemma must_alice {A} (m : ST sst A) f a s e :
  m (fz_alice f, fz_ent f) = (Ok a, (s, e)) → must (on_alice m) f = (Ok a, mkFuzz s (fz_bob f) e).
Proof. intros Hm. unfold must, on_alice. by rewrite Hm. Qed.

Lemma must_bob {A} (m : ST sst A) f a s e :
  m (fz_bob f, fz_ent f) = (Ok a, (s, e)) → must (on_bob m) f = (Ok a, mkFuzz (fz_alice f) s e).
Proof. intros Hm. unfold must, on_bob. by rewrite Hm. Qed.

Lemma GenerateKey_ok e :
  (32 <= length e)%nat →
  ∃ pub priv, GenerateKey e = ((pub, priv), drop 32 e) ∧ ed25519_key priv ∧ drop 32 priv = pub.
Proof.
  intros He. unfold GenerateKey. rewrite rand_read_ok by done. do 2 eexists. split; [done|].
  assert (length (take 32 e) = 32%nat) as Hl by len.
  split; [split|]; rewrite ?drop_app_length', ?take_app_length' by done; [|done..].
  rewrite length_app, Hl, ed25519_point_length. done.
Qed.

(** A session without an identifier offers as if it had the zero one. *)
Lemma Offer_nil priv peerPub e :
  let A := fuzz_session priv peerPub in
  ed25519_key priv → (32 <= length e)%nat →
  ∃ offer, offer_of (offer_under (zeros 16) A) (take 32 e) offer ∧ msg_wf (Message.Offer offer) ∧
    Offer (A, e) = (Ok (marshalMessage sessOffer (Message.Offer offer)),
                    (set_spk (om_spKey offer) (take 32 e) A, drop 32 e)).
Proof.
  intros A Hk He. assert (ready (offer_under (zeros 16) A)) as Hr by (by split).
  destruct (CreateNewSpk_ok priv e Hk He) as (spkPub & spkSig & Hspk & Hp & Hl & Hv).
  set (offer := OfferMessage (drop 32 priv) spkPub spkSig (zeros 16) []).
  assert (offer_of (offer_under (zeros 16) A) (take 32 e) offer) as Ho by (by split_and!).
  exists offer. split; [done|]. split; [by eapply offer_of_wf|].
  unfold Offer.
  assert (createOffer (A, e) = (Ok (OfferMessage (drop 32 priv) spkPub spkSig [] []), (set_spk spkPub (take 32 e) A, drop 32 e))) as Hc.
  { unfold createOffer. st_pure. st_call (with_rand_run _ A e _ _ Hspk). st_pure. unfold lift.
    erewrite ST_bind_Ok by (by rewrite ed25519_Public_ok). done. }
  by st_call Hc.
Qed.

(** The handshake of the driver, on one random source. *)
Lemma fuzz_handshake privA privB e :
  let A := fuzz_session privA (drop 32 privB) in let B := fuzz_session privB (drop 32 privA) in
  ed25519_key privA → ed25519_key privB → (135 <= length e)%nat → tape_key (drop 103 e) ≠ tape_key e →
  ∃ offer A1 A2 B1 ack PA PB,
    Offer (A, e) = (Ok offer, (A1, drop 32 e)) ∧
    Acknowledge offer (B, drop 32 e) = (Ok ack, (B1, drop 103 e)) ∧
    Receive ack (A1, drop 103 e) = (Ok (true, false, []), (A2, drop 135 e)) ∧
    linked A2 B1 PA PB ∧ p_ent PA = drop 135 e ∧ p_ent PB = drop 103 e ∧
    length (s_RemoteUUID A2) = 16%nat ∧ can_send (p_dr PA) ∧
    after_handshake PA PB (tape_key e) (drop 103 e) (drop 64 e) (drop 103 e).
Proof.
  intros A B HA HB He Hne.
  destruct (Offer_nil privA (drop 32 privB) e HA) as (offer & Hoff & Hwf & HO); [lia|]. fold A in Hoff, HO.
  destruct (handshake_under A B (zeros 16) offer (take 32 e) (drop 103 e) (drop 32 e))
    as (ack & PA & PB & Hwa & _ & Hreach & HcA & _ & Hah & Hro & Hra); try done; [| |len|len| |].
  - unfold A, B, identity. simpl. by apply bool_decide_eq_true.
  - unfold A, B, identity. simpl. by apply bool_decide_eq_true.
  - rewrite !tape_key_priv by len. congruence.
  - pose proof (ha_tapes _ _ _ _ _ _ Hah) as [HeA HeB]. rewrite !drop_drop in *. cbn [Nat.add] in *.
    assert (om_spKey offer = tape_key e) as Hk.
    { destruct Hoff as (_ & _ & (_ & _ & Hp) & _). rewrite tape_key_priv in Hp by lia. by injection Hp. }
    pose proof (unmarshal_marshal _ Hwf) as Huo. pose proof (unmarshal_marshal _ Hwa) as Hua.
    cbn [msg_type] in Huo, Hua. rewrite Hk in *.
    eexists _, _, _, _, _, PA, PB. split; [exact HO|]. split.
    { unfold Acknowledge, lift. erewrite ST_bind_Ok by (by rewrite Huo).
      cbv beta iota. change (negb (sessOffer =? sessOffer)) with false. cbv iota. st_call Hro. rewrite HeB. done. }
    split.
    { unfold Receive, lift. erewrite ST_bind_Ok by (by rewrite Hua).
      cbv beta iota. cbn [ReceiveMsg]. st_call Hra. rewrite HeA. done. }
    split; [split_and!; [by right|done|done]|]. split; [done|]. split; [done|].
    split; [reflexivity|]. done.
Qed.

(** One message over the handshake's sessions *)
Lemma fuzz_message A B PA PB ms pt e :
  linked A B PA PB → in_step PA PB → room 1 (p_dr PA) → room 1 (p_dr PB) → p_ent PA = e →
  fresh_tape 1 (p_used PB) e →
  ∃ wire A1 B1 e', Send ms pt (A, e) = (Ok wire, (A1, e)) ∧ s_RemoteUUID A1 = s_RemoteUUID A ∧
    Receive wire (B, e) = (Ok (false, false, pt), (B1, e')).
Proof.
  intros Hl Hs HrA HrB <- Hf. pose proof Hl as (Hr & HA & HB).
  assert (linked A B PA (retape (p_ent PA) PB)) as Hl'.
  { split; [|done]. apply in_step_sym in Hs. apply (reachable_retape (p_ent PA)) in Hs; tauto. }
  apply in_step_sym, (in_step_retape (p_ent PA)), in_step_sym in Hs.
  destruct (linked_can_send _ _ _ _ ms pt Hl') as (wire & A1 & Hsend); [by eapply in_step_can_send|].
  destruct (linked_send _ _ _ _ _ _ _ _ _ Hl' Hsend) as (m & PA1 & Hl1 & _ & _ & Hpt & Hw & HA1 & Hsends).
  destruct (exchange PA (retape (p_ent PA) PB) m PA1 0 0) as [Hdel _]; try done.
  destruct (linked_receive _ _ _ _ _ (encTime ms (s_RemoteUUID A)) Hl1 Hdel) as (PB1 & _ & _ & Hrecv);
    [apply encTime_length|].
  rewrite Hpt, <-Hw in Hrecv. do 4 eexists. split; [exact Hsend|]. split; [by rewrite HA1|]. exact Hrecv.
Qed.

Ltac fz_noop Hp := rewrite (ST_bind_Ok _ _ _ _ _ (hostile_noop _ _ _ Hp)).
Ltac fz_alice H := erewrite ST_bind_Ok by (apply must_alice; exact H); cbn [fz_bob fz_ent fz_alice].
Ltac fz_bob H := erewrite ST_bind_Ok by (apply must_bob; exact H); cbn [fz_bob fz_ent fz_alice].

(** The sessions of the driver, whatever it is fed *)
Lemma fuzz_run_ok ms mode data privA privB e :
  hasPrefix data Prefix = true → ed25519_key privA → ed25519_key privB → (167 <= length e)%nat →
  tape_key (drop 103 e) ≠ tape_key e →
  tape_key (drop 135 e) ≠ tape_key (drop 64 e) →
  (fuzz_run ms mode (Prefix ++ data ++ Suffix)
     (mkFuzz (fuzz_session privA (drop 32 privB)) (fuzz_session privB (drop 32 privA)) e)).1 = Ok 0.
Proof.
  intros Hp HA HB He Hk1 Hk2.
  destruct (fuzz_handshake privA privB e HA HB) as
    (offer & A1 & A2 & B1 & ack & PA & PB & HO & HAck & HRA & Hl & HeA & HeB & HuA & HcA & Hah); [lia|done|].
  destruct (ha_room _ _ _ _ _ _ Hah 1%nat) as [HrA HrB]; [done|].
  destruct (fuzz_message A2 B1 PA PB ms (str "hello bob") (drop 135 e)) as (wire & A3 & B2 & e' & HS & HuA3 & HRB); try done.
  { left. apply Hah. }
  { split; [len|]. split; [|done]. intros Hx%(ha_usedB _ _ _ _ _ _ Hah). done. }
  pose proof (Close_run A3 e') as HC.
  pose proof (Receive_close (s_RemoteUUID A3) B2 e') as HRC. rewrite HuA3 in HC, HRC. specialize (HRC HuA).
  unfold fuzz_run. fz_noop Hp. fz_alice HO. fz_noop Hp. fz_bob HAck. fz_noop Hp. fz_alice HRA.
  change (negb true || false || (0 <? blen [])) with false. st_pure. fz_noop Hp. fz_alice HS. fz_noop Hp. fz_bob HRB.
  change (false || false) with false. st_pure. fz_noop Hp. fz_alice HC. fz_noop Hp. fz_bob HRC.
  change (false || negb true) with false. st_pure. fz_noop Hp. fz_bob (Close_run B2 e'). by fz_noop Hp.
Qed.
End Run.

(** ** The driver as a whole *)

Section Whole.
Context `{RatchetCryptoLaws} `{!IdentityCrypto} `{!IdentityCryptoLaws} `{BoxCrypto} `{UlidLaws}.

(** Random bytes for a run: two identity keys, the prekey, the ephemeral key, Bob's
    ratchet key and padding, and a new ratchet key for each. *)
Definition fuzz_tape (e : entropy) : Prop :=
  (231 <= length e)%nat ∧ tape_key (drop 167 e) ≠ tape_key (drop 64 e) ∧
  tape_key (drop 199 e) ≠ tape_key (drop 128 e).

(** C32. What the fuzz driver does. For every input and every random source with
    enough bytes and no repeated ratchet keys the driver returns: 0 for no input,
    -1 for an input without the prefix after its first byte, and 0 for all others.
    None of its checks fails, so that it never panics, whatever the input and
    whatever the point of the conversation its first byte chooses. The reason is
    that no input reaches a session: what is passed to [Receive] has the prefix
    twice, and [Receive] refuses it without touching the session. *)
Theorem Fuzz_returns (ms : Z) (data : bytes) (e : entropy) (He : fuzz_tape e) :
  Fuzz ms data e =
    Ok (match data with [] => 0 | _ :: rest => if hasPrefix rest Prefix then 0 else -1 end) ∧
  ∀ rest s t, hasPrefix rest Prefix = true →
    ∃ er, Receive (Prefix ++ rest ++ Suffix) (s, t) = (Err er, (s, t)).
Proof.
  split; [|intros; by apply Receive_refused].
  destruct He as (Hl & Hk1 & Hk2). destruct data as [|b data]; [done|]. unfold Fuzz.
  destruct (hasPrefix data Prefix) eqn:Hp; [|done]. cbn [negb].
  destruct (GenerateKey_ok e) as (pubA & privA & -> & HA & <-); [lia|].
  destruct (GenerateKey_ok (drop 32 e)) as (pubB & privB & -> & HB & <-); [len|].
  rewrite drop_drop. cbn [Nat.add].
  apply fuzz_run_ok; try done; rewrite ?drop_drop; try done. len.
Qed.
End Whole.

#[local] Existing Instances toy_ratchet_crypto toy_ratchet_laws toy_identity_crypto toy_identity_laws
  toy_box_crypto SRuns.toy_ulid SRuns.toy_ulid_laws.

Lemma Fuzz_returns_witness :
  Fuzz 1000 (Byte.x03 :: Prefix ++ str "4junk") (Toy.tape 5 256) = Ok 0.
Proof.
  apply (proj1 (Fuzz_returns 1000 (Byte.x03 :: Prefix ++ str "4junk") (Toy.tape 5 256)
    ltac:(split; [vm_compute; lia|split; apply (bool_decide_unpack _); vm_compute; exact I]))).
Defined.
