(* ===== verification/DiskSession.v ===== *)
(** * Stored sessions and their manager (src/session/disk-session.go)

    A session with the peer it belongs to, and the manager that keeps such
    sessions in files, one per session, with an index of names. *)

From Stdlib Require Import ZArith Lia.
From stdpp Require Import base list numbers option strings gmap.
From S2P Require Import Prelude Crypto ToyCrypto DhRatchet DoubleRatchet RatchetSync Gob Marshal Base64 Message X3dh Session.

Local Open Scope Z_scope.

(** ** What the package uses of other modules *)

(** [saltyim.Addr]: [User], [Domain], [Endpoint] and [Key] *)
Record Addr := mkAddr { addr_user : bytes; addr_domain : bytes; addr_endpoint : bytes; addr_key : bytes }.

(** Keys of package [keys] as the bytes of Ed25519 keys: [PublicKey.String] with
    [ParseID] and [NewEdX25519PublicKeyFromID], and the X25519 keys of a public
    and of a private key, the latter as a pair. [LookupAddr] finds a user,
    [ulid.Make] makes the n-th identifier, and the index is written as JSON. *)
Class SaltyLib := {
  key_string : bytes → bytes;
  key_parse : bytes → result bytes;
  key_X25519 : bytes → bytes;
  key_X25519_pair : bytes → bytes * bytes;
  LookupAddr : bytes → result Addr;
  ulid_Make : nat → bytes;
  json_write : Z * list (bytes * bytes) → bytes;
  json_read : bytes → result (Z * list (bytes * bytes));
}.

Class SaltyLaws `{RatchetCrypto, IdentityCrypto, SaltyLib} : Prop := {
  key_parse_string : ∀ k, length k = 32%nat → key_parse (key_string k) = Ok k;
  key_X25519_ok : ∀ priv, ed25519_key priv →
    key_X25519 (drop 32 priv) = (key_X25519_pair priv).1 ∧
    dh_pair (key_X25519_pair priv).1 (key_X25519_pair priv).2;
  ulid_Make_length : ∀ n, length (ulid_Make n) = 16%nat;
  json_read_write : ∀ d, json_read (json_write d) = Ok d;
}.

(** ** The session with its peer *)

(** [Session]; the embedded pointer is nil in a zero value *)
Record PeerSession := mkPeerSession {
  ps_Name : bytes;
  ps_PeerKey : bytes;
  ps_Endpoint : bytes;
  ps_PendingAck : bytes;
  ps_Session : option Session;
}.

Definition ps_zero : PeerSession := mkPeerSession [] [] [] [] None.

(** [SetPeerKey] on the embedded session *)
Definition set_VerifyPeer (p : bytes) (s : Session) : Session :=
  mkSession (s_LocalUUID s) (s_RemoteUUID s) (s_Me s) (s_IdentityKey s)
    (λ peer, bool_decide (peer = p)) (s_spkPub s) (s_spkPriv s) (s_doubleRatchet s).

Definition new_xochimilco (id me key : bytes) : Session :=
  mkSession id [] me key (λ _, false) [] [] None.

(** The zero value [xochimilco.Session{}]; its nil callback is not called before
    [SetPeerKey] replaces it. *)
Definition session_zero : Session := mkSession [] [] [] [] (λ _, false) [] [] None.

(** [NewSession] *)
Definition NewSession (id me key name : bytes) (them : Addr) : PeerSession :=
  {| ps_Name := name; ps_PeerKey := addr_key them; ps_Endpoint := addr_endpoint them;
     ps_PendingAck := [];
     ps_Session := Some (set_VerifyPeer (addr_key them) (new_xochimilco id me key)) |}.

Definition peer_fields (s : PeerSession) (key sess : bytes) : list (string * gob_field) :=
  [("Name", GBytes (ps_Name s)); ("Key", GBytes key); ("Endpoint", GBytes (ps_Endpoint s));
   ("PendingAck", GBytes (ps_PendingAck s)); ("Session", GBytes sess)]%string.
Definition peer_types : list (string * gob_type) :=
  [("Name", TBytes); ("Endpoint", TBytes); ("Key", TBytes); ("PendingAck", TBytes); ("Session", TBytes)]%string.

Section PeerSession.
Context `{RatchetCrypto} `{IdentityCrypto} `{BoxCrypto} `{Ulid} `{GobWire} `{SaltyLib}.

(** [Session.MarshalBinary] *)
Definition Peer_MarshalBinary (s : PeerSession) : result bytes :=
  match ps_Session s with
  | None => Panic
  | Some sess =>
      Ok (gob_write (gob_struct (peer_fields s (key_string (ps_PeerKey s)) (Session_MarshalBinary sess))))
  end.

(** [Session.UnmarshalBinary]; the error of the inner [UnmarshalBinary] is
    dropped *)
Definition Peer_UnmarshalBinary (b : bytes) : ST PeerSession unit := λ s,
  match gob_read_struct peer_types b with
  | Ok o =>
      let '(_, sess) := Session_UnmarshalBinary (gob_bytes "Session" o) session_zero in
      let s1 := mkPeerSession (ps_Name s) (ps_PeerKey s) (ps_Endpoint s) (ps_PendingAck s) (Some sess) in
      match key_parse (gob_bytes "Key" o) with
      | Ok key =>
          (Ok tt, {| ps_Name := gob_bytes "Name" o; ps_PeerKey := key;
                     ps_Endpoint := gob_bytes "Endpoint" o; ps_PendingAck := gob_bytes "PendingAck" o;
                     ps_Session := Some (set_VerifyPeer key sess) |})
      | Err er => (Err er, s1)
      | Panic => (Panic, s1)
      end
  | Err er => (Err er, s)
  | Panic => (Panic, s)
  end.

(** A call of a method of the embedded session; nil is dereferenced. *)
Definition set_inner (xs : Session) (s : PeerSession) : PeerSession :=
  mkPeerSession (ps_Name s) (ps_PeerKey s) (ps_Endpoint s) (ps_PendingAck s) (Some xs).

Definition with_session {A} (m : ST sst A) : ST (PeerSession * entropy) A := λ '(s, e),
  match ps_Session s with
  | None => (Panic, (s, e))
  | Some sess =>
      let '(r, (sess', e')) := m (sess, e) in
      (r, (set_inner sess' s, e'))
  end.

Definition set_PendingAck (ack : bytes) (s : PeerSession) : PeerSession :=
  mkPeerSession (ps_Name s) (ps_PeerKey s) (ps_Endpoint s) ack (ps_Session s).

(** [Session.ReceiveMsg]: what the handshake answers is kept for later *)
Definition Peer_ReceiveMsg (msg : Msg) : ST (PeerSession * entropy) (bool * bool * bytes) :=
  '(isEstablished, isClosed, plaintext) ← with_session (ReceiveMsg msg);
  if (isEstablished : bool) then
    _ ← modify (λ '(s, e), (set_PendingAck plaintext s, e));
    mret (isEstablished, isClosed, [])
  else mret (isEstablished, isClosed, plaintext).

(** [Session.Offer] *)
Definition Peer_Offer : ST (PeerSession * entropy) bytes :=
  s ← gets fst;
  with_session (OfferSealed (key_X25519 (ps_PeerKey s))).
End PeerSession.

(** ** The manager *)

(** A file: its permission bits and its content. The directory of the manager
    maps file names to files; reading and writing do not fail otherwise. *)
Record file := mkFile { f_mode : Z; f_data : bytes }.

(** [DiskSessionManager], with the directory behind [path] and the number of
    identifiers made so far *)
Record Manager := mkManager {
  sm_me : bytes;
  sm_key : bytes;
  sm_pos : Z;
  sm_sessions : gmap bytes bytes;
  sm_files : gmap bytes file;
  sm_made : nat;
}.

Definition set_sessions (m : gmap bytes bytes) (sm : Manager) : Manager :=
  mkManager (sm_me sm) (sm_key sm) (sm_pos sm) m (sm_files sm) (sm_made sm).
Definition set_files (m : gmap bytes file) (sm : Manager) : Manager :=
  mkManager (sm_me sm) (sm_key sm) (sm_pos sm) (sm_sessions sm) m (sm_made sm).
Definition set_pos (p : Z) (sm : Manager) : Manager :=
  mkManager (sm_me sm) (sm_key sm) p (sm_sessions sm) (sm_files sm) (sm_made sm).

(** [fnv.New128a]: the 128-bit FNV-1a hash *)
Definition fnv_offset : Z := 0x6c62272e07bb014262b821756295c58d.
Definition fnv_prime : Z := 0x0000000001000000000000000000013b.
Definition fnv128a (data : bytes) : Z :=
  foldl (λ h b, (Z.lxor h (byte_to_Z b) * fnv_prime) mod 2 ^ 128) fnv_offset data.
Definition fnv_Sum (h : Z) : bytes := reverse (copied 16 (le_bytes 16 h)).

(** [ulid.ULID.Entropy], [toULID], [enc] and [sessionhash] *)
Definition ulid_Entropy (id : bytes) : bytes := drop 6 id.
Definition toULID (b : bytes) : bytes := copied 16 b.
Definition enc (b : bytes) : bytes := base64_encode b.
Definition sessionhash (self id : bytes) : bytes :=
  enc (fnv_Sum (fnv128a (self ++ ulid_Entropy id))).

(** The name of the index file *)
Definition index_name (me : bytes) : bytes := str "sess-" ++ me ++ str ".json".

(** [os.OpenFile(name, O_TRUNC|O_CREATE|O_WRONLY, 0600)] and a write: a file that
    exists keeps its permissions. *)
Definition write_file (name data : bytes) (fs : gmap bytes file) : gmap bytes file :=
  let mode := match fs !! name with Some f => f_mode f | None => 384 end in
  <[name := mkFile mode data]> fs.

Section Manager.
Context `{RatchetCrypto} `{IdentityCrypto} `{BoxCrypto} `{Ulid} `{GobWire} `{SaltyLib}.

(** [DiskSessionManager.ByName] *)
Definition ByName (name : bytes) : ST Manager bytes := λ sm,
  match sm_sessions sm !! name with
  | Some u => (Ok u, sm)
  | None =>
      let u := ulid_Make (sm_made sm) in
      (Ok u, mkManager (sm_me sm) (sm_key sm) (sm_pos sm) (<[name := u]> (sm_sessions sm))
               (sm_files sm) (S (sm_made sm)))
  end.

(** [fetchKey] *)
Definition fetchKey (to : bytes) : result Addr :=
  match LookupAddr to with Ok addr => Ok addr | Err er => Err er | Panic => Panic end.

(** [DiskSessionManager.New] *)
Definition New (them : bytes) : ST Manager PeerSession :=
  u ← ByName them;
  sm ← gets (λ sm, sm);
  match fetchKey them with
  | Ok addr => mret (NewSession u (sm_me sm) (sm_key sm) them addr)
  | Err er => throw (Wrapf "fetching key for %s: %w" er)
  | Panic => lift Panic
  end.

Definition set_peer_key (key : bytes) (s : PeerSession) : PeerSession :=
  mkPeerSession (ps_Name s) (ps_PeerKey s) (ps_Endpoint s) (ps_PendingAck s)
    (set_IdentityKey key <$> ps_Session s).

(** [DiskSessionManager.Get]: [sess.Active()] comes before the error of
    [UnmarshalBinary] is looked at *)
Definition Get (id : bytes) (sm : Manager) : result PeerSession :=
  match sm_files sm !! sessionhash (sm_me sm) id with
  | None => Err (Wrapf "stat: %w" ErrNotExist)
  | Some f =>
      if negb (Z.land (f_mode f) 54 =? 0) then Err (Errorf "permissions are too weak")
      else
        let '(r, sess) := Peer_UnmarshalBinary (f_data f) ps_zero in
        match ps_Session sess with
        | None => Panic
        | Some xs =>
            let sess' := if negb (Active xs) then set_peer_key (sm_key sm) sess else sess in
            match r with Ok _ => Ok sess' | Err er => Err er | Panic => Panic end
        end
  end.

(** [DiskSessionManager.Put] *)
Definition Put (sess : PeerSession) : ST Manager unit := λ sm,
  match ps_Session sess with
  | None => (Panic, sm)
  | Some xs =>
      let name := sessionhash (sm_me sm) (toULID (s_LocalUUID xs)) in
      match Peer_MarshalBinary sess with
      | Ok b => (Ok tt, set_files (write_file name b (sm_files sm)) sm)
      | Err er => (Err er, set_files (write_file name [] (sm_files sm)) sm)
      | Panic => (Panic, set_files (write_file name [] (sm_files sm)) sm)
      end
  end.

(** [DiskSessionManager.Delete] *)
Definition Delete (sess : PeerSession) : ST Manager unit := λ sm,
  match ps_Session sess with
  | None => (Panic, sm)
  | Some xs =>
      let name := sessionhash (sm_me sm) (copied 16 (s_LocalUUID xs)) in
      let sm' := set_sessions (delete (ps_Name sess) (sm_sessions sm)) sm in
      match sm_files sm !! name with
      | None => (Err ErrNotExist, sm')
      | Some _ => (Ok tt, set_files (delete name (sm_files sm)) sm')
      end
  end.

(** [DiskSessionManager.Load] *)
Definition Load : ST Manager unit := λ sm,
  match sm_files sm !! index_name (sm_me sm) with
  | None => (Ok tt, sm)
  | Some f =>
      match json_read (f_data f) with
      | Ok (pos, items) =>
          let sm1 := if 0 <? pos then set_pos pos sm else sm in
          (Ok tt, set_sessions (foldl (λ m '(n, u), <[n := u]> m) (sm_sessions sm1) items) sm1)
      | Err er => (Err er, sm)
      | Panic => (Panic, sm)
      end
  end.

(** [DiskSessionManager.Close] *)
Definition CloseManager : ST Manager unit := λ sm,
  (Ok tt, set_files (write_file (index_name (sm_me sm))
                       (json_write (sm_pos sm, map_to_list (sm_sessions sm))) (sm_files sm)) sm).

(** [NewSessionManager] on a directory *)
Definition NewSessionManager (me key : bytes) (fs : gmap bytes file) (made : nat) : result unit * Manager :=
  Load (mkManager me key (-1) ∅ fs made).

(** [DiskSessionManager.SetPosition], [Position] and [Sessions]; the order in which
    Go lists a map is open, here it is the one of [map_to_list] *)
Definition SetPosition (pos : Z) : ST Manager unit := modify (set_pos pos).
Definition Position (sm : Manager) : Z := sm_pos sm.
Definition Sessions (sm : Manager) : list (bytes * bytes) := map_to_list (sm_sessions sm).
End Manager.

(** ** Properties *)

Section Properties.
Context `{RatchetCrypto} `{!IdentityCrypto} `{!SaltyLib} `{!SaltyLaws}.
Context `{!BoxCrypto} `{!Ulid} `{!UlidLaws} `{!GobWire} `{!GobWireLaws}.

(** Sessions that can be stored. *)
Definition storable (s : PeerSession) (xs : Session) : Prop :=
  ps_Session s = Some xs ∧ length (s_LocalUUID xs) = 16%nat ∧ length (ps_PeerKey s) = 32%nat ∧
  match s_doubleRatchet xs with Some d => keys_nonempty d | None => True end.

(** What comes back: the callback compares with the stored key, and the identity
    key is there only while the session is not active. *)
Definition restored_session (key : bytes) (s : PeerSession) (xs : Session) : PeerSession :=
  mkPeerSession (ps_Name s) (ps_PeerKey s) (ps_Endpoint s) (ps_PendingAck s)
    (Some (mkSession (s_LocalUUID xs) (s_RemoteUUID xs) (s_Me xs)
             (if Active xs then [] else key) (λ peer, bool_decide (peer = ps_PeerKey s))
             (s_spkPub xs) (s_spkPriv xs) (restored 0 <$> s_doubleRatchet xs))).

Lemma peer_names s k b : NoDup (peer_fields s k b).*1.
Proof. unfold peer_fields. cbn. gob_names. Qed.

Lemma peer_bytes_sent s k b i name v :
  peer_fields s k b !! i = Some (name, GBytes v) → gob_bytes name (nonzero (peer_fields s k b)) = v.
Proof. intros Hi. apply gob_bytes_sent; [apply peer_names|by eapply list_elem_of_lookup_2]. Qed.

Lemma Peer_roundtrip s xs s0 :
  storable s xs →
  ∃ b, Peer_MarshalBinary s = Ok b ∧
    Peer_UnmarshalBinary b s0 = (Ok tt, restored_session [] s xs).
Proof.
  intros (Hs & Hu & Hk & Hd). unfold Peer_MarshalBinary. rewrite Hs. eexists. split; [done|].
  unfold Peer_UnmarshalBinary. set (k := key_string (ps_PeerKey s)). set (b := Session_MarshalBinary xs).
  rewrite gob_read_struct_sent; [|apply peer_names|unfold peer_types, peer_fields; gob_types].
  rewrite (peer_bytes_sent s k b 0 "Name" (ps_Name s)), (peer_bytes_sent s k b 1 "Key" k),
    (peer_bytes_sent s k b 2 "Endpoint" (ps_Endpoint s)),
    (peer_bytes_sent s k b 3 "PendingAck" (ps_PendingAck s)), (peer_bytes_sent s k b 4 "Session" b) by done.
  unfold b, k. rewrite key_parse_string by done.
  pose proof (Session_roundtrip xs session_zero Hd) as Hr. rewrite Hr.
  unfold restored_session, set_VerifyPeer; simpl. unfold Active. by destruct (s_doubleRatchet xs).
Qed.

Lemma sessionhash_entropy me id1 id2 :
  ulid_Entropy id1 = ulid_Entropy id2 → sessionhash me id1 = sessionhash me id2.
Proof. intros He. unfold sessionhash. by rewrite He. Qed.

Lemma Put_ok s xs sm :
  storable s xs →
  ∃ b, Peer_MarshalBinary s = Ok b ∧
    Put s sm = (Ok tt, set_files (write_file (sessionhash (sm_me sm) (s_LocalUUID xs)) b (sm_files sm)) sm).
Proof.
  intros Hst. destruct (Peer_roundtrip s xs ps_zero Hst) as (b & Hb & _). exists b. split; [done|].
  destruct Hst as (Hs & Hu & _). unfold Put. rewrite Hs, Hb. unfold toULID. by rewrite copied_exact.
Qed.

(** The permissions of the file of a session, if there is one, are strong. *)
Definition file_private (sm : Manager) (id : bytes) : Prop :=
  ∀ f, sm_files sm !! sessionhash (sm_me sm) id = Some f → Z.land (f_mode f) 54 = 0.

(** C15. A session that was put is got back, by its own identifier or by any that
    differs in the time only. Its name, the peer's key and endpoint, the pending
    acknowledgement, both identifiers and the prekey pair are as they were. Of the
    Double Ratchet [prevSendNo] is lost and all cached chains but the oldest. The
    callback compares with the stored key of the peer, whatever it was before, and
    the identity key is the manager's if the session is not active and none
    if it is. What is in other files is got as before. *)
Theorem get_after_put (s : PeerSession) (xs : Session) (sm : Manager) (id other : bytes)
  (Hst : storable s xs) (Hid : ulid_Entropy id = ulid_Entropy (s_LocalUUID xs))
  (Hpriv : file_private sm id)
  (Hother : sessionhash (sm_me sm) other ≠ sessionhash (sm_me sm) id) :
  ∃ sm', Put s sm = (Ok tt, sm') ∧
    Get id sm' = Ok (restored_session (sm_key sm) s xs) ∧ Get other sm' = Get other sm.
Proof.
  destruct (Put_ok s xs sm Hst) as (b & Hb & Hput). eexists. split; [exact Hput|].
  rewrite (sessionhash_entropy _ _ _ (eq_sym Hid)). unfold Get, write_file; simpl. split.
  - rewrite lookup_insert, decide_True by done. simpl.
    assert (Z.land (match sm_files sm !! sessionhash (sm_me sm) id with
              Some f => f_mode f | None => 384 end) 54 = 0) as ->.
    { destruct (sm_files sm !! _) as [f|] eqn:Hf; [by apply Hpriv|done]. }
    simpl. destruct (Peer_roundtrip s xs ps_zero Hst) as (b' & Hb' & Hr). rewrite Hb in Hb'. injection Hb' as <-.
    rewrite Hr. simpl. unfold restored_session, Active, set_peer_key; simpl.
    by destruct (s_doubleRatchet xs).
  - rewrite lookup_insert_ne by exact (not_eq_sym Hother). reflexivity.
Qed.

(** The identifiers on data messages lead to the session: [encTime] changes
    the time of an identifier only, and the file name does not depend on it. *)
Theorem timestamped_id_finds_session (sm : Manager) (id : bytes) (ms : Z) (Hid : length id = 16%nat) :
  Get (encTime ms id) sm = Get id sm.
Proof.
  unfold Get. rewrite (sessionhash_entropy _ (encTime ms id) id); [done|].
  unfold encTime, ulid_Entropy. rewrite ulid_SetTime_entropy by apply length_copied.
  by rewrite copied_exact.
Qed.

(** Looking sessions up fails safely only in two of three cases: no file is
    reported so that the client recognises it, a file that others can access is
    refused, but a file that does not decode makes [Get] panic, since the nil
    session is asked whether it is active before the error is looked at. *)
Theorem get_failures (sm : Manager) (id : bytes) :
  (sm_files sm !! sessionhash (sm_me sm) id = None →
     ∃ er, Get id sm = Err er ∧ is_not_exist er = true) ∧
  (∀ f, sm_files sm !! sessionhash (sm_me sm) id = Some f → Z.land (f_mode f) 54 ≠ 0 →
     ∃ er, Get id sm = Err er ∧ is_not_exist er = false) ∧
  (∀ f er, sm_files sm !! sessionhash (sm_me sm) id = Some f → Z.land (f_mode f) 54 = 0 →
     gob_read_struct peer_types (f_data f) = Err er → Get id sm = Panic).
Proof.
  unfold Get. split_and!.
  - intros ->. by eexists.
  - intros f -> Hm. rewrite (proj2 (Z.eqb_neq _ _) Hm). by eexists.
  - intros f er -> Hm Hg. rewrite Hm. simpl. unfold Peer_UnmarshalBinary. by rewrite Hg.
Qed.

(** A deleted session is gone, from the directory and from the index. *)
Theorem get_after_delete (s : PeerSession) (xs : Session) (sm sm' : Manager)
  (Hs : ps_Session s = Some xs) (Hu : length (s_LocalUUID xs) = 16%nat)
  (Hdel : Delete s sm = (Ok tt, sm')) :
  (∃ er, Get (s_LocalUUID xs) sm' = Err er ∧ is_not_exist er = true) ∧
  sm_sessions sm' !! ps_Name s = None.
Proof.
  unfold Delete in Hdel. rewrite Hs, copied_exact in Hdel by done.
  destruct (sm_files sm !! _) as [f|] eqn:Hf; [|done]. injection Hdel as <-. split.
  - unfold Get; simpl. rewrite lookup_delete, decide_True by done. by eexists.
  - simpl. by rewrite lookup_delete, decide_True.
Qed.

Lemma foldl_insert_map (l : list (bytes * bytes)) (m : gmap bytes bytes) :
  NoDup l.*1 → foldl (λ m '(n, u), <[n := u]> m) m l = list_to_map l ∪ m.
Proof.
  revert m. induction l as [|[n u] l IH]; intros m Hnd.
  { simpl. by rewrite (left_id_L ∅ (∪)). }
  rewrite fmap_cons in Hnd. apply NoDup_cons in Hnd as [Hn Hnd]. simpl.
  rewrite IH by done. rewrite <-insert_union_r, insert_union_l; [done|].
  by apply not_elem_of_list_to_map_1.
Qed.

Lemma index_reload sm :
  let sm' := (CloseManager sm).2 in
  NewSessionManager (sm_me sm) (sm_key sm) (sm_files sm') (sm_made sm) =
    (Ok tt, mkManager (sm_me sm) (sm_key sm) (if 0 <? sm_pos sm then sm_pos sm else -1)
              (sm_sessions sm) (sm_files sm') (sm_made sm)).
Proof.
  simpl. unfold NewSessionManager, Load, write_file; simpl. rewrite lookup_insert, decide_True by done. simpl.
  rewrite json_read_write, foldl_insert_map by apply NoDup_fst_map_to_list.
  rewrite list_to_map_to_list. by destruct (0 <? sm_pos sm); simpl; rewrite (right_id_L ∅ (∪)).
Qed.

(** The index survives. What [Close] writes, a manager on the same directory
    loads: all names with their identifiers, and the position in the message
    stream if it is positive. *)
Theorem index_roundtrip (sm : Manager) :
  let sm' := (CloseManager sm).2 in
  NewSessionManager (sm_me sm) (sm_key sm) (sm_files sm') (sm_made sm) =
    (Ok tt, mkManager (sm_me sm) (sm_key sm) (if 0 <? sm_pos sm then sm_pos sm else -1)
              (sm_sessions sm) (sm_files sm') (sm_made sm)).
Proof. apply index_reload. Qed.
End Properties.

(** ** Instances *)

Module ToySalty.
#[local] Existing Instances toy_ratchet_crypto toy_ratchet_laws toy_identity_crypto toy_identity_laws
  toy_box_crypto SRuns.toy_ulid SRuns.toy_ulid_laws ToyWire.toy_wire ToyWire.toy_wire_laws.

(** A user's key is made from the first letter of the name. *)
Definition toy_user_key (name : bytes) : bytes := toy_identity (hd Byte.x00 name).

Definition toy_salty : SaltyLib := {|
  key_string k := k;
  key_parse s := Ok s;
  key_X25519 pk := Toy.run [] (ed25519PublicKeyToCurve25519 pk);
  key_X25519_pair priv :=
    (Toy.run [] (ed25519PublicKeyToCurve25519 (drop 32 priv)),
     Toy.run [] (ed25519PrivateKeyToCurve25519 priv));
  LookupAddr name :=
    match name with
    | [] => Err (Errorf "invalid address")
    | _ => Ok (mkAddr name (str "example.org") (str "https://" ++ name) (drop 32 (toy_user_key name)))
    end;
  ulid_Make n := zeros 15 ++ [byte_of_Z (Z.of_nat n)];
  json_write d := ToyWire.write_pos (encode d);
  json_read b := match ToyWire.read_pos b ≫= decode with Some d => Ok d | None => Err (Errorf "json") end;
|}.

Lemma toy_salty_laws : @SaltyLaws toy_ratchet_crypto toy_identity_crypto toy_salty.
Proof.
  split.
  - done.
  - intros priv Hp. destruct (convert_pair priv Hp) as (u & s & Hu & Hs & Hd). simpl. rewrite Hu, Hs. done.
  - done.
  - intros d. simpl. rewrite ToyWire.read_write_pos. simpl. by rewrite decode_encode.
Qed.

(** A manager with one file, and a session to put. *)
Definition manager : Manager := mkManager (str "alice") (toy_user_key (str "alice")) 7 {[str "bob" := @ulid_Make toy_salty 0]} ∅ 1.
Definition addr_bob : Addr := mkAddr (str "bob") (str "example.org") (str "https://bob") (drop 32 (toy_user_key (str "bob"))).
Definition sess_bob : PeerSession :=
  NewSession (zeros 16) (str "alice") (toy_user_key (str "alice")) (str "bob") addr_bob.
Definition sess_bob_inner : Session :=
  set_VerifyPeer (addr_key addr_bob) (new_xochimilco (zeros 16) (str "alice") (toy_user_key (str "alice"))).
Definition other_id : bytes := zeros 15 ++ [Byte.x05].

Lemma sess_bob_storable : storable sess_bob sess_bob_inner.
Proof. split_and!; [reflexivity|reflexivity|reflexivity|exact I]. Qed.
End ToySalty.

#[local] Existing Instances toy_ratchet_crypto toy_ratchet_laws toy_identity_crypto toy_identity_laws
  toy_box_crypto SRuns.toy_ulid SRuns.toy_ulid_laws ToyWire.toy_wire ToyWire.toy_wire_laws
  ToySalty.toy_salty ToySalty.toy_salty_laws.

Lemma get_after_put_witness :
  ∃ sm', Put ToySalty.sess_bob ToySalty.manager = (Ok tt, sm') ∧
    Get (zeros 16) sm' = Ok (restored_session (ToySalty.toy_user_key (str "alice")) ToySalty.sess_bob ToySalty.sess_bob_inner) ∧
    Get ToySalty.other_id sm' = Get ToySalty.other_id ToySalty.manager.
Proof.
  apply (get_after_put ToySalty.sess_bob ToySalty.sess_bob_inner ToySalty.manager (zeros 16) ToySalty.other_id).
  - apply ToySalty.sess_bob_storable.
  - reflexivity.
  - intros f Hf. discriminate Hf.
  - vm_compute. discriminate.
Defined.
