(* ===== verification/Client.v ===== *)
(** * The client (src/client/client.go)

    The operations of a client on its session manager: starting a chat, sending,
    closing, and the handlers of incoming text. A call runs on the client with
    its manager, the random source, the messages it posted and the events it
    dispatched. The manager is used under a lock, so calls do not interleave. *)

From Stdlib Require Import ZArith Lia.
From stdpp Require Import base list numbers option strings gmap.
From S2P Require Import Prelude Crypto ToyCrypto MsgHeader DhRatchet DoubleRatchet RatchetSync Gob Marshal Base64 Message X3dh Session DiskSession.

Local Open Scope Z_scope.

(** ** What the client uses of other modules *)

(** A parsed salty text, with the nick of its author *)
Record SaltyText := mkSaltyText { st_nick : bytes; st_literal : bytes }.

(** What [lextwt.ParseSalty] returns *)
Inductive salty := SText (t : SaltyText) | SEvent (e : bytes) | SOther.

Class ClientLib := {
  (** [lextwt.NewSaltyText] at a time, from a user and a domain, with a text and
      events *)
  NewSaltyText : Z → bytes → bytes → bytes → list bytes → SaltyText;
  ParseSalty : bytes → result salty;
  (** [salty.Encrypt] and [salty.Decrypt] *)
  salty_Encrypt : entropy → bytes → bytes → bytes → result bytes * entropy;
  salty_Decrypt : bytes → bytes → result (bytes * bytes);
  (** [http.Post] and [saltyim.Send] to an endpoint: the error, if any *)
  http_post : bytes → bytes → option error;
  saltyim_Send : bytes → bytes → option error;
}.

(** ** Events *)

(** The values that are passed to [dispatch]; an error is dispatched, too. *)
Inductive event :=
  | OnOfferSent (id them raw : bytes)
  | OnOfferReceived (id them pendingAck : bytes)
  | OnSessionStarted (id them : bytes)
  | OnMessageReceived (id them raw : bytes) (m : SaltyText)
  | OnEventReceived (id them raw : bytes) (e : bytes)
  | OnMessageSent (id them raw : bytes) (m : SaltyText) (sealed : bytes)
  | OnCloseSent (id them sealed : bytes)
  | OnSessionClosed (id them : bytes)
  | OnSaltyTextReceived (pubkey : bytes) (m : SaltyText)
  | OnSaltyEventReceived (pubkey : bytes) (e : bytes)
  | OnSaltySent (them : bytes) (a : Addr) (m : SaltyText) (raw : bytes)
  | OnReceived (raw : bytes)
  | OnError (e : error).

(** [OnInput] *)
Record OnInput := mkInput { in_Position : Z; in_Payload : bytes }.

(** ** The client *)

(** [Client]: the manager, the address of [Me()], and what happened so far: posts
    and events are listed latest first. *)
Record Client := mkClient {
  c_sm : Manager;
  c_addr : Addr;
  c_ent : entropy;
  c_posts : list (bytes * bytes);
  c_events : list event;
}.

Definition set_sm (sm : Manager) (c : Client) : Client :=
  mkClient sm (c_addr c) (c_ent c) (c_posts c) (c_events c).
Definition set_ent (e : entropy) (c : Client) : Client :=
  mkClient (c_sm c) (c_addr c) e (c_posts c) (c_events c).
Definition add_post (p : bytes * bytes) (c : Client) : Client :=
  mkClient (c_sm c) (c_addr c) (c_ent c) (p :: c_posts c) (c_events c).
Definition add_event (ev : event) (c : Client) : Client :=
  mkClient (c_sm c) (c_addr c) (c_ent c) (c_posts c) (ev :: c_events c).

(** [dispatch]: the handlers of the event run; it returns no error *)
Definition dispatch (ev : event) : ST Client unit := modify (add_event ev).

(** A call of a method of the session manager, and of a method of a session. The
    session is an object of its own: what an unsuccessful call has changed in it
    is dropped with it. *)
Definition with_sm {A} (m : ST Manager A) : ST Client A := zoom c_sm set_sm m.

Definition with_peer {A} (m : ST (PeerSession * entropy) A) (s : PeerSession) : ST Client (A * PeerSession) := λ c,
  let '(r, (s', e')) := m (s, c_ent c) in ((λ a, (a, s')) <$> r, set_ent e' c).

(** The identifier of the embedded session *)
Definition local_id (s : PeerSession) : result bytes :=
  match ps_Session s with Some xs => Ok (toULID (s_LocalUUID xs)) | None => Panic end.

(** [interface{ Nick() string }] *)
Definition msg_nick (m : Msg) : option bytes :=
  match m with Message.Offer o => Some (om_nick o) | _ => None end.

Definition saltpack : bytes := str "BEGIN SALTPACK ENCRYPTED MESSAGE.".

Definition is_ratchet (input : bytes) : bool := hasPrefix input Prefix && hasSuffix input Suffix.

(** [readMsg] *)
Definition readMsg (input : bytes) : result (bytes * Msg) :=
  m ← Parse input; Ok (copied 16 (ID m), m).

Section Client.
Context `{RatchetCrypto} `{IdentityCrypto} `{BoxCrypto} `{Ulid} `{GobWire} `{SaltyLib} `{ClientLib}.

(** [Client.sendMsg] *)
Definition sendMsg (s : PeerSession) (msg : bytes) : ST Client unit :=
  match http_post (ps_Endpoint s) msg with
  | Some er => throw er
  | None => modify (add_post (ps_Endpoint s, msg))
  end.

(** [sm.Get(sm.ByName(them))] *)
Definition getByName (them : bytes) : ST Client (result PeerSession) :=
  id ← with_sm (ByName them);
  gets (λ c, Get id (c_sm c)).

(** [Client.Chat], apart from its boolean result *)
Definition Chat (them : bytes) : ST Client unit :=
  r ← getByName them;
  match r with
  | Panic => lift Panic
  | Err er =>
      if is_not_exist er then
        session ← with_sm (New them);
        '(msg, session) ← with_peer Peer_Offer session;
        _ ← sendMsg session msg;
        _ ← with_sm (Put session);
        id ← lift (local_id session);
        dispatch (OnOfferSent id them msg)
      else throw er
  | Ok session =>
      if (0 <? length (ps_PendingAck session))%nat then
        _ ← sendMsg session (ps_PendingAck session);
        let session := set_PendingAck [] session in
        _ ← with_sm (Put session);
        id ← lift (local_id session);
        dispatch (OnSessionStarted id them)
      else mret tt
  end.

(** [Client.Send]; [ms] and [ms'] are the times at which the two identifiers are
    made *)
Definition SendText (ms ms' : Z) (them text : bytes) (events : list bytes) : ST Client unit :=
  r ← getByName them;
  session ← lift r;
  id ← lift (local_id session);
  c ← gets (λ c, c);
  let msgID := toULID (encTime ms id) in
  let msg := NewSaltyText ms (addr_user (c_addr c)) (addr_domain (c_addr c)) text events in
  '(data, session) ← with_peer (with_session (Send ms' (st_literal msg))) session;
  _ ← sendMsg session data;
  _ ← with_sm (Put session);
  dispatch (OnMessageSent msgID them (st_literal msg) msg data).

(** [Client.Close] *)
Definition CloseChat (them : bytes) : ST Client unit :=
  r ← getByName them;
  session ← lift r;
  '(msg, session) ← with_peer (with_session Close) session;
  _ ← sendMsg session msg;
  id ← lift (local_id session);
  _ ← dispatch (OnCloseSent id them msg);
  _ ← dispatch (OnSessionClosed id them);
  with_sm (Delete session).

(** [Client.SendSalty] at the time [ms] *)
Definition SendSalty (ms : Z) (them text : bytes) (events : list bytes) : ST Client unit :=
  addr ← lift (LookupAddr them);
  c ← gets (λ c, c);
  let msg := NewSaltyText ms (addr_user addr) (addr_domain addr) text events in
  let '(r, e') := salty_Encrypt (c_ent c) (sm_key (c_sm c)) (st_literal msg) (key_string (addr_key addr)) in
  _ ← modify (set_ent e');
  match r with
  | Ok b =>
      match saltyim_Send (addr_endpoint addr) b with
      | Some er => throw er
      | None => dispatch (OnSaltySent them addr msg (st_literal msg))
      end
  | Err er => throw (Wrapf "error encrypting message to %s: %w" er)
  | Panic => lift Panic
  end.

(** An error of the body of a handler is dispatched. *)
Definition catch (m : ST Client unit) : ST Client unit := λ c,
  match m c with
  | (Err er, c') => dispatch (OnError er) c'
  | out => out
  end.

(** [Client.handleSaltPack] *)
Definition handleSaltPack (inp : OnInput) : ST Client unit :=
  if negb (hasPrefix (in_Payload inp) saltpack) then mret tt
  else catch (
    _ ← with_sm (SetPosition (int64 (in_Position inp + 1)));
    c ← gets (λ c, c);
    '(text, key) ← lift (salty_Decrypt (sm_key (c_sm c)) (in_Payload inp));
    msg ← lift (ParseSalty text);
    match msg with
    | SEvent e => dispatch (OnSaltyEventReceived key e)
    | SText t => dispatch (OnSaltyTextReceived key t)
    | SOther => mret tt
    end).

(** The session that a message is for: a new one for an offer; [None] if there
    is none for the identifier *)
Definition findSession (id : bytes) (m : Msg) : ST Client (option PeerSession) :=
  match msg_nick m with
  | Some nick => λ c,
      match with_sm (New nick) c with
      | (Ok s, c') => (Ok (Some s), c')
      | (Err er, c') => (Err (Wrapf "get session: %w" er), c')
      | (Panic, c') => (Panic, c')
      end
  | None => λ c,
      match Get id (c_sm c) with
      | Ok s => (Ok (Some s), c)
      | Err er => if is_not_exist er then (Ok None, c) else (Err (Wrapf "get session: %w" er), c)
      | Panic => (Panic, c)
      end
  end.

(** [xmsg.(interface{ Unseal(...) })] *)
Definition unsealMsg (m : Msg) : ST Client Msg := λ c,
  match m with
  | Sealed b =>
      let '(pub, priv) := key_X25519_pair (sm_key (c_sm c)) in
      (Unseal b priv pub, c)
  | _ => (Ok m, c)
  end.

(** [sess.ReceiveMsg] with its error wrapped *)
Definition receiveMsg (m : Msg) (s : PeerSession) : ST Client ((bool * bool * bytes) * PeerSession) := λ c,
  match with_peer (Peer_ReceiveMsg m) s c with
  | (Err er, c') => (Err (Wrapf "session receive: %w" er), c')
  | out => out
  end.

(** The rest of [handleRatchet] once a session was found *)
Definition deliverMsg (m : Msg) (s : PeerSession) : ST Client unit :=
  '(isEstablished, isClosed, plaintext, s) ← receiveMsg m s;
  let id := toULID (ID m) in
  _ ← (if (0 <? length (ps_PendingAck s))%nat
       then dispatch (OnOfferReceived id (ps_Name s) (ps_PendingAck s)) else mret tt);
  _ ← with_sm (Put s);
  if (isClosed : bool) then
    _ ← with_sm (Delete s);
    dispatch (OnSessionClosed id (ps_Name s))
  else if (isEstablished : bool) then dispatch (OnSessionStarted id (ps_Name s))
  else
    match ParseSalty plaintext with
    | Ok (SText t) => dispatch (OnMessageReceived id (ps_Name s) plaintext t)
    | Ok (SEvent e) => dispatch (OnEventReceived id (ps_Name s) plaintext e)
    | Panic => lift Panic
    | _ => mret tt
    end.

(** [Client.handleRatchet] *)
Definition handleRatchet (inp : OnInput) : ST Client unit :=
  if negb (is_ratchet (in_Payload inp)) then mret tt
  else
    match readMsg (in_Payload inp) with
    | Err er => dispatch (OnError (Wrapf "reading msg: %w" er))
    | Panic => lift Panic
    | Ok (id, xmsg) =>
        catch (
          _ ← with_sm (SetPosition (int64 (in_Position inp + 1)));
          xmsg ← unsealMsg xmsg;
          sess ← findSession id xmsg;
          match sess with
          | None => mret tt
          | Some s => deliverMsg xmsg s
          end)
    end.

(** [Client.handleOther] *)
Definition handleOther (inp : OnInput) : ST Client unit :=
  if is_ratchet (in_Payload inp) then mret tt
  else if hasPrefix (in_Payload inp) saltpack then mret tt
  else dispatch (OnReceived (in_Payload inp)).

(** [Client.Input]: the three handlers, which [dispatch] starts side by side *)
Definition Input (inp : OnInput) : ST Client unit :=
  _ ← handleSaltPack inp;
  _ ← handleRatchet inp;
  handleOther inp.
End Client.

(** ** One handler per input *)

Section Handlers.
Context `{RatchetCrypto} `{IdentityCrypto} `{BoxCrypto} `{Ulid} `{GobWire} `{SaltyLib} `{ClientLib}.

Lemma ratchet_not_saltpack input : hasPrefix input Prefix = true → hasPrefix input saltpack = false.
Proof.
  intros (k & ->)%hasPrefix_inv. unfold hasPrefix. by apply bool_decide_eq_false.
Qed.

Lemma Input_handlers inp c :
  Input inp c =
    if is_ratchet (in_Payload inp) then handleRatchet inp c
    else if hasPrefix (in_Payload inp) saltpack then handleSaltPack inp c
    else handleOther inp c.
Proof.
  unfold Input. destruct (is_ratchet (in_Payload inp)) eqn:Hr.
  - apply andb_prop in Hr as Hp. destruct Hp as [Hp _]. pose proof (ratchet_not_saltpack _ Hp) as Hs.
    unfold handleSaltPack. rewrite Hs. st_pure. unfold handleOther. rewrite Hr.
    unfold mbind, ST_bind. by destruct (handleRatchet inp c) as [[[]| |] c'].
  - unfold handleRatchet, handleOther. rewrite Hr. cbn [negb].
    destruct (hasPrefix (in_Payload inp) saltpack) eqn:Hs.
    + unfold mbind, ST_bind. by destruct (handleSaltPack inp c) as [[[]| |] c'].
    + unfold handleSaltPack. rewrite Hs. by st_pure.
Qed.

(** The three handlers of an input do not interfere: for every text exactly
    one of them acts, so that it does not matter that [dispatch] starts them side
    by side. *)
Theorem input_one_handler (inp : OnInput) (c : Client) :
  Input inp c =
    if is_ratchet (in_Payload inp) then handleRatchet inp c
    else if hasPrefix (in_Payload inp) saltpack then handleSaltPack inp c
    else handleOther inp c.
Proof. apply Input_handlers. Qed.
End Handlers.

(** ** Failures *)

Section Failures.
Context `{RatchetCrypto} `{IdentityCrypto} `{BoxCrypto} `{Ulid} `{GobWire} `{SaltyLib} `{ClientLib}.

Definition plain (m : Msg) : Prop :=
  match m with Message.Offer _ | Sealed _ => False | _ => True end.

(** The frame of [handleRatchet] for a message to a session that exists. *)
Lemma handleRatchet_plain inp c id m s :
  is_ratchet (in_Payload inp) = true → readMsg (in_Payload inp) = Ok (id, m) → plain m →
  Get id (c_sm c) = Ok s →
  handleRatchet inp c = catch (deliverMsg m s) (set_sm (set_pos (int64 (in_Position inp + 1)) (c_sm c)) c).
Proof.
  intros Hr Hm Hp Hg. unfold handleRatchet. rewrite Hr, Hm. cbn [negb]. unfold catch.
  erewrite ST_bind_Ok by reflexivity. erewrite ST_bind_Ok by (by destruct m). cbn [fst snd].
  rewrite (ST_bind_Ok _ _ _ (set_sm (set_pos (int64 (in_Position inp + 1)) (c_sm c)) c) (Some s)); [done|].
  unfold findSession. replace (msg_nick m) with (@None bytes) by (by destruct m).
  change (c_sm (set_sm (set_pos (int64 (in_Position inp + 1)) (c_sm c)) c)) with (set_pos (int64 (in_Position inp + 1)) (c_sm c)).
  change (Get id (set_pos _ _)) with (Get id (c_sm c)). by rewrite Hg.
Qed.

(** What [handleRatchet] does with a message before it acts on it *)
Definition takeIn (id : bytes) (xmsg : Msg) : ST Client unit :=
  xmsg ← unsealMsg xmsg;
  sess ← findSession id xmsg;
  match sess with
  | None => mret tt
  | Some s => _ ← receiveMsg xmsg s; mret tt
  end.

(** Up to there no file is written; looking a name up may add it to the index. *)
Definition only_looked (c c' : Client) : Prop :=
  sm_files (c_sm c') = sm_files (c_sm c) ∧ sm_sessions (c_sm c) ⊆ sm_sessions (c_sm c') ∧
  sm_pos (c_sm c') = sm_pos (c_sm c) ∧ c_posts c' = c_posts c ∧ c_events c' = c_events c.

Lemma only_looked_refl c : only_looked c c.
Proof. by split_and!. Qed.

Lemma New_looks nick c r c' : with_sm (New nick) c = (r, c') → only_looked c c'.
Proof.
  unfold with_sm, zoom, New, mbind, ST_bind, ByName, gets, only_looked.
  destruct (sm_sessions (c_sm c) !! nick) as [u|] eqn:Hn; destruct (fetchKey nick); intros [= _ <-]; cbn;
    split_and!; try done; by apply insert_subseteq.
Qed.

Lemma findSession_looks id m c r c' :
  findSession id m c = (r, c') → only_looked c c' ∧ (msg_nick m = None → sm_sessions (c_sm c') = sm_sessions (c_sm c)).
Proof.
  unfold findSession. destruct (msg_nick m) as [nick|].
  - destruct (with_sm (New nick) c) as [[s|er|] c1] eqn:Hnew; intros [= _ <-]; (split; [by eapply New_looks|done]).
  - destruct (Get id (c_sm c)) as [s|er|]; [| |]; try destruct (is_not_exist er); intros [= _ <-];
      (split; [apply only_looked_refl|done]).
Qed.

Lemma takeIn_looks id x c r c' :
  takeIn id x c = (r, c') → only_looked c c' ∧ (plain x → sm_sessions (c_sm c') = sm_sessions (c_sm c)).
Proof.
  unfold takeIn, mbind, ST_bind. assert ((unsealMsg x c).2 = c) as Hu by (unfold unsealMsg; destruct x; try done; by destruct (key_X25519_pair _)).
  assert (plain x → (unsealMsg x c).1 = Ok x ∧ msg_nick x = None) as Hplain by (by destruct x).
  destruct (unsealMsg x c) as [[m|er|] c0]; cbn [snd fst] in *; subst c0;
    [|intros [= _ <-]; split; [apply only_looked_refl|done]..].
  destruct (findSession id m c) as [rs c1] eqn:Hf. destruct (findSession_looks _ _ _ _ _ Hf) as [Hl Hi].
  assert (plain x → sm_sessions (c_sm c1) = sm_sessions (c_sm c)) as Hi'
    by (intros Hp; destruct (Hplain Hp) as [[= ->] Hx]; auto).
  destruct rs as [[s|]|er|]; try (intros [= _ <-]; by split).
  unfold receiveMsg, with_peer. destruct (Peer_ReceiveMsg m (s, c_ent c1)) as [[?|?|] [s' e']];
    intros [= _ <-]; by split.
Qed.

(** A failure there is the failure of the handler. *)
Lemma handleRatchet_fails inp c id x er c' :
  is_ratchet (in_Payload inp) = true → readMsg (in_Payload inp) = Ok (id, x) →
  takeIn id x (set_sm (set_pos (int64 (in_Position inp + 1)) (c_sm c)) c) = (Err er, c') →
  handleRatchet inp c = dispatch (OnError er) c'.
Proof.
  intros Hr Hm Ht. unfold handleRatchet. rewrite Hr, Hm. cbn [negb]. unfold catch.
  erewrite ST_bind_Ok by reflexivity. cbn [fst snd]. set (c0 := set_sm _ c) in *.
  change (set_sm (set_pos _ (c_sm c)) c) with c0 in Ht. revert Ht. unfold takeIn, mbind, ST_bind.
  destruct (unsealMsg x c0) as [[m|?|] c1]; try (by intros [= -> ->]); try done.
  destruct (findSession id m c1) as [[[s|]|?|] c2]; try (by intros [= -> ->]); try done.
  unfold deliverMsg, mbind, ST_bind. destruct (receiveMsg m s c2) as [[?|?|] c3]; try done. by intros [= -> ->].
Qed.

(** C16. A message that fails is rolled back. What [handleRatchet] works on is a
    copy of the session, read from its file or made for an offer, and it is
    written back only after [ReceiveMsg] succeeded. After a sealed message that
    does not open, an offer whose sender cannot be looked up or whose signature is
    wrong, a message that does not decrypt, a forged header or a bad
    acknowledgement, every stored session is as it was; the error is dispatched,
    the position in the stream moves on, and nothing is posted. The index keeps its
    names, and gets a new one at most if the message was an offer or sealed. *)
Theorem failed_message_rolls_back (inp : OnInput) (c c' : Client) (id : bytes) (x : Msg) (er : error)
  (Hr : is_ratchet (in_Payload inp) = true) (Hm : readMsg (in_Payload inp) = Ok (id, x))
  (Hfail : takeIn id x (set_sm (set_pos (int64 (in_Position inp + 1)) (c_sm c)) c) = (Err er, c')) :
  ∃ c2, handleRatchet inp c = (Ok tt, c2) ∧
    sm_files (c_sm c2) = sm_files (c_sm c) ∧ sm_sessions (c_sm c) ⊆ sm_sessions (c_sm c2) ∧
    (plain x → sm_sessions (c_sm c2) = sm_sessions (c_sm c)) ∧
    sm_pos (c_sm c2) = int64 (in_Position inp + 1) ∧ c_posts c2 = c_posts c ∧
    c_events c2 = OnError er :: c_events c.
Proof.
  destruct (takeIn_looks _ _ _ _ _ Hfail) as [(Hf & Hi & Hp & Hpo & He) Hpl].
  rewrite (handleRatchet_fails _ _ _ _ _ _ Hr Hm Hfail). eexists. split; [reflexivity|].
  split; [exact Hf|]. split; [exact Hi|]. split; [exact Hpl|]. split; [exact Hp|]. split; [exact Hpo|].
  cbn. by rewrite He.
Qed.

(** An empty sealed box crashes the client: the panic of [Unseal] is not
    recovered anywhere on the way to [Input]. *)
Theorem empty_box_crashes_client (inp : OnInput) (c : Client) (id b : bytes)
  (Hr : is_ratchet (in_Payload inp) = true) (Hm : readMsg (in_Payload inp) = Ok (id, Sealed b))
  (Hbox : box_open b (key_X25519_pair (sm_key (c_sm c))).1 (key_X25519_pair (sm_key (c_sm c))).2 = Some []) :
  (Input inp c).1 = Panic.
Proof.
  assert (hasPrefix (in_Payload inp) saltpack = false) as Hs.
  { apply ratchet_not_saltpack. unfold is_ratchet in Hr. by apply andb_prop in Hr as [? _]. }
  unfold Input, handleSaltPack. rewrite Hs. st_pure. unfold handleRatchet. rewrite Hr, Hm. cbn [negb].
  unfold mbind at 1, ST_bind at 1, catch. st_pure.
  unfold unsealMsg at 1, mbind, ST_bind.
  change (sm_key (c_sm (set_sm (set_pos (int64 (in_Position inp + 1)) (c_sm c)) c))) with (sm_key (c_sm c)).
  destruct (key_X25519_pair _) as [pub priv]. simpl in Hbox. unfold Unseal. by rewrite Hbox.
Qed.
End Failures.

(** ** Instances *)

Module ToyClient.
#[local] Existing Instances toy_ratchet_crypto toy_identity_crypto toy_box_crypto SRuns.toy_ulid ToyWire.toy_wire
  ToySalty.toy_salty.

(** Texts are sent as they are, posting works, saltpack messages do not open. *)
Definition toy_client : ClientLib := {|
  NewSaltyText _ user _ text _ := mkSaltyText user text;
  ParseSalty b := Ok (SText (mkSaltyText [] b));
  salty_Encrypt e _ _ _ := (Err (Errorf "salty"), e);
  salty_Decrypt _ _ := Err (Errorf "salty");
  http_post _ _ := None;
  saltyim_Send _ _ := None;
|}.
Definition manager_of (me : bytes) : Manager := mkManager me (ToySalty.toy_user_key me) (-1) ∅ ∅ 0.
Definition addr_of (name : bytes) : Addr :=
  mkAddr name (str "example.org") (str "https://" ++ name) (drop 32 (ToySalty.toy_user_key name)).
Definition client_of (me : bytes) (seed : Z) : Client :=
  mkClient (manager_of me) (addr_of me) (Toy.tape seed 256) [] [].
(** Random bytes for many keys: each number 32 times, so that what is 32 bytes
    further on starts with another byte. *)
Definition long_tape (n : nat) : entropy := (λ i, byte_of_Z (Z.of_nat i / 32)) <$> seq 0 n.
Definition alice : Client := client_of (str "alice") 5.
Definition bob : Client := client_of (str "bob") 99.

(** Alice has made an offer to Bob; an acknowledgement in his name that does not
    decrypt comes in. *)
#[local] Existing Instance toy_client.
Definition alice_offered : Client := (Chat (str "bob") alice).2.
Definition bad_ack : Msg :=
  Ack (AckMessage (addr_key (addr_of (str "bob"))) (addr_key (addr_of (str "carol"))) (zeros 16) (zeros 64)).
Definition bad_input : OnInput := mkInput 6 (marshalMessage sessAck bad_ack).
Definition offered_session : PeerSession := Toy.run ps_zero (Get (zeros 16) (c_sm alice_offered)).
Definition bad_outcome : result (bool * bool * bytes) * (PeerSession * entropy) :=
  Peer_ReceiveMsg bad_ack (offered_session, c_ent alice_offered).
End ToyClient.

#[local] Existing Instances toy_ratchet_crypto toy_identity_crypto toy_box_crypto SRuns.toy_ulid ToyWire.toy_wire
  ToySalty.toy_salty ToyClient.toy_client.

Lemma failed_message_rolls_back_witness :
  ∃ c2, handleRatchet ToyClient.bad_input ToyClient.alice_offered = (Ok tt, c2) ∧
    sm_files (c_sm c2) = sm_files (c_sm ToyClient.alice_offered) ∧
    sm_sessions (c_sm ToyClient.alice_offered) ⊆ sm_sessions (c_sm c2) ∧
    (plain ToyClient.bad_ack → sm_sessions (c_sm c2) = sm_sessions (c_sm ToyClient.alice_offered)) ∧
    sm_pos (c_sm c2) = 7 ∧ c_posts c2 = c_posts ToyClient.alice_offered ∧
    c_events c2 = OnError (Wrapf "session receive: %w" (as_error ToyClient.bad_outcome.1)) ::
                  c_events ToyClient.alice_offered.
Proof.
  apply (failed_message_rolls_back ToyClient.bad_input ToyClient.alice_offered
    (takeIn (zeros 16) ToyClient.bad_ack (set_sm (set_pos 7 (c_sm ToyClient.alice_offered)) ToyClient.alice_offered)).2
    (zeros 16) ToyClient.bad_ack).
  - vm_compute. reflexivity.
  - vm_compute. reflexivity.
  - apply injective_projections; [vm_compute; reflexivity|reflexivity].
Defined.
