(* ===== verification/ClientChat.v ===== *)
(** * Two clients with stored sessions (src/client/client.go)

    What two clients of Client.v do together: the handshake over sealed offers
    and pending acknowledgements, and the conversation afterwards. Between any
    two operations the sessions are in files, so every step restores a Double
    Ratchet and stores it again. *)

From Stdlib Require Import ZArith Lia.
From stdpp Require Import base list numbers option strings gmap.
From S2P Require Import Prelude Crypto ToyCrypto MsgHeader DhRatchet DoubleRatchet RatchetSync Gob Marshal Liveness Base64 Message X3dh Session DiskSession Client.

Local Open Scope Z_scope.

(** ** Two clients in conversation *)

Section Conversation.
Context `{RatchetCryptoLaws} `{!IdentityCrypto} `{!IdentityCryptoLaws} `{!BoxCrypto} `{!BoxCryptoLaws}.
Context `{!Ulid} `{!UlidLaws} `{!GobWire} `{!GobWireLaws} `{!SaltyLib} `{!SaltyLaws} `{!ClientLib}.

(** The manager has the session [s], with the inner session [xs], on file. *)
Definition has_session (sm : Manager) (id : bytes) (s : PeerSession) (xs : Session) : Prop :=
  storable s xs ∧ ulid_Entropy id = ulid_Entropy (s_LocalUUID xs) ∧
  ∃ f, sm_files sm !! sessionhash (sm_me sm) id = Some f ∧ Z.land (f_mode f) 54 = 0 ∧
    Peer_MarshalBinary s = Ok (f_data f).

Lemma has_session_Get sm id s xs :
  has_session sm id s xs → Get id sm = Ok (restored_session (sm_key sm) s xs).
Proof.
  intros (Hst & _ & f & Hf & Hmode & Hm). destruct (Peer_roundtrip s xs ps_zero Hst) as (b & Hb & Hr).
  rewrite Hm in Hb. injection Hb as <-. unfold Get. rewrite Hf, Hmode. simpl. rewrite Hr. simpl.
  unfold restored_session, Active, set_peer_key; simpl. by destruct (s_doubleRatchet xs).
Qed.

(** The identifier matters up to its time only. *)
Lemma has_session_id sm id id' s xs :
  has_session sm id s xs → ulid_Entropy id' = ulid_Entropy (s_LocalUUID xs) → has_session sm id' s xs.
Proof.
  intros (Hst & Hid & Hf) Hid'. split_and!; [done|done|].
  rewrite (sessionhash_entropy _ id' id); [done|]. by rewrite Hid', Hid.
Qed.

(** Writing a session leaves the rest of the manager alone. *)
Definition put_state (sm : Manager) (id b : bytes) : Manager :=
  set_files (write_file (sessionhash (sm_me sm) id) b (sm_files sm)) sm.

(** What an operation on one session leaves alone: the index, and all other
    files. *)
Record touches (id : bytes) (sm sm' : Manager) : Prop := {
  to_me : sm_me sm' = sm_me sm;
  to_key : sm_key sm' = sm_key sm;
  to_sessions : sm_sessions sm' = sm_sessions sm;
  to_made : sm_made sm' = sm_made sm;
  to_files : ∀ n, n ≠ sessionhash (sm_me sm) id → sm_files sm' !! n = sm_files sm !! n;
}.

#[global] Instance touches_preorder id : PreOrder (touches id).
Proof.
  split; [by intros sm|]. intros sm1 sm2 sm3 [? ? ? ? Hf] [? ? ? ? Hg]. split; try congruence.
  intros n Hn. rewrite Hg by congruence. by apply Hf.
Qed.

Lemma touches_put sm id b : touches id sm (put_state sm id b).
Proof. split; try done. intros n Hn. unfold put_state, write_file; simpl. by rewrite lookup_insert_ne. Qed.

Lemma touches_pos id sm pos : touches id sm (set_pos pos sm).
Proof. by split. Qed.

(** A session in another file stays. *)
Lemma has_session_touches id id' sm sm' s xs :
  touches id sm sm' → sessionhash (sm_me sm) id' ≠ sessionhash (sm_me sm) id →
  has_session sm id' s xs → has_session sm' id' s xs.
Proof.
  intros [Hme _ _ _ Hf] Hne (Hst & Hid & f & Hl & Hm). split; [done|]. split; [done|].
  exists f. rewrite Hme, Hf by done. done.
Qed.

Lemma Put_has_session sm id s xs :
  storable s xs → ulid_Entropy id = ulid_Entropy (s_LocalUUID xs) → file_private sm id →
  ∃ b, Put s sm = (Ok tt, put_state sm id b) ∧ has_session (put_state sm id b) id s xs.
Proof.
  intros Hst Hid Hpriv. destruct (Put_ok s xs sm Hst) as (b & Hb & Hput). exists b.
  rewrite (sessionhash_entropy _ _ _ (eq_sym Hid)) in Hput. split; [done|]. split_and!; [done|done|].
  eexists. unfold put_state, write_file; simpl. rewrite lookup_insert, decide_True by done.
  split_and!; [done| |done]. simpl. destruct (sm_files sm !! _) as [f|] eqn:Hf; [by apply Hpriv|done].
Qed.

Lemma has_session_private sm id s xs : has_session sm id s xs → file_private sm id.
Proof. intros (_ & _ & f & Hf & Hmode & _) f' Hf'. congruence. Qed.

(** One side of a conversation: the stored session and the party of the
    two-party system that its Double Ratchet is linked to. *)
Record side := Side { sd_s : PeerSession; sd_xs : Session; sd_P : party }.

Definition chatting (cA cB : Client) (idA idB : bytes) (a b : side) : Prop :=
  has_session (c_sm cA) idA (sd_s a) (sd_xs a) ∧ has_session (c_sm cB) idB (sd_s b) (sd_xs b) ∧
  linked (sd_xs a) (sd_xs b) (sd_P a) (sd_P b) ∧
  s_RemoteUUID (sd_xs a) = s_LocalUUID (sd_xs b) ∧ s_RemoteUUID (sd_xs b) = s_LocalUUID (sd_xs a).

Lemma chatting_sym cA cB idA idB a b : chatting cA cB idA idB a b → chatting cB cA idB idA b a.
Proof. intros (HA & HB & Hl & E1 & E2). split_and!; try done. by apply linked_sym. Qed.

(** The session with a changed Double Ratchet can be stored again. *)
Definition advance (s : PeerSession) (xs : Session) (d : DoubleRatchet) : PeerSession * Session :=
  let xs' := mkSession (s_LocalUUID xs) (s_RemoteUUID xs) (s_Me xs) [] (λ peer, bool_decide (peer = ps_PeerKey s))
               (s_spkPub xs) (s_spkPriv xs) (Some d) in
  (mkPeerSession (ps_Name s) (ps_PeerKey s) (ps_Endpoint s) (ps_PendingAck s) (Some xs'), xs').

Lemma advance_storable s xs d :
  storable s xs → keys_nonempty d → storable (advance s xs d).1 (advance s xs d).2.
Proof. intros (_ & Hu & Hk & _) Hd. by split_and!. Qed.

Lemma readMsg_marshal m :
  msg_wf m → is_ratchet (marshalMessage (msg_type m) m) = true ∧
  readMsg (marshalMessage (msg_type m) m) = Ok (copied 16 (ID m), m).
Proof.
  intros Hwf. split.
  - unfold is_ratchet, marshalMessage. rewrite framed_prefix. cbn [andb].
    rewrite !app_assoc. apply framed_suffix.
  - unfold readMsg, Parse. by rewrite unmarshal_marshal.
Qed.

Lemma restored_session_active key s xs d :
  s_doubleRatchet xs = Some d → restored_session key s xs = (advance s xs (restored 0 d)).1.
Proof. intros Hd. unfold restored_session, advance, Active. by rewrite Hd. Qed.

Lemma getByName_known them id c s xs :
  sm_sessions (c_sm c) !! them = Some id → has_session (c_sm c) id s xs →
  getByName them c = (Ok (Ok (restored_session (sm_key (c_sm c)) s xs)), c).
Proof.
  intros Hn Hs. unfold getByName.
  assert (with_sm (ByName them) c = (Ok id, c)) as Hb.
  { unfold with_sm, zoom, ByName. rewrite Hn. by destruct c. }
  st_call Hb. unfold gets. by rewrite (has_session_Get _ _ _ _ Hs).
Qed.

Lemma with_session_run {A} (m : ST sst A) s xs e r s' e' :
  ps_Session s = Some xs → with_session m (s, e) = (r, (s', e')) →
  ∃ xs', m (xs, e) = (r, (xs', e')) ∧ s' = set_inner xs' s.
Proof.
  intros Hs. unfold with_session. rewrite Hs. destruct (m (xs, e)) as [r1 [xs' e1]].
  intros [= <- <- <-]. by exists xs'.
Qed.

Lemma with_session_step {A} (m : ST sst A) s xs e r xs' e' :
  ps_Session s = Some xs → m (xs, e) = (r, (xs', e')) →
  with_session m (s, e) = (r, (set_inner xs' s, e')).
Proof. intros Hs Hm. unfold with_session. by rewrite Hs, Hm. Qed.

Lemma with_peer_Ok {A} (m : ST (PeerSession * entropy) A) s c a s' c' :
  with_peer m s c = (Ok (a, s'), c') →
  ∃ e', m (s, c_ent c) = (Ok a, (s', e')) ∧ c' = set_ent e' c.
Proof.
  unfold with_peer. destruct (m (s, c_ent c)) as [r [s1 e1]]. destruct r; intros; simplify_eq/=. by exists e1.
Qed.

Lemma with_sm_run {A} (m : ST Manager A) c r sm' : m (c_sm c) = (r, sm') → with_sm m c = (r, set_sm sm' c).
Proof. intros Hm. unfold with_sm, zoom. by rewrite Hm. Qed.

Lemma with_peer_run {A} (m : ST (PeerSession * entropy) A) s c a s' e' :
  m (s, c_ent c) = (Ok a, (s', e')) → with_peer m s c = (Ok (a, s'), set_ent e' c).
Proof. intros Hm. unfold with_peer. by rewrite Hm. Qed.

Lemma sendMsg_ok s msg c :
  (∀ b, http_post (ps_Endpoint s) b = None) → sendMsg s msg c = (Ok tt, add_post (ps_Endpoint s, msg) c).
Proof. intros Hp. unfold sendMsg. by rewrite Hp. Qed.

Lemma sendMsg_Ok s msg c c' :
  sendMsg s msg c = (Ok tt, c') → c' = add_post (ps_Endpoint s, msg) c.
Proof. unfold sendMsg. destruct (http_post _ _); [done|]. by intros [= <-]. Qed.

(** What a message leaves alone. *)
Definition same_peer (a a' : side) : Prop :=
  ps_Name (sd_s a') = ps_Name (sd_s a) ∧ ps_Endpoint (sd_s a') = ps_Endpoint (sd_s a) ∧
  ps_PendingAck (sd_s a') = ps_PendingAck (sd_s a) ∧ s_LocalUUID (sd_xs a') = s_LocalUUID (sd_xs a).
Definition same_client (id : bytes) (c c' : Client) : Prop :=
  touches id (c_sm c) (c_sm c') ∧ c_addr c' = c_addr c.

Lemma chat_send ms ms' them text events cA cA' cB idA idB a b :
  chatting cA cB idA idB a b → sm_sessions (c_sm cA) !! them = Some idA →
  SendText ms ms' them text events cA = (Ok tt, cA') →
  ∃ a' m, chatting cA' cB idA idB a' b ∧ m ∈ p_out (sd_P a') ∧
    m_pt m = st_literal (NewSaltyText ms (addr_user (c_addr cA)) (addr_domain (c_addr cA)) text events) ∧
    c_posts cA' = (ps_Endpoint (sd_s a), data_wire (encTime ms' (s_LocalUUID (sd_xs b))) m) :: c_posts cA ∧
    sends (restored_party (sd_P a) (c_ent cA)) m (sd_P a') ∧ c_ent cA' = p_ent (sd_P a') ∧
    same_peer a a' ∧ same_client idA cA cA' ∧ ∃ ev, c_events cA' = ev :: c_events cA ∧
      match ev with OnMessageSent _ _ _ _ _ => True | _ => False end.
Proof.
  intros (HA & HB & Hl & E1 & E2) Hn. destruct a as [s xs P]. cbn [sd_s sd_xs sd_P] in *.
  pose proof Hl as (_ & HdA & _). pose proof HA as (Hst & Hid & _).
  unfold SendText. st_call (getByName_known _ _ _ _ _ Hn HA).
  rewrite (restored_session_active _ s xs _ HdA). unfold lift. st_pure. st_pure. st_pure.
  set (lit := st_literal _). intros Hs.
  apply ST_bind_inv in Hs as ([wire s'] & c1 & Hsend & Hs). apply with_peer_Ok in Hsend as (e' & Hsend & ->).
  eapply with_session_run in Hsend as (xs' & Hsend & ->); [|reflexivity].
  pose proof (linked_restored _ _ _ _ (advance s xs (restored 0 (p_dr P))).2 (c_ent cA) Hl
                ltac:(by rewrite HdA)) as Hl'.
  destruct (linked_send _ _ _ _ ms' lit wire xs' e' Hl' Hsend) as (m & P' & Hl2 & He & Hm & Hpt & Hw & -> & Hsent).
  apply ST_bind_inv in Hs as ([] & c2 & Hpost & Hs). apply sendMsg_Ok in Hpost as ->.
  apply ST_bind_inv in Hs as ([] & c3 & Hput & [= <-]).
  set (sx := advance s xs (p_dr P')).
  assert (storable sx.1 sx.2) as Hst' by (apply advance_storable; [done|by eapply linked_keys]).
  destruct (Put_has_session (c_sm cA) idA sx.1 sx.2 Hst' Hid (has_session_private _ _ _ _ HA)) as (bb & Hput' & Hhas).
  unfold with_sm, zoom in Hput. change (c_sm (add_post _ _)) with (c_sm cA) in Hput.
  change (set_inner _ _) with sx.1 in Hput. rewrite Hput' in Hput. injection Hput as <-.
  exists (Side sx.1 sx.2 P'), m. split; [by split_and!|]. split; [done|]. split; [done|].
  split; [simpl; rewrite Hw; simpl; by rewrite E1|]. split; [exact Hsent|]. split; [exact (eq_sym He)|].
  split; [by split_and!|]. split; [split; [apply touches_put|done]|]. eexists. split; [reflexivity|exact I].
Qed.

Lemma chat_sends ms ms' them text events cA cB idA idB a b :
  chatting cA cB idA idB a b → sm_sessions (c_sm cA) !! them = Some idA → can_send (p_dr (sd_P a)) →
  (∀ w, http_post (ps_Endpoint (sd_s a)) w = None) →
  ∃ cA', SendText ms ms' them text events cA = (Ok tt, cA').
Proof.
  intros (HA & HB & Hl & E1 & E2) Hn (Hck & Hsn & _) Hpost. destruct a as [s xs P]. cbn [sd_s sd_xs sd_P] in *.
  pose proof Hl as (_ & HdA & _). pose proof HA as (Hst & Hid & _).
  unfold SendText. st_call (getByName_known _ _ _ _ _ Hn HA).
  rewrite (restored_session_active _ s xs _ HdA). unfold lift. st_pure. st_pure. st_pure.
  set (lit := st_literal _).
  pose proof (linked_restored _ _ _ _ (advance s xs (restored 0 (p_dr P))).2 (c_ent cA) Hl
                ltac:(by rewrite HdA)) as Hl'.
  destruct (linked_can_send _ _ _ _ ms' lit Hl') as (wire & xs' & Hsend); [by split_and!|].
  destruct (linked_send _ _ _ _ ms' lit wire xs' _ Hl' Hsend) as (m & P' & Hl2 & He & Hm & Hpt & Hw & -> & Hsent).
  set (sx := advance s xs (p_dr P')).
  assert (storable sx.1 sx.2) as Hst' by (apply advance_storable; [done|by eapply linked_keys]).
  destruct (Put_has_session (c_sm cA) idA sx.1 sx.2 Hst' Hid (has_session_private _ _ _ _ HA)) as (bb & Hput & _).
  st_call (with_peer_run _ _ cA _ _ _ (with_session_step _ (advance s xs (restored 0 (p_dr P))).1 _ _ _ _ _ eq_refl Hsend)).
  change (set_inner _ _) with sx.1. st_call (sendMsg_ok sx.1 wire (set_ent (c_ent cA) cA) Hpost).
  st_call (with_sm_run _ (add_post (ps_Endpoint sx.1, wire) (set_ent (c_ent cA) cA)) _ _ Hput). by eexists.
Qed.

(** What the client dispatches for a plaintext. *)
Definition received_events (id name plaintext : bytes) : list event :=
  match ParseSalty plaintext with
  | Ok (SText t) => [OnMessageReceived id name plaintext t]
  | Ok (SEvent e) => [OnEventReceived id name plaintext e]
  | _ => []
  end.

Lemma chat_receive inp cA cB idA idB a b m uuid :
  chatting cA cB idA idB a b → ps_PendingAck (sd_s b) = [] →
  deliverable (restored_party (sd_P b) (c_ent cB)) (sd_P a) m →
  in_Payload inp = data_wire uuid m → length uuid = 16%nat →
  ulid_Entropy uuid = ulid_Entropy (s_LocalUUID (sd_xs b)) → ParseSalty (m_pt m) ≠ Panic →
  ∃ cB' b', handleRatchet inp cB = (Ok tt, cB') ∧ chatting cA cB' idA idB a b' ∧
    c_events cB' = received_events uuid (ps_Name (sd_s b)) (m_pt m) ++ c_events cB ∧
    receives (restored_party (sd_P b) (c_ent cB)) m (sd_P b') ∧ c_ent cB' = p_ent (sd_P b') ∧
    same_peer b b' ∧ same_client idB cB cB'.
Proof.
  intros (HA & HB & Hl & E1 & E2) Hpend Hdel Hpay Hu Hent Hparse. destruct b as [s xs P]. cbn [sd_s sd_xs sd_P] in *.
  pose proof Hl as (_ & _ & HdB). pose proof HB as (Hst & Hid & _).
  pose proof (linked_restored _ _ _ _ (advance s xs (restored 0 (p_dr P))).2 (c_ent cB) (linked_sym _ _ _ _ Hl)
                ltac:(by rewrite HdB)) as Hl'%linked_sym.
  destruct (linked_receiveMsg _ _ _ _ m uuid Hl' Hdel Hu) as (Hwf & P' & Hrcv & Hl2 & Hrecv).
  destruct (readMsg_marshal _ Hwf) as [Hir Hrm]. cbn [msg_type ID dm_uuid] in Hir, Hrm.
  rewrite copied_exact in Hrm by done. fold (data_wire uuid m) in Hir, Hrm. rewrite <-Hpay in Hir, Hrm.
  pose proof (has_session_Get _ _ _ _ (has_session_id _ _ uuid _ _ HB Hent)) as Hget.
  rewrite (restored_session_active _ s xs _ HdB) in Hget.
  rewrite (handleRatchet_plain inp cB uuid _ _ Hir Hrm I Hget).
  set (c0 := set_sm (set_pos (int64 (in_Position inp + 1)) (c_sm cB)) cB).
  set (sx := advance s xs (p_dr P')).
  assert (receiveMsg (Data (DataMessage uuid (m_ct m))) (advance s xs (restored 0 (p_dr P))).1 c0 =
    (Ok (false, false, m_pt m, sx.1), set_ent (p_ent P') c0)) as Hrecv'.
  { unfold receiveMsg, with_peer, Peer_ReceiveMsg. change (c_ent c0) with (c_ent cB).
    rewrite (ST_bind_Ok _ _ _ _ _ (with_session_step _ (advance s xs (restored 0 (p_dr P))).1 _ _ _ _ _ eq_refl Hrecv)).
    reflexivity. }
  assert (storable sx.1 sx.2) as Hst' by (apply advance_storable; [done|by eapply linked_keys, linked_sym]).
  destruct (Put_has_session (c_sm c0) idB sx.1 sx.2 Hst' Hid) as (bb & Hput & Hhas);
    [exact (has_session_private _ _ _ _ HB)|].
  set (c1 := set_sm (put_state (c_sm c0) idB bb) (set_ent (p_ent P') c0)).
  assert (catch (deliverMsg (Data (DataMessage uuid (m_ct m))) (advance s xs (restored 0 (p_dr P))).1) c0 =
    (Ok tt, mkClient (c_sm c1) (c_addr c1) (c_ent c1) (c_posts c1)
              (received_events uuid (ps_Name s) (m_pt m) ++ c_events c1))) as Hcatch.
  { unfold catch, deliverMsg. st_call Hrecv'. simpl ps_PendingAck. rewrite Hpend. st_pure.
    assert (with_sm (Put sx.1) (set_ent (p_ent P') c0) = (Ok tt, c1)) as Hput'.
    { unfold with_sm, zoom. change (c_sm (set_ent _ c0)) with (c_sm c0). by rewrite Hput. }
    st_call Hput'. unfold received_events. cbn [ID dm_uuid]. unfold toULID. rewrite copied_exact by done.
    destruct (ParseSalty (m_pt m)) as [[t|ev|]|er|]; [reflexivity..|congruence]. }
  eexists _, (Side sx.1 sx.2 P'). split; [exact Hcatch|]. split; [by split_and!|].
  split; [done|]. split; [exact Hrcv|]. split; [done|]. split; [by split_and!|split; [|done]].
  etrans; [apply (touches_pos idB (c_sm cB) (int64 (in_Position inp + 1)))|apply touches_put].
Qed.

(** C8. Clients converse. While two clients are chatting, [Send] at the one posts
    the text as a message of the system in which delivery is proved, to the
    endpoint and under the identifier of the peer's session; and
    whatever may be delivered in that system, [handleRatchet] at the other
    turns into the event of a received message with the text that was sent. Both
    go through the files of the sessions, and both leave the clients chatting. *)
Theorem clients_converse (cA cB : Client) (idA idB : bytes) (a b : side) (Hc : chatting cA cB idA idB a b) :
  (∀ them ms ms' text events,
     sm_sessions (c_sm cA) !! them = Some idA → can_send (p_dr (sd_P a)) →
     (∀ w, http_post (ps_Endpoint (sd_s a)) w = None) →
     ∃ cA' a' m, SendText ms ms' them text events cA = (Ok tt, cA') ∧ chatting cA' cB idA idB a' b ∧
       m ∈ p_out (sd_P a') ∧
       m_pt m = st_literal (NewSaltyText ms (addr_user (c_addr cA)) (addr_domain (c_addr cA)) text events) ∧
       c_posts cA' = (ps_Endpoint (sd_s a), data_wire (encTime ms' (s_LocalUUID (sd_xs b))) m) :: c_posts cA) ∧
  (∀ m ms pos, ps_PendingAck (sd_s b) = [] →
     deliverable (restored_party (sd_P b) (c_ent cB)) (sd_P a) m → ParseSalty (m_pt m) ≠ Panic →
     let uuid := encTime ms (s_LocalUUID (sd_xs b)) in
     ∃ cB' b', handleRatchet (mkInput pos (data_wire uuid m)) cB = (Ok tt, cB') ∧
       chatting cA cB' idA idB a b' ∧
       c_events cB' = received_events uuid (ps_Name (sd_s b)) (m_pt m) ++ c_events cB).
Proof.
  split.
  - intros them ms ms' text events Hn Hcan Hpost.
    destruct (chat_sends ms ms' them text events cA cB idA idB a b Hc Hn Hcan Hpost) as [cA' Hs].
    destruct (chat_send _ _ _ _ _ _ _ _ _ _ _ _ Hc Hn Hs) as (a' & m & ? & ? & ? & ? & _). by exists cA', a', m.
  - intros m ms pos Hpend Hdel Hparse uuid. pose proof Hc as (_ & ((_ & Hl & _) & _) & _).
    destruct (chat_receive (mkInput pos (data_wire uuid m)) cA cB idA idB a b m uuid Hc Hpend Hdel eq_refl)
      as (cB' & b' & Hh & Hc' & Hev & _); [apply encTime_length| |done|by exists cB', b'].
    unfold uuid, encTime, ulid_Entropy. rewrite ulid_SetTime_entropy by apply length_copied.
    by rewrite copied_exact.
Qed.
End Conversation.

(** ** The handshake of two clients *)

Section Handshake.
Context `{RatchetCryptoLaws} `{!IdentityCrypto} `{!IdentityCryptoLaws} `{!BoxCrypto} `{!BoxCryptoLaws}.
Context `{!Ulid} `{!UlidLaws} `{!GobWire} `{!GobWireLaws} `{!SaltyLib} `{!SaltyLaws} `{!ClientLib}.

Lemma ByName_ok name sm id sm1 :
  ByName name sm = (Ok id, sm1) →
  sm_me sm1 = sm_me sm ∧ sm_key sm1 = sm_key sm ∧ sm_files sm1 = sm_files sm ∧
  sm_sessions sm1 !! name = Some id.
Proof.
  unfold ByName. destruct (sm_sessions sm !! name) as [u|] eqn:Hn; intros [= <- <-]; simpl.
  - by rewrite Hn.
  - by rewrite lookup_insert, decide_True.
Qed.

Lemma New_ok name sm id sm1 addr :
  ByName name sm = (Ok id, sm1) → LookupAddr name = Ok addr →
  New name sm = (Ok (NewSession id (sm_me sm1) (sm_key sm1) name addr), sm1).
Proof. intros Hn Ha. unfold New, fetchKey. st_call Hn. st_pure. by rewrite Ha. Qed.

Lemma ByName_again name sm id : sm_sessions sm !! name = Some id → ByName name sm = (Ok id, sm).
Proof. intros Hn. unfold ByName. by rewrite Hn. Qed.

(** The session that a client makes for a peer, without and with its prekey. *)
Definition fresh_inner (id me key : bytes) (peer : Addr) : Session :=
  set_VerifyPeer (addr_key peer) (new_xochimilco id me key).

Lemma OfferSealed_ok k priv s e :
  ready s → (64 <= length e)%nat → dh_pair k priv →
  ∃ offer box, offer_of s (take 32 e) offer ∧ om_nick offer = s_Me s ∧ (2 <= length box)%nat ∧
    Unseal box priv k = Ok (Message.Offer offer) ∧
    OfferSealed k (s, e) = (Ok (marshalMessage sessSealed (Sealed box)),
                            (set_spk (om_spKey offer) (take 32 e) s, drop 64 e)).
Proof.
  intros Hr He Hk. destruct (createOffer_ok s e Hr) as (offer & Hoff & Hc); [lia|].
  destruct (seal_box (Message.Offer offer) Byte.x31 k priv (drop 32 e)) as (box & Hs & Hl & Hu);
    [by eapply offer_of_wf|len|done|done|].
  exists offer, box. split_and!; try done.
  - unfold createOffer in Hc.
    apply ST_bind_inv in Hc as (s0 & st0 & E0 & Hc). injection E0 as <- <-.
    apply ST_bind_inv in Hc as ([[p q] sg] & st1 & _ & Hc).
    apply ST_bind_inv in Hc as ([] & st2 & _ & Hc). apply ST_bind_inv in Hc as (ik & st3 & _ & Hc).
    by injection Hc as <- _.
  - unfold OfferSealed. st_call Hc.
    assert (with_rand (Seal (Message.Offer offer) k) (set_spk (om_spKey offer) (take 32 e) s, drop 32 e) =
      (Ok box, (set_spk (om_spKey offer) (take 32 e) s, drop 64 e))) as Hw.
    { apply with_rand_run. unfold Seal. change (str "1") with [Byte.x31]. rewrite Hs. by rewrite drop_drop. }
    by st_call Hw.
Qed.

(** A client that can reach a peer: the address is known and the network posts. *)
Definition can_reach (name : bytes) (addr : Addr) : Prop :=
  LookupAddr name = Ok addr ∧ length (addr_key addr) = 32%nat ∧ ∀ b, http_post (addr_endpoint addr) b = None.

Lemma getByName_unknown them c id sm1 :
  ByName them (c_sm c) = (Ok id, sm1) → sm_files sm1 !! sessionhash (sm_me sm1) id = None →
  getByName them c = (Ok (Err (Wrapf "stat: %w" ErrNotExist)), set_sm sm1 c).
Proof.
  intros Hn Hf. unfold getByName. st_call (with_sm_run _ _ _ _ Hn). unfold gets, Get. simpl. by rewrite Hf.
Qed.

(** The first step: [Chat] with an unknown peer posts a sealed offer. *)
Lemma chat_offer them addr priv id sm1 c :
  ByName them (c_sm c) = (Ok id, sm1) → length id = 16%nat → ed25519_key (sm_key (c_sm c)) →
  can_reach them addr → dh_pair (key_X25519 (addr_key addr)) priv → (64 <= length (c_ent c))%nat →
  sm_files (c_sm c) !! sessionhash (sm_me (c_sm c)) id = None →
  let xs := fresh_inner id (sm_me (c_sm c)) (sm_key (c_sm c)) addr in
  ∃ offer box sm', let xs1 := set_spk (om_spKey offer) (take 32 (c_ent c)) xs in
    offer_of xs (take 32 (c_ent c)) offer ∧ om_nick offer = sm_me (c_sm c) ∧ (2 <= length box)%nat ∧
    Unseal box priv (key_X25519 (addr_key addr)) = Ok (Message.Offer offer) ∧
    let wire := marshalMessage sessSealed (Sealed box) in
    Chat them c = (Ok tt, mkClient sm' (c_addr c) (drop 64 (c_ent c)) ((addr_endpoint addr, wire) :: c_posts c)
                            (OnOfferSent id them wire :: c_events c)) ∧
    has_session sm' id (mkPeerSession them (addr_key addr) (addr_endpoint addr) [] (Some xs1)) xs1 ∧
    sm_me sm' = sm_me (c_sm c) ∧ sm_key sm' = sm_key (c_sm c) ∧ sm_sessions sm' !! them = Some id ∧ touches id sm1 sm'.
Proof.
  intros Hn Hid Hkey (Ha & Hka & Hpost) Hpair He Hf xs. pose proof (ByName_ok _ _ _ _ Hn) as (Eme & Ekey & Efs & Hn1).
  destruct (OfferSealed_ok (key_X25519 (addr_key addr)) priv xs (c_ent c)) as (offer & box & Hoff & Hnick & Hl & Hu & Hos);
    [done..|].
  set (xs1 := set_spk (om_spKey offer) (take 32 (c_ent c)) xs).
  set (s1 := mkPeerSession them (addr_key addr) (addr_endpoint addr) [] (Some xs1)).
  destruct (Put_has_session sm1 id s1 xs1) as (b & Hput & Hhas); [by split_and!|done| |].
  { intros f. rewrite Eme, Efs, Hf. done. }
  exists offer, box, (put_state sm1 id b).
  split; [exact Hoff|]. split; [exact Hnick|]. split; [exact Hl|]. split; [exact Hu|].
  split; [|split; [exact Hhas|split; [done|split; [done|split; [done|apply touches_put]]]]].
  unfold Chat. rewrite <-Eme, <-Efs in Hf. st_call (getByName_unknown _ _ _ _ Hn Hf).
  cbn [is_not_exist]. cbv iota.
  set (c1 := set_sm sm1 c).
  st_call (with_sm_run _ c1 _ _ (New_ok _ _ _ _ _ (ByName_again _ _ _ Hn1) Ha)).
  assert (with_peer Peer_Offer (NewSession id (sm_me sm1) (sm_key sm1) them addr) (set_sm sm1 c1) =
    (Ok (marshalMessage sessSealed (Sealed box), s1), set_ent (drop 64 (c_ent c)) c1)) as Hpo.
  { apply with_peer_run. unfold Peer_Offer. st_pure. rewrite Eme, Ekey.
    exact (with_session_step _ (NewSession id _ _ them addr) xs _ _ _ _ eq_refl Hos). }
  st_call Hpo. st_call (sendMsg_ok s1 (marshalMessage sessSealed (Sealed box)) (set_ent (drop 64 (c_ent c)) c1) Hpost).
  st_call (with_sm_run _ (add_post (addr_endpoint addr, marshalMessage sessSealed (Sealed box))
             (set_ent (drop 64 (c_ent c)) c1)) _ _ Hput).
  unfold lift. st_pure. unfold toULID. simpl. rewrite copied_exact by exact Hid. reflexivity.
Qed.

Lemma ReceiveMsg_offer offer xs e ack xs' e' :
  receiveOffer offer (xs, e) = (Ok (true, ack), (xs', e')) →
  ReceiveMsg (Message.Offer offer) (xs, e) = (Ok (true, false, ack), (xs', e')).
Proof. intros Hr. cbn [ReceiveMsg]. by st_call Hr. Qed.

Lemma ReceiveMsg_ack ack xs e xs' e' :
  receiveAck ack (xs, e) = (Ok true, (xs', e')) →
  ReceiveMsg (Ack ack) (xs, e) = (Ok (true, false, []), (xs', e')).
Proof. intros Hr. cbn [ReceiveMsg]. by st_call Hr. Qed.

(** The second step: the offer makes a session with a pending acknowledgement. *)
Lemma chat_offered inp nick addr id sm1 c offer box ack xs' e' :
  ByName nick (c_sm c) = (Ok id, sm1) → length id = 16%nat → can_reach nick addr → file_private (c_sm c) id →
  in_Payload inp = marshalMessage sessSealed (Sealed box) → (2 <= length box)%nat →
  Unseal box (key_X25519_pair (sm_key (c_sm c))).2 (key_X25519_pair (sm_key (c_sm c))).1 = Ok (Message.Offer offer) →
  om_nick offer = nick → length (om_uuid offer) = 16%nat →
  receiveOffer offer (fresh_inner id (sm_me (c_sm c)) (sm_key (c_sm c)) addr, c_ent c) =
    (Ok (true, ack), (xs', e')) →
  (0 < length ack)%nat → s_LocalUUID xs' = id →
  match s_doubleRatchet xs' with Some d => keys_nonempty d | None => True end →
  let s' := mkPeerSession nick (addr_key addr) (addr_endpoint addr) ack (Some xs') in
  ∃ sm', handleRatchet inp c =
      (Ok tt, mkClient sm' (c_addr c) e' (c_posts c)
                (OnSessionStarted (om_uuid offer) nick :: OnOfferReceived (om_uuid offer) nick ack :: c_events c)) ∧
    has_session sm' id s' xs' ∧
    sm_me sm' = sm_me (c_sm c) ∧ sm_key sm' = sm_key (c_sm c) ∧ sm_sessions sm' !! nick = Some id ∧ touches id sm1 sm'.
Proof.
  intros Hn Hid (Ha & Hka & _) Hpriv Hpay Hbox Hu Hnick Huu Hrecv Hack Hlid Hkeys s'.
  set (sm0 := set_pos (int64 (in_Position inp + 1)) (c_sm c)). set (c0 := set_sm sm0 c).
  assert (∃ sm2, ByName nick sm0 = (Ok id, sm2) ∧ touches id sm1 sm2) as (sm2 & Hn0 & Ht).
  { unfold ByName in *. simpl. destruct (sm_sessions (c_sm c) !! nick); injection Hn as <- <-; by eexists. }
  pose proof (ByName_ok _ _ _ _ Hn0) as (Eme & Ekey & Efs & Hn2).
  destruct (readMsg_marshal (Sealed box) Hbox) as [Hir Hrm]. cbn [msg_type] in Hir, Hrm. rewrite <-Hpay in Hir, Hrm.
  destruct (Put_has_session sm2 id s' xs') as (b & Hput & Hhas);
    [by split_and!; [|rewrite Hlid| |]|by rewrite Hlid|by intros f; rewrite Eme, Efs; apply Hpriv|].
  exists (put_state sm2 id b).
  split; [|split; [exact Hhas|split; [done|split; [done|split; [done|]]]; etrans; [exact Ht|apply touches_put]]].
  unfold handleRatchet. rewrite Hir, Hrm. cbn [negb]. unfold catch.
  st_call (with_sm_run (SetPosition (int64 (in_Position inp + 1))) c _ sm0 eq_refl). fold c0.
  assert (unsealMsg (Sealed box) c0 = (Ok (Message.Offer offer), c0)) as Hun.
  { unfold unsealMsg. change (sm_key (c_sm c0)) with (sm_key (c_sm c)).
    destruct (key_X25519_pair _) as [pub priv]. cbn [fst snd] in Hu. by rewrite Hu. }
  st_call Hun.
  assert (findSession (copied 16 (ID (Sealed box))) (Message.Offer offer) c0 =
    (Ok (Some (NewSession id (sm_me sm2) (sm_key sm2) nick addr)), set_sm sm2 c0)) as Hfs.
  { unfold findSession. cbn [msg_nick]. rewrite Hnick.
    by rewrite (with_sm_run _ c0 _ _ (New_ok _ _ _ _ _ Hn0 Ha)). }
  st_call Hfs. unfold deliverMsg.
  assert (receiveMsg (Message.Offer offer) (NewSession id (sm_me sm2) (sm_key sm2) nick addr) (set_sm sm2 c0) =
    (Ok (true, false, [], s'), set_ent e' (set_sm sm2 c0))) as Hrm'.
  { unfold receiveMsg. rewrite Eme, Ekey.
    rewrite (with_peer_run _ _ _ (true, false, []) s' e'); [done|].
    change (c_ent (set_sm sm2 c0)) with (c_ent c). unfold Peer_ReceiveMsg.
    st_call (with_session_step (ReceiveMsg (Message.Offer offer)) (NewSession id (sm_me sm0) (sm_key sm0) nick addr)
      _ (c_ent c) _ _ _ eq_refl (ReceiveMsg_offer _ _ _ _ _ _ Hrecv)). done. }
  st_call Hrm'. destruct (Nat.ltb_spec 0 (length (ps_PendingAck s'))) as [_|]; [|simpl in *; lia].
  st_pure. st_call (with_sm_run _ (add_event (OnOfferReceived (toULID (om_uuid offer)) nick ack)
    (set_ent e' (set_sm sm2 c0))) _ _ Hput).
  unfold toULID. cbn [ID]. rewrite copied_exact by exact Huu. reflexivity.
Qed.

(** The third step: [Chat] with the peer of a pending acknowledgement posts it. *)
Lemma chat_ack them id c s xs d :
  sm_sessions (c_sm c) !! them = Some id → has_session (c_sm c) id s xs →
  s_doubleRatchet xs = Some d → keys_nonempty (restored 0 d) →
  (0 < length (ps_PendingAck s))%nat → (∀ b, http_post (ps_Endpoint s) b = None) →
  let sx := advance (set_PendingAck [] s) xs (restored 0 d) in
  ∃ sm', Chat them c =
      (Ok tt, mkClient sm' (c_addr c) (c_ent c) ((ps_Endpoint s, ps_PendingAck s) :: c_posts c)
                (OnSessionStarted (s_LocalUUID xs) them :: c_events c)) ∧
    has_session sm' id sx.1 sx.2 ∧ touches id (c_sm c) sm'.
Proof.
  intros Hn Hhas Hd Hkeys Hack Hpost sx. pose proof Hhas as (Hst & Hid & _). pose proof Hst as (_ & Hlu & _).
  destruct (Put_has_session (c_sm c) id sx.1 sx.2) as (b & Hput & Hhas');
    [by apply advance_storable|done|by eapply has_session_private|].
  exists (put_state (c_sm c) id b). split; [|split; [exact Hhas'|apply touches_put]].
  unfold Chat. st_call (getByName_known _ _ _ _ _ Hn Hhas). rewrite (restored_session_active _ s xs _ Hd).
  set (s1 := (advance s xs (restored 0 d)).1).
  destruct (Nat.ltb_spec 0 (length (ps_PendingAck s1))) as [_|]; [|simpl in *; lia].
  st_call (sendMsg_ok s1 (ps_PendingAck s1) c Hpost).
  change (set_PendingAck [] s1) with sx.1.
  st_call (with_sm_run _ (add_post (ps_Endpoint s1, ps_PendingAck s1) c) _ _ Hput).
  unfold lift. st_pure. unfold toULID. cbn [advance fst snd]. rewrite copied_exact by exact Hlu. reflexivity.
Qed.

(** The last step: the acknowledgement reaches the session that made the offer. *)
Lemma chat_acked inp c id s xs ack xs' e' :
  has_session (c_sm c) id s xs → s_doubleRatchet xs = None → s_LocalUUID xs = id →
  in_Payload inp = marshalMessage sessAck (Ack ack) → msg_wf (Ack ack) → am_uuid ack = id →
  receiveAck ack (mkSession id (s_RemoteUUID xs) (s_Me xs) (sm_key (c_sm c)) (λ peer, bool_decide (peer = ps_PeerKey s))
                    (s_spkPub xs) (s_spkPriv xs) None, c_ent c) = (Ok true, (xs', e')) →
  s_LocalUUID xs' = id → match s_doubleRatchet xs' with Some d => keys_nonempty d | None => True end →
  let s' := mkPeerSession (ps_Name s) (ps_PeerKey s) (ps_Endpoint s) [] (Some xs') in
  ∃ sm', handleRatchet inp c =
      (Ok tt, mkClient sm' (c_addr c) e' (c_posts c) (OnSessionStarted id (ps_Name s) :: c_events c)) ∧
    has_session sm' id s' xs' ∧ touches id (c_sm c) sm'.
Proof.
  intros Hhas Hd Hlid Hpay Hwf Huu Hrecv Hlid' Hkeys s'. pose proof Hhas as ((Hs & Hlu & Hpk & _) & _ & _).
  rewrite Hlid in Hlu.
  set (sm0 := set_pos (int64 (in_Position inp + 1)) (c_sm c)). set (c0 := set_sm sm0 c).
  destruct (readMsg_marshal _ Hwf) as [Hir Hrm]. cbn [msg_type ID] in Hir, Hrm.
  rewrite Huu, copied_exact in Hrm by done. rewrite <-Hpay in Hir, Hrm.
  rewrite (handleRatchet_plain inp c id _ _ Hir Hrm I (has_session_Get _ _ _ _ Hhas)). fold sm0 c0.
  destruct (Put_has_session sm0 id s' xs') as (b & Hput & Hhas');
    [by split_and!; [|rewrite Hlid'| |]|by rewrite Hlid'|exact (has_session_private _ _ _ _ Hhas)|].
  exists (put_state sm0 id b). split; [|split; [exact Hhas'|etrans; [apply (touches_pos id (c_sm c) (int64 (in_Position inp + 1)))|apply touches_put]]].
  unfold catch, deliverMsg.
  assert (receiveMsg (Ack ack) (restored_session (sm_key (c_sm c)) s xs) c0 =
    (Ok (true, false, [], s'), set_ent e' c0)) as Hrm'.
  { unfold receiveMsg. rewrite (with_peer_run _ _ _ (true, false, []) s' e'); [done|].
    change (c_ent c0) with (c_ent c). unfold Peer_ReceiveMsg.
    assert (ps_Session (restored_session (sm_key (c_sm c)) s xs) =
      Some (mkSession id (s_RemoteUUID xs) (s_Me xs) (sm_key (c_sm c)) (λ peer, bool_decide (peer = ps_PeerKey s))
              (s_spkPub xs) (s_spkPriv xs) None)) as Hps.
    { unfold restored_session, Active. simpl. by rewrite Hd, Hlid. }
    st_call (with_session_step (ReceiveMsg (Ack ack)) _ _ (c_ent c) _ _ _ Hps (ReceiveMsg_ack _ _ _ _ _ Hrecv)).
    done. }
  st_call Hrm'. cbn [ps_PendingAck s']. st_pure. st_call (with_sm_run _ (set_ent e' c0) _ _ Hput).
  unfold toULID. cbn [ID]. rewrite Huu, copied_exact by exact Hlu. reflexivity.
Qed.

Lemma marshal_pending m : (0 < length (marshalMessage (msg_type m) m))%nat.
Proof. unfold marshalMessage. rewrite length_app. simpl. lia. Qed.

(** Two clients that can meet: proper keys, an address book and a network that
    work, no session in the way and enough random bytes. [idA] and [idB] are the
    identifiers that they will give to the peer. *)
Record can_meet (cA cB : Client) (nameA nameB idA idB : bytes) (addrA addrB : Addr) (smA smB : Manager) : Prop := {
  cm_keyA : ed25519_key (sm_key (c_sm cA));
  cm_keyB : ed25519_key (sm_key (c_sm cB));
  cm_me : sm_me (c_sm cA) = nameA;
  cm_reachA : can_reach nameA addrA;
  cm_reachB : can_reach nameB addrB;
  cm_addrA : addr_key addrA = drop 32 (sm_key (c_sm cA));
  cm_addrB : addr_key addrB = drop 32 (sm_key (c_sm cB));
  cm_idA : ByName nameB (c_sm cA) = (Ok idA, smA);
  cm_idB : ByName nameA (c_sm cB) = (Ok idB, smB);
  cm_lenA : length idA = 16%nat;
  cm_lenB : length idB = 16%nat;
  cm_newA : sm_files (c_sm cA) !! sessionhash (sm_me (c_sm cA)) idA = None;
  cm_newB : file_private (c_sm cB) idB;
  cm_entA : (96 <= length (c_ent cA))%nat;
  cm_entB : (71 <= length (c_ent cB))%nat;
  cm_fresh : x25519 (take 32 (drop 64 (c_ent cA))) basepoint ≠ x25519 (take 32 (c_ent cA)) basepoint;
}.

Lemma clients_meet cA cB nameA nameB idA idB addrA addrB smA smB pos pos' :
  can_meet cA cB nameA nameB idA idB addrA addrB smA smB →
  ∃ offer ack cA1 cA2 cB1 cB2 a b,
    Chat nameB cA = (Ok tt, cA1) ∧ c_posts cA1 = (addr_endpoint addrB, offer) :: c_posts cA ∧
    handleRatchet (mkInput pos offer) cB = (Ok tt, cB1) ∧
    Chat nameA cB1 = (Ok tt, cB2) ∧ c_posts cB2 = (addr_endpoint addrA, ack) :: c_posts cB ∧
    handleRatchet (mkInput pos' ack) cA1 = (Ok tt, cA2) ∧
    chatting cA2 cB2 idA idB a b ∧ ps_PendingAck (sd_s a) = [] ∧ ps_PendingAck (sd_s b) = [] ∧
    can_send (p_dr (sd_P a)) ∧ can_send (p_dr (sd_P b)) ∧
    sm_sessions (c_sm cA2) !! nameB = Some idA ∧ sm_sessions (c_sm cB2) !! nameA = Some idB ∧
    c_events cA2 = OnSessionStarted idA nameB :: OnOfferSent idA nameB offer :: c_events cA ∧
    c_events cB2 = OnSessionStarted idB nameA :: OnSessionStarted idA nameA ::
                   OnOfferReceived idA nameA ack :: c_events cB ∧
    ∃ PB, sd_P b = restored_party PB (c_ent cB1) ∧
      after_handshake (sd_P a) PB (tape_key (c_ent cA)) (drop 64 (c_ent cA)) (drop 32 (c_ent cB)) (drop 71 (c_ent cB)) ∧
      c_ent cA2 = p_ent (sd_P a) ∧ c_ent cB2 = p_ent PB ∧
      ps_Endpoint (sd_s a) = addr_endpoint addrB ∧ ps_Endpoint (sd_s b) = addr_endpoint addrA ∧
      ps_Name (sd_s a) = nameB ∧ ps_Name (sd_s b) = nameA ∧
      c_addr cA2 = c_addr cA ∧ c_addr cB2 = c_addr cB ∧
      touches idA smA (c_sm cA2) ∧ touches idB smB (c_sm cB2).
Proof.
  intros [HkA HkB Hme HrA HrB HpA HpB HnA HnB HlA HlB HfA HfB HeA HeB Hfresh].
  destruct (key_X25519_ok _ HkB) as [HxB HxP]. rewrite <-HpB in HxB. rewrite <-HxB in HxP.
  destruct (chat_offer nameB addrB _ idA smA cA HnA HlA HkA HrB HxP ltac:(lia) HfA)
    as (offer & box & smA1 & Hoff & Hnick & Hbox & Hun & HchatA & HhasA & HmeA1 & HkeyA1 & HnameA & HtA1).
  set (A := fresh_inner idA (sm_me (c_sm cA)) (sm_key (c_sm cA)) addrB) in *.
  set (B := fresh_inner idB (sm_me (c_sm cB)) (sm_key (c_sm cB)) addrA).
  destruct (handshake_ok A B offer (take 32 (c_ent cA)) (drop 64 (c_ent cA)) (c_ent cB))
    as (ack & PA & PB & Hwa & Hau & Hreach & HcA & HcB & Hah & Hro & Hra);
    [done|done|done|by apply bool_decide_eq_true|by apply bool_decide_eq_true|done|len|done|done|].
  set (B1 := set_IdentityKey [] _) in Hro.
  assert (linked (set_IdentityKey [] (set_RemoteUUID (s_LocalUUID B)
            (set_doubleRatchet (Some (p_dr PA)) (set_spk [] [] A)))) B1 PA PB) as Hlink by (by split_and!; [right|..]).
  destruct (chat_offered (mkInput pos (marshalMessage sessSealed (Sealed box))) nameA addrA idB smB cB offer box
    (marshalMessage sessAck (Ack ack)) B1 (p_ent PB) HnB HlB HrA HfB eq_refl Hbox) as (smB1 & HhandB & HhasB & _ & _ & HnameB & HtB1);
    [by rewrite <-HxB|congruence|by destruct Hoff as (_ & -> & _)|done|apply (marshal_pending (Ack ack))|done|
     by eapply linked_keys, linked_sym|].
  set (cB1 := mkClient smB1 _ _ _ _) in HhandB.
  pose proof (linked_restored _ _ _ _ (set_doubleRatchet (Some (restored 0 (p_dr PB))) B1) (c_ent cB1)
                (linked_sym _ _ _ _ Hlink) eq_refl) as Hlink'%linked_sym.
  destruct (chat_ack nameA idB cB1 _ B1 (p_dr PB) HnameB HhasB eq_refl) as (smB2 & HchatB & HhasB2 & HtB2);
    [exact (linked_keys _ _ _ _ (linked_sym _ _ _ _ Hlink))|apply (marshal_pending (Ack ack))|apply HrA|].
  set (cA1 := mkClient smA1 _ _ _ _) in HchatA.
  destruct (chat_acked (mkInput pos' (marshalMessage sessAck (Ack ack))) cA1 idA _ _ ack
    (set_IdentityKey [] (set_RemoteUUID (s_LocalUUID B) (set_doubleRatchet (Some (p_dr PA)) (set_spk [] [] A))))
    (p_ent PA) HhasA eq_refl eq_refl eq_refl Hwa Hau) as (smA2 & HhandA & HhasA2 & HtA2);
    [simpl sm_key; rewrite HkeyA1; exact Hra|done|by eapply linked_keys, Hlink|].
  eexists _, _, cA1, _, cB1, _, (Side _ _ PA), (Side _ _ (restored_party PB (c_ent cB1))).
  split; [exact HchatA|]. split; [done|].
  split; [exact HhandB|]. split; [exact HchatB|]. split; [done|]. split; [exact HhandA|]. split.
  { split; [exact HhasA2|]. split; [exact HhasB2|]. split; [|done]. exact Hlink'. }
  unfold cB1. cbn [sd_s sd_P ps_PendingAck c_sm c_events] in *.
  assert (om_spKey offer = tape_key (c_ent cA)) as Hk.
  { destruct Hoff as (_ & _ & (_ & _ & Hp) & _). rewrite tape_key_priv in Hp by lia. by injection Hp. }
  rewrite (to_sessions _ _ _ HtA2), (to_sessions _ _ _ HtB2). pose proof Hoff as (_ & Hou & _). rewrite Hou. destruct HcB as (? & ? & _).
  do 8 (split; [done|]). exists PB. rewrite <-Hk.
  do 10 (split; [done|]). split; [exact (transitivity HtA1 HtA2)|exact (transitivity HtB1 HtB2)].
Qed.

(** C4. The handshake of two clients. [Chat] at the one side posts a sealed offer
    to the peer's endpoint; [handleRatchet] at the other side opens it and keeps
    an acknowledgement pending; [Chat] there posts it; [handleRatchet] at the
    first side accepts it. All four succeed, given working random sources,
    network and address book and no session in the way. At the end each client
    has the session for the other on file under its name with no
    acknowledgement pending, the two can be written to and read as [chatting]
    clients, both may send, and the events are those of one handshake. *)
Theorem clients_handshake (cA cB : Client) (nameA nameB idA idB : bytes) (addrA addrB : Addr) (smA smB : Manager)
  (pos pos' : Z)
  (HkA : ed25519_key (sm_key (c_sm cA))) (HkB : ed25519_key (sm_key (c_sm cB)))
  (Hme : sm_me (c_sm cA) = nameA) (HrA : can_reach nameA addrA) (HrB : can_reach nameB addrB)
  (HpA : addr_key addrA = drop 32 (sm_key (c_sm cA))) (HpB : addr_key addrB = drop 32 (sm_key (c_sm cB)))
  (HnA : ByName nameB (c_sm cA) = (Ok idA, smA)) (HnB : ByName nameA (c_sm cB) = (Ok idB, smB))
  (HlA : length idA = 16%nat) (HlB : length idB = 16%nat)
  (HfA : sm_files (c_sm cA) !! sessionhash (sm_me (c_sm cA)) idA = None) (HfB : file_private (c_sm cB) idB)
  (HeA : (96 <= length (c_ent cA))%nat) (HeB : (71 <= length (c_ent cB))%nat)
  (Hfresh : x25519 (take 32 (drop 64 (c_ent cA))) basepoint ≠ x25519 (take 32 (c_ent cA)) basepoint) :
  ∃ offer ack cA1 cA2 cB1 cB2 a b,
    Chat nameB cA = (Ok tt, cA1) ∧ c_posts cA1 = (addr_endpoint addrB, offer) :: c_posts cA ∧
    handleRatchet (mkInput pos offer) cB = (Ok tt, cB1) ∧
    Chat nameA cB1 = (Ok tt, cB2) ∧ c_posts cB2 = (addr_endpoint addrA, ack) :: c_posts cB ∧
    handleRatchet (mkInput pos' ack) cA1 = (Ok tt, cA2) ∧
    chatting cA2 cB2 idA idB a b ∧ ps_PendingAck (sd_s a) = [] ∧ ps_PendingAck (sd_s b) = [] ∧
    can_send (p_dr (sd_P a)) ∧ can_send (p_dr (sd_P b)) ∧
    sm_sessions (c_sm cA2) !! nameB = Some idA ∧ sm_sessions (c_sm cB2) !! nameA = Some idB ∧
    c_events cA2 = OnSessionStarted idA nameB :: OnOfferSent idA nameB offer :: c_events cA ∧
    c_events cB2 = OnSessionStarted idB nameA :: OnSessionStarted idA nameA ::
                   OnOfferReceived idA nameA ack :: c_events cB.
Proof.
  destruct (clients_meet cA cB nameA nameB idA idB addrA addrB smA smB pos pos')
    as (offer & ack & cA1 & cA2 & cB1 & cB2 & a & b & E1 & E2 & E3 & E4 & E5 & E6 & E7 & E8 & E9 & E10 & E11 & E12 & E13
        & E14 & E15 & _); [by split|].
  exists offer, ack, cA1, cA2, cB1, cB2, a, b. by repeat (split; [assumption|]).
Qed.
End Handshake.

(** ** The end of a chat *)

Section Closing.
Context `{RatchetCryptoLaws} `{!IdentityCrypto} `{!BoxCrypto} `{!Ulid} `{!UlidLaws}.
Context `{!GobWire} `{!GobWireLaws} `{!SaltyLib} `{!SaltyLaws} `{!ClientLib}.

(** No session is on file or in the index. *)
Definition forgotten (sm : Manager) (name id : bytes) : Prop :=
  (∃ er, Get id sm = Err er ∧ is_not_exist er = true) ∧ sm_sessions sm !! name = None.

Lemma Delete_ok sm id s xs :
  ps_Session s = Some xs → length (s_LocalUUID xs) = 16%nat → ulid_Entropy id = ulid_Entropy (s_LocalUUID xs) →
  is_Some (sm_files sm !! sessionhash (sm_me sm) id) →
  ∃ sm', Delete s sm = (Ok tt, sm') ∧ forgotten sm' (ps_Name s) id ∧
    sm' = set_files (delete (sessionhash (sm_me sm) id) (sm_files sm))
            (set_sessions (delete (ps_Name s) (sm_sessions sm)) sm).
Proof.
  intros Hs Hl Hid [f Hf]. unfold Delete. rewrite Hs, copied_exact by done.
  rewrite (sessionhash_entropy _ _ _ (eq_sym Hid)), Hf. eexists. split; [done|]. split; [|done]. split.
  - unfold Get; simpl. rewrite lookup_delete, decide_True by done. by eexists.
  - simpl. by rewrite lookup_delete, decide_True.
Qed.

Lemma restored_storable key s xs :
  storable s xs → ∃ xs0, storable (restored_session key s xs) xs0 ∧
    s_LocalUUID xs0 = s_LocalUUID xs ∧ s_RemoteUUID xs0 = s_RemoteUUID xs ∧
    set_inner xs0 (restored_session key s xs) = restored_session key s xs.
Proof.
  intros (_ & Hl & Hk & Hd). eexists. split; [split; [reflexivity|]|by split_and!].
  split_and!; [done|done|]. simpl. by destruct (s_doubleRatchet xs).
Qed.

Lemma touches_delete sm name id :
  touches id (set_sessions (delete name (sm_sessions sm)) sm)
    (set_files (delete (sessionhash (sm_me sm) id) (sm_files sm)) (set_sessions (delete name (sm_sessions sm)) sm)).
Proof. split; try done. intros n Hn. simpl. by apply lookup_delete_ne, not_eq_sym. Qed.

(** Closing at one side: the message goes out, the session is gone. *)
Lemma chat_close them id c s xs :
  sm_sessions (c_sm c) !! them = Some id → has_session (c_sm c) id s xs →
  (∀ w, http_post (ps_Endpoint s) w = None) →
  let wire := marshalMessage sessClose (Message.Close (CloseMessage (s_RemoteUUID xs) [Byte.xff])) in
  ∃ sm', CloseChat them c =
      (Ok tt, mkClient sm' (c_addr c) (c_ent c) ((ps_Endpoint s, wire) :: c_posts c)
                (OnSessionClosed (s_LocalUUID xs) them :: OnCloseSent (s_LocalUUID xs) them wire :: c_events c)) ∧
    forgotten sm' (ps_Name s) id ∧ touches id (set_sessions (delete (ps_Name s) (sm_sessions (c_sm c))) (c_sm c)) sm'.
Proof.
  intros Hn Hhas Hpost wire. pose proof Hhas as (Hst & Hid & f & Hf & _). pose proof Hst as (_ & Hl & _).
  destruct (restored_storable (sm_key (c_sm c)) s xs Hst) as (xs0 & (Hs0 & _) & El & Er & _).
  set (s0 := restored_session (sm_key (c_sm c)) s xs) in *.
  set (xs1 := set_doubleRatchet None (set_spk [] [] xs0)).
  assert (Close (xs0, c_ent c) = (Ok wire, (xs1, c_ent c))) as Hclose.
  { unfold Close. st_pure. st_pure. st_pure. unfold wire. by rewrite <-Er. }
  destruct (Delete_ok (c_sm c) id (set_inner xs1 s0) xs1) as (sm' & Hdel & Hforg & Hsm');
    [done|by rewrite <-El in Hl|by rewrite <-El in Hid|by exists f|].
  exists sm'. split; [|split; [exact Hforg|rewrite Hsm'; apply touches_delete]].
  unfold CloseChat. st_call (getByName_known _ _ _ _ _ Hn Hhas). unfold lift at 1. st_pure. fold s0.
  st_call (with_peer_run _ _ c _ _ _ (with_session_step _ s0 _ _ _ _ _ Hs0 Hclose)).
  st_call (sendMsg_ok (set_inner xs1 s0) wire (set_ent (c_ent c) c) Hpost).
  unfold lift. st_pure. unfold toULID. cbn [set_inner ps_Session]. st_pure. st_pure.
  change (s_LocalUUID xs1) with (s_LocalUUID xs0). rewrite El, copied_exact by exact Hl.
  rewrite (with_sm_run _ _ (Ok tt) sm'); [reflexivity|exact Hdel].
Qed.

(** And at the other side. *)
Lemma chat_closed inp c id s xs :
  has_session (c_sm c) id s xs → ps_PendingAck s = [] →
  in_Payload inp = marshalMessage sessClose (Message.Close (CloseMessage (s_LocalUUID xs) [Byte.xff])) →
  ∃ sm', handleRatchet inp c =
      (Ok tt, mkClient sm' (c_addr c) (c_ent c) (c_posts c)
                (OnSessionClosed (s_LocalUUID xs) (ps_Name s) :: c_events c)) ∧
    forgotten sm' (ps_Name s) id ∧ touches id (set_sessions (delete (ps_Name s) (sm_sessions (c_sm c))) (c_sm c)) sm' ∧
    ∀ n, sm_files (c_sm c) !! n = None → sm_files sm' !! n = None.
Proof.
  intros Hhas Hpend Hpay. pose proof Hhas as (Hst & Hid & _). pose proof Hst as (_ & Hl & _).
  set (m := Message.Close (CloseMessage (s_LocalUUID xs) [Byte.xff])) in *.
  assert (msg_wf m) as Hwf by done. destruct (readMsg_marshal _ Hwf) as [Hir Hrm].
  cbn [msg_type ID m cm_uuid] in Hir, Hrm. fold m in Hir, Hrm. rewrite copied_exact in Hrm by done.
  rewrite <-Hpay in Hir, Hrm.
  pose proof (has_session_Get _ _ _ _ (has_session_id _ _ (s_LocalUUID xs) _ _ Hhas eq_refl)) as Hget.
  rewrite (handleRatchet_plain inp c _ m _ Hir Hrm I Hget).
  set (c0 := set_sm (set_pos (int64 (in_Position inp + 1)) (c_sm c)) c).
  destruct (restored_storable (sm_key (c_sm c)) s xs Hst) as (xs0 & Hst0 & El & _ & Eset).
  set (s0 := restored_session (sm_key (c_sm c)) s xs) in *. pose proof Hst0 as (Hs0 & Hl0 & _).
  rewrite <-El in Hid.
  destruct (Put_has_session (c_sm c0) id s0 xs0 Hst0 Hid) as (b & Hput & Hhas0);
    [exact (has_session_private _ _ _ _ Hhas)|].
  pose proof Hhas0 as (_ & _ & f & Hf & _).
  destruct (Delete_ok _ id s0 xs0 Hs0 Hl0 Hid (mk_is_Some _ _ Hf)) as (sm' & Hdel & Hforg & Hsm').
  exists sm'. split; [|split; [exact Hforg|]].
  2:{ split.
      { rewrite Hsm'. split; try done. intros n Hn. simpl in *. unfold write_file.
        by rewrite lookup_delete_ne, lookup_insert_ne by (by apply not_eq_sym). }
      rewrite Hsm'. intros n Hnone. simpl. apply lookup_delete_None. right.
      unfold write_file. apply lookup_insert_None. split; [done|]. intros <-.
      destruct Hhas as (_ & _ & f0 & Hf0 & _). simpl in Hnone. congruence. }
  unfold catch, deliverMsg.
  assert (receiveMsg m s0 c0 = (Ok (false, true, [], s0), set_ent (c_ent c) c0)) as Hrecv.
  { unfold receiveMsg. rewrite (with_peer_run _ _ _ (false, true, []) s0 (c_ent c)); [done|].
    change (c_ent c0) with (c_ent c). unfold Peer_ReceiveMsg.
    st_call (with_session_step (ReceiveMsg m) s0 xs0 (c_ent c) _ _ _ Hs0 eq_refl). by rewrite Eset. }
  st_call Hrecv. change (ps_PendingAck s0) with (ps_PendingAck s). rewrite Hpend. st_pure.
  st_call (with_sm_run _ (set_ent (c_ent c) c0) _ _ Hput). st_call (with_sm_run _ (set_sm _ _) _ _ Hdel).
  unfold toULID. cbn [ID m cm_uuid]. rewrite copied_exact by exact Hl. reflexivity.
Qed.

(** C20. The end of a chat. [Close] at one side succeeds and posts a closing
    message; [handleRatchet] at the other side recognises it. At both sides the
    session is gone from the directory and from the index, so that a later
    [Chat] starts a new handshake, and the closing is dispatched. *)
Theorem clients_close (cA cB : Client) (idA idB : bytes) (a b : side) (pos : Z)
  (Hc : chatting cA cB idA idB a b)
  (Hn : sm_sessions (c_sm cA) !! ps_Name (sd_s a) = Some idA)
  (Hpost : ∀ w, http_post (ps_Endpoint (sd_s a)) w = None) (Hpend : ps_PendingAck (sd_s b) = []) :
  ∃ wire cA' cB', CloseChat (ps_Name (sd_s a)) cA = (Ok tt, cA') ∧
    c_posts cA' = (ps_Endpoint (sd_s a), wire) :: c_posts cA ∧
    handleRatchet (mkInput pos wire) cB = (Ok tt, cB') ∧
    forgotten (c_sm cA') (ps_Name (sd_s a)) idA ∧ forgotten (c_sm cB') (ps_Name (sd_s b)) idB ∧
    c_events cA' = OnSessionClosed (s_LocalUUID (sd_xs a)) (ps_Name (sd_s a)) ::
                   OnCloseSent (s_LocalUUID (sd_xs a)) (ps_Name (sd_s a)) wire :: c_events cA ∧
    c_events cB' = OnSessionClosed (s_LocalUUID (sd_xs b)) (ps_Name (sd_s b)) :: c_events cB.
Proof.
  destruct Hc as (HA & HB & _ & Eab & _).
  destruct (chat_close _ idA cA (sd_s a) (sd_xs a) Hn HA Hpost) as (smA & Hclose & HfA & _).
  rewrite Eab in Hclose. set (wire := marshalMessage sessClose _) in Hclose.
  destruct (chat_closed (mkInput pos wire) cB idB (sd_s b) (sd_xs b) HB Hpend eq_refl) as (smB & Hhand & HfB & _).
  eexists wire, _, _. split; [exact Hclose|]. split; [done|]. split; [exact Hhand|]. by split_and!.
Qed.
End Closing.

(** ** Instances *)

Module ToyChat.
#[local] Existing Instances toy_ratchet_crypto toy_ratchet_laws toy_identity_crypto toy_identity_laws
  toy_box_crypto toy_box_laws SRuns.toy_ulid SRuns.toy_ulid_laws ToyWire.toy_wire ToyWire.toy_wire_laws
  ToySalty.toy_salty ToySalty.toy_salty_laws ToyClient.toy_client.
Import ToyClient.

(** Two clients with sessions on file whose Double Ratchets are those of a
    conversation: Alice has sent three messages, Bob got none. *)
Definition inner_of (local remote : byte) (d : DoubleRatchet) : Session :=
  mkSession (replicate 16 local) (replicate 16 remote) (str "me") [] (λ _, false) [] [] (Some d).
Definition peer_of (name : bytes) (xs : Session) : PeerSession :=
  mkPeerSession name (zeros 32) (str "https://" ++ name) [] (Some xs).
Definition talking (me them : bytes) (seed : Z) (xs : Session) : Client :=
  set_sm (Put (peer_of them xs) (set_sessions {[them := s_LocalUUID xs]} (manager_of me))).2 (client_of me seed).

Definition xs_alice : Session := inner_of Byte.xaa Byte.xbb (p_dr Toy.alice3).
Definition xs_bob : Session := inner_of Byte.xbb Byte.xaa (p_dr Toy.bob0).
Definition alice_side : side := Side (peer_of (str "bob") xs_alice) xs_alice Toy.alice3.
Definition bob_side : side := Side (peer_of (str "alice") xs_bob) xs_bob Toy.bob0.
Definition alice_in : Client := talking (str "alice") (str "bob") 5 xs_alice.
Definition bob_in : Client := talking (str "bob") (str "alice") 99 xs_bob.

Lemma talking_has me them seed xs :
  storable (peer_of them xs) xs →
  has_session (c_sm (talking me them seed xs)) (s_LocalUUID xs) (peer_of them xs) xs ∧
  sm_sessions (c_sm (talking me them seed xs)) !! them = Some (s_LocalUUID xs).
Proof.
  intros Hst.
  destruct (Put_has_session (set_sessions {[them := s_LocalUUID xs]} (manager_of me)) (s_LocalUUID xs) _ xs Hst eq_refl)
    as (b & Hput & Hhas); [intros f Hf; discriminate Hf|].
  unfold talking. rewrite Hput. split; [exact Hhas|]. apply (lookup_singleton_Some them them). by split.
Qed.

Lemma alice_storable : storable (peer_of (str "bob") xs_alice) xs_alice.
Proof. split_and!; [reflexivity..|]. apply (linked_keys xs_alice xs_bob Toy.alice3 Toy.bob0).
  split_and!; [left; apply Toy.alice3_reachable|reflexivity|reflexivity]. Qed.

Lemma bob_storable : storable (peer_of (str "alice") xs_bob) xs_bob.
Proof. split_and!; [reflexivity..|]. apply (linked_keys xs_bob xs_alice Toy.bob0 Toy.alice3).
  split_and!; [right; apply Toy.alice3_reachable|reflexivity|reflexivity]. Qed.

Lemma in_conversation :
  chatting alice_in bob_in (s_LocalUUID xs_alice) (s_LocalUUID xs_bob) alice_side bob_side.
Proof.
  unfold chatting, alice_in, bob_in, alice_side, bob_side. cbn [sd_s sd_xs sd_P].
  split; [exact (proj1 (talking_has (str "alice") (str "bob") 5 xs_alice alice_storable))|].
  split; [exact (proj1 (talking_has (str "bob") (str "alice") 99 xs_bob bob_storable))|].
  split; [|by split]. split_and!; [left; apply Toy.alice3_reachable|reflexivity|reflexivity].
Qed.

Lemma stored_third_deliverable :
  deliverable (restored_party (sd_P bob_side) (c_ent bob_in)) (sd_P alice_side) (Toy.sent_at 2 Toy.alice3).
Proof.
  apply deliver_next.
  - apply (list_elem_of_lookup_2 _ 0). vm_compute. reflexivity.
  - vm_compute. reflexivity.
  - vm_compute. done.
  - vm_compute. done.
  - vm_compute. done.
  - split; [vm_compute; lia|]. apply (bool_decide_unpack _). vm_compute. exact I.
Qed.
End ToyChat.

#[local] Existing Instances toy_ratchet_crypto toy_ratchet_laws toy_identity_crypto toy_identity_laws
  toy_box_crypto toy_box_laws SRuns.toy_ulid SRuns.toy_ulid_laws ToyWire.toy_wire ToyWire.toy_wire_laws
  ToySalty.toy_salty ToySalty.toy_salty_laws ToyClient.toy_client.

Lemma clients_handshake_witness :
  ∃ offer ack cA1 cA2 cB1 cB2 a b,
    Chat (str "bob") ToyClient.alice = (Ok tt, cA1) ∧ c_posts cA1 = [(str "https://bob", offer)] ∧
    handleRatchet (mkInput 3 offer) ToyClient.bob = (Ok tt, cB1) ∧
    Chat (str "alice") cB1 = (Ok tt, cB2) ∧ c_posts cB2 = [(str "https://alice", ack)] ∧
    handleRatchet (mkInput 4 ack) cA1 = (Ok tt, cA2) ∧
    chatting cA2 cB2 (zeros 16) (zeros 16) a b ∧ ps_PendingAck (sd_s a) = [] ∧ ps_PendingAck (sd_s b) = [] ∧
    can_send (p_dr (sd_P a)) ∧ can_send (p_dr (sd_P b)) ∧
    sm_sessions (c_sm cA2) !! str "bob" = Some (zeros 16) ∧ sm_sessions (c_sm cB2) !! str "alice" = Some (zeros 16) ∧
    c_events cA2 = [OnSessionStarted (zeros 16) (str "bob"); OnOfferSent (zeros 16) (str "bob") offer] ∧
    c_events cB2 = [OnSessionStarted (zeros 16) (str "alice"); OnSessionStarted (zeros 16) (str "alice");
                    OnOfferReceived (zeros 16) (str "alice") ack].
Proof.
  apply (clients_handshake ToyClient.alice ToyClient.bob (str "alice") (str "bob") (zeros 16) (zeros 16)
    (ToyClient.addr_of (str "alice")) (ToyClient.addr_of (str "bob"))
    (ByName (str "bob") (c_sm ToyClient.alice)).2 (ByName (str "alice") (c_sm ToyClient.bob)).2 3 4).
  - apply toy_identity_key.
  - apply toy_identity_key.
  - reflexivity.
  - by split_and!.
  - by split_and!.
  - reflexivity.
  - reflexivity.
  - vm_compute. reflexivity.
  - vm_compute. reflexivity.
  - reflexivity.
  - reflexivity.
  - reflexivity.
  - intros f Hf. discriminate Hf.
  - vm_compute. lia.
  - vm_compute. lia.
  - vm_compute. discriminate.
Defined.

Lemma clients_converse_witness :
  (∃ cA' a' m, SendText 7 8 (str "bob") (str "four") [] ToyChat.alice_in = (Ok tt, cA') ∧
     chatting cA' ToyChat.bob_in (s_LocalUUID ToyChat.xs_alice) (s_LocalUUID ToyChat.xs_bob) a' ToyChat.bob_side ∧
     m ∈ p_out (sd_P a') ∧ m_pt m = str "four" ∧
     c_posts cA' = [(str "https://bob", data_wire (encTime 8 (s_LocalUUID ToyChat.xs_bob)) m)]) ∧
  (∃ cB' b', handleRatchet (mkInput 0 (data_wire (encTime 9 (s_LocalUUID ToyChat.xs_bob)) (Toy.sent_at 2 Toy.alice3)))
                ToyChat.bob_in = (Ok tt, cB') ∧
     chatting ToyChat.alice_in cB' (s_LocalUUID ToyChat.xs_alice) (s_LocalUUID ToyChat.xs_bob) ToyChat.alice_side b' ∧
     c_events cB' = [OnMessageReceived (encTime 9 (s_LocalUUID ToyChat.xs_bob)) (str "alice") (str "three")
                       (mkSaltyText [] (str "three"))]).
Proof.
  destruct (clients_converse _ _ _ _ _ _ ToyChat.in_conversation) as [Hsend Hrecv]. split.
  - apply (Hsend (str "bob") 7 8 (str "four") []).
    + exact (proj2 (ToyChat.talking_has (str "alice") (str "bob") 5 _ ToyChat.alice_storable)).
    + vm_compute. by split_and!.
    + reflexivity.
  - apply (Hrecv (Toy.sent_at 2 Toy.alice3) 9 0).
    + reflexivity.
    + exact ToyChat.stored_third_deliverable.
    + discriminate.
Defined.

Lemma clients_close_witness :
  ∃ wire cA' cB', CloseChat (str "bob") ToyChat.alice_in = (Ok tt, cA') ∧
    c_posts cA' = [(str "https://bob", wire)] ∧
    handleRatchet (mkInput 9 wire) ToyChat.bob_in = (Ok tt, cB') ∧
    forgotten (c_sm cA') (str "bob") (s_LocalUUID ToyChat.xs_alice) ∧
    forgotten (c_sm cB') (str "alice") (s_LocalUUID ToyChat.xs_bob) ∧
    c_events cA' = [OnSessionClosed (s_LocalUUID ToyChat.xs_alice) (str "bob");
                    OnCloseSent (s_LocalUUID ToyChat.xs_alice) (str "bob") wire] ∧
    c_events cB' = [OnSessionClosed (s_LocalUUID ToyChat.xs_bob) (str "alice")].
Proof.
  apply (clients_close _ _ _ _ _ _ 9 ToyChat.in_conversation).
  - exact (proj2 (ToyChat.talking_has (str "alice") (str "bob") 5 _ ToyChat.alice_storable)).
  - reflexivity.
  - reflexivity.
Defined.
