(* ===== verification/Talk.v ===== *)
(** * Conversations of any length

    Two clients and the network between them: what the one posts, the other gets
    as input. After the handshake every text of any conversation arrives, in
    order; this puts the progress of the Double Ratchets (Liveness.v) through the
    session files and the clients (ClientChat.v). *)

From Stdlib Require Import ZArith Lia.
From stdpp Require Import base list numbers option strings gmap.
From S2P Require Import Prelude Crypto ToyCrypto MsgHeader DhRatchet DoubleRatchet RatchetSync Gob Marshal Liveness Base64 Message X3dh Session DiskSession Client ClientChat.

Local Open Scope Z_scope.

(** The two clients, left and right *)
Abbreviation net := (Client * Client)%type.

(** What was posted last *)
Definition last_post (c : Client) : bytes := if c_posts c is (_, raw) :: _ then raw else [].

(** The messages that a client was told of, latest first, with the peer's name *)
Definition heard (c : Client) : list (bytes * bytes) :=
  omap (λ ev, if ev is OnMessageReceived _ them raw _ then Some (them, raw) else None) (c_events c).

(** One line of a conversation: who speaks, the times of the two identifiers, the
    position at which the other side reads it, and the text *)
Record line := Line { ln_left : bool; ln_ms : Z; ln_ms' : Z; ln_pos : Z; ln_text : bytes }.

Section Talk.
Context `{RatchetCrypto} `{IdentityCrypto} `{BoxCrypto} `{Ulid} `{GobWire} `{SaltyLib} `{ClientLib}.

(** A call at one side *)
Definition at_side {A} (left : bool) (m : ST Client A) : ST net A :=
  if left then zoom fst (λ c n, (c, n.2)) m else zoom snd (λ c n, (n.1, c)) m.

Definition side_of (left : bool) (n : net) : Client := if left then n.1 else n.2.

(** What one side posts reaches the other. *)
Definition carry (from_left : bool) (pos : Z) : ST net unit :=
  raw ← gets (λ n, last_post (side_of from_left n));
  at_side (negb from_left) (handleRatchet (mkInput pos raw)).

(** The handshake, started by the left client *)
Definition meet (nameL nameR : bytes) (pos pos' : Z) : ST net unit :=
  _ ← at_side true (Chat nameR);
  _ ← carry true pos;
  _ ← at_side false (Chat nameL);
  carry false pos'.

Definition say (nameL nameR : bytes) (l : line) : ST net unit :=
  _ ← at_side (ln_left l) (SendText (ln_ms l) (ln_ms' l) (if ln_left l then nameR else nameL) (ln_text l) []);
  carry (ln_left l) (ln_pos l).

Fixpoint talk (nameL nameR : bytes) (script : list line) : ST net unit :=
  match script with
  | [] => mret tt
  | l :: script => _ ← say nameL nameR l; talk nameL nameR script
  end.

(** What a line is read as: the text with its time and author *)
Definition line_literal (n : net) (l : line) : bytes :=
  let a := c_addr (side_of (ln_left l) n) in
  st_literal (NewSaltyText (ln_ms l) (addr_user a) (addr_domain a) (ln_text l) []).

(** The lines of one side, latest first *)
Definition lines_of (from_left : bool) (n : net) (script : list line) : list bytes :=
  rev (line_literal n <$> filter (λ l, ln_left l = from_left) script).
End Talk.

(** ** Every text arrives *)

Section Progress.
Context `{RatchetCryptoLaws} `{!IdentityCrypto} `{!IdentityCryptoLaws} `{!BoxCrypto} `{!BoxCryptoLaws}.
Context `{!Ulid} `{!UlidLaws} `{!GobWire} `{!GobWireLaws} `{!SaltyLib} `{!SaltyLaws} `{!ClientLib}.

(** Two clients that can exchange [n] more messages. *)
Record in_touch (nameA nameB : bytes) (n : nat) (cA cB : Client) (idA idB : bytes) (a b : side) : Prop := {
  it_chatting : chatting cA cB idA idB a b;
  it_in_step : in_step (sd_P a) (sd_P b);
  it_room : room n (p_dr (sd_P a)) ∧ room n (p_dr (sd_P b));
  it_fresh : fresh_tape n (p_used (sd_P a)) (c_ent cA) ∧ fresh_tape n (p_used (sd_P b)) (c_ent cB);
  it_pending : ps_PendingAck (sd_s a) = [] ∧ ps_PendingAck (sd_s b) = [];
  it_names : ps_Name (sd_s a) = nameB ∧ ps_Name (sd_s b) = nameA;
  it_ids : sm_sessions (c_sm cA) !! nameB = Some idA ∧ sm_sessions (c_sm cB) !! nameA = Some idB;
  it_posts : ∀ w, http_post (ps_Endpoint (sd_s a)) w = None ∧ http_post (ps_Endpoint (sd_s b)) w = None;
}.

Lemma in_touch_sym nameA nameB n cA cB idA idB a b :
  in_touch nameA nameB n cA cB idA idB a b → in_touch nameB nameA n cB cA idB idA b a.
Proof.
  intros [Hc Hs [] [] [] [] [] Hp]. split; [by apply chatting_sym|by apply in_step_sym|by split..|].
  intros w. by destruct (Hp w).
Qed.

Lemma in_touch_step nameA nameB n ms ms' pos text cA cB idA idB a b :
  in_touch nameA nameB (S n) cA cB idA idB a b →
  let lit := st_literal (NewSaltyText ms (addr_user (c_addr cA)) (addr_domain (c_addr cA)) text []) in
  (∃ t, ParseSalty lit = Ok (SText t)) →
  ∃ cA' cB' a' b', SendText ms ms' nameB text [] cA = (Ok tt, cA') ∧
    handleRatchet (mkInput pos (last_post cA')) cB = (Ok tt, cB') ∧
    in_touch nameA nameB n cA' cB' idA idB a' b' ∧
    heard cA' = heard cA ∧ heard cB' = (nameA, lit) :: heard cB ∧ same_client idA cA cA' ∧ same_client idB cB cB' ∧
    c_ent cA' = c_ent cA ∧ p_used (sd_P a') ⊆ p_used (sd_P a) ∧
    spends (restored_party (sd_P b) (c_ent cB)) (sd_P b') ∧ c_ent cB' = p_ent (sd_P b').
Proof.
  intros [Hc Hs [HrA HrB] [HfA HfB] [HpA HpB] [HnA HnB] [HiA HiB] Hpost] lit [t Ht].
  assert (in_step (restored_party (sd_P a) (c_ent cA)) (restored_party (sd_P b) (c_ent cB))) as Hs'
    by (apply in_step_restored, in_step_sym, in_step_restored, in_step_sym, Hs).
  pose proof (room_restored _ _ _ Hs HrA) as HrA'. pose proof (room_restored _ _ _ (in_step_sym _ _ Hs) HrB) as HrB'.
  destruct (chat_sends ms ms' nameB text [] cA cB idA idB a b Hc HiA) as [cA' Hsend];
    [by eapply in_step_can_send|intros w; apply Hpost|].
  destruct (chat_send ms ms' nameB text [] cA cA' cB idA idB a b Hc HiA Hsend)
    as (a' & m & Hc1 & _ & Hpt & Hposts & Hsends & HeA & (HaN & HaE & HaP & HaU) & HcA & ev & Hev & Hsort).
  set (uuid := encTime ms' (s_LocalUUID (sd_xs b))) in *.
  destruct (exchange _ (restored_party (sd_P b) (c_ent cB)) m (sd_P a') n n Hs' HrA' HrB') as [Hdel Hafter];
    [exact HfB|exact Hsends|].
  pose proof Hc as (_ & ((_ & Hl & _) & _) & _).
  destruct (chat_receive (mkInput pos (data_wire uuid m)) cA' cB idA idB a' b m uuid Hc1 HpB Hdel eq_refl)
    as (cB' & b' & Hhand & Hc2 & HevB & Hrec & HeB & (HbN & HbE & HbP & HbU) & HcB).
  { apply encTime_length. }
  { unfold uuid, encTime, ulid_Entropy. rewrite ulid_SetTime_entropy by apply length_copied. by rewrite copied_exact. }
  { rewrite Hpt. fold lit. by rewrite Ht. }
  destruct (Hafter _ Hrec) as (Hin & Hra & Hrb & Hfb & Hea & Hua & Hsp).
  exists cA', cB', a', b'. split; [exact Hsend|].
  split; [unfold last_post; rewrite Hposts; exact Hhand|]. split.
  { split; [done|done|done| | | | |].
    - split; [|by rewrite HeB]. rewrite HeA, Hea. eapply fresh_tape_mono; [exact Hua|]. by apply fresh_tape_less.
    - by rewrite HaP, HbP.
    - by rewrite HaN, HbN.
    - by rewrite (to_sessions _ _ _ (proj1 HcA)), (to_sessions _ _ _ (proj1 HcB)).
    - intros w. rewrite HaE, HbE. apply Hpost. }
  split; [unfold heard; rewrite Hev; by destruct ev|]. split.
  2:{ split; [done|]. split; [done|]. split; [by rewrite HeA, Hea|]. by split_and!. }
  unfold heard. rewrite HevB. unfold received_events. rewrite Hpt. fold lit. rewrite Ht. simpl. by rewrite HnB.
Qed.

Lemma at_left {A} (m : ST Client A) l r a l' : m l = (Ok a, l') → at_side true m (l, r) = (Ok a, (l', r)).
Proof. intros Hm. unfold at_side, zoom. cbn [fst snd]. by rewrite Hm. Qed.

Lemma at_right {A} (m : ST Client A) l r a r' : m r = (Ok a, r') → at_side false m (l, r) = (Ok a, (l, r')).
Proof. intros Hm. unfold at_side, zoom. cbn [fst snd]. by rewrite Hm. Qed.

Lemma carry_left pos l r r' :
  handleRatchet (mkInput pos (last_post l)) r = (Ok tt, r') → carry true pos (l, r) = (Ok tt, (l, r')).
Proof. intros Hh. unfold carry. st_pure. exact (at_right _ l r _ _ Hh). Qed.

Lemma carry_right pos l r l' :
  handleRatchet (mkInput pos (last_post r)) l = (Ok tt, l') → carry false pos (l, r) = (Ok tt, (l', r)).
Proof. intros Hh. unfold carry. st_pure. exact (at_left _ l r _ _ Hh). Qed.

Lemma last_post_cons c ep raw ps : c_posts c = (ep, raw) :: ps → last_post c = raw.
Proof. intros Hp. unfold last_post. by rewrite Hp. Qed.

(** Every line's text can be read as a text again. *)
Definition legible (n : net) (script : list line) : Prop :=
  Forall (λ l, ∃ t, ParseSalty (line_literal n l) = Ok (SText t)) script.

Lemma lines_of_cons b n l script :
  lines_of b n (l :: script) = lines_of b n script ++ if bool_decide (ln_left l = b) then [line_literal n l] else [].
Proof.
  unfold lines_of. rewrite filter_cons. case_decide as Hd.
  - rewrite bool_decide_eq_true_2 by done. done.
  - rewrite bool_decide_eq_false_2 by done. by rewrite app_nil_r.
Qed.

Lemma line_literal_addr n n' l :
  c_addr n'.1 = c_addr n.1 → c_addr n'.2 = c_addr n.2 → line_literal n' l = line_literal n l.
Proof. intros E1 E2. unfold line_literal. destruct (ln_left l); simpl; by rewrite ?E1, ?E2. Qed.

Lemma lines_of_addr n n' b script :
  c_addr n'.1 = c_addr n.1 → c_addr n'.2 = c_addr n.2 → lines_of b n' script = lines_of b n script.
Proof.
  intros E1 E2. unfold lines_of. f_equal. apply list_fmap_ext. intros i l _. by apply line_literal_addr.
Qed.

Lemma talk_ok nameA nameB n script cA cB idA idB a b :
  in_touch nameA nameB (length script + n) cA cB idA idB a b → legible (cA, cB) script →
  ∃ cA' cB' a' b', talk nameA nameB script (cA, cB) = (Ok tt, (cA', cB')) ∧
    in_touch nameA nameB n cA' cB' idA idB a' b' ∧ c_addr cA' = c_addr cA ∧ c_addr cB' = c_addr cB ∧
    heard cB' = (pair nameA <$> lines_of true (cA, cB) script) ++ heard cB ∧
    heard cA' = (pair nameB <$> lines_of false (cA, cB) script) ++ heard cA.
Proof.
  revert cA cB a b. induction script as [|l script IH]; intros cA cB a b Hit Hleg; [by exists cA, cB, a, b|].
  apply Forall_cons in Hleg as [Ht Hleg]. cbn [talk]. cbn [length Nat.add] in Hit.
  assert (∃ cA1 cB1 a1 b1, say nameA nameB l (cA, cB) = (Ok tt, (cA1, cB1)) ∧
    in_touch nameA nameB (length script + n) cA1 cB1 idA idB a1 b1 ∧ c_addr cA1 = c_addr cA ∧ c_addr cB1 = c_addr cB ∧
    heard cB1 = (pair nameA <$> if ln_left l then [line_literal (cA, cB) l] else []) ++ heard cB ∧
    heard cA1 = (pair nameB <$> if ln_left l then [] else [line_literal (cA, cB) l]) ++ heard cA)
    as (cA1 & cB1 & a1 & b1 & Hsay & Hit1 & EA & EB & HhB & HhA).
  { unfold say. unfold line_literal in *. destruct (ln_left l); cbn [side_of fst snd] in *.
    - destruct (in_touch_step _ _ _ (ln_ms l) (ln_ms' l) (ln_pos l) (ln_text l) _ _ _ _ _ _ Hit Ht)
        as (cA1 & cB1 & a1 & b1 & Hs & Hh & Hit1 & HhA & HhB & [_ EA] & [_ EB] & _).
      exists cA1, cB1, a1, b1. split; [|by split_and!].
      st_call (at_left _ cA cB _ _ Hs). by apply carry_left.
    - destruct (in_touch_step _ _ _ (ln_ms l) (ln_ms' l) (ln_pos l) (ln_text l) _ _ _ _ _ _ (in_touch_sym _ _ _ _ _ _ _ _ _ Hit) Ht)
        as (cB1 & cA1 & b1 & a1 & Hs & Hh & Hit1%in_touch_sym & HhB & HhA & [_ EB] & [_ EA] & _).
      exists cA1, cB1, a1, b1. split; [|by split_and!].
      st_call (at_right _ cA cB _ _ Hs). by apply carry_right. }
  destruct (IH cA1 cB1 a1 b1 Hit1) as (cA' & cB' & a' & b' & Htalk & Hit' & EA' & EB' & HB & HA).
  { eapply Forall_impl; [exact Hleg|]. intros l' [t' Ht']. exists t'. by rewrite (line_literal_addr (cA, cB)). }
  exists cA', cB', a', b'. split; [by st_call Hsay|]. split; [done|]. do 2 (split; [congruence|]).
  rewrite HB, HA, HhB, HhA, !lines_of_cons, !(lines_of_addr (cA, cB) (cA1, cB1)), !fmap_app, <-!(assoc_L (++)) by done.
  by destruct (ln_left l).
Qed.

(** The handshake leaves the clients in touch. *)
Lemma meet_ok cA cB nameA nameB idA idB addrA addrB smA smB pos pos' n :
  can_meet cA cB nameA nameB idA idB addrA addrB smA smB → Z.of_nat n < 2 ^ 16 →
  fresh_tape (S n) [tape_key (c_ent cA)] (drop 64 (c_ent cA)) →
  fresh_tape n [tape_key (drop 32 (c_ent cB))] (drop 71 (c_ent cB)) →
  ∃ cA' cB' a b, meet nameA nameB pos pos' (cA, cB) = (Ok tt, (cA', cB')) ∧
    in_touch nameA nameB n cA' cB' idA idB a b ∧
    heard cA' = heard cA ∧ heard cB' = heard cB ∧ c_addr cA' = c_addr cA ∧ c_addr cB' = c_addr cB ∧
    touches idA smA (c_sm cA') ∧ touches idB smB (c_sm cB') ∧
    c_ent cA' = drop 96 (c_ent cA) ∧ c_ent cB' = drop 71 (c_ent cB) ∧
    (∀ x, x ∈ p_used (sd_P a) → x = tape_key (c_ent cA) ∨ x = tape_key (drop 64 (c_ent cA))) ∧
    (∀ x, x ∈ p_used (sd_P b) → x = tape_key (drop 32 (c_ent cB))).
Proof.
  intros Hm Hn HtA HtB.
  destruct (clients_meet cA cB nameA nameB idA idB addrA addrB smA smB pos pos' Hm)
    as (offer & ack & cA1 & cA2 & cB1 & cB2 & a & b & HchatA & HpA & HhandB & HchatB & HpB & HhandA & Hch & HpendA
        & HpendB & _ & _ & HiA & HiB & HeA & HeB & PB & HP & Hah & HentA & HentB & HepA & HepB & HnA & HnB & EA & EB
        & HtoA & HtoB).
  pose proof (ha_synced _ _ _ _ _ _ Hah) as Hs. pose proof (or_introl Hs : in_step (sd_P a) PB) as Hin.
  destruct (ha_room _ _ _ _ _ _ Hah n Hn) as [HrA HrB].
  exists cA2, cB2, a, b. split.
  { rewrite <-(last_post_cons _ _ _ _ HpA) in HhandB. rewrite <-(last_post_cons _ _ _ _ HpB) in HhandA.
    unfold meet. st_call (at_left _ cA cB _ _ HchatA). st_call (carry_left pos _ cB _ HhandB).
    st_call (at_right _ cA1 cB1 _ _ HchatB). by apply carry_right. }
  pose proof (ha_tapes _ _ _ _ _ _ Hah) as [HeqA HeqB].
  split.
  2:{ unfold heard. rewrite HeA, HeB, HentA, HentB, HeqA, HeqB, drop_drop, HP.
      do 8 (split; [done|]). split; [apply (ha_usedA _ _ _ _ _ _ Hah)|apply (ha_usedB _ _ _ _ _ _ Hah)]. }
  split; [done|by rewrite HP; apply in_step_sym, in_step_restored, in_step_sym| | |done|done|done|].
  - split; [done|]. rewrite HP. exact (room_restored _ _ _ (in_step_sym _ _ Hin) HrB).
  - split; [rewrite HentA; by apply Hah|]. rewrite HP, HentB. by apply Hah.
  - intros w. rewrite HepA, HepB. split; [apply (cm_reachB _ _ _ _ _ _ _ _ _ _ Hm)|apply (cm_reachA _ _ _ _ _ _ _ _ _ _ Hm)].
Qed.

(** Every conversation of two gets through, whatever else they have on file. Two clients that can meet run the
    handshake and then any script of lines, spoken by either side in any order:
    no call fails, and each side is told of exactly the lines of the other, in
    their order and under the peer's name. It takes fewer than 2^16 lines, a
    random source with fresh keys for each, and texts that the parser reads back;
    between any two calls both Double Ratchets are on file only. *)
Theorem conversation_gets_through (cA cB : Client) (nameA nameB idA idB : bytes) (addrA addrB : Addr)
  (smA smB : Manager) (pos pos' : Z) (script : list line)
  (Hmeet : can_meet cA cB nameA nameB idA idB addrA addrB smA smB)
  (Hlen : Z.of_nat (length script) < 2 ^ 16)
  (HtA : fresh_tape (S (length script)) [tape_key (c_ent cA)] (drop 64 (c_ent cA)))
  (HtB : fresh_tape (length script) [tape_key (drop 32 (c_ent cB))] (drop 71 (c_ent cB)))
  (Hleg : legible (cA, cB) script) :
  ∃ cA' cB', (_ ← meet nameA nameB pos pos'; talk nameA nameB script) (cA, cB) = (Ok tt, (cA', cB')) ∧
    heard cB' = (pair nameA <$> lines_of true (cA, cB) script) ++ heard cB ∧
    heard cA' = (pair nameB <$> lines_of false (cA, cB) script) ++ heard cA.
Proof.
  destruct (meet_ok cA cB nameA nameB idA idB addrA addrB smA smB pos pos' (length script) Hmeet Hlen HtA HtB)
    as (cA1 & cB1 & a & b & Hm & Hit & HhA & HhB & EA & EB & _).
  destruct (talk_ok nameA nameB 0 script cA1 cB1 idA idB a b) as (cA' & cB' & _ & _ & Ht & _ & _ & _ & HB & HA);
    [by rewrite Nat.add_0_r| |].
  { eapply Forall_impl; [exact Hleg|]. intros l [t Hl]. exists t. by rewrite (line_literal_addr (cA, cB)). }
  exists cA', cB'. split; [by st_call Hm|]. rewrite HB, HA, HhA, HhB, !(lines_of_addr (cA, cB) (cA1, cB1)) by done. done.
Qed.
End Progress.
