(* ===== verification/Burst.v ===== *)
(** * Messages that are lost or overtake each other

    Between two clients that are in touch, one sends several texts before any of
    them arrives; some get lost, and the rest arrive in any order. The keys of
    the texts that are overtaken go through the file of the reader's session. *)

From Stdlib Require Import ZArith Lia.
From stdpp Require Import base list numbers option strings gmap.
From S2P Require Import Prelude Crypto ToyCrypto MsgHeader KeyBuff DhRatchet DoubleRatchet RatchetSync Gob Marshal Liveness Base64 Message X3dh Session DiskSession Client ClientChat Talk.

Local Open Scope Z_scope.

(** ** What one side sends *)

(** A text with the times at which its identifiers are made *)
Record draft := Draft { df_ms : Z; df_ms' : Z; df_text : bytes }.

Section Script.
Context `{RatchetCrypto} `{IdentityCrypto} `{BoxCrypto} `{Ulid} `{GobWire} `{SaltyLib} `{ClientLib}.

(** All texts are sent; the result is what was posted. *)
Fixpoint send_all (them : bytes) (texts : list draft) : ST Client (list bytes) :=
  match texts with
  | [] => mret []
  | t :: texts =>
      _ ← SendText (df_ms t) (df_ms' t) them (df_text t) [];
      raw ← gets last_post;
      raws ← send_all them texts;
      mret (raw :: raws)
  end.

(** Some of what was posted is read, in some order: which, and at what position *)
Fixpoint read_all (raws : list bytes) (order : list (nat * Z)) : ST Client unit :=
  match order with
  | [] => mret tt
  | (i, pos) :: order => _ ← handleRatchet (mkInput pos (default [] (raws !! i))); read_all raws order
  end.

Definition scatter (nameR : bytes) (texts : list draft) (order : list (nat * Z)) : ST net unit :=
  raws ← at_side true (send_all nameR texts);
  at_side false (read_all raws order).

Definition draft_literal (c : Client) (t : draft) : bytes :=
  st_literal (NewSaltyText (df_ms t) (addr_user (c_addr c)) (addr_domain (c_addr c)) (df_text t) []).

(** The texts that arrive, latest first *)
Definition arrived (c : Client) (texts : list draft) (order : list (nat * Z)) : list bytes :=
  rev (omap (λ o, draft_literal c <$> texts !! o.1) order).
End Script.

(** ** The keys that are cached *)

Section Cached.
Context `{RatchetCryptoLaws}.

Lemma only_new p : only p newKeyBuffer.
Proof. exists []. split; [apply newKeyBuffer_repr|]. by intros q Hq%not_elem_of_nil. Qed.

(** One chain survives being stored. *)
Lemma only_chain p cs : NoDup (kbe_dhPub <$> cs) → (∀ q, Spec.known q cs → q = p) → option_list (last cs) = cs.
Proof.
  intros Hnd Hq. destruct cs as [|c [|c' cs]]; [done..|]. exfalso.
  assert (kbe_dhPub c = p) as E by (apply Hq; left). assert (kbe_dhPub c' = p) as E' by (apply Hq; right; left).
  rewrite !fmap_cons in Hnd. apply NoDup_cons in Hnd as [Hn _]. apply Hn. rewrite E, <-E'. left.
Qed.

Lemma only_restored p kb : only p kb → only p (restored_buffer kb).
Proof.
  intros (cs & Hr & Hq). exists cs. split; [|done]. rewrite <-(only_chain p cs) by (done || apply Hr).
  by apply restored_buffer_repr.
Qed.

Lemma lost_only d : only (dr_peerDhPub d) (dr_msgKeyBuffer d) → lost_numbers d = [].
Proof.
  intros (cs & Hr & Hq). apply elem_of_nil_inv. intros n [[_ Hlost] Hn]%list_elem_of_filter.
  destruct (cached_find _ _ _ Hn) as [k Hk]. pose proof (restored_buffer_repr _ _ Hr) as Hr'.
  rewrite (only_chain (dr_peerDhPub d) cs) in Hr' by (done || apply Hr).
  rewrite (find_repr _ _ _ _ Hr) in Hk. rewrite (find_repr _ _ _ _ Hr') in Hlost.
  by destruct (Spec.lookup _ _ cs).
Qed.

(** ** A row of messages *)

(** [Q] has sent the messages [ms] in one chain, numbered from [base], and
    [P], whose client has the random bytes [e], has read those whose places are
    in [D]: none yet, while it still has to follow [Q] to that chain, or any. *)
Inductive underway (e : entropy) (Q P : party) (base : Z) (ms : list msg) (D : list nat) : Prop :=
  | underway_next CKn CK old :
      ahead Q P CKn (Some CK) old → base = 0 → D = [] → fresh_tape 1 (p_used P) e →
      dr_prevSendNo (p_dr Q) <= dr_recvNo (p_dr P) → Forall (λ m, m_prev m <= dr_recvNo (p_dr P)) ms →
      underway e Q P base ms D
  | underway_current CKn CK old :
      ahead P Q CKn (Some CK) old → base <= dr_recvNo (p_dr P) →
      Forall (λ n, n < base ∨ ∃ i, i ∈ D ∧ n = base + Z.of_nat i) (p_seen P) →
      underway e Q P base ms D.

Record row (e : entropy) (Q P : party) (base : Z) (ms : list msg) (D : list nat) : Prop := {
  row_underway : underway e Q P base ms D;
  row_only : only (p_pub Q) (dr_msgKeyBuffer (p_dr P));
  row_next : dr_sendNo (p_dr Q) = base + Z.of_nat (length ms);
  row_msgs : ∀ i m, ms !! i = Some m → m ∈ p_out Q ∧ m_pub m = p_pub Q ∧ m_no m = base + Z.of_nat i;
}.

(** Two parties that are in step can begin. *)
Lemma row_begins e Q P n : in_step Q P → fresh_tape (S n) (p_used P) e → row e Q P (dr_sendNo (p_dr Q)) [] [].
Proof.
  intros Hs Hf. assert (fresh_tape 1 (p_used P) e) as Hf1 by (destruct Hf as (? & ? & _); by split_and!).
  destruct Hs as [[(CKn & CK & old & Ha) Hfirst Hprev Hback Hseen [HbS HbR]]|[(CKn & CK & old & Ha) Hfirst Hprev Hback Hseen [HbS HbR]]].
  - split; [|rewrite HbR; apply only_new|simpl; lia|done]. by eapply underway_next.
  - split; [|rewrite HbS; apply only_new|simpl; lia|done]. eapply underway_current; [exact Ha|lia|].
    eapply Forall_impl; [exact Hseen|]. simpl. intros k Hk. left. lia.
Qed.

Lemma ahead_buffer S R CKn back old : ahead S R CKn back old →
  (∃ cs, kb_repr (dr_msgKeyBuffer (p_dr S)) cs) ∧ ∃ cs, kb_repr (dr_msgKeyBuffer (p_dr R)) cs.
Proof. intros Ha. split; eapply conv_buffer; [left|right]; by do 3 eexists. Qed.

Lemma ahead_recvNo S R CKn back old : ahead S R CKn back old → 0 <= dr_recvNo (p_dr R).
Proof.
  intros Ha. pose proof (ah_old _ _ _ _ _ Ha) as Ho. destruct old as [CKo|].
  - destruct Ho as [[(_ & Hr & _) _] _]. lia.
  - destruct Ho as [(_ & Hr & _) _]. lia.
Qed.

(** Both may be stored and restored in between. *)
Lemma row_restored_sender e e' Q P base ms D : row e Q P base ms D → row e (restored_party Q e') P base ms D.
Proof.
  intros [Hu Ho Hn Hm]. split; try done. destruct Hu as [CKn CK old Ha Hb HD Hf Hp Hms|CKn CK old Ha Hb Hs].
  - destruct (ahead_buffer _ _ _ _ _ Ha) as [[cs Hcs] _].
    eapply underway_next; try done; [|exact (ahead_recvNo _ _ _ _ _ Ha)].
    exact (ahead_forget_left _ _ _ _ _ _ _ _ e' Ha (restored_forgets (p_dr Q) cs 0 Hcs ltac:(lia))).
  - destruct (ahead_buffer _ _ _ _ _ Ha) as [_ [cs Hcs]]. eapply underway_current; try done.
    exact (ahead_forget_right _ _ _ _ _ _ _ _ e' Ha (restored_forgets (p_dr Q) cs 0 Hcs ltac:(lia))).
Qed.

Lemma row_restored_reader e e' Q P base ms D : row e Q P base ms D → row e Q (restored_party P e') base ms D.
Proof.
  intros [Hu Ho Hn Hm]. split; try done; [|by apply only_restored].
  destruct Hu as [CKn CK old Ha Hb HD Hf Hp Hms|CKn CK old Ha Hb Hs].
  - destruct (ahead_buffer _ _ _ _ _ Ha) as [_ [cs Hcs]]. eapply underway_next; try done.
    exact (ahead_forget_right _ _ _ _ _ _ _ _ e' Ha (restored_forgets (p_dr P) cs 0 Hcs ltac:(lia))).
  - destruct (ahead_buffer _ _ _ _ _ Ha) as [[cs Hcs] _]. eapply underway_current; try done.
    + exact (ahead_forget_left _ _ _ _ _ _ _ _ e' Ha (restored_forgets (p_dr P) cs 0 Hcs ltac:(lia))).
    + simpl. rewrite lost_only; [exact Hs|]. by rewrite (ah_peer _ _ _ _ _ Ha).
Qed.

(** One more message of the row is sent, *)
Lemma row_sends e Q P base ms D m Q' :
  row e Q P base ms D → sends Q m Q' →
  row e Q' P base (ms ++ [m]) D ∧ dr_sendNo (p_dr Q') = dr_sendNo (p_dr Q) + 1 ∧
  dr_prevSendNo (p_dr Q') = dr_prevSendNo (p_dr Q).
Proof.
  intros [Hu Ho Hn Hm] Hsend.
  assert (∃ CK, p_dr Q' = sent CK (p_dr Q) ∧
    m = RatchetSync.Msg (p_pub Q) (dr_prevSendNo (p_dr Q)) (dr_sendNo (p_dr Q)) (m_pt m) (m_ct m) ∧ p_out Q' = m :: p_out Q ∧
    underway e Q' P base (ms ++ [m]) D) as (CK & Hd & Hmsg & Hout & Hu').
  { destruct Hu as [CKn CK old Ha Hb HD Hf Hp Hms|CKn CK old Ha Hb Hs].
    - destruct (ahead_sends _ _ _ _ _ _ _ Ha Hsend) as (Ha' & Hd & _ & Hmsg & Hout & _).
      exists CKn. do 3 (split; [done|]). eapply underway_next; [exact Ha'|done..|by rewrite Hd|].
      apply Forall_app. split; [done|]. apply Forall_singleton. by rewrite Hmsg.
    - destruct (behind_sends _ _ _ _ _ _ _ Ha Hsend) as (Ha' & Hd & _ & Hmsg & Hout & _).
      exists CK. do 3 (split; [done|]). by eapply underway_current. }
  split; [|by rewrite Hd].
  split; [done|by rewrite Hd|rewrite Hd, length_app; simpl; lia|].
  intros i m' Hi. rewrite Hout, Hd. change (p_pub Q') with (dr_pub (p_dr Q')). apply lookup_app_Some in Hi as [Hi|[Hi Hi']].
  - destruct (Hm i m' Hi) as (? & ? & ?). split; [by right|done].
  - apply list_lookup_singleton_Some in Hi' as [Hi' ->]. split; [left|]. rewrite Hmsg. simpl. split; [done|lia].
Qed.

(** and any that was not read yet can be read. *)
Lemma row_reads Q P base ms D i m :
  row (p_ent P) Q P base ms D → ms !! i = Some m → (i ∉ D) → Z.of_nat (length ms) <= maxSkipElements →
  deliverable P Q m ∧ ∀ P', receives P m P' → ∀ e, row e Q P' base ms (i :: D).
Proof.
  intros [Hu Ho Hn Hm] Hi HiD Hlen. destruct (Hm i m Hi) as (Hin & Hpub & Hno).
  pose proof (lookup_lt_Some _ _ _ Hi) as Hlt.
  destruct Hu as [CKn CK old Ha Hb -> Hf Hp Hms|CKn CK old Ha Hb Hs].
  - eapply Forall_lookup_1 in Hms; [|exact Hi]. simpl in Hms. pose proof (fresh_tape_key _ _ Hf) as Hfresh.
    destruct (Decrypt_next Q P CKn (Some CK) old m) as
      (spare & d' & e' & CKn' & Hdec & Har & Hs0 & Hp0 & Hr0 & He' & Hpk & _ & Honly); [done..|unfold maxSkipElements; lia|lia|done|].
    split. { apply deliver_next; [done|done| |unfold maxSkipElements; lia|lia|done]. rewrite Hpub. apply not_eq_sym, Ha. }
    intros P' [[r Hdec'] HP] e. rewrite Hdec in Hdec'. injection Hdec' as _ Hdd Hee. rewrite Hdd, Hee in *.
    unfold seen_after in HP. rewrite bool_decide_eq_false_2 in HP by (rewrite Hpub; apply not_eq_sym, Ha).
    rewrite HP. split; [|by apply Honly|done|done]. eapply underway_current; [exact Har|simpl; lia|].
    simpl. apply Forall_singleton. right. exists i. split; [left|done].
  - assert (m_pub m = dr_peerDhPub (p_dr P)) as Hpub' by (by rewrite Hpub, (ah_peer _ _ _ _ _ Ha)).
    assert (m_no m ∉ p_seen P) as Hns.
    { intros Hk. eapply Forall_forall in Hs; [|exact Hk]. simpl in Hs. destruct Hs as [Hs|(j & Hj & Hs)]; [lia|].
      apply HiD. by replace i with j by lia. }
    destruct (ahead_recv P Q CKn (Some CK) old m) as
      (spare & d' & e' & Hdec & Har & He' & Hpk & Hs0 & Hp0 & _ & Hup & Honly & _); [done..|lia|].
    split. { apply deliver_current; [done..|lia]. }
    intros P' [[r Hdec'] HP] e. rewrite Hdec in Hdec'. injection Hdec' as _ Hdd Hee. rewrite Hdd, Hee in *.
    unfold seen_after in HP. rewrite bool_decide_eq_true_2 in HP by done.
    rewrite HP. split; [|by apply Honly|done|done]. eapply underway_current; [exact Har|simpl; lia|].
    simpl. apply Forall_cons. split; [right; exists i; split; [left|done]|].
    eapply Forall_impl; [exact Hs|]. simpl. intros k [Hk|(j & Hj & Hk)]; [by left|]. right. exists j. split; [by right|done].
Qed.

Lemma row_can_send e Q P base ms D n : row e Q P base ms D → room (S n) (p_dr Q) → can_send (p_dr Q).
Proof.
  intros [Hu _ _ _] [Hr1 Hr2]. unfold can_send. split; [|lia]. destruct Hu as [CKn CK old Ha _ _ _ _ _|CKn CK old Ha _ _].
  - destruct (ah_send _ _ _ _ _ Ha) as (_ & _ & ->). done.
  - destruct (ah_back _ _ _ _ _ Ha) as (_ & (_ & _ & ->) & _). done.
Qed.
End Cached.

(** ** Two clients *)

Section Clients.
Context `{RatchetCryptoLaws} `{!IdentityCrypto} `{!IdentityCryptoLaws} `{!BoxCrypto} `{!BoxCryptoLaws}.
Context `{!Ulid} `{!UlidLaws} `{!GobWire} `{!GobWireLaws} `{!SaltyLib} `{!SaltyLaws} `{!ClientLib}.

(** The left client has posted the texts [lits] as the messages [ms], and can send
    [n] more; the right one has read those whose places are in [D]. *)
Record scattering (nameA nameB : bytes) (n : nat) (cA cB : Client) (idA idB : bytes) (a b : side)
  (base : Z) (ms : list msg) (raws lits : list bytes) (D : list nat) : Prop := {
  sc_chatting : chatting cA cB idA idB a b;
  sc_row : row (c_ent cB) (sd_P a) (sd_P b) base ms D;
  sc_base : 0 <= base;
  sc_room : room n (p_dr (sd_P a));
  sc_reader : ps_PendingAck (sd_s b) = [] ∧ ps_Name (sd_s b) = nameA;
  sc_sender : sm_sessions (c_sm cA) !! nameB = Some idA ∧ ∀ w, http_post (ps_Endpoint (sd_s a)) w = None;
  sc_raws : Forall2 (λ raw m, ∃ t, raw = data_wire (encTime t (s_LocalUUID (sd_xs b))) m) raws ms;
  sc_lits : m_pt <$> ms = lits;
}.

Lemma scattering_begins nameA nameB n cA cB idA idB a b :
  in_touch nameA nameB (S n) cA cB idA idB a b →
  scattering nameA nameB n cA cB idA idB a b (dr_sendNo (p_dr (sd_P a))) [] [] [] [].
Proof.
  intros [Hc Hs [HrA HrB] [HfA HfB] [HpA HpB] [HnA HnB] [HiA HiB] Hpost].
  split; [done|by eapply row_begins| |by apply room_less|done|split; [done|intros w; apply Hpost]|by constructor|done].
  destruct Hs as [[(CKn & CK & old & Ha) _ _ _ _ _]|[(CKn & CK & old & Ha) _ _ _ _ _]];
    [apply (ah_keysS _ _ _ _ _ Ha)|apply (ah_keysR _ _ _ _ _ Ha)].
Qed.

Lemma scattering_send nameA nameB n t cA cB idA idB a b base ms raws lits D :
  scattering nameA nameB (S n) cA cB idA idB a b base ms raws lits D →
  ∃ cA' a' m, SendText (df_ms t) (df_ms' t) nameB (df_text t) [] cA = (Ok tt, cA') ∧
    scattering nameA nameB n cA' cB idA idB a' b base (ms ++ [m]) (raws ++ [last_post cA']) (lits ++ [draft_literal cA t]) D ∧
    heard cA' = heard cA ∧ c_addr cA' = c_addr cA.
Proof.
  intros [Hc Hrow Hb Hr Hread [HiA Hpost] Hraws Hlits].
  destruct (chat_sends (df_ms t) (df_ms' t) nameB (df_text t) [] cA cB idA idB a b Hc HiA) as [cA' Hsend];
    [by eapply row_can_send|done|].
  destruct (chat_send (df_ms t) (df_ms' t) nameB (df_text t) [] cA cA' cB idA idB a b Hc HiA Hsend)
    as (a' & m & Hc1 & _ & Hpt & Hposts & Hsends & _ & (_ & HaE & _) & [Hto Haddr] & ev & Hev & Hsort).
  pose proof (row_restored_sender _ (c_ent cA) _ _ _ _ _ Hrow) as Hrow1.
  destruct (row_sends _ _ _ _ _ _ _ _ Hrow1 Hsends) as (Hrow2 & Hno & Hprev).
  exists cA', a', m. split; [done|]. split; [|split; [unfold heard; rewrite Hev; by destruct ev|done]].
  split; [done|done|done| |done| | |rewrite fmap_app, Hlits; cbn; by rewrite Hpt].
  - pose proof (row_next _ _ _ _ _ _ Hrow). unfold room in *. rewrite Hno, Hprev. simpl. lia.
  - rewrite HaE. by rewrite (to_sessions _ _ _ Hto).
  - apply Forall2_app; [done|]. constructor; [|constructor]. eexists. unfold last_post. by rewrite Hposts.
Qed.

Lemma send_all_ok nameA nameB n texts cA cB idA idB a b base ms raws lits D :
  scattering nameA nameB (length texts + n) cA cB idA idB a b base ms raws lits D →
  ∃ cA' a' ms' raws', send_all nameB texts cA = (Ok raws', cA') ∧
    scattering nameA nameB n cA' cB idA idB a' b base ms' (raws ++ raws') (lits ++ (draft_literal cA <$> texts)) D ∧
    heard cA' = heard cA.
Proof.
  revert cA a ms raws lits. induction texts as [|t texts IH]; intros cA a ms raws lits Hs.
  - exists cA, a, ms, []. split; [done|]. by rewrite !app_nil_r.
  - destruct (scattering_send _ _ _ t _ _ _ _ _ _ _ _ _ _ _ Hs) as (cA1 & a1 & m & Hsend & Hs1 & Hh1 & Haddr).
    destruct (IH _ _ _ _ _ Hs1) as (cA' & a' & ms' & raws' & Hall & Hs' & Hh').
    assert (draft_literal cA1 <$> texts = draft_literal cA <$> texts) as E
      by (apply list_fmap_ext; intros i x _; unfold draft_literal; by rewrite Haddr).
    rewrite E, <-!(assoc_L (++)) in Hs'. exists cA', a', ms', (last_post cA1 :: raws'). split; [|split; [exact Hs'|congruence]].
    cbn [send_all]. st_call Hsend. st_pure. by st_call Hall.
Qed.

Lemma scattering_read nameA nameB n i pos lit cA cB idA idB a b base ms raws lits D :
  scattering nameA nameB n cA cB idA idB a b base ms raws lits D → Z.of_nat (length ms) <= maxSkipElements →
  lits !! i = Some lit → (i ∉ D) → (∃ t, ParseSalty lit = Ok (SText t)) →
  ∃ cB' b', handleRatchet (mkInput pos (default [] (raws !! i))) cB = (Ok tt, cB') ∧
    scattering nameA nameB n cA cB' idA idB a b' base ms raws lits (i :: D) ∧ heard cB' = (nameA, lit) :: heard cB.
Proof.
  intros [Hc Hrow Hb Hr [Hpend Hname] Hsnd Hraws Hlits] Hlen Hi HiD [t Ht].
  rewrite <-Hlits, list_lookup_fmap in Hi. destruct (ms !! i) as [m|] eqn:Hm; [|done]. injection Hi as Hpt.
  destruct (Forall2_lookup_r _ _ _ _ _ Hraws Hm) as (raw & Hraw & ms' & Hwire). rewrite Hraw. cbn [default].
  set (uuid := encTime ms' (s_LocalUUID (sd_xs b))) in *.
  destruct (row_reads _ (restored_party (sd_P b) (c_ent cB)) _ _ _ i m (row_restored_reader _ (c_ent cB) _ _ _ _ _ Hrow) Hm HiD Hlen)
    as [Hdel Hafter].
  pose proof Hc as (_ & ((_ & Hl & _) & _) & _).
  destruct (chat_receive (mkInput pos raw) cA cB idA idB a b m uuid Hc Hpend Hdel Hwire)
    as (cB' & b' & Hhand & Hc2 & HevB & Hrec & _ & (HbN & _ & HbP & HbU) & _).
  { apply encTime_length. }
  { unfold uuid, encTime, ulid_Entropy. rewrite ulid_SetTime_entropy by apply length_copied. by rewrite copied_exact. }
  { by rewrite Hpt, Ht. }
  exists cB', b'. split; [exact Hhand|]. split.
  - split; [done|by apply Hafter|done|done|by rewrite HbP, HbN|done|by rewrite HbU|done].
  - unfold heard. rewrite HevB. unfold received_events. rewrite Hpt, Ht. simpl. by rewrite Hname.
Qed.

Lemma read_all_ok nameA nameB n order cA cB idA idB a b base ms raws lits D :
  scattering nameA nameB n cA cB idA idB a b base ms raws lits D → Z.of_nat (length ms) <= maxSkipElements →
  NoDup order.*1 → Forall (λ o, (o.1 < length lits)%nat ∧ (o.1 ∉ D)) order →
  Forall (λ lit, ∃ t, ParseSalty lit = Ok (SText t)) lits →
  ∃ cB', read_all raws order cB = (Ok tt, cB') ∧
    heard cB' = (pair nameA <$> rev (omap (λ o, lits !! o.1) order)) ++ heard cB.
Proof.
  intros Hs Hlen Hnd Hord Hleg. revert cB b D Hs Hnd Hord. induction order as [|[i pos] order IH]; intros cB b D Hs Hnd Hord.
  - by exists cB.
  - apply Forall_cons in Hord as [[Hi HiD] Hord]. rewrite fmap_cons in Hnd. apply NoDup_cons in Hnd as [Hni Hnd]. cbn [fst] in *.
    destruct (lookup_lt_is_Some_2 _ _ Hi) as [lit Hlit].
    destruct (scattering_read _ _ _ i pos lit _ _ _ _ _ _ _ _ _ _ _ Hs Hlen Hlit HiD (Forall_lookup_1 _ _ _ _ Hleg Hlit))
      as (cB1 & b1 & Hh & Hs1 & Hheard).
    destruct (IH _ _ _ Hs1 Hnd) as (cB' & Hall & Hheard').
    { apply Forall_forall. intros [j pos'] Hj. eapply Forall_forall in Hord; [|exact Hj]. destruct Hord as [Hjl HjD].
      cbn [fst] in *. split; [done|]. apply not_elem_of_cons. split; [|done]. intros ->. apply Hni.
      apply list_elem_of_fmap. by exists (i, pos'). }
    exists cB'. split; [cbn [read_all]; by st_call Hh|]. rewrite Hheard', Hheard. cbn [omap list_omap fst]. rewrite Hlit.
    cbn [rev]. by rewrite fmap_app, <-(assoc_L (++)).
Qed.

(** C7. Texts may be lost and overtake each other. Two clients run the handshake and
    any conversation; then one of them sends up to 32 texts before any of them
    arrives, and of these whichever arrive do so in whatever order. No call fails,
    and the other one is told of exactly the texts that arrive, in the order in
    which they do; the keys of those that are overtaken are in the file of its
    session in between. *)
Theorem texts_overtake (cA cB : Client) (nameA nameB idA idB : bytes) (addrA addrB : Addr) (smA smB : Manager)
  (pos pos' : Z) (script : list line) (texts : list draft) (order : list (nat * Z))
  (Hmeet : can_meet cA cB nameA nameB idA idB addrA addrB smA smB)
  (Hlen : Z.of_nat (length script + S (length texts)) < 2 ^ 16)
  (HtA : fresh_tape (S (length script + S (length texts))) [tape_key (c_ent cA)] (drop 64 (c_ent cA)))
  (HtB : fresh_tape (length script + S (length texts)) [tape_key (drop 32 (c_ent cB))] (drop 71 (c_ent cB)))
  (Hleg : legible (cA, cB) script)
  (Hlegt : Forall (λ t, ∃ x, ParseSalty (draft_literal cA t) = Ok (SText x)) texts)
  (Hmany : Z.of_nat (length texts) <= maxSkipElements)
  (Hnd : NoDup order.*1) (Hord : Forall (λ o, (o.1 < length texts)%nat) order) :
  ∃ cA' cB', (_ ← meet nameA nameB pos pos'; _ ← talk nameA nameB script; scatter nameB texts order) (cA, cB) =
      (Ok tt, (cA', cB')) ∧
    heard cB' = (pair nameA <$> arrived cA texts order) ++ (pair nameA <$> lines_of true (cA, cB) script) ++ heard cB.
Proof.
  destruct (meet_ok cA cB nameA nameB idA idB addrA addrB smA smB pos pos' _ Hmeet Hlen HtA HtB)
    as (cA1 & cB1 & a1 & b1 & Hm & Hit & HhA & HhB & EA & EB & _).
  destruct (talk_ok nameA nameB (S (length texts)) script cA1 cB1 idA idB a1 b1 Hit)
    as (cA2 & cB2 & a2 & b2 & Ht & Hit2 & EA2 & EB2 & HB & _).
  { eapply Forall_impl; [exact Hleg|]. intros l [t Hl]. exists t. by rewrite (line_literal_addr (cA, cB)). }
  assert (draft_literal cA2 = draft_literal cA) as Edraft by (unfold draft_literal; by rewrite EA2, EA).
  pose proof (scattering_begins _ _ _ _ _ _ _ _ _ Hit2) as Hs. rewrite <-(Nat.add_0_r (length texts)) in Hs.
  destruct (send_all_ok _ _ _ _ _ _ _ _ _ _ _ _ _ _ _ Hs) as (cA3 & a3 & ms & raws & Hall & Hs3 & _).
  cbn [app] in Hs3. rewrite Edraft in Hs3. pose proof (f_equal length (sc_lits _ _ _ _ _ _ _ _ _ _ _ _ _ _ Hs3)) as Hl.
  rewrite !length_fmap in Hl.
  destruct (read_all_ok _ _ _ order _ _ _ _ _ _ _ _ _ _ _ Hs3) as (cB3 & Hread & Hheard); [by rewrite Hl|done| | |].
  { eapply Forall_impl; [exact Hord|]. intros o Ho. cbn beta in *. rewrite length_fmap. split; [done|apply not_elem_of_nil]. }
  { by apply Forall_fmap. }
  exists cA3, cB3. split.
  { st_call Hm. st_call Ht. unfold scatter. st_call (at_left _ cA2 cB2 _ _ Hall). by apply at_right. }
  rewrite Hheard, HB, HhB, (lines_of_addr (cA, cB)) by done. f_equal. unfold arrived. do 2 f_equal.
  apply list_omap_ext, Forall_Forall2_diag, Forall_true. intros o. by rewrite list_lookup_fmap.
Qed.
End Clients.

(** ** Instances *)

#[local] Existing Instances toy_ratchet_crypto toy_ratchet_laws toy_identity_crypto toy_identity_laws
  toy_box_crypto toy_box_laws SRuns.toy_ulid SRuns.toy_ulid_laws ToyWire.toy_wire ToyWire.toy_wire_laws
  ToySalty.toy_salty ToySalty.toy_salty_laws ToyClient.toy_client.

Module ToyBurst.
Definition script : list line :=
  [Line true 7 8 20 (str "hello bob")].
Definition texts : list draft :=
  [Draft 11 12 (str "one"); Draft 13 14 (str "two"); Draft 15 16 (str "three")].

(** The third text arrives first and the second one never. *)
Definition order : list (nat * Z) := [(2%nat, 22); (0%nat, 23)].
End ToyBurst.

Ltac toy_fresh :=
  repeat (split; [vm_compute; lia|split; [apply (bool_decide_unpack _); vm_compute; exact I|]]); exact I.

Lemma texts_overtake_witness :
  ∃ cA' cB', (_ ← meet (str "alice") (str "bob") 3 4; _ ← talk (str "alice") (str "bob") ToyBurst.script;
              scatter (str "bob") ToyBurst.texts ToyBurst.order) (ToyClient.alice, ToyClient.bob) = (Ok tt, (cA', cB')) ∧
    heard cB' = [(str "alice", str "one"); (str "alice", str "three"); (str "alice", str "hello bob")].
Proof.
  refine (texts_overtake ToyClient.alice ToyClient.bob (str "alice") (str "bob") (zeros 16) (zeros 16)
    (ToyClient.addr_of (str "alice")) (ToyClient.addr_of (str "bob"))
    (ByName (str "bob") (c_sm ToyClient.alice)).2 (ByName (str "alice") (c_sm ToyClient.bob)).2 3 4
    ToyBurst.script ToyBurst.texts ToyBurst.order _ _ _ _ _ _ _ _ _).
  - split; [apply toy_identity_key|apply toy_identity_key|reflexivity|by split_and!|by split_and!|reflexivity|reflexivity
           |vm_compute; reflexivity|vm_compute; reflexivity|reflexivity|reflexivity|reflexivity
           |intros f Hf; discriminate Hf|vm_compute; lia|vm_compute; lia|vm_compute; discriminate].
  - reflexivity.
  - toy_fresh.
  - toy_fresh.
  - repeat constructor; by eexists.
  - repeat constructor; by eexists.
  - vm_compute. discriminate.
  - apply (bool_decide_unpack _). vm_compute. exact I.
  - repeat constructor.
Defined.
