(* ===== verification/Lossy.v ===== *)
(** * A network that loses messages

    Two clients that are in touch send to each other whenever they like. What one
    has posted is in flight, in order, until it arrives or gets lost. The clients
    implement two queues with losses, as long as not too many are lost in a row. *)

From Stdlib Require Import ZArith Lia.
From stdpp Require Import base list numbers option strings gmap.
From S2P Require Import Prelude Crypto ToyCrypto MsgHeader KeyBuff DhRatchet DoubleRatchet RatchetSync Gob Marshal Liveness Base64 Message X3dh Session DiskSession Client ClientChat Talk Burst.

Local Open Scope Z_scope.

(** ** The network *)

(** One side sends a text, or what was posted first of what it has in flight gets
    lost, or arrives and is read at some position. *)
Inductive happening :=
  | Say (from_left : bool) (t : draft)
  | Lose (from_left : bool)
  | Arrive (from_left : bool) (pos : Z).

(** Two clients, and what each of them has in flight *)
Record channel := Channel { ch_net : net; ch_left : list bytes; ch_right : list bytes }.

Definition set_net (n : net) (ch : channel) : channel := Channel n (ch_left ch) (ch_right ch).
Definition posted (from_left : bool) (ch : channel) : list bytes := if from_left then ch_left ch else ch_right ch.
Definition set_posted (from_left : bool) (raws : list bytes) (ch : channel) : channel :=
  if from_left then Channel (ch_net ch) raws (ch_right ch) else Channel (ch_net ch) (ch_left ch) raws.

Section Network.
Context `{RatchetCrypto} `{IdentityCrypto} `{BoxCrypto} `{Ulid} `{GobWire} `{SaltyLib} `{ClientLib}.

Definition happens (nameL nameR : bytes) (h : happening) : ST channel unit :=
  match h with
  | Say from_left t =>
      _ ← zoom ch_net set_net
            (at_side from_left (SendText (df_ms t) (df_ms' t) (if from_left then nameR else nameL) (df_text t) []));
      modify (λ ch, set_posted from_left (posted from_left ch ++ [last_post (side_of from_left (ch_net ch))]) ch)
  | Lose from_left => modify (λ ch, set_posted from_left (tail (posted from_left ch)) ch)
  | Arrive from_left pos =>
      raws ← gets (posted from_left);
      match raws with
      | [] => mret tt
      | raw :: raws =>
          _ ← modify (set_posted from_left raws);
          zoom ch_net set_net (at_side (negb from_left) (handleRatchet (mkInput pos raw)))
      end
  end.

Fixpoint happen (nameL nameR : bytes) (hs : list happening) : ST channel unit :=
  match hs with
  | [] => mret tt
  | h :: hs => _ ← happens nameL nameR h; happen nameL nameR hs
  end.
End Network.

(** *** Its specification *)

(** The texts in flight from one side, how many were lost since the last one that
    arrived, and those that arrived, latest first *)
Record lossy := MkLossy { lo_queue : list bytes; lo_lost : nat; lo_out : list bytes }.

Definition lossy_new : lossy := MkLossy [] 0 [].

Definition lossy_say (x : bytes) (q : lossy) : lossy := MkLossy (lo_queue q ++ [x]) (lo_lost q) (lo_out q).

Definition lossy_lose (q : lossy) : lossy :=
  match lo_queue q with [] => q | _ :: xs => MkLossy xs (S (lo_lost q)) (lo_out q) end.

(** Nothing is promised after [maxSkipElements] losses in a row. *)
Definition lossy_arrive (q : lossy) : option lossy :=
  match lo_queue q with
  | [] => Some q
  | x :: xs => if Z.of_nat (lo_lost q) <=? maxSkipElements then Some (MkLossy xs 0 (x :: lo_out q)) else None
  end.

Definition on_lossy (from_left : bool) (f : lossy → option lossy) (qs : lossy * lossy) : option (lossy * lossy) :=
  if from_left then q ← f qs.1; Some (q, qs.2) else q ← f qs.2; Some (qs.1, q).

Definition lossy_happens (lit : bool → draft → bytes) (h : happening) (qs : lossy * lossy) : option (lossy * lossy) :=
  match h with
  | Say from_left t => on_lossy from_left (λ q, Some (lossy_say (lit from_left t) q)) qs
  | Lose from_left => on_lossy from_left (λ q, Some (lossy_lose q)) qs
  | Arrive from_left _ => on_lossy from_left lossy_arrive qs
  end.

Fixpoint lossy_happen (lit : bool → draft → bytes) (hs : list happening) (qs : lossy * lossy) : option (lossy * lossy) :=
  match hs with
  | [] => Some qs
  | h :: hs => qs' ← lossy_happens lit h qs; lossy_happen lit hs qs'
  end.

(** ** Two parties with messages in flight *)

Section Flight.
Context `{RatchetCryptoLaws}.

(** [m] is the message of [Q] with the number [k], counted from the beginning of
    the chain under [peer], which has [B] messages and is followed by the chain
    that [Q] is sending. A party that was stored before it sent has forgotten how
    long its previous chain was. *)
Definition placed (Q : party) (peer : bytes) (B k : Z) (m : msg) : Prop :=
  m ∈ p_out Q ∧ m_prev m = 0 ∧
  if decide (k < B) then m_pub m = peer ∧ m_no m = k else m_pub m = p_pub Q ∧ m_no m = k - B.

(** The messages [ms] are in flight from [Q] to [P]; the [l] ones between the last
    one that arrived and these were lost. *)
Record travelling (Q P : party) (B : Z) (ms : list msg) (l : nat) : Prop := {
  tr_placed : ∀ i m, ms !! i = Some m →
    placed Q (dr_peerDhPub (p_dr P)) B (dr_recvNo (p_dr P) + Z.of_nat l + Z.of_nat i) m;
  tr_count : dr_recvNo (p_dr P) + Z.of_nat l + Z.of_nat (length ms) = B + dr_sendNo (p_dr Q);
}.

(** [S] is one DH step ahead of [R]. What is in flight to [R] may begin with
    messages of the chain that [R] still receives. *)
Record between (S R : party) (ms : list msg) (l : nat) (ms' : list msg) (l' : nat) : Prop := {
  bt_ahead : ∃ CKn CK old, ahead S R CKn (Some CK) old;
  bt_out : ∃ B, dr_recvNo (p_dr R) <= B ∧ travelling S R B ms l ∧
    (dr_recvNo (p_dr R) < B → Forall (λ n, n < dr_recvNo (p_dr R)) (p_seen R));
  bt_back : travelling R S 0 ms' l';
  bt_seen : Forall (λ n, n < dr_recvNo (p_dr S)) (p_seen S);
}.

Definition in_flight (P Q : party) (ms : list msg) (l : nat) (ms' : list msg) (l' : nat) : Prop :=
  between P Q ms l ms' l' ∨ between Q P ms' l' ms l.

Lemma in_flight_sym P Q ms l ms' l' : in_flight P Q ms l ms' l' → in_flight Q P ms' l' ms l.
Proof. intros [?|?]; [by right|by left]. Qed.

Lemma travelling_none Q P B : dr_recvNo (p_dr P) = B + dr_sendNo (p_dr Q) → travelling Q P B [] 0.
Proof. intros Hn. split; [done|]. simpl. lia. Qed.

(** Two parties that are in step can begin. *)
Lemma in_flight_begins P Q : in_step P Q → in_flight P Q [] 0 [] 0.
Proof.
  assert (∀ S R, synced S R → between S R [] 0 [] 0) as Hb.
  { intros S R [Ha Hfirst Hprev Hback Hseen _]. split; [done| |by apply travelling_none; rewrite Hback|done].
    exists (dr_recvNo (p_dr R)). split; [done|]. split; [apply travelling_none; lia|lia]. }
  intros [Hs|Hs]; [left|right]; by apply Hb.
Qed.

(** ** Budgets *)

(** What a message takes at most from the one who sends or receives it *)
Definition in_budget (P P' : party) : Prop :=
  spends P P' ∧ ∀ n, room (S n) (p_dr P) → room n (p_dr P').

Lemma in_budget_current P d' :
  dr_pub d' = p_pub P → p_pub P ∈ p_used P → dr_sendNo d' = dr_sendNo (p_dr P) → dr_prevSendNo d' = dr_prevSendNo (p_dr P) →
  ∀ n, in_budget P (Party d' (p_ent P) (p_out P) (n :: p_seen P) (used_after P d')).
Proof.
  intros Epub Hin Es Ep n. split; [left; split; [done|]|].
  - unfold used_after. simpl. rewrite Epub. by intros x [->|Hx]%elem_of_cons.
  - intros k. unfold room. simpl. lia.
Qed.

Lemma spends_fresh P P' n : fresh_tape (S n) (p_used P) (p_ent P) → spends P P' → fresh_tape n (p_used P') (p_ent P').
Proof.
  intros Hf [[-> Hu]|[-> Hu]].
  - eapply fresh_tape_mono; [exact Hu|]. by apply fresh_tape_less.
  - eapply fresh_tape_mono; [exact Hu|]. apply Hf.
Qed.

(** ** Losing *)

Lemma travelling_loses Q P B m ms l : travelling Q P B (m :: ms) l → travelling Q P B ms (S l).
Proof.
  intros [Hp Hc]. split; [|cbn [length] in Hc; lia]. intros i m' Hi. specialize (Hp (S i) m' Hi).
  replace (dr_recvNo (p_dr P) + Z.of_nat (S l) + Z.of_nat i) with (dr_recvNo (p_dr P) + Z.of_nat l + Z.of_nat (S i)) by lia.
  done.
Qed.

Lemma in_flight_loses P Q m ms l ms' l' : in_flight P Q (m :: ms) l ms' l' → in_flight P Q ms (S l) ms' l'.
Proof.
  intros [[Ha (B & HB & Ht & Hs) Hb Hseen]|[Ha Ho Hb Hseen]]; [left|right].
  - split; [done| |done..]. exists B. split; [done|]. split; [by eapply travelling_loses|done].
  - split; [done..| |done]. by eapply travelling_loses.
Qed.

(** ** Sending *)

Lemma travelling_sends Q P B m ms l Q' :
  travelling Q P B ms l → 0 <= dr_sendNo (p_dr Q) → m ∈ p_out Q' → m_prev m = 0 →
  m_pub m = p_pub Q → m_no m = dr_sendNo (p_dr Q) →
  (∀ x, x ∈ p_out Q → x ∈ p_out Q') → p_pub Q' = p_pub Q → dr_sendNo (p_dr Q') = dr_sendNo (p_dr Q) + 1 →
  travelling Q' P B (ms ++ [m]) l.
Proof.
  intros [Hp Hc] Hge Hin Hprev Hpub Hno Hsub HpubQ HnoQ. split; [|rewrite length_app, HnoQ; simpl; lia].
  intros i m' Hi. apply lookup_app_Some in Hi as [Hi|[Hlen Hi]].
  - destruct (Hp i m' Hi) as (Hin' & Hprev' & Hcase). split; [auto|]. split; [done|]. by rewrite HpubQ.
  - apply list_lookup_singleton_Some in Hi as [Hi ->]. split; [done|]. split; [done|].
    rewrite decide_False by lia. rewrite HpubQ. split; [done|]. lia.
Qed.

Lemma in_flight_sends P Q m ms l ms' l' P' :
  in_flight P Q ms l ms' l' → dr_prevSendNo (p_dr P) = 0 → sends P m P' →
  in_flight P' Q (ms ++ [m]) l ms' l' ∧ in_budget P P'.
Proof.
  intros [[(CKn & CK & old & Ha) (B & HB & Ht & Hs) Hb Hseen]|[(CKn & CK & old & Ha) Ho Hb Hseen]] Hprev Hsend.
  - destruct (ahead_sends _ _ _ _ _ _ _ Ha Hsend) as (Ha' & Hd & He & Hm & Hout & Hsn & Hus).
    pose proof (ah_keysS _ _ _ _ _ Ha) as (_ & _ & Hno & _).
    split.
    2:{ split; [left; rewrite Hus; split; [done|]|unfold room; rewrite Hd; simpl; lia].
        intros x [->|Hx]%elem_of_cons; [apply (ah_usedS _ _ _ _ _ Ha)|done]. }
    left. split; [by do 3 eexists| | |].
    + exists B. split; [done|]. split; [|done]. eapply travelling_sends; [done|done|rewrite Hout; by left|by rewrite Hm|by rewrite Hm|by rewrite Hm| |by rewrite Hd|by rewrite Hd].
      intros x Hx. rewrite Hout. by right.
    + destruct Hb as [Hp Hc]. split; by rewrite Hd.
    + rewrite Hsn, Hd. done.
  - destruct (behind_sends _ _ _ _ _ _ _ Ha Hsend) as (Ha' & Hd & He & Hm & Hout & Hsn & Hus).
    pose proof (ah_keysR _ _ _ _ _ Ha) as (_ & _ & Hno & _).
    split.
    2:{ split; [left; rewrite Hus; split; [done|]|unfold room; rewrite Hd; simpl; lia].
        intros x [->|Hx]%elem_of_cons; [apply (ah_usedR _ _ _ _ _ Ha)|done]. }
    right. split; [by do 3 eexists| | |done].
    + destruct Ho as (B & HB & [Hp Hc] & Hs). exists B. rewrite Hd, Hsn. split; [done|]. split; [by split; rewrite ?Hd|done].
    + eapply travelling_sends; [done|done|rewrite Hout; by left|by rewrite Hm|by rewrite Hm|by rewrite Hm| |by rewrite Hd|by rewrite Hd].
      intros x Hx. rewrite Hout. by right.
Qed.

(** ** Receiving *)

Lemma travelling_arrives Q P B m ms l P' :
  travelling Q P B (m :: ms) l → dr_peerDhPub (p_dr P') = dr_peerDhPub (p_dr P) →
  dr_recvNo (p_dr P') = dr_recvNo (p_dr P) + Z.of_nat l + 1 → travelling Q P' B ms 0.
Proof.
  intros [Hp Hc] Hpeer Hrecv. split; [|cbn [length] in Hc; lia]. intros i m' Hi. specialize (Hp (S i) m' Hi).
  rewrite Hpeer, Hrecv.
  replace (dr_recvNo (p_dr P) + Z.of_nat l + 1 + Z.of_nat 0 + Z.of_nat i)
    with (dr_recvNo (p_dr P) + Z.of_nat l + Z.of_nat (S i)) by lia.
  done.
Qed.

Lemma travelling_reader Q P P' B ms l :
  travelling Q P B ms l → dr_peerDhPub (p_dr P') = dr_peerDhPub (p_dr P) →
  dr_recvNo (p_dr P') = dr_recvNo (p_dr P) → travelling Q P' B ms l.
Proof. intros [Hp Hc] E1 E2. split; by rewrite ?E1, E2. Qed.

Lemma travelling_writer Q Q' P B ms l :
  travelling Q P B ms l → p_out Q' = p_out Q → p_pub Q' = p_pub Q → dr_sendNo (p_dr Q') = dr_sendNo (p_dr Q) →
  travelling Q' P B ms l.
Proof. intros [Hp Hc] E1 E2 E3. split; [|by rewrite E3]. unfold placed in *. by rewrite E1, E2. Qed.

(** The message of a chain that is received already *)
Lemma between_receives_back S R m ms l ms' l' :
  between S R ms l (m :: ms') l' → Z.of_nat l' <= maxSkipElements →
  deliverable S R m ∧ ∀ S', receives S m S' → between S' R ms l ms' 0 ∧ in_budget S S'.
Proof.
  intros [(CKn & CK & old & Ha) Ho Hb Hseen] Hl.
  pose proof (ah_back _ _ _ _ _ Ha) as (((_ & Hr & _) & _) & _).
  destruct (tr_placed _ _ _ _ _ Hb 0%nat m eq_refl) as (Hin & Hprev & Hcase).
  rewrite decide_False in Hcase by lia. destruct Hcase as [Hpub Hno].
  assert (m_pub m = dr_peerDhPub (p_dr S)) as Hpub' by (by rewrite Hpub, (ah_peer _ _ _ _ _ Ha)).
  assert (m_no m ∉ p_seen S) as Hns by (intros Hi; eapply Forall_forall in Hseen; [|exact Hi]; simpl in Hseen; lia).
  destruct (ahead_recv S R CKn (Some CK) old m) as
    (spare & d' & e' & Hdec & Ha' & -> & Epub & Es & Ep & _ & _ & _ & Epeer & Erecv); [done..|lia|].
  split; [apply deliver_current; [done..|lia]|].
  intros S' [[r Hdec'] HS]. rewrite Hdec in Hdec'. injection Hdec' as _ Hdd Hee.
  rewrite <-Hdd, <-Hee in HS. unfold seen_after in HS. rewrite bool_decide_eq_true_2 in HS by done. rewrite HS.
  specialize (Erecv ltac:(lia)). split; [|apply in_budget_current; try done; apply (ah_usedS _ _ _ _ _ Ha)].
  split; simpl.
  - by do 3 eexists.
  - destruct Ho as (B & HB & Ht & Hs). exists B. split; [done|]. split; [|done]. by eapply travelling_writer.
  - eapply travelling_arrives; [exact Hb|done|simpl; lia].
  - apply Forall_cons. split; [lia|]. eapply Forall_impl; [exact Hseen|]. simpl. lia.
Qed.

(** A message of the chain that the other party still receives, although its
    sender has moved on *)
Lemma between_receives_old S R B m ms l ms' l' :
  between S R (m :: ms) l ms' l' → travelling S R B (m :: ms) l → dr_recvNo (p_dr R) + Z.of_nat l < B →
  Forall (λ n, n < dr_recvNo (p_dr R)) (p_seen R) → Z.of_nat l <= maxSkipElements →
  deliverable R S m ∧ ∀ R', receives R m R' → between S R' ms 0 ms' l' ∧ in_budget R R'.
Proof.
  intros [(CKn & CK & old & Ha) _ Hb HseenS] Ht HB Hseen Hl.
  destruct (tr_placed _ _ _ _ _ Ht 0%nat m eq_refl) as (Hin & Hprev & Hcase).
  rewrite decide_True in Hcase by lia. destruct Hcase as [Hpub Hno].
  assert (m_no m ∉ p_seen R) as Hns by (intros Hi; eapply Forall_forall in Hseen; [|exact Hi]; simpl in Hseen; lia).
  destruct (behind_recv S R CKn (Some CK) old m) as
    (spare & d' & e' & Hdec & Ha' & -> & Epub & Es & Ep & Epeer & Erecv); [done..|lia|].
  split; [apply deliver_current; [done..|lia]|].
  intros R' [[r Hdec'] HR]. rewrite Hdec in Hdec'. injection Hdec' as _ Hdd Hee.
  rewrite <-Hdd, <-Hee in HR. unfold seen_after in HR. rewrite bool_decide_eq_true_2 in HR by done. rewrite HR.
  specialize (Erecv ltac:(lia)). split; [|apply in_budget_current; try done; apply (ah_usedR _ _ _ _ _ Ha)].
  split; simpl.
  - by do 3 eexists.
  - exists B. split; [lia|]. split; [eapply travelling_arrives; [exact Ht|done|simpl; lia]|]. intros _.
    apply Forall_cons. split; [lia|]. eapply Forall_impl; [exact Hseen|]. simpl. lia.
  - by eapply travelling_writer.
  - done.
Qed.

(** The first message of a new chain that arrives: now the other party is ahead. *)
Lemma between_receives_new S R B m ms l ms' l' :
  between S R (m :: ms) l ms' l' → travelling S R B (m :: ms) l → dr_recvNo (p_dr R) <= B ->
  B <= dr_recvNo (p_dr R) + Z.of_nat l → Z.of_nat l <= maxSkipElements → fresh_key R →
  deliverable R S m ∧ ∀ R', receives R m R' → between R' S ms' l' ms 0 ∧ in_budget R R'.
Proof.
  intros [(CKn & CK & old & Ha) _ Hb HseenS] Ht HrB HB Hl Hfresh.
  destruct (tr_placed _ _ _ _ _ Ht 0%nat m eq_refl) as (Hin & Hprev & Hcase).
  rewrite decide_False in Hcase by lia. destruct Hcase as [Hpub Hno].
  pose proof (ahead_recvNo _ _ _ _ _ Ha) as Hr.
  destruct (Decrypt_next S R CKn (Some CK) old m) as
    (spare & d' & e' & CKn' & Hdec & Ha' & Es & Ep & Erecv & He & Epub & _);
    [done..|unfold maxSkipElements; lia|lia|done|].
  split. { apply deliver_next; [done|done| |unfold maxSkipElements; lia|lia|done]. rewrite Hpub. apply not_eq_sym, Ha. }
  intros R' [[r Hdec'] HR]. rewrite Hdec in Hdec'. injection Hdec' as _ Hdd Hee.
  rewrite <-Hdd, <-Hee in HR. unfold seen_after in HR. rewrite bool_decide_eq_false_2 in HR by (rewrite Hpub; apply not_eq_sym, Ha). rewrite HR.
  pose proof (tr_count _ _ _ _ _ Hb) as Hcount. pose proof (ah_keysR _ _ _ _ _ Ha) as (_ & _ & Hsn & _).
  split; [split; simpl|].
  - by do 3 eexists.
  - exists (dr_sendNo (p_dr R)). split; [lia|]. split; [|done]. split; [|simpl; lia].
    intros i m' Hi. destruct (tr_placed _ _ _ _ _ Hb i m' Hi) as (Hin' & Hprev' & Hcase').
    pose proof (ah_back _ _ _ _ _ Ha) as (((_ & HrS & _) & _) & _).
    pose proof (lookup_lt_Some _ _ _ Hi). rewrite decide_False in Hcase' by lia.
    split; [done|]. split; [done|]. rewrite decide_True by lia. rewrite (ah_peer _ _ _ _ _ Ha).
    destruct Hcase'. split; [done|lia].
  - split; simpl; [|pose proof (tr_count _ _ _ _ _ Ht) as Hc; cbn [length] in Hc; lia].
    intros i m' Hi. destruct (tr_placed _ _ _ _ _ Ht (Datatypes.S i) m' Hi) as (Hin' & Hprev' & Hcase').
    rewrite decide_False in Hcase' by lia. split; [done|]. split; [done|]. rewrite decide_False by lia.
    destruct Hcase'. split; [done|lia].
  - apply Forall_singleton. lia.
  - split; [right; split; [done|]|intros n; unfold room; simpl; lia].
    simpl. unfold used_after. rewrite Epub. done.
Qed.

(** The next message may be delivered, and leaves what comes after it in flight. *)
Lemma in_flight_receives P Q m ms l ms' l' :
  in_flight P Q (m :: ms) l ms' l' → Z.of_nat l <= maxSkipElements → fresh_key Q →
  deliverable Q P m ∧ ∀ Q', receives Q m Q' → in_flight P Q' ms 0 ms' l' ∧ in_budget Q Q'.
Proof.
  intros [Hbt|Hbt] Hl Hf.
  - destruct (bt_out _ _ _ _ _ _ Hbt) as (B & HB & Ht & Hs).
    destruct (decide (dr_recvNo (p_dr Q) + Z.of_nat l < B)) as [Hlt|Hge].
    + destruct (between_receives_old _ _ _ _ _ _ _ _ Hbt Ht Hlt (Hs ltac:(lia)) Hl) as [Hd Hr].
      split; [done|]. intros Q' HQ. destruct (Hr Q' HQ). split; [by left|done].
    + destruct (between_receives_new _ _ _ _ _ _ _ _ Hbt Ht HB ltac:(lia) Hl Hf) as [Hd Hr].
      split; [done|]. intros Q' HQ. destruct (Hr Q' HQ). split; [by right|done].
  - destruct (between_receives_back _ _ _ _ _ _ _ Hbt Hl) as [Hd Hr].
    split; [done|]. intros Q' HQ. destruct (Hr Q' HQ). split; [by right|done].
Qed.

(** ** Being stored *)

Lemma lost_below d : Forall (λ n, n < dr_recvNo d) (lost_numbers d).
Proof. apply Forall_forall. by intros n [[Hn _] _]%list_elem_of_filter. Qed.

Lemma between_restored_ahead e S R ms l ms' l' : between S R ms l ms' l' → between (restored_party S e) R ms l ms' l'.
Proof.
  intros [(CKn & CK & old & Ha) Ho Hb Hseen]. destruct (ahead_buffer _ _ _ _ _ Ha) as [[cs Hcs] _].
  split.
  - do 3 eexists. exact (ahead_forget_left _ _ _ _ _ _ _ _ e Ha (restored_forgets (p_dr S) cs 0 Hcs ltac:(lia))).
  - destruct Ho as (B & HB & Ht & Hs). exists B. split; [done|]. split; [by eapply travelling_writer|done].
  - by eapply travelling_reader.
  - apply Forall_app. split; [|done]. exact (lost_below (p_dr S)).
Qed.

Lemma between_restored_behind e S R ms l ms' l' : between S R ms l ms' l' → between S (restored_party R e) ms l ms' l'.
Proof.
  intros [(CKn & CK & old & Ha) (B & HB & Ht & Hs) Hb Hseen]. destruct (ahead_buffer _ _ _ _ _ Ha) as [_ [cs Hcs]].
  split; [| | |done].
  - do 3 eexists. exact (ahead_forget_right _ _ _ _ _ _ _ _ e Ha (restored_forgets (p_dr R) cs 0 Hcs ltac:(lia))).
  - exists B. split; [done|]. split; [by eapply travelling_reader|]. intros Hlt. apply Forall_app. split; [exact (lost_below (p_dr R))|by apply Hs].
  - by eapply travelling_writer.
Qed.

Lemma in_flight_restored e P Q ms l ms' l' : in_flight P Q ms l ms' l' → in_flight (restored_party P e) Q ms l ms' l'.
Proof. intros [Hb|Hb]; [left; by apply between_restored_ahead|right; by apply between_restored_behind]. Qed.

Lemma in_flight_sendNo P Q ms l ms' l' : in_flight P Q ms l ms' l' → 0 <= dr_sendNo (p_dr P).
Proof.
  intros [Hb|Hb]; destruct (bt_ahead _ _ _ _ _ _ Hb) as (CKn & CK & old & Ha);
    [apply (ah_keysS _ _ _ _ _ Ha)|apply (ah_keysR _ _ _ _ _ Ha)].
Qed.

Lemma in_flight_can_send P Q ms l ms' l' n : in_flight P Q ms l ms' l' → room (S n) (p_dr P) → can_send (p_dr P).
Proof.
  intros Hf [Hr1 Hr2]. unfold can_send. split; [|lia].
  destruct Hf as [Hb|Hb]; destruct (bt_ahead _ _ _ _ _ _ Hb) as (CKn & CK & old & Ha).
  - destruct (ah_send _ _ _ _ _ Ha) as (_ & _ & ->). done.
  - destruct (ah_back _ _ _ _ _ Ha) as (_ & (_ & _ & ->) & _). done.
Qed.
End Flight.

(** ** Two clients *)

(** One side: its name, the identifier of its session, its address, and what it was
    told of before *)
Record endpoint := Endpoint { en_name : bytes; en_id : bytes; en_addr : Addr; en_heard : list (bytes * bytes) }.

Section Clients.
Context `{RatchetCryptoLaws} `{!IdentityCrypto} `{!IdentityCryptoLaws} `{!BoxCrypto} `{!BoxCryptoLaws}.
Context `{!Ulid} `{!UlidLaws} `{!GobWire} `{!GobWireLaws} `{!SaltyLib} `{!SaltyLaws} `{!ClientLib}.

Definition is_text (lit : bytes) : Prop := ∃ t, ParseSalty lit = Ok (SText t).

(** The client [c] of [A] is ready for [n] more happenings, and was told of what
    arrived from [B]. *)
Record ready (A B : endpoint) (n : nat) (c : Client) (a : side) (out : list bytes) : Prop := {
  rd_room : room n (p_dr (sd_P a));
  rd_fresh : fresh_tape n (p_used (sd_P a)) (c_ent c);
  rd_peer : ps_PendingAck (sd_s a) = [] ∧ ps_Name (sd_s a) = en_name B;
  rd_id : sm_sessions (c_sm c) !! en_name B = Some (en_id A);
  rd_post : ∀ w, http_post (ps_Endpoint (sd_s a)) w = None;
  rd_addr : c_addr c = en_addr A;
  rd_heard : heard c = (pair (en_name B) <$> out) ++ en_heard A;
}.

(** The messages [ms] to [b] carry the texts that are in flight. *)
Record carries (q : lossy) (raws : list bytes) (ms : list msg) (b : side) : Prop := {
  ca_texts : m_pt <$> ms = lo_queue q;
  ca_wires : Forall2 (λ raw m, ∃ t, raw = data_wire (encTime t (s_LocalUUID (sd_xs b))) m) raws ms;
  ca_legible : Forall is_text (lo_queue q);
}.

Record connected (A B : endpoint) (n : nat) (cA cB : Client) (a b : side) (qA qB : lossy) (rawsA rawsB : list bytes) : Prop := {
  cn_chatting : chatting cA cB (en_id A) (en_id B) a b;
  cn_flight : ∃ msA msB, in_flight (sd_P a) (sd_P b) msA (lo_lost qA) msB (lo_lost qB) ∧
    carries qA rawsA msA b ∧ carries qB rawsB msB a;
  cn_left : ready A B n cA a (lo_out qB);
  cn_right : ready B A n cB b (lo_out qA);
}.

Lemma connected_sym A B n cA cB a b qA qB rawsA rawsB :
  connected A B n cA cB a b qA qB rawsA rawsB → connected B A n cB cA b a qB qA rawsB rawsA.
Proof.
  intros [Hc (msA & msB & Hf & HA & HB) Hl Hr]. split; [by apply chatting_sym| |done..].
  exists msB, msA. split; [by apply in_flight_sym|done].
Qed.

Lemma ready_less A B n c a out : ready A B (S n) c a out → ready A B n c a out.
Proof. intros []. split; try done; [by apply room_less|by apply fresh_tape_less]. Qed.

(** A message was sent or received. *)
Lemma ready_after A B n c c' a a' out out' :
  0 <= dr_sendNo (p_dr (sd_P a)) → ready A B (S n) c a out → in_budget (restored_party (sd_P a) (c_ent c)) (sd_P a') → c_ent c' = p_ent (sd_P a') →
  same_peer a a' → same_client (en_id A) c c' → heard c' = (pair (en_name B) <$> out') ++ en_heard A →
  ready A B n c' a' out'.
Proof.
  intros Hno [Hr Hf [Hp Hn] Hi Hpost Had Hh] [Hsp Hroom] He (HN & HE & HP & HU) [Hto Ha] Hh'. split.
  - apply Hroom. unfold room in *. simpl. lia.
  - rewrite He. exact (spends_fresh (restored_party (sd_P a) (c_ent c)) _ _ Hf Hsp).
  - by rewrite HP, HN.
  - by rewrite (to_sessions _ _ _ Hto).
  - by rewrite HE.
  - by rewrite Ha.
  - done.
Qed.

Lemma connected_begins nameA nameB idA idB n cA cB a b :
  in_touch nameA nameB n cA cB idA idB a b →
  connected (Endpoint nameA idA (c_addr cA) (heard cA)) (Endpoint nameB idB (c_addr cB) (heard cB)) n
    cA cB a b lossy_new lossy_new [] [].
Proof.
  intros [Hc Hs [HrA HrB] [HfA HfB] [HpA HpB] [HnA HnB] [HiA HiB] Hpost]. split; [done| | |].
  - exists [], []. split; [by apply in_flight_begins|]. split; by split.
  - split; try done. intros w. apply Hpost.
  - split; try done. intros w. apply Hpost.
Qed.

Lemma connected_say A B n t cA cB a b qA qB rawsA rawsB :
  connected A B (S n) cA cB a b qA qB rawsA rawsB → is_text (draft_literal cA t) →
  ∃ cA' a', SendText (df_ms t) (df_ms' t) (en_name B) (df_text t) [] cA = (Ok tt, cA') ∧
    connected A B n cA' cB a' b (lossy_say (draft_literal cA t) qA) qB (rawsA ++ [last_post cA']) rawsB.
Proof.
  intros [Hc (msA & msB & Hf & HA & HB) Hl Hr] Htext. pose proof (rd_id _ _ _ _ _ _ Hl) as HiA.
  destruct (chat_sends (df_ms t) (df_ms' t) (en_name B) (df_text t) [] cA cB _ _ a b Hc HiA) as [cA' Hsend];
    [exact (in_flight_can_send _ _ _ _ _ _ _ Hf (rd_room _ _ _ _ _ _ Hl))|exact (rd_post _ _ _ _ _ _ Hl)|].
  destruct (chat_send (df_ms t) (df_ms' t) (en_name B) (df_text t) [] cA cA' cB _ _ a b Hc HiA Hsend)
    as (a' & m & Hc1 & _ & Hpt & Hposts & Hsends & HeA & Hsame & Hcl & ev & Hev & Hsort).
  destruct (in_flight_sends _ _ _ _ _ _ _ _ (in_flight_restored (c_ent cA) _ _ _ _ _ _ Hf) eq_refl Hsends) as [Hf' Hbud].
  exists cA', a'. split; [done|]. split; [done| | |by apply ready_less].
  - exists (msA ++ [m]), msB. split; [done|]. split; [|by destruct HB as [Ht Hw Hle]; split; rewrite ?(proj2 (proj2 (proj2 Hsame)))].
    destruct HA as [Ht Hw Hle]. split; cbn [lossy_say lo_queue].
    + rewrite fmap_app, Ht. cbn. by rewrite Hpt.
    + apply Forall2_app; [done|]. constructor; [|constructor]. eexists. unfold last_post. by rewrite Hposts.
    + apply Forall_app. split; [done|]. by apply Forall_singleton.
  - eapply ready_after; [exact (in_flight_sendNo _ _ _ _ _ _ Hf)|exact Hl|done..|]. rewrite <-(rd_heard _ _ _ _ _ _ Hl). unfold heard. rewrite Hev. by destruct ev.
Qed.

Lemma connected_lose A B n cA cB a b qA qB rawsA rawsB :
  connected A B (S n) cA cB a b qA qB rawsA rawsB →
  connected A B n cA cB a b (lossy_lose qA) qB (tail rawsA) rawsB.
Proof.
  intros [Hc (msA & msB & Hf & [Ht Hw Hle] & HB) Hl Hr]. split; [done| |by apply ready_less|].
  - exists (tail msA), msB. unfold lossy_lose. destruct msA as [|m msA]; rewrite <-Ht; cbn [fmap list_fmap tail].
    + inversion Hw. subst. split; [done|]. split; [by split|done].
    + rewrite <-Ht in Hle. apply Forall_cons in Hle as [_ Hle]. inversion Hw; subst.
      split; [by eapply in_flight_loses|]. split; [by split|done].
  - apply ready_less in Hr. unfold lossy_lose. by destruct (lo_queue qA).
Qed.

Lemma connected_arrive A B n pos raw cA cB a b qA qB rawsA rawsB qA' :
  connected A B (S n) cA cB a b qA qB (raw :: rawsA) rawsB → lossy_arrive qA = Some qA' →
  ∃ cB' b', handleRatchet (mkInput pos raw) cB = (Ok tt, cB') ∧ connected A B n cA cB' a b' qA' qB rawsA rawsB.
Proof.
  intros [Hc (msA & msB & Hf & [Ht Hw Hle] & HB) Hl Hr] Harr.
  apply Forall2_cons_inv_l in Hw as (m & ms & [t Hraw] & Hw & ->). cbn in Ht. unfold lossy_arrive in Harr.
  rewrite <-Ht in Harr, Hle. destruct (Z.leb_spec (Z.of_nat (lo_lost qA)) maxSkipElements) as [Hlost|]; [|done].
  injection Harr as <-. apply Forall_cons in Hle as [[x Hx] Hle].
  pose proof (rd_peer _ _ _ _ _ _ Hr) as [Hpend Hname].
  destruct (in_flight_receives (sd_P a) (restored_party (sd_P b) (c_ent cB)) m ms (lo_lost qA) msB (lo_lost qB)) as [Hdel Hafter];
    [by apply in_flight_sym, in_flight_restored, in_flight_sym|done|eapply fresh_tape_key; apply Hr|].
  pose proof Hc as (_ & ((_ & Hu & _) & _) & _).
  destruct (chat_receive (mkInput pos raw) cA cB _ _ a b m (encTime t (s_LocalUUID (sd_xs b))) Hc Hpend Hdel Hraw)
    as (cB' & b' & Hhand & Hc2 & HevB & Hrec & HeB & Hsame & Hcl).
  { apply encTime_length. }
  { unfold encTime, ulid_Entropy. rewrite ulid_SetTime_entropy by apply length_copied. by rewrite copied_exact. }
  { by rewrite Hx. }
  destruct (Hafter _ Hrec) as [Hf' Hbud].
  exists cB', b'. split; [exact Hhand|]. split; [done| |by apply ready_less|].
  - exists ms, msB. split; [done|]. split; [|done]. split; [done| |done]. by rewrite (proj2 (proj2 (proj2 Hsame))).
  - eapply ready_after; [exact (in_flight_sendNo _ _ _ _ _ _ (in_flight_sym _ _ _ _ _ _ Hf))|exact Hr|done..|]. unfold heard. rewrite HevB. unfold received_events. rewrite Hx. simpl.
    rewrite Hname. f_equal. exact (rd_heard _ _ _ _ _ _ Hr).
Qed.
(** *** Whatever happens *)

(** A text as the client with the address [a] sends it *)
Definition literal_of (a : Addr) (t : draft) : bytes :=
  st_literal (NewSaltyText (df_ms t) (addr_user a) (addr_domain a) (df_text t) []).

Definition texts_between (addrL addrR : Addr) (from_left : bool) (t : draft) : bytes :=
  literal_of (if from_left then addrL else addrR) t.

Definition legible_happening (addrL addrR : Addr) (h : happening) : Prop :=
  match h with Say from_left t => is_text (texts_between addrL addrR from_left t) | _ => True end.

Lemma zoom_net {X} (m : ST net X) n x n' qL qR :
  m n = (Ok x, n') → zoom ch_net set_net m (Channel n qL qR) = (Ok x, Channel n' qL qR).
Proof. intros Hm. unfold zoom. cbn [ch_net]. by rewrite Hm. Qed.

Lemma on_lossy_Some (from_left : bool) f qA qB qA' qB' :
  on_lossy from_left f (qA, qB) = Some (qA', qB') →
  if from_left then f qA = Some qA' ∧ qB' = qB else f qB = Some qB' ∧ qA' = qA.
Proof.
  unfold on_lossy. destruct from_left; cbn [fst snd]; [destruct (f qA)|destruct (f qB)]; simpl; intros Hf; by simplify_eq.
Qed.

(** Nothing arrives where nothing is in flight. *)
Lemma connected_idle A B n cA cB a b qA qB rawsB :
  connected A B n cA cB a b qA qB [] rawsB → lo_queue qA = [].
Proof. intros [_ (msA & msB & _ & [Ht Hw _] & _) _ _]. inversion Hw; subst. by rewrite <-Ht. Qed.

Lemma happens_ok A B n h cA cB a b qA qB rawsA rawsB qA' qB' :
  connected A B (S n) cA cB a b qA qB rawsA rawsB → legible_happening (en_addr A) (en_addr B) h →
  lossy_happens (texts_between (en_addr A) (en_addr B)) h (qA, qB) = Some (qA', qB') →
  ∃ cA' cB' a' b' rawsA' rawsB',
    happens (en_name A) (en_name B) h (Channel (cA, cB) rawsA rawsB) = (Ok tt, Channel (cA', cB') rawsA' rawsB') ∧
    connected A B n cA' cB' a' b' qA' qB' rawsA' rawsB'.
Proof.
  intros Hc Hleg Hspec. pose proof (connected_sym _ _ _ _ _ _ _ _ _ _ _ Hc) as Hc'.
  assert (∀ A B c a out t, ready A B (S n) c a out → draft_literal c t = literal_of (en_addr A) t) as Elit
    by (intros ?????? Hr; unfold draft_literal; by rewrite (rd_addr _ _ _ _ _ _ Hr)).
  destruct h as [from_left t|from_left|from_left pos]; apply on_lossy_Some in Hspec; destruct from_left;
    destruct Hspec as [Hspec ->].
  - injection Hspec as <-. unfold legible_happening, texts_between in *. rewrite <-(Elit _ _ _ _ _ t (cn_left _ _ _ _ _ _ _ _ _ _ _ Hc)) in *.
    destruct (connected_say _ _ _ t _ _ _ _ _ _ _ _ Hc Hleg) as (cA' & a' & Hs & Hc1).
    do 6 eexists. split; [|exact Hc1]. cbn [happens]. by st_call (zoom_net _ _ _ _ rawsA rawsB (at_left _ cA cB _ _ Hs)).
  - injection Hspec as <-. unfold legible_happening, texts_between in *. rewrite <-(Elit _ _ _ _ _ t (cn_left _ _ _ _ _ _ _ _ _ _ _ Hc')) in *.
    destruct (connected_say _ _ _ t _ _ _ _ _ _ _ _ Hc' Hleg) as (cB' & b' & Hs & Hc1%connected_sym).
    do 6 eexists. split; [|exact Hc1]. cbn [happens]. by st_call (zoom_net _ _ _ _ rawsA rawsB (at_right _ cA cB _ _ Hs)).
  - injection Hspec as <-. do 6 eexists. split; [reflexivity|]. by apply connected_lose.
  - injection Hspec as <-. do 6 eexists. split; [reflexivity|]. by apply connected_sym, connected_lose.
  - destruct rawsA as [|raw rawsA].
    + unfold lossy_arrive in Hspec. rewrite (connected_idle _ _ _ _ _ _ _ _ _ _ Hc) in Hspec. injection Hspec as <-.
      do 6 eexists. split; [reflexivity|]. destruct Hc as [? ? Hl Hr]. split; [done..|by apply ready_less|by apply ready_less].
    + destruct (connected_arrive _ _ _ pos _ _ _ _ _ _ _ _ _ _ Hc Hspec) as (cB' & b' & Hh & Hc1).
      do 6 eexists. split; [|exact Hc1]. cbn [happens]. st_pure.
      exact (zoom_net _ _ _ _ rawsA rawsB (at_right _ cA cB _ _ Hh)).
  - destruct rawsB as [|raw rawsB].
    + unfold lossy_arrive in Hspec. rewrite (connected_idle _ _ _ _ _ _ _ _ _ _ Hc') in Hspec. injection Hspec as <-.
      do 6 eexists. split; [reflexivity|]. destruct Hc as [? ? Hl Hr]. split; [done..|by apply ready_less|by apply ready_less].
    + destruct (connected_arrive _ _ _ pos _ _ _ _ _ _ _ _ _ _ Hc' Hspec) as (cA' & a' & Hh & Hc1%connected_sym).
      do 6 eexists. split; [|exact Hc1]. cbn [happens]. st_pure.
      exact (zoom_net _ _ _ _ rawsA rawsB (at_left _ cA cB _ _ Hh)).
Qed.

Lemma happen_ok A B hs cA cB a b qA qB rawsA rawsB qA' qB' :
  connected A B (length hs) cA cB a b qA qB rawsA rawsB → Forall (legible_happening (en_addr A) (en_addr B)) hs →
  lossy_happen (texts_between (en_addr A) (en_addr B)) hs (qA, qB) = Some (qA', qB') →
  ∃ cA' cB' a' b' rawsA' rawsB',
    happen (en_name A) (en_name B) hs (Channel (cA, cB) rawsA rawsB) = (Ok tt, Channel (cA', cB') rawsA' rawsB') ∧
    connected A B 0 cA' cB' a' b' qA' qB' rawsA' rawsB'.
Proof.
  revert cA cB a b qA qB rawsA rawsB. induction hs as [|h hs IH]; intros cA cB a b qA qB rawsA rawsB Hc Hleg Hspec.
  - injection Hspec as <- <-. by do 6 eexists.
  - apply Forall_cons in Hleg as [Hh Hleg]. cbn [lossy_happen] in Hspec.
    destruct (lossy_happens _ h (qA, qB)) as [[qA1 qB1]|] eqn:Hspec1; [|done]. cbn in Hspec.
    destruct (happens_ok _ _ _ _ _ _ _ _ _ _ _ _ _ _ Hc Hh Hspec1) as (cA1 & cB1 & a1 & b1 & rA1 & rB1 & H1' & Hc1).
    destruct (IH _ _ _ _ _ _ _ _ Hc1 Hleg Hspec) as (cA' & cB' & a' & b' & rA' & rB' & H2' & Hc2).
    do 6 eexists. split; [|exact Hc2]. cbn [happen]. st_call H1'. exact H2'.
Qed.

(** C6. A lossy network. After the handshake, two clients send whenever they like,
    also both at once, and of what is in flight in each direction the first
    message arrives or gets lost at any time. As long as no more than 32 in a
    row are lost, no call fails, and the clients and the network do what two lossy
    queues of texts do: each client is told of exactly the texts that arrive, in
    order, and as many messages stay in flight as texts in the queues. *)
Theorem lossy_network (cA cB : Client) (nameA nameB idA idB : bytes) (addrA addrB : Addr) (smA smB : Manager)
  (pos pos' : Z) (hs : list happening) (qA qB : lossy)
  (Hmeet : can_meet cA cB nameA nameB idA idB addrA addrB smA smB)
  (Hlen : Z.of_nat (length hs) < 2 ^ 16)
  (HtA : fresh_tape (S (length hs)) [tape_key (c_ent cA)] (drop 64 (c_ent cA)))
  (HtB : fresh_tape (length hs) [tape_key (drop 32 (c_ent cB))] (drop 71 (c_ent cB)))
  (Hleg : Forall (legible_happening (c_addr cA) (c_addr cB)) hs)
  (Hspec : lossy_happen (texts_between (c_addr cA) (c_addr cB)) hs (lossy_new, lossy_new) = Some (qA, qB)) :
  ∃ cA' cB' rawsA rawsB,
    (_ ← zoom ch_net set_net (meet nameA nameB pos pos'); happen nameA nameB hs) (Channel (cA, cB) [] []) =
      (Ok tt, Channel (cA', cB') rawsA rawsB) ∧
    heard cB' = (pair nameA <$> lo_out qA) ++ heard cB ∧ heard cA' = (pair nameB <$> lo_out qB) ++ heard cA ∧
    length rawsA = length (lo_queue qA) ∧ length rawsB = length (lo_queue qB).
Proof.
  destruct (meet_ok cA cB nameA nameB idA idB addrA addrB smA smB pos pos' _ Hmeet Hlen HtA HtB)
    as (cA1 & cB1 & a1 & b1 & Hm & Hit & HhA & HhB & EA & EB & _).
  pose proof (connected_begins _ _ _ _ _ _ _ _ _ Hit) as Hc. rewrite EA, EB, HhA, HhB in Hc.
  destruct (happen_ok _ _ _ _ _ _ _ _ _ _ _ _ _ Hc Hleg Hspec) as (cA' & cB' & a' & b' & rawsA & rawsB & Hh & [_ Hf Hl Hr]).
  exists cA', cB', rawsA, rawsB. split; [st_call (zoom_net _ _ _ _ [] [] Hm); exact Hh|].
  split; [apply Hr|]. split; [apply Hl|]. destruct Hf as (msA & msB & _ & [HtxA HwA _] & [HtxB HwB _]).
  rewrite <-HtxA, <-HtxB, !length_fmap. by rewrite (Forall2_length _ _ _ HwA), (Forall2_length _ _ _ HwB).
Qed.
End Clients.

(** ** Instances *)

#[local] Existing Instances toy_ratchet_crypto toy_ratchet_laws toy_identity_crypto toy_identity_laws
  toy_box_crypto toy_box_laws SRuns.toy_ulid SRuns.toy_ulid_laws ToyWire.toy_wire ToyWire.toy_wire_laws
  ToySalty.toy_salty ToySalty.toy_salty_laws ToyClient.toy_client.

Module ToyLossy.
Definition client (name : string) : Client :=
  mkClient (ToyClient.manager_of (str name)) (ToyClient.addr_of (str name)) (ToyClient.long_tape 512) [] [].

(** Both speak at once, and Alice's first and third text get lost. *)
Definition story : list happening :=
  [Say true (Draft 10 11 (str "one")); Say false (Draft 12 13 (str "hi")); Lose true; Say true (Draft 14 15 (str "two"));
   Arrive false 20; Say true (Draft 16 17 (str "three")); Arrive true 21; Lose true; Say false (Draft 18 19 (str "pardon?"));
   Arrive false 22; Say true (Draft 20 21 (str "four")); Arrive true 23].
End ToyLossy.

Lemma lossy_network_witness :
  ∃ cA' cB' rawsA rawsB,
    (_ ← zoom ch_net set_net (meet (str "alice") (str "bob") 3 4); happen (str "alice") (str "bob") ToyLossy.story)
      (Channel (ToyLossy.client "alice", ToyLossy.client "bob") [] []) = (Ok tt, Channel (cA', cB') rawsA rawsB) ∧
    heard cB' = [(str "alice", str "four"); (str "alice", str "two")] ∧
    heard cA' = [(str "bob", str "pardon?"); (str "bob", str "hi")] ∧ length rawsA = 0%nat ∧ length rawsB = 0%nat.
Proof.
  refine (lossy_network (ToyLossy.client "alice") (ToyLossy.client "bob") (str "alice") (str "bob") (zeros 16) (zeros 16)
    (ToyClient.addr_of (str "alice")) (ToyClient.addr_of (str "bob"))
    (ByName (str "bob") (c_sm (ToyLossy.client "alice"))).2 (ByName (str "alice") (c_sm (ToyLossy.client "bob"))).2 3 4
    ToyLossy.story _ _ _ _ _ _ _ eq_refl).
  - split; [apply toy_identity_key|apply toy_identity_key|reflexivity|by split_and!|by split_and!|reflexivity|reflexivity
           |vm_compute; reflexivity|vm_compute; reflexivity|reflexivity|reflexivity|reflexivity
           |intros f Hf; discriminate Hf|vm_compute; lia|vm_compute; lia|vm_compute; discriminate].
  - reflexivity.
  - toy_fresh.
  - toy_fresh.
  - repeat constructor; by eexists.
Defined.
