(* ===== verification/Crossing.v ===== *)
(** * Offers that cross

    Two clients that start a chat with each other at the same time: both offers
    are on their way when they arrive. Each client answers the other's offer and
    by that overwrites the session that its own offer belongs to. *)

From Stdlib Require Import ZArith Lia.
From stdpp Require Import base list numbers option strings gmap.
From S2P Require Import Prelude Crypto ToyCrypto MsgHeader DhRatchet DoubleRatchet RatchetSync Gob Marshal Liveness Base64 Message X3dh Session DiskSession Client ClientChat Talk.

Local Open Scope Z_scope.

Section Script.
Context `{RatchetCrypto} `{IdentityCrypto} `{BoxCrypto} `{Ulid} `{GobWire} `{SaltyLib} `{ClientLib}.

(** Both start a chat, both offers arrive, both acknowledge, both
    acknowledgements arrive. *)
Definition cross (nameL nameR : bytes) (p1 p2 p3 p4 : Z) : ST net unit :=
  _ ← at_side true (Chat nameR);
  _ ← at_side false (Chat nameL);
  _ ← carry true p1;
  _ ← carry false p2;
  _ ← at_side true (Chat nameR);
  _ ← at_side false (Chat nameL);
  _ ← carry true p3;
  carry false p4.
End Script.

Section Crossing.
Context `{RatchetCryptoLaws} `{!IdentityCrypto} `{!IdentityCryptoLaws} `{!BoxCrypto} `{!BoxCryptoLaws}.
Context `{!Ulid} `{!UlidLaws} `{!GobWire} `{!GobWireLaws} `{!SaltyLib} `{!SaltyLaws} `{!ClientLib}.

Definition already_active : error := Wrapf "session receive: %w" (Errorf "received sessAck while being in an active session").

(** An offer from a peer for whom there is a session already: it makes a new
    session under the old identifier. *)
Lemma chat_crossed pos c nick addr id s xs B0 offer box spk ent :
  sm_sessions (c_sm c) !! nick = Some id → has_session (c_sm c) id s xs → length id = 16%nat →
  can_reach nick addr → ed25519_key (sm_key (c_sm c)) →
  ready B0 → s_doubleRatchet B0 = None → s_VerifyPeer B0 (drop 32 (sm_key (c_sm c))) = true → identity B0 = addr_key addr →
  offer_of B0 spk offer → om_nick offer = nick → (2 <= length box)%nat →
  Unseal box (key_X25519_pair (sm_key (c_sm c))).2 (key_X25519_pair (sm_key (c_sm c))).1 = Ok (Message.Offer offer) →
  (71 <= length (c_ent c))%nat → (32 <= length ent)%nat → x25519 (take 32 ent) basepoint ≠ x25519 spk basepoint →
  ∃ ack d xs' sm', let s' := mkPeerSession nick (addr_key addr) (addr_endpoint addr) (marshalMessage sessAck (Ack ack)) (Some xs') in
    handleRatchet (mkInput pos (marshalMessage sessSealed (Sealed box))) c =
      (Ok tt, mkClient sm' (c_addr c) (drop 71 (c_ent c)) (c_posts c)
                (OnSessionStarted (s_LocalUUID B0) nick ::
                 OnOfferReceived (s_LocalUUID B0) nick (marshalMessage sessAck (Ack ack)) :: c_events c)) ∧
    has_session sm' id s' xs' ∧ sm_sessions sm' !! nick = Some id ∧ sm_key sm' = sm_key (c_sm c) ∧
    s_doubleRatchet xs' = Some d ∧ keys_nonempty d ∧ s_LocalUUID xs' = id ∧ s_spkPriv xs' = [] ∧
    msg_wf (Ack ack) ∧ am_uuid ack = s_LocalUUID B0.
Proof.
  intros Hn Hhas Hid Hr Hkey HB Hnew Hver Hik Hoff Hnick Hbox Hu He Hent Hfresh.
  set (A := fresh_inner id (sm_me (c_sm c)) (sm_key (c_sm c)) addr).
  destruct (handshake_ok B0 A offer spk ent (c_ent c)) as (ack & PA & PB & Hwa & Hau & Hreach & _ & _ & Hah & Hro & _);
    [done|by split|done|done|by apply bool_decide_eq_true|done..|].
  pose proof (ha_tapes _ _ _ _ _ _ Hah) as [_ HeB]. rewrite HeB in Hro.
  assert (keys_nonempty (p_dr PB)) as Hk by (eapply (reachable_keys PB PA); by left).
  set (xs' := set_IdentityKey [] _) in Hro.
  destruct (chat_offered (mkInput pos (marshalMessage sessSealed (Sealed box))) nick addr id (c_sm c) c offer box
    (marshalMessage sessAck (Ack ack)) xs' (drop 71 (c_ent c)) (ByName_again _ _ _ Hn) Hid Hr
    (has_session_private _ _ _ _ Hhas) eq_refl Hbox Hu Hnick) as (sm' & Hh & Hhas' & _ & Ek & Hn' & _);
    [by destruct Hoff as (_ & -> & _); apply HB|done|apply (marshal_pending (Ack ack))|done|done|].
  destruct Hoff as (_ & Hou & _). rewrite Hou in Hh.
  exists ack, (p_dr PB), xs', sm'. split; [exact Hh|]. by split_and!.
Qed.

(** An acknowledgement for a session that is active is refused. *)
Lemma chat_ack_refused pos c id s xs d ack :
  has_session (c_sm c) id s xs → s_doubleRatchet xs = Some d → s_LocalUUID xs = id → msg_wf (Ack ack) → am_uuid ack = id →
  handleRatchet (mkInput pos (marshalMessage sessAck (Ack ack))) c =
    (Ok tt, mkClient (set_pos (int64 (pos + 1)) (c_sm c)) (c_addr c) (c_ent c) (c_posts c)
              (OnError already_active :: c_events c)).
Proof.
  intros Hhas Hd Hlid Hwf Huu. pose proof Hhas as ((_ & Hlu & _) & _). rewrite Hlid in Hlu.
  destruct (readMsg_marshal _ Hwf) as [Hir Hrm]. cbn [msg_type ID] in Hir, Hrm. rewrite Huu, copied_exact in Hrm by done.
  rewrite (handleRatchet_plain (mkInput pos (marshalMessage sessAck (Ack ack))) c id _ _ Hir Hrm I
             (has_session_Get _ _ _ _ Hhas)).
  rewrite (restored_session_active _ s xs _ Hd). cbn [in_Position].
  set (c0 := set_sm (set_pos (int64 (pos + 1)) (c_sm c)) c). unfold catch, deliverMsg.
  rewrite (ST_bind_Err _ _ _ (set_ent (c_ent c) c0) already_active); [reflexivity|].
  unfold receiveMsg, with_peer. change (c_ent c0) with (c_ent c).
  assert (Peer_ReceiveMsg (Ack ack) ((advance s xs (restored 0 d)).1, c_ent c) =
    (Err (Errorf "received sessAck while being in an active session"), ((advance s xs (restored 0 d)).1, c_ent c))) as ->;
    [|reflexivity].
  unfold Peer_ReceiveMsg. apply ST_bind_Err. reflexivity.
Qed.

(** The session for [name] is active without a prekey, and nothing is pending. *)
Definition stuck (sm : Manager) (name id : bytes) : Prop :=
  sm_sessions sm !! name = Some id ∧
  ∃ s xs d, has_session sm id s xs ∧ ps_PendingAck s = [] ∧ s_doubleRatchet xs = Some d ∧ s_LocalUUID xs = id ∧ s_spkPriv xs = [].

Lemma stuck_pos sm name id pos : stuck sm name id → stuck (set_pos pos sm) name id.
Proof. done. Qed.

Lemma stuck_refuses pos c name id ack :
  stuck (c_sm c) name id → msg_wf (Ack ack) → am_uuid ack = id →
  ∃ c', handleRatchet (mkInput pos (marshalMessage sessAck (Ack ack))) c = (Ok tt, c') ∧
    sm_files (c_sm c') = sm_files (c_sm c) ∧ c_events c' = OnError already_active :: c_events c.
Proof.
  intros (_ & s & xs & d & Hhas & _ & Hd & Hl & _) Hwf Hu.
  eexists. split; [by eapply chat_ack_refused|]. done.
Qed.

(** Starting the chat again does nothing. *)
Lemma stuck_chat c name id : stuck (c_sm c) name id → Chat name c = (Ok tt, c).
Proof.
  intros (Hn & s & xs & d & Hhas & Hp & Hd & _). unfold Chat. st_call (getByName_known _ _ _ _ _ Hn Hhas).
  rewrite (restored_session_active _ s xs _ Hd). cbn [advance fst ps_PendingAck]. by rewrite Hp.
Qed.

(** What both sides do is the same. [c1] has made an offer, is reached by the
    other's, answers it and is answered in turn. *)
Lemma cross_side pos c1 nick addr id s xs B0 offer box spk ent :
  sm_sessions (c_sm c1) !! nick = Some id → has_session (c_sm c1) id s xs → length id = 16%nat →
  can_reach nick addr → ed25519_key (sm_key (c_sm c1)) →
  ready B0 → s_doubleRatchet B0 = None → s_VerifyPeer B0 (drop 32 (sm_key (c_sm c1))) = true → identity B0 = addr_key addr →
  offer_of B0 spk offer → om_nick offer = nick → (2 <= length box)%nat →
  Unseal box (key_X25519_pair (sm_key (c_sm c1))).2 (key_X25519_pair (sm_key (c_sm c1))).1 = Ok (Message.Offer offer) →
  (71 <= length (c_ent c1))%nat → (32 <= length ent)%nat → x25519 (take 32 ent) basepoint ≠ x25519 spk basepoint →
  ∃ ack c2 c3, msg_wf (Ack ack) ∧ am_uuid ack = s_LocalUUID B0 ∧ last_post c3 = marshalMessage sessAck (Ack ack) ∧
    handleRatchet (mkInput pos (marshalMessage sessSealed (Sealed box))) c1 = (Ok tt, c2) ∧ c_posts c2 = c_posts c1 ∧
    Chat nick c2 = (Ok tt, c3) ∧
    ∀ pos' ack', msg_wf (Ack ack') → am_uuid ack' = id → ∃ c4,
      handleRatchet (mkInput pos' (marshalMessage sessAck (Ack ack'))) c3 = (Ok tt, c4) ∧
      c_posts c4 = c_posts c3 ∧ stuck (c_sm c4) nick id ∧
      c_events c4 = OnError already_active :: OnSessionStarted id nick :: OnSessionStarted (s_LocalUUID B0) nick ::
                  OnOfferReceived (s_LocalUUID B0) nick (marshalMessage sessAck (Ack ack)) :: c_events c1.
Proof.
  intros Hn Hhas Hid Hr Hkey HB Hnew Hver Hik Hoff Hnick Hbox Hu He Hent Hfresh.
  destruct (chat_crossed pos c1 nick addr id s xs B0 offer box spk ent Hn Hhas Hid Hr Hkey HB Hnew Hver Hik Hoff Hnick Hbox Hu
    He Hent Hfresh) as (ack & d & xs' & sm2 & Hh & Hhas2 & Hn2 & _ & Hd & Hk & Hl & Hp & Hwf & Hau).
  set (c2 := mkClient sm2 _ _ _ _) in Hh. set (s2 := mkPeerSession nick _ _ _ _) in Hhas2.
  destruct (chat_ack nick id c2 s2 xs' d Hn2 Hhas2 Hd Hk (marshal_pending (Ack ack)))
    as (sm3 & Hchat & Hhas3 & Ht3); [apply Hr|].
  set (c3 := mkClient sm3 _ _ _ _) in Hchat.
  set (sx := advance (set_PendingAck [] s2) xs' (restored 0 d)) in *.
  exists ack, c2, c3. split; [done|]. split; [done|]. split; [reflexivity|]. split; [exact Hh|]. split; [done|].
  split; [exact Hchat|]. intros pos' ack' Hwf' Hu'.
  eexists. split; [exact (chat_ack_refused pos' c3 id sx.1 sx.2 (restored 0 d) ack' Hhas3 eq_refl Hl Hwf' Hu')|].
  split; [done|]. split; [|simpl; by rewrite Hl].
  apply stuck_pos. split; [simpl; by rewrite (to_sessions _ _ _ Ht3)|]. exists sx.1, sx.2, (restored 0 d). by split_and!.
Qed.

(** C27. Offers that cross block the chat. If two clients start a chat with each
    other before either offer arrives, all eight calls succeed and both are told
    that the session has started; but each has overwritten the session of its
    own offer, and refuses the acknowledgement of it. Both are left with an active
    session that the other has no counterpart of: the prekeys of the two offers
    are on file nowhere, every further acknowledgement is refused, and starting
    the chat again does nothing. *)
Theorem crossing_offers_block (cA cB : Client) (nameA nameB idA idB : bytes) (addrA addrB : Addr) (smA smB : Manager)
  (p1 p2 p3 p4 : Z)
  (HmA : can_meet cA cB nameA nameB idA idB addrA addrB smA smB)
  (HmB : can_meet cB cA nameB nameA idB idA addrB addrA smB smA)
  (HeA : (135 <= length (c_ent cA))%nat) (HeB : (135 <= length (c_ent cB))%nat) :
  ∃ offerA offerB ackA ackB cA' cB',
    cross nameA nameB p1 p2 p3 p4 (cA, cB) = (Ok tt, (cA', cB')) ∧
    c_events cA' = OnError already_active :: OnSessionStarted idA nameB :: OnSessionStarted idB nameB ::
                   OnOfferReceived idB nameB ackA :: OnOfferSent idA nameB offerA :: c_events cA ∧
    c_events cB' = OnError already_active :: OnSessionStarted idB nameA :: OnSessionStarted idA nameA ::
                   OnOfferReceived idA nameA ackB :: OnOfferSent idB nameA offerB :: c_events cB ∧
    stuck (c_sm cA') nameB idA ∧ stuck (c_sm cB') nameA idB ∧
    Chat nameB cA' = (Ok tt, cA') ∧ Chat nameA cB' = (Ok tt, cB') ∧
    ∀ pos ack, msg_wf (Ack ack) → am_uuid ack = idA →
      ∃ c, handleRatchet (mkInput pos (marshalMessage sessAck (Ack ack))) cA' = (Ok tt, c) ∧
        sm_files (c_sm c) = sm_files (c_sm cA') ∧ c_events c = OnError already_active :: c_events cA'.
Proof.
  destruct HmA as [HkA HkB HmeA HrA HrB HpA HpB HnA HnB HlA HlB HfA _ _ _ HfrA].
  destruct HmB as [_ _ HmeB _ _ _ _ _ _ _ _ HfB _ _ _ HfrB].
  destruct (key_X25519_ok _ HkB) as [HxB HxPB]. rewrite <-HpB in HxB. rewrite <-HxB in HxPB.
  destruct (key_X25519_ok _ HkA) as [HxA HxPA]. rewrite <-HpA in HxA. rewrite <-HxA in HxPA.
  destruct (chat_offer nameB addrB _ idA smA cA HnA HlA HkA HrB HxPB ltac:(lia) HfA)
    as (offerA & boxA & smA1 & HoffA & HnickA & HboxA & HunA & HchatA & HhasA & _ & HkeyA1 & HnA1 & _).
  destruct (chat_offer nameA addrA _ idB smB cB HnB HlB HkB HrA HxPA ltac:(lia) HfB)
    as (offerB & boxB & smB1 & HoffB & HnickB & HboxB & HunB & HchatB & HhasB & _ & HkeyB1 & HnB1 & _).
  set (A := fresh_inner idA (sm_me (c_sm cA)) (sm_key (c_sm cA)) addrB) in *.
  set (B := fresh_inner idB (sm_me (c_sm cB)) (sm_key (c_sm cB)) addrA) in *.
  set (cA1 := mkClient smA1 _ _ _ _) in HchatA. set (cB1 := mkClient smB1 _ _ _ _) in HchatB.
  destruct (cross_side p2 cA1 nameB addrB idA _ _ B offerB boxB (take 32 (c_ent cB)) (drop 64 (c_ent cB)) HnA1 HhasA HlA HrB)
    as (ackA & cA2 & cA3 & HwA & HuA & HpostA & HhA & _ & HcA & HrefA); simpl sm_key; rewrite ?HkeyA1;
    [done|by split|done|by apply bool_decide_eq_true|done|done|congruence|done|by rewrite <-HxA|simpl; len|len|done|].
  destruct (cross_side p1 cB1 nameA addrA idB _ _ A offerA boxA (take 32 (c_ent cA)) (drop 64 (c_ent cA)) HnB1 HhasB HlB HrA)
    as (ackB & cB2 & cB3 & HwB & HuB & HpostB & HhB & HpB2 & HcB & HrefB); simpl sm_key; rewrite ?HkeyB1;
    [done|by split|done|by apply bool_decide_eq_true|done|done|congruence|done|by rewrite <-HxB|simpl; len|len|done|].
  destruct (HrefA p4 ackB HwB HuB) as (cA4 & HlastA & _ & HstA & HevA),
    (HrefB p3 ackA HwA HuA) as (cB4 & HlastB & HpB4 & HstB & HevB).
  do 4 eexists. exists cA4, cB4. split.
  { unfold cross. st_call (at_left _ cA cB _ _ HchatA). st_call (at_right _ cA1 cB _ _ HchatB).
    st_call (carry_left p1 cA1 cB1 _ HhB).
    assert (carry false p2 (cA1, cB2) = (Ok tt, (cA2, cB2))) as Hc2.
    { apply carry_right. unfold last_post. rewrite HpB2. exact HhA. }
    st_call Hc2. st_call (at_left _ cA2 cB2 _ _ HcA). st_call (at_right _ cA3 cB2 _ _ HcB).
    rewrite <-HpostA in HlastB. st_call (carry_left p3 cA3 cB3 _ HlastB).
    apply carry_right. unfold last_post. rewrite HpB4. unfold last_post in HpostB. rewrite HpostB. exact HlastA. }
  split; [exact HevA|]. split; [exact HevB|]. split; [done|]. split; [done|].
  split; [by eapply stuck_chat|]. split; [by eapply stuck_chat|]. intros pos ack Hwf Hu. by eapply stuck_refuses.
Qed.
End Crossing.

(** ** Instances *)

#[local] Existing Instances toy_ratchet_crypto toy_ratchet_laws toy_identity_crypto toy_identity_laws
  toy_box_crypto toy_box_laws SRuns.toy_ulid SRuns.toy_ulid_laws ToyWire.toy_wire ToyWire.toy_wire_laws
  ToySalty.toy_salty ToySalty.toy_salty_laws ToyClient.toy_client.

Lemma crossing_offers_block_witness :
  ∃ offerA offerB ackA ackB cA' cB',
    cross (str "alice") (str "bob") 3 4 5 6 (ToyClient.alice, ToyClient.bob) = (Ok tt, (cA', cB')) ∧
    c_events cA' = [OnError already_active; OnSessionStarted (zeros 16) (str "bob"); OnSessionStarted (zeros 16) (str "bob");
                    OnOfferReceived (zeros 16) (str "bob") ackA; OnOfferSent (zeros 16) (str "bob") offerA] ∧
    c_events cB' = [OnError already_active; OnSessionStarted (zeros 16) (str "alice"); OnSessionStarted (zeros 16) (str "alice");
                    OnOfferReceived (zeros 16) (str "alice") ackB; OnOfferSent (zeros 16) (str "alice") offerB] ∧
    Chat (str "bob") cA' = (Ok tt, cA').
Proof.
  destruct (crossing_offers_block ToyClient.alice ToyClient.bob (str "alice") (str "bob") (zeros 16) (zeros 16)
    (ToyClient.addr_of (str "alice")) (ToyClient.addr_of (str "bob"))
    (ByName (str "bob") (c_sm ToyClient.alice)).2 (ByName (str "alice") (c_sm ToyClient.bob)).2 3 4 5 6)
    as (oA & oB & aA & aB & cA' & cB' & Hc & HeA & HeB & _ & _ & Hchat & _).
  1-2: split; [apply toy_identity_key|apply toy_identity_key|reflexivity|by split_and!|by split_and!|reflexivity|reflexivity
           |vm_compute; reflexivity|vm_compute; reflexivity|reflexivity|reflexivity|reflexivity
           |intros f Hf; discriminate Hf|vm_compute; lia|vm_compute; lia|vm_compute; discriminate].
  - vm_compute. lia.
  - vm_compute. lia.
  - exists oA, oB, aA, aB, cA', cB'. split; [exact Hc|]. split; [exact HeA|]. split; [exact HeB|exact Hchat].
Defined.
