(* ===== verification/Town.v ===== *)
(** * Many clients at once

    A town is a client for every name. Any two of its people may meet, talk and
    part, in any order and any number of times, while the chats with all others go
    on: the sessions of one client are in different files of one directory, under
    different names of one index, and draw on one random source. *)

From Stdlib Require Import ZArith Lia.
From stdpp Require Import base list numbers option strings gmap functions.
From S2P Require Import Prelude Crypto ToyCrypto MsgHeader DhRatchet DoubleRatchet RatchetSync Gob Marshal Liveness Base64 Message X3dh Session DiskSession Client ClientChat Talk.

Local Open Scope Z_scope.

Abbreviation town := (bytes → Client).

(** ** What people do *)

Inductive deed :=
  | Meets (x y : bytes) (pos pos' : Z)
  | Tells (x y : bytes) (ms ms' pos : Z) (text : bytes)
  | Parts (x y : bytes) (pos : Z).

Section Town.
Context `{RatchetCrypto} `{IdentityCrypto} `{BoxCrypto} `{Ulid} `{GobWire} `{SaltyLib} `{ClientLib}.

(** Two clients of the town and the network between them *)
Definition between {A} (x y : bytes) (m : ST net A) : ST town A :=
  zoom (λ T, (T x, T y)) (λ n T, <[y := n.2]> (<[x := n.1]> T)) m.

(** The end of a chat, by the left client *)
Definition part (nameR : bytes) (pos : Z) : ST net unit :=
  _ ← at_side true (CloseChat nameR);
  carry true pos.

Definition perform (d : deed) : ST town unit :=
  match d with
  | Meets x y pos pos' => between x y (meet x y pos pos')
  | Tells x y ms ms' pos text => between x y (say x y (Line true ms ms' pos text))
  | Parts x y pos => between x y (part y pos)
  end.

Fixpoint live (ds : list deed) : ST town unit :=
  match ds with
  | [] => mret tt
  | d :: ds => _ ← perform d; live ds
  end.

(** What the text of a deed is read as, and what a person is told, first thing
    first, with the name of who says it *)
Definition words (T : town) (x : bytes) (ms : Z) (text : bytes) : bytes :=
  st_literal (NewSaltyText ms (addr_user (c_addr (T x))) (addr_domain (c_addr (T x))) text []).

Definition told (T : town) (z : bytes) (ds : list deed) : list (bytes * bytes) :=
  omap (λ d, if d is Tells x y ms _ _ text then
               if bool_decide (y = z) then Some (x, words T x ms text) else None
             else None) ds.

(** Every text can be read as a text again. *)
Definition readable (T : town) (ds : list deed) : Prop :=
  Forall (λ d, if d is Tells x _ ms _ _ text then ∃ t, ParseSalty (words T x ms text) = Ok (SText t) else True) ds.
End Town.

(** Who is in a chat with whom, in both orders *)
Abbreviation chats := (gset (bytes * bytes)).

(** A story makes sense if strangers meet, and people talk and part who are in a
    chat. *)
Definition next_chats (people : gset bytes) (d : deed) (ps : chats) : option chats :=
  match d with
  | Meets x y _ _ =>
      if decide (x ∈ people ∧ y ∈ people ∧ x ≠ y ∧ (x, y) ∉ ps) then Some ({[(x, y); (y, x)]} ∪ ps) else None
  | Tells x y _ _ _ _ => if decide ((x, y) ∈ ps) then Some ps else None
  | Parts x y _ => if decide ((x, y) ∈ ps) then Some (ps ∖ {[(x, y); (y, x)]}) else None
  end.

Fixpoint sensible (people : gset bytes) (ds : list deed) (ps : chats) : bool :=
  match ds with
  | [] => true
  | d :: ds => match next_chats people d ps with Some ps' => sensible people ds ps' | None => false end
  end.

(** ** One random source for many sessions *)

Section Tape.
Context `{RatchetCryptoLaws}.

(** Key pairs drawn at different places of the tape are different. *)
Definition distinct_keys (e : entropy) : Prop :=
  ∀ i j, (i + 32 <= j)%nat → (j + 32 <= length e)%nat → tape_key (drop i e) ≠ tape_key (drop j e).

(** [e] is what is left of [e0]. *)
Definition tail_of (e0 e : entropy) : Prop := ∃ k, e = drop k e0.

(** The keys were drawn from the part of [e0] that is gone. *)
Definition behind (e0 e : entropy) (used : list bytes) : Prop :=
  ∀ u, u ∈ used → ∃ i, (i + 32 + length e <= length e0)%nat ∧ u = tape_key (drop i e0).

Lemma tail_of_drop k e0 e : tail_of e0 e → tail_of e0 (drop k e).
Proof. intros [j ->]. exists (j + k)%nat. by rewrite drop_drop. Qed.

Lemma behind_drop k e0 e used : behind e0 e used → behind e0 (drop k e) used.
Proof. intros Hb u (i & Hi & Hu)%Hb. exists i. rewrite length_drop. split; [lia|done]. Qed.

Lemma behind_less e0 e used used' : used' ⊆ used → behind e0 e used → behind e0 e used'.
Proof. intros Hs Hb u Hu. by apply Hb, Hs. Qed.

(** A key of the tape, once more has been drawn *)
Lemma behind_key e0 e i k :
  tail_of e0 e → (i + 32 <= k)%nat → (k <= length e)%nat → behind e0 (drop k e) [tape_key (drop i e)].
Proof.
  intros [j ->] Hi Hk u ->%list_elem_of_singleton. exists (j + i)%nat. rewrite !drop_drop.
  split; [|done]. rewrite !length_drop in *. destruct (decide (j <= length e0)%nat); lia.
Qed.

Lemma behind_app e0 e us vs : behind e0 e us → behind e0 e vs → behind e0 e (us ++ vs).
Proof. intros Hu Hv u [Hx|Hx]%elem_of_app; [by apply Hu|by apply Hv]. Qed.

Lemma behind_fresh n e0 e used :
  distinct_keys e0 → tail_of e0 e → behind e0 e used → (32 * n <= length e)%nat → fresh_tape n used e.
Proof.
  intros Hd. revert e used. induction n as [|n IH]; intros e used Ht Hb Hl; [done|].
  split; [lia|]. split.
  - intros (i & Hi & Hu)%Hb. destruct Ht as [k ->]. rewrite length_drop in *.
    apply (Hd i k); [lia|lia|done].
  - apply IH; [by apply tail_of_drop| |rewrite length_drop; lia].
    apply (behind_app _ _ [_]); [|by apply behind_drop].
    apply (behind_key e0 e 0 32 Ht); lia.
Qed.

Lemma behind_nil e0 e : behind e0 e [].
Proof. by intros u Hu%not_elem_of_nil. Qed.

(** Receiving keeps the books. *)
Lemma behind_spends e0 P P' e :
  tail_of e0 (p_ent P) → behind e0 (p_ent P) (p_used P) → (32 <= length (p_ent P))%nat → spends P P' → e = p_ent P' →
  behind e0 e (p_used P') ∧ ∃ k, (k <= 96)%nat ∧ e = drop k (p_ent P).
Proof.
  intros Ht Hb Hl [[He Hu]|[He Hu]] ->; rewrite He.
  - split; [by eapply behind_less|by exists 0%nat; split; [lia|]].
  - split; [|exists 32%nat; split; [lia|done]]. eapply behind_less; [exact Hu|].
    apply (behind_app _ _ [_]); [|by apply behind_drop]. apply (behind_key e0 (p_ent P) 0 32 Ht); lia.
Qed.
End Tape.

(** ** One person *)

Section Person.
Context `{RatchetCryptoLaws} `{!IdentityCrypto} `{!IdentityCryptoLaws} `{!BoxCrypto} `{!BoxCryptoLaws}.
Context `{!Ulid} `{!UlidLaws} `{!GobWire} `{!GobWireLaws} `{!SaltyLib} `{!SaltyLaws} `{!ClientLib}.

(** A client that may take part in [K] deeds: it knows nobody, can be reached, has
    random bytes, and the identifiers that it will make have file names of their
    own. *)
Record resident (K : nat) (x : bytes) (c : Client) : Prop := {
  rs_me : sm_me (c_sm c) = x;
  rs_key : ed25519_key (sm_key (c_sm c));
  rs_reach : ∃ addr, can_reach x addr ∧ addr_key addr = drop 32 (sm_key (c_sm c));
  rs_sessions : sm_sessions (c_sm c) = ∅;
  rs_files : ∀ i, (sm_made (c_sm c) <= i)%nat → (i < sm_made (c_sm c) + K)%nat →
    sm_files (c_sm c) !! sessionhash x (ulid_Make i) = None;
  rs_names : ∀ i j, (sm_made (c_sm c) <= i)%nat → (i < j)%nat → (j < sm_made (c_sm c) + K)%nat →
    sessionhash x (ulid_Make i) ≠ sessionhash x (ulid_Make j);
  rs_tape : distinct_keys (c_ent c) ∧ (96 * K <= length (c_ent c))%nat;
}.

(** The same client later, in the chats [ps] and with [n] deeds to come *)
Record person (K : nat) (c0 : Client) (x : bytes) (ps : chats) (n : nat) (c : Client) : Prop := {
  pe_me : sm_me (c_sm c) = x;
  pe_key : sm_key (c_sm c) = sm_key (c_sm c0);
  pe_addr : c_addr c = c_addr c0;
  pe_made : (sm_made (c_sm c0) <= sm_made (c_sm c))%nat ∧ (sm_made (c_sm c) + n <= sm_made (c_sm c0) + K)%nat;
  pe_ids : ∀ y id, sm_sessions (c_sm c) !! y = Some id →
    ∃ i, (sm_made (c_sm c0) <= i < sm_made (c_sm c))%nat ∧ id = ulid_Make i;
  pe_inj : ∀ y z id, sm_sessions (c_sm c) !! y = Some id → sm_sessions (c_sm c) !! z = Some id → y = z;
  pe_strangers : ∀ y, ((x, y) ∉ ps) → sm_sessions (c_sm c) !! y = None;
  pe_files : ∀ i, (sm_made (c_sm c) <= i)%nat → (i < sm_made (c_sm c0) + K)%nat →
    sm_files (c_sm c) !! sessionhash x (ulid_Make i) = None;
  pe_tape : tail_of (c_ent c0) (c_ent c) ∧ (96 * n <= length (c_ent c))%nat;
}.

Lemma resident_person K x c : resident K x c → person K c x ∅ K c.
Proof.
  intros [Hme _ _ Hs Hf _ [_ Hl]]. split; try done.
  - intros y id. by rewrite Hs, lookup_empty.
  - intros y z id. by rewrite Hs, lookup_empty.
  - intros y _. by rewrite Hs, lookup_empty.
  - split; [by exists 0%nat|done].
Qed.

(** What a deed with [y] does to the index of [x], before the session [id] is
    written or deleted *)
Inductive turn (x y id : bytes) (c : Client) : Manager → chats → chats → Prop :=
  | turn_meet sm ps :
      ((x, y) ∉ ps) → ByName y (c_sm c) = (Ok id, sm) → turn x y id c sm ps ({[(x, y); (y, x)]} ∪ ps)
  | turn_tell ps :
      sm_sessions (c_sm c) !! y = Some id → turn x y id c (c_sm c) ps ps
  | turn_part ps :
      sm_sessions (c_sm c) !! y = Some id →
      turn x y id c (set_sessions (delete y (sm_sessions (c_sm c))) (c_sm c)) ps (ps ∖ {[(x, y); (y, x)]}).

Context (K : nat) (c0 : Client) (x : bytes) (Hres : resident K x c0).

(** Strangers get a new identifier. *)
Lemma person_ByName ps n y c :
  person K c0 x ps n c → ((x, y) ∉ ps) →
  ByName y (c_sm c) = (Ok (ulid_Make (sm_made (c_sm c))),
    mkManager (sm_me (c_sm c)) (sm_key (c_sm c)) (sm_pos (c_sm c))
      (<[y := ulid_Make (sm_made (c_sm c))]> (sm_sessions (c_sm c))) (sm_files (c_sm c)) (S (sm_made (c_sm c)))).
Proof. intros Hp Hn. unfold ByName. by rewrite (pe_strangers _ _ _ _ _ _ Hp y Hn). Qed.

(** Who is out of a deed stays as it is. *)
Lemma person_waits ps ps' n c :
  (∀ y, (x, y) ∉ ps' → (x, y) ∉ ps) → person K c0 x ps (S n) c → person K c0 x ps' n c.
Proof.
  intros Hps [? ? ? [? ?] ? ? Hst ? [? ?]]. split; try done.
  - split; [done|lia].
  - intros y Hy. by apply Hst, Hps.
  - split; [done|lia].
Qed.

(** A deed gives its session a file of its own. *)
Lemma turn_file ps ps' n y id c sm :
  person K c0 x ps (S n) c → turn x y id c sm ps ps' →
  (∃ i, (sm_made (c_sm c0) <= i < sm_made sm)%nat ∧ id = ulid_Make i) ∧
  (sm_made (c_sm c) <= sm_made sm <= S (sm_made (c_sm c)))%nat ∧
  sm_me sm = x ∧ sm_files sm = sm_files (c_sm c) ∧ sm_key sm = sm_key (c_sm c) ∧
  (∀ z, z ≠ y → sm_sessions sm !! z = sm_sessions (c_sm c) !! z) ∧
  ∀ z idz, z ≠ y → sm_sessions (c_sm c) !! z = Some idz → sessionhash x idz ≠ sessionhash x id.
Proof.
  intros Hp Ht. pose proof Hp as [Hme Hkey _ [Hm1 Hm2] Hids Hinj Hst _ _].
  assert (∀ i j, (sm_made (c_sm c0) <= i)%nat → (sm_made (c_sm c0) <= j)%nat → (i < sm_made (c_sm c0) + K)%nat →
    (j < sm_made (c_sm c0) + K)%nat → i ≠ j → sessionhash x (ulid_Make i) ≠ sessionhash x (ulid_Make j)) as Hne.
  { intros i j ? ? ? ? ?. destruct (decide (i < j)%nat); [by apply (rs_names _ _ _ Hres)|].
    apply not_eq_sym, (rs_names _ _ _ Hres); [done|lia|done]. }
  assert (∀ z idz, z ≠ y → sm_sessions (c_sm c) !! y = Some id → sm_sessions (c_sm c) !! z = Some idz →
    sessionhash x idz ≠ sessionhash x id) as Hold.
  { intros z idz Hz Hy Hidz. destruct (Hids _ _ Hy) as (i & Hi & Hid), (Hids _ _ Hidz) as (j & Hj & Hjd).
    rewrite Hid, Hjd. apply Hne; try lia. intros ->. apply Hz, (Hinj z y id); congruence. }
  destruct Ht as [sm ps Hn Hb|ps Hy|ps Hy].
  - rewrite (person_ByName _ _ _ _ Hp Hn) in Hb. injection Hb as <- <-. simpl.
    split; [exists (sm_made (c_sm c)); split; [lia|done]|]. split; [lia|].
    do 3 (split; [done|]). split; [intros z Hz; by rewrite lookup_insert_ne by (by apply not_eq_sym)|].
    intros z idz Hz Hidz. destruct (Hids _ _ Hidz) as (j & Hj & ->). apply Hne; lia.
  - split; [by apply (Hids y)|]. split; [lia|]. do 4 (split; [done|]). intros z idz Hz. by apply Hold.
  - simpl. split; [by apply (Hids y)|]. split; [lia|]. do 3 (split; [done|]).
    split; [intros z Hz; by rewrite lookup_delete_ne by (by apply not_eq_sym)|]. intros z idz Hz. by apply Hold.
Qed.

(** After a deed *)
Lemma person_turn ps ps' n y id c c' sm :
  person K c0 x ps (S n) c → turn x y id c sm ps ps' → touches id sm (c_sm c') → c_addr c' = c_addr c →
  (∃ k, (k <= 96)%nat ∧ c_ent c' = drop k (c_ent c)) → person K c0 x ps' n c'.
Proof.
  intros Hp Ht [Tme Tkey Tses Tmade Tf] Haddr (k & Hk & He).
  destruct (turn_file _ _ _ _ _ _ _ Hp Ht) as ((i & Hi & Hid) & Hmade & Eme & Efs & Ekey & Hoth & _).
  pose proof Hp as [Hme Hkey Ha [Hm1 Hm2] Hids Hinj Hst Hf [Htl Hl]]. split.
  - congruence.
  - congruence.
  - congruence.
  - rewrite Tmade. lia.
  - intros z idz. rewrite Tses, Tmade. destruct (decide (z = y)) as [->|Hz].
    + intros Hy. exists i. split; [done|]. destruct Ht as [sm ps Hn Hb|ps Hy'|ps Hy'].
      * rewrite (person_ByName _ _ _ _ Hp Hn) in Hb. injection Hb as <- <-. simpl in *.
        rewrite lookup_insert, decide_True in Hy by done. congruence.
      * congruence.
      * simpl in Hy. by rewrite lookup_delete, decide_True in Hy.
    + rewrite Hoth by done. intros (j & Hj & ->)%Hids. exists j. split; [lia|done].
  - intros z1 z2 idz. rewrite Tses. destruct Ht as [sm ps Hn Hb|ps Hy|ps Hy]; [|by apply Hinj|].
    + rewrite (person_ByName _ _ _ _ Hp Hn) in Hb. injection Hb as Eid <-. simpl.
      intros [[<- <-]|[? L1]]%lookup_insert_Some [[<- E2]|[? L2]]%lookup_insert_Some; try done.
      * apply Hids in L2 as (j & Hj & E). destruct (rs_names _ _ _ Hres j (sm_made (c_sm c))); try lia. by rewrite E.
      * apply Hids in L1 as (j & Hj & E). destruct (rs_names _ _ _ Hres j (sm_made (c_sm c))); try lia. by rewrite E2, E.
      * by eapply Hinj.
    + simpl. intros [_ L1]%lookup_delete_Some [_ L2]%lookup_delete_Some. by eapply Hinj.
  - intros z Hz. rewrite Tses. destruct Ht as [sm ps Hn Hb|ps Hy|ps Hy]; [| |].
    + rewrite (person_ByName _ _ _ _ Hp Hn) in Hb. injection Hb as _ <-. simpl.
      rewrite lookup_insert_ne by set_solver. apply Hst. set_solver.
    + by apply Hst.
    + simpl. destruct (decide (y = z)) as [->|Hne]; [by rewrite lookup_delete, decide_True|].
      rewrite lookup_delete_ne by done. destruct (decide ((x, z) ∈ ps)); [|by apply Hst].
      exfalso. apply Hz. apply elem_of_difference. split; [done|]. set_unfold. intros [?|?]; simplify_eq.
  - intros j Hj1 Hj2. rewrite Tmade in Hj1. rewrite Tf, Efs; [apply Hf; lia|].
    rewrite Eme, Hid. apply not_eq_sym, (rs_names _ _ _ Hres); lia.
  - rewrite He. split; [by apply tail_of_drop|rewrite length_drop; lia].
Qed.
End Person.

(** ** Two people *)

Section Pair.
Context `{RatchetCryptoLaws} `{!IdentityCrypto} `{!IdentityCryptoLaws} `{!BoxCrypto} `{!BoxCryptoLaws}.
Context `{!Ulid} `{!UlidLaws} `{!GobWire} `{!GobWireLaws} `{!SaltyLib} `{!SaltyLaws} `{!ClientLib}.

(** A chat of two clients, whose random sources were [eA] and [eB] at first *)
Definition bond (eA eB : entropy) (x y : bytes) (n : nat) (cA cB : Client) : Prop :=
  ∃ idA idB a b, in_touch x y n cA cB idA idB a b ∧
    behind eA (c_ent cA) (p_used (sd_P a)) ∧ behind eB (c_ent cB) (p_used (sd_P b)).

Lemma bond_sym eA eB x y n cA cB : bond eA eB x y n cA cB → bond eB eA y x n cB cA.
Proof. intros (idA & idB & a & b & Hi & HA & HB). exists idB, idA, b, a. split; [by apply in_touch_sym|done]. Qed.

(** A deed with somebody else keeps the session with [z]. *)
Definition keeps (z : bytes) (c c' : Client) : Prop :=
  (∃ k, (k <= 96)%nat ∧ c_ent c' = drop k (c_ent c)) ∧
  ∀ id s xs, sm_sessions (c_sm c) !! z = Some id → has_session (c_sm c) id s xs →
    sm_sessions (c_sm c') !! z = Some id ∧ has_session (c_sm c') id s xs.

Lemma keeps_refl z c : keeps z c c.
Proof. split; [by exists 0%nat; split; [lia|]|done]. Qed.

Lemma turn_keeps K c0 x ps ps' n y id c c' sm z :
  resident K x c0 → person K c0 x ps (S n) c → turn x y id c sm ps ps' → touches id sm (c_sm c') →
  (∃ k, (k <= 96)%nat ∧ c_ent c' = drop k (c_ent c)) → z ≠ y → keeps z c c'.
Proof.
  intros Hr Hp Ht Hto He Hz. split; [done|]. intros idz s xs Hidz (Hst & Hent & f & Hf & Hm).
  destruct (turn_file K c0 x Hr _ _ _ _ _ _ _ Hp Ht) as (_ & _ & Eme & Efs & Ekey & Hoth & Hne).
  split; [by rewrite (to_sessions _ _ _ Hto), Hoth|]. apply (has_session_touches id idz sm); [done| |].
  - rewrite Eme. by eapply Hne.
  - split; [done|]. split; [done|]. exists f. rewrite Eme, Efs. by rewrite (pe_me _ _ _ _ _ _ Hp) in Hf.
Qed.

(** The tape of a client is as good as it was. *)
Definition good_tape (e0 : entropy) (n : nat) (e : entropy) : Prop :=
  distinct_keys e0 ∧ tail_of e0 e ∧ (96 * n <= length e)%nat.

Lemma person_tape K c0 x ps n c : resident K x c0 → person K c0 x ps n c → good_tape (c_ent c0) n (c_ent c).
Proof. intros Hr Hp. split; [apply Hr|apply Hp]. Qed.

Lemma good_tape_fresh e0 n e used : good_tape e0 n e → behind e0 e used → fresh_tape n used e.
Proof. intros (Hd & Ht & Hl) Hb. apply (behind_fresh n e0); try done. lia. Qed.

Lemma bond_stays eA eB x y n cA cA' cB cB' :
  bond eA eB x y (S n) cA cB → keeps y cA cA' → keeps x cB cB' →
  good_tape eA n (c_ent cA') → good_tape eB n (c_ent cB') → bond eA eB x y n cA' cB'.
Proof.
  intros (idA & idB & a & b & [(HA & HB & Hl & ER) Hstep [HrA HrB] _ Hpend Hnames [HiA HiB] Hposts] & HbA & HbB)
    [(k & _ & EA) KA] [(l & _ & EB) KB] HtA HtB.
  destruct (KA _ _ _ HiA HA) as [HiA' HA'], (KB _ _ _ HiB HB) as [HiB' HB'].
  pose proof (behind_drop k _ _ _ HbA) as HbA'. pose proof (behind_drop l _ _ _ HbB) as HbB'. rewrite <-EA in HbA'. rewrite <-EB in HbB'.
  exists idA, idB, a, b. split; [|done]. split; try done.
  - split; by apply room_less.
  - split; by eapply good_tape_fresh.
Qed.

(** A text between two people *)
Lemma tell_ok eA eB x y n ms ms' pos text cA cB :
  bond eA eB x y (S n) cA cB → tail_of eB (c_ent cB) → (96 * S n <= length (c_ent cB))%nat →
  let lit := st_literal (NewSaltyText ms (addr_user (c_addr cA)) (addr_domain (c_addr cA)) text []) in
  (∃ t, ParseSalty lit = Ok (SText t)) →
  ∃ idA idB cA' cB', say x y (Line true ms ms' pos text) (cA, cB) = (Ok tt, (cA', cB')) ∧
    bond eA eB x y n cA' cB' ∧
    sm_sessions (c_sm cA) !! y = Some idA ∧ sm_sessions (c_sm cB) !! x = Some idB ∧
    same_client idA cA cA' ∧ same_client idB cB cB' ∧
    heard cA' = heard cA ∧ heard cB' = (x, lit) :: heard cB ∧
    c_ent cA' = c_ent cA ∧ ∃ k, (k <= 96)%nat ∧ c_ent cB' = drop k (c_ent cB).
Proof.
  intros (idA & idB & a & b & Hit & HbA & HbB) Htail Hlen lit Hlit.
  destruct (in_touch_step x y n ms ms' pos text cA cB idA idB a b Hit Hlit)
    as (cA' & cB' & a' & b' & Hsend & Hhand & Hit' & HhA & HhB & HcA & HcB & HeA & HuA & Hsp & HeB).
  destruct (behind_spends eB (restored_party (sd_P b) (c_ent cB)) (sd_P b') (c_ent cB') Htail HbB ltac:(simpl; lia) Hsp HeB)
    as [HbB' Hk].
  exists idA, idB, cA', cB'. split.
  { unfold say. cbn [ln_left ln_ms ln_ms' ln_pos ln_text]. st_call (at_left _ cA cB _ _ Hsend). by apply carry_left. }
  split; [exists idA, idB, a', b'; split; [done|]; split; [rewrite HeA; by eapply behind_less|done]|].
  split; [apply (it_ids _ _ _ _ _ _ _ _ _ Hit)|]. split; [apply (it_ids _ _ _ _ _ _ _ _ _ Hit)|]. done.
Qed.

(** The end of a chat *)
Lemma part_ok eA eB x y n pos cA cB :
  bond eA eB x y n cA cB →
  ∃ idA idB cA' cB', part y pos (cA, cB) = (Ok tt, (cA', cB')) ∧
    sm_sessions (c_sm cA) !! y = Some idA ∧ sm_sessions (c_sm cB) !! x = Some idB ∧
    touches idA (set_sessions (delete y (sm_sessions (c_sm cA))) (c_sm cA)) (c_sm cA') ∧
    touches idB (set_sessions (delete x (sm_sessions (c_sm cB))) (c_sm cB)) (c_sm cB') ∧
    c_addr cA' = c_addr cA ∧ c_addr cB' = c_addr cB ∧ c_ent cA' = c_ent cA ∧ c_ent cB' = c_ent cB ∧
    heard cA' = heard cA ∧ heard cB' = heard cB.
Proof.
  intros (idA & idB & a & b & [(HA & HB & _ & ER & _) _ _ _ [_ HpB] [HnA HnB] [HiA HiB] Hposts] & _).
  destruct (chat_close y idA cA (sd_s a) (sd_xs a) HiA HA (λ w, proj1 (Hposts w))) as (smA & Hclose & _ & HtA).
  rewrite ER in Hclose. set (wire := marshalMessage sessClose _) in Hclose.
  destruct (chat_closed (mkInput pos wire) cB idB (sd_s b) (sd_xs b) HB HpB eq_refl) as (smB & Hhand & _ & HtB & _).
  rewrite HnA in HtA. rewrite HnB in HtB. exists idA, idB. eexists _, _. split.
  { unfold part. st_call (at_left _ cA cB _ _ Hclose). apply carry_left. exact Hhand. }
  by split_and!.
Qed.

(** Strangers meet. *)
Lemma people_meet K x y c0 d0 ps n pos pos' cA cB :
  resident K x c0 → resident K y d0 → person K c0 x ps (S n) cA → person K d0 y ps (S n) cB →
  ((x, y) ∉ ps) → ((y, x) ∉ ps) → Z.of_nat n < 2 ^ 16 →
  ∃ idA idB smA smB cA' cB', meet x y pos pos' (cA, cB) = (Ok tt, (cA', cB')) ∧
    ByName y (c_sm cA) = (Ok idA, smA) ∧ ByName x (c_sm cB) = (Ok idB, smB) ∧
    bond (c_ent c0) (c_ent d0) x y n cA' cB' ∧ touches idA smA (c_sm cA') ∧ touches idB smB (c_sm cB') ∧
    c_addr cA' = c_addr cA ∧ c_addr cB' = c_addr cB ∧ c_ent cA' = drop 96 (c_ent cA) ∧ c_ent cB' = drop 71 (c_ent cB) ∧
    heard cA' = heard cA ∧ heard cB' = heard cB.
Proof.
  intros HrA HrB HpA HpB Hxy Hyx Hn.
  pose proof (person_ByName _ _ _ _ _ _ _ HpA Hxy) as HnA. pose proof (person_ByName _ _ _ _ _ _ _ HpB Hyx) as HnB.
  match type of HnA with _ = (_, ?sm) => set (smA := sm) in HnA end.
  match type of HnB with _ = (_, ?sm) => set (smB := sm) in HnB end.
  destruct (rs_reach _ _ _ HrA) as (addrA & HaA & HkA), (rs_reach _ _ _ HrB) as (addrB & HaB & HkB).
  destruct (person_tape _ _ _ _ _ _ HrA HpA) as (HdA & HtA & HlA), (person_tape _ _ _ _ _ _ HrB HpB) as (HdB & HtB & HlB).
  pose proof (behind_key _ _ 0 64 HtA ltac:(lia) ltac:(lia)) as HbA. rewrite drop_0 in HbA.
  pose proof (behind_key _ _ 64 96 HtA ltac:(lia) ltac:(lia)) as HbA2.
  pose proof (behind_key _ _ 32 71 HtB ltac:(lia) ltac:(lia)) as HbB.
  assert (can_meet cA cB x y (ulid_Make (sm_made (c_sm cA))) (ulid_Make (sm_made (c_sm cB))) addrA addrB smA smB) as Hm.
  { split; [by rewrite (pe_key _ _ _ _ _ _ HpA); apply HrA|by rewrite (pe_key _ _ _ _ _ _ HpB); apply HrB|apply HpA
           |exact HaA|exact HaB|by rewrite (pe_key _ _ _ _ _ _ HpA)|by rewrite (pe_key _ _ _ _ _ _ HpB)|exact HnA|exact HnB
           |apply ulid_Make_length|apply ulid_Make_length| | |lia|lia|].
    - rewrite (pe_me _ _ _ _ _ _ HpA). pose proof (pe_made _ _ _ _ _ _ HpA). apply (pe_files _ _ _ _ _ _ HpA); lia.
    - intros f. rewrite (pe_me _ _ _ _ _ _ HpB). pose proof (pe_made _ _ _ _ _ _ HpB).
      by rewrite (pe_files _ _ _ _ _ _ HpB) by lia.
    - rewrite !tape_key_priv by (rewrite ?length_drop; lia). intros [= Heq]. destruct HtA as [k Hk].
      apply (HdA k (k + 64)%nat); [lia|rewrite Hk, length_drop in HlA; lia|]. by rewrite <-drop_drop, <-Hk. }
  destruct (meet_ok cA cB x y _ _ addrA addrB _ _ pos pos' n Hm Hn)
    as (cA' & cB' & a & b & Hmeet & Hit & HhA & HhB & EA & EB & ToA & ToB & HeA & HeB & HuA & HuB).
  - apply (behind_fresh _ (c_ent c0)); [done|by apply tail_of_drop|done|rewrite length_drop; lia].
  - apply (behind_fresh _ (c_ent d0)); [done|by apply tail_of_drop|done|rewrite length_drop; lia].
  - do 6 eexists. split; [exact Hmeet|]. split; [exact HnA|]. split; [exact HnB|]. split.
    { do 4 eexists. split; [exact Hit|]. rewrite HeA, HeB. split.
      - apply (behind_less _ _ ([tape_key (c_ent cA)] ++ [tape_key (drop 64 (c_ent cA))])); [|apply behind_app; [|done]].
        + intros u [->| ->]%HuA; set_solver.
        + pose proof (behind_drop 32 _ _ _ HbA) as HbA'. by rewrite drop_drop in HbA'.
      - eapply behind_less; [|exact HbB]. intros u ->%HuB. by left. }
    by split_and!.
Qed.
End Pair.

(** ** The whole town *)

Section Everybody.
Context `{RatchetCryptoLaws} `{!IdentityCrypto} `{!IdentityCryptoLaws} `{!BoxCrypto} `{!BoxCryptoLaws}.
Context `{!Ulid} `{!UlidLaws} `{!GobWire} `{!GobWireLaws} `{!SaltyLib} `{!SaltyLaws} `{!ClientLib}.
Context (K : nat) (T0 : town) (people : gset bytes).
Context (Hres : ∀ x, x ∈ people → resident K x (T0 x)) (HK : Z.of_nat K < 2 ^ 16).

(** The town with the chats [ps] and [n] deeds to come *)
Record settled (ps : chats) (n : nat) (T : town) : Prop := {
  se_people : ∀ x, x ∈ people → person K (T0 x) x ps n (T x);
  se_sym : ∀ x y, (x, y) ∈ ps → (y, x) ∈ ps;
  se_bonds : ∀ x y, (x, y) ∈ ps →
    x ∈ people ∧ y ∈ people ∧ x ≠ y ∧ bond (c_ent (T0 x)) (c_ent (T0 y)) x y n (T x) (T y);
}.

Lemma settled_start : settled ∅ K T0.
Proof. split; [intros x Hx; by apply resident_person, Hres|set_solver..]. Qed.

(** What a deed does to the chats *)
Lemma turn_chats x y id c sm ps ps' :
  turn x y id c sm ps ps' →
  (∀ u v, (u, v) ∈ ps' → (u, v) ∈ ps ∨ (u = x ∧ v = y) ∨ (u = y ∧ v = x)) ∧
  (∀ u v, (u, v) ∈ ps → (u, v) ∈ ps' ∨ (u = x ∧ v = y) ∨ (u = y ∧ v = x)) ∧
  ((∀ u v, (u, v) ∈ ps → (v, u) ∈ ps) → ∀ u v, (u, v) ∈ ps' → (v, u) ∈ ps').
Proof.
  intros [sm' ps0 Hn _|ps0 Hy|ps0 Hy]; (split; [|split]).
  - set_solver.
  - set_solver.
  - intros Hs u v. set_unfold. intros [[[=]|[=]]|Hin]; subst; auto.
  - auto.
  - auto.
  - auto.
  - set_solver.
  - intros u v Hin. destruct (decide ((u, v) = (x, y))) as [[= -> ->]|H1']; [auto|].
    destruct (decide ((u, v) = (y, x))) as [[= -> ->]|H2']; [auto|]. left. set_solver.
  - intros Hs u v. set_unfold. intros [Hin Hn]. split; [auto|]. intros [[=]|[=]]; subst; apply Hn; auto.
Qed.

(** Two people do something together; all others, and the chats of these two with
    others, stay as they are. *)
Lemma settled_pair ps ps' n T x y idA idB smA smB cA cB :
  settled ps (S n) T → x ∈ people → y ∈ people → x ≠ y →
  turn x y idA (T x) smA ps ps' → turn y x idB (T y) smB ps ps' →
  touches idA smA (c_sm cA) → touches idB smB (c_sm cB) → c_addr cA = c_addr (T x) → c_addr cB = c_addr (T y) →
  (∃ k, (k <= 96)%nat ∧ c_ent cA = drop k (c_ent (T x))) → (∃ k, (k <= 96)%nat ∧ c_ent cB = drop k (c_ent (T y))) →
  ((x, y) ∈ ps' → bond (c_ent (T0 x)) (c_ent (T0 y)) x y n cA cB) →
  settled ps' n (<[y := cB]> (<[x := cA]> T)).
Proof.
  intros [Hp Hsym Hb] Hx Hy Hxy HtA HtB HoA HoB EA EB HeA HeB Hbond. set (T' := <[y := cB]> _).
  assert (T' x = cA) as ETx by (unfold T'; by rewrite fn_lookup_insert_ne, fn_lookup_insert by (by apply not_eq_sym)).
  assert (T' y = cB) as ETy by (unfold T'; by rewrite fn_lookup_insert).
  assert (∀ z, z ≠ x → z ≠ y → T' z = T z) as ETz
    by (intros z Hzx Hzy; unfold T'; by rewrite !fn_lookup_insert_ne by (by apply not_eq_sym)).
  destruct (turn_chats _ _ _ _ _ _ _ HtA) as (Hin & Hout & Hs).
  assert (∀ z, z ∈ people → person K (T0 z) z ps' n (T' z)) as Hp'.
  { intros z Hz. destruct (decide (z = x)) as [->|Hzx]; [rewrite ETx; by eapply person_turn; eauto|].
    destruct (decide (z = y)) as [->|Hzy]; [rewrite ETy; by eapply person_turn; eauto|].
    rewrite ETz by done. eapply person_waits; [|by apply Hp]. intros v Hv Hv'. apply Hv.
    destruct (Hout _ _ Hv') as [?|[[? _]|[? _]]]; done. }
  assert (∀ z v, z ∈ people → (z = x → v ≠ y) → (z = y → v ≠ x) → keeps v (T z) (T' z)) as Hkeep.
  { intros z v Hz Hvx Hvy. destruct (decide (z = x)) as [->|Hzx].
    { rewrite ETx. eapply turn_keeps; eauto. }
    destruct (decide (z = y)) as [->|Hzy]; [rewrite ETy; eapply turn_keeps; eauto|].
    rewrite ETz by done. apply keeps_refl. }
  split; [exact Hp'|by apply Hs|].
  intros u v Huv. destruct (decide (u = x ∧ v = y)) as [[-> ->]|Hn1].
  { rewrite ETx, ETy. auto. }
  destruct (decide (u = y ∧ v = x)) as [[-> ->]|Hn2].
  { rewrite ETx, ETy. split; [done|]. split; [done|]. split; [by apply not_eq_sym|]. apply bond_sym, Hbond. by apply Hs. }
  destruct (Hin u v Huv) as [Huv'|[?|?]]; [|tauto..]. destruct (Hb u v Huv') as (Hu & Hv & Hne & Hbd).
  split; [done|]. split; [done|]. split; [done|]. apply (bond_stays _ _ _ _ _ (T u) _ (T v)); [done| | | |].
  - apply Hkeep; [done|intros -> ->; by apply Hn1|intros -> ->; by apply Hn2].
  - apply Hkeep; [done|intros -> ->; by apply Hn2|intros -> ->; by apply Hn1].
  - eapply person_tape; [by apply Hres|by apply Hp'].
  - eapply person_tape; [by apply Hres|by apply Hp'].
Qed.

Lemma between_run {A} x y (m : ST net A) (T : town) a cA cB :
  m (T x, T y) = (Ok a, (cA, cB)) → between x y m T = (Ok a, <[y := cB]> (<[x := cA]> T)).
Proof. intros Hm. unfold between, zoom. by rewrite Hm. Qed.

Lemma heard_pair (T : town) x y cA cB ls z :
  x ≠ y → heard cA = heard (T x) → heard cB = ls ++ heard (T y) →
  heard ((<[y := cB]> (<[x := cA]> T) : town) z) = (if bool_decide (y = z) then ls else []) ++ heard (T z).
Proof.
  intros Hxy HA HB. case_bool_decide as Hyz; [subst; by rewrite fn_lookup_insert|].
  rewrite fn_lookup_insert_ne by done. destruct (decide (x = z)) as [->|Hxz]; [by rewrite fn_lookup_insert|].
  by rewrite fn_lookup_insert_ne.
Qed.

(** One deed *)
Lemma deed_ok d ps ps' n T :
  settled ps (S n) T → (S n <= K)%nat → next_chats people d ps = Some ps' → readable T0 [d] →
  ∃ T', perform d T = (Ok tt, T') ∧ settled ps' n T' ∧ ∀ z, heard (T' z) = told T0 z [d] ++ heard (T z).
Proof.
  intros Hset Hn Hnext Hread. pose proof Hset as [Hp Hsym Hb]. destruct d as [x y pos pos'|x y ms ms' pos text|x y pos]; simpl in Hnext.
  - destruct (decide _) as [(Hx & Hy & Hxy & Hnew)|]; [|done]. injection Hnext as <-.
    assert ((y, x) ∉ ps) as Hnew' by (intros Hin; by apply Hnew, Hsym).
    destruct (people_meet K x y (T0 x) (T0 y) ps n pos pos' (T x) (T y))
      as (idA & idB & smA & smB & cA & cB & Hm & HnA & HnB & Hbond & HoA & HoB & EA & EB & HeA & HeB & HhA & HhB); auto; [lia|].
    eexists. split; [apply between_run, Hm|]. split.
    + eapply settled_pair; eauto using turn_meet; [|exists 71%nat; split; [lia|done]].
      replace ({[(x, y); (y, x)]} ∪ ps) with ({[(y, x); (x, y)]} ∪ ps) by set_solver. by apply turn_meet.
    + intros z. rewrite (heard_pair _ _ _ _ _ []) by done. by case_bool_decide.
  - destruct (decide _) as [Hin|]; [|done]. injection Hnext as <-. destruct (Hb _ _ Hin) as (Hx & Hy & Hxy & Hbond).
    unfold readable, words in Hread. rewrite Forall_singleton in Hread. rewrite <-(pe_addr _ _ _ _ _ _ (Hp x Hx)) in Hread.
    destruct (tell_ok _ _ x y n ms ms' pos text (T x) (T y) Hbond (proj1 (pe_tape _ _ _ _ _ _ (Hp y Hy)))
      (proj2 (pe_tape _ _ _ _ _ _ (Hp y Hy))) Hread)
      as (idA & idB & cA & cB & Hsay & Hbond' & HiA & HiB & [HoA EA] & [HoB EB] & HhA & HhB & HeA & HeB).
    eexists. split; [apply between_run, Hsay|]. split.
    + eapply settled_pair; eauto using turn_tell. exists 0%nat. split; [lia|done].
    + intros z. rewrite (heard_pair _ _ _ _ _ [_] z Hxy HhA HhB). unfold told, words. simpl.
      rewrite (pe_addr _ _ _ _ _ _ (Hp x Hx)). by case_bool_decide.
  - destruct (decide _) as [Hin|]; [|done]. injection Hnext as <-. destruct (Hb _ _ Hin) as (Hx & Hy & Hxy & Hbond).
    destruct (part_ok _ _ x y _ pos (T x) (T y) Hbond)
      as (idA & idB & cA & cB & Hpart & HiA & HiB & HoA & HoB & EA & EB & HeA & HeB & HhA & HhB).
    eexists. split; [apply between_run, Hpart|]. split.
    + eapply settled_pair; eauto using turn_part; [|exists 0%nat; split; [lia|done]..|set_solver].
      replace (ps ∖ {[(x, y); (y, x)]}) with (ps ∖ {[(y, x); (x, y)]}) by set_solver. by apply turn_part.
    + intros z. rewrite (heard_pair _ _ _ _ _ []) by done. by case_bool_decide.
Qed.

Lemma live_ok ds ps T :
  settled ps (length ds) T → (length ds <= K)%nat → sensible people ds ps = true → readable T0 ds →
  ∃ T', live ds T = (Ok tt, T') ∧ ∀ z, heard (T' z) = rev (told T0 z ds) ++ heard (T z).
Proof.
  revert ps T. induction ds as [|d ds IH]; intros ps T Hset Hn Hs Hr; [by exists T|].
  cbn [sensible] in Hs. destruct (next_chats people d ps) as [ps'|] eqn:Hnext; [|done].
  inversion Hr as [|? ? Hr1 Hr2]; subst. cbn [length] in Hset, Hn.
  destruct (deed_ok d ps ps' (length ds) T) as (T1 & Hd & Hset1 & Hh1); [done|lia|done|by apply Forall_singleton|].
  destruct (IH ps' T1) as (T' & Hl & Hh); [done|lia|done|done|].
  exists T'. cbn [live]. split; [by st_call Hd|]. intros z. rewrite Hh, Hh1. unfold told.
  destruct d as [| |]; simpl; [done| |done]. case_bool_decide; [|done]. simpl. by rewrite <-(assoc_L (++)).
Qed.
End Everybody.

Section Story.
Context `{RatchetCryptoLaws} `{!IdentityCrypto} `{!IdentityCryptoLaws} `{!BoxCrypto} `{!BoxCryptoLaws}.
Context `{!Ulid} `{!UlidLaws} `{!GobWire} `{!GobWireLaws} `{!SaltyLib} `{!SaltyLaws} `{!ClientLib}.

(** C5. Chats side by side. Any number of clients that know nobody at first live
    through any story in which strangers meet, and people who are in a chat talk
    in both directions and part, maybe to meet again, all chats interleaved as
    one likes: no call fails, and in the end everybody was told of exactly the
    texts that were said to them, in that order and under the names of those who
    said them. It takes random bytes without repeated keys, identifiers with
    different file names, and fewer than 2^16 deeds. *)
Theorem town_gets_through (T : town) (people : gset bytes) (ds : list deed)
  (Hres : ∀ x, x ∈ people → resident (length ds) x (T x)) (Hlen : Z.of_nat (length ds) < 2 ^ 16)
  (Hs : sensible people ds ∅ = true) (Hr : readable T ds) :
  ∃ T', live ds T = (Ok tt, T') ∧ ∀ z, heard (T' z) = rev (told T z ds) ++ heard (T z).
Proof.
  apply (live_ok (length ds) T people Hres Hlen ds ∅); [by apply settled_start|done..].
Qed.
End Story.

(** ** Instances *)

Section Checks.
Context `{RatchetCrypto} `{SaltyLib}.

Lemma names_check x K :
  NoDup ((λ i, sessionhash x (ulid_Make i)) <$> seq 0 K) →
  ∀ i j, (0 <= i)%nat → (i < j)%nat → (j < 0 + K)%nat → sessionhash x (ulid_Make i) ≠ sessionhash x (ulid_Make j).
Proof.
  intros Hn i j _ Hij Hj Heq. simpl in Hj. enough (i = j) by lia.
  eapply (NoDup_lookup _ i j (sessionhash x (ulid_Make i)) Hn).
  - by rewrite list_lookup_fmap, lookup_seq_lt by lia.
  - rewrite list_lookup_fmap, lookup_seq_lt by lia. simpl. by rewrite Heq.
Qed.
End Checks.

Module ToyTown.
#[local] Existing Instances toy_ratchet_crypto toy_ratchet_laws toy_identity_crypto toy_identity_laws
  toy_box_crypto toy_box_laws SRuns.toy_ulid SRuns.toy_ulid_laws ToyWire.toy_wire ToyWire.toy_wire_laws
  ToySalty.toy_salty ToySalty.toy_salty_laws ToyClient.toy_client.

Lemma long_tape_distinct n : Z.of_nat n <= 8192 → distinct_keys (ToyClient.long_tape n).
Proof.
  intros Hn i j Hij Hj Heq. assert (length (ToyClient.long_tape n) = n) as Hl by (unfold ToyClient.long_tape; by rewrite length_fmap, length_seq).
  rewrite Hl in Hj.
  assert (∀ k, (k + 32 <= n)%nat → hd Byte.x00 (zip_with byte_sub (tape_key (drop k (ToyClient.long_tape n))) basepoint) =
    byte_of_Z (Z.of_nat k / 32)) as Hhd.
  { intros k Hk. pose proof (tape_key_priv (drop k (ToyClient.long_tape n)) ltac:(rewrite length_drop, Hl; lia)) as Hkey.
    assert (length (take 32 (drop k (ToyClient.long_tape n))) = 32%nat) as Ht by (rewrite length_take, length_drop, Hl; lia).
    unfold x25519 in Hkey. simpl in Hkey. unfold toy_x25519 in Hkey. rewrite bool_decide_eq_true_2 in Hkey by done.
    injection Hkey as <-. rewrite zip_sub_add by (rewrite Ht; done).
    assert (ToyClient.long_tape n !! k = Some (byte_of_Z (Z.of_nat k / 32))) as Hat
      by (unfold ToyClient.long_tape; by rewrite list_lookup_fmap, lookup_seq_lt by lia).
    by rewrite (drop_S _ _ _ Hat). }
  pose proof (Hhd i ltac:(lia)) as Hi. rewrite Heq, (Hhd j ltac:(lia)) in Hi. apply (f_equal byte_to_Z) in Hi.
  rewrite !byte_to_of_Z in Hi. assert (Z.of_nat i / 32 + 1 <= Z.of_nat j / 32).
  { rewrite <-Z.div_add by lia. apply Z.div_le_mono; lia. }
  assert (Z.of_nat j / 32 < 256) by (apply Z.div_lt_upper_bound; lia).
  assert (0 <= Z.of_nat i / 32) by (apply Z.div_pos; lia). rewrite !Z.mod_small in Hi; lia.
Qed.

Definition town_of (n : nat) : town := λ name,
  mkClient (ToyClient.manager_of name) (ToyClient.addr_of name) (ToyClient.long_tape n) [] [].

(** Alice talks to Bob and to Carol, and again to Bob. *)
Definition story : list deed :=
  [Meets (str "alice") (str "bob") 1 2; Meets (str "carol") (str "alice") 3 4;
   Tells (str "alice") (str "bob") 10 11 5 (str "hello bob"); Tells (str "carol") (str "alice") 12 13 6 (str "hello alice");
   Tells (str "bob") (str "alice") 14 15 7 (str "hi"); Parts (str "bob") (str "alice") 8;
   Tells (str "alice") (str "carol") 16 17 9 (str "he left"); Meets (str "bob") (str "alice") 10 11;
   Tells (str "bob") (str "alice") 18 19 12 (str "back again")].
Definition people : gset bytes := {[str "alice"; str "bob"; str "carol"]}.

Lemma resident_of x : x ∈ people → resident (length story) x (town_of (96 * length story) x).
Proof.
  intros Hx. assert (x = str "alice" ∨ x = str "bob" ∨ x = str "carol") as Hcase by (unfold people in Hx; set_solver).
  split; [done|apply toy_identity_key| |done|done| |split].
  - exists (ToyClient.addr_of x). split; [|done]. by destruct Hcase as [->|[->| ->]].
  - apply names_check. destruct Hcase as [->|[->| ->]]; apply (bool_decide_unpack _); vm_compute; exact I.
  - apply long_tape_distinct. vm_compute. discriminate.
  - vm_compute. lia.
Qed.
End ToyTown.

#[local] Existing Instances toy_ratchet_crypto toy_ratchet_laws toy_identity_crypto toy_identity_laws
  toy_box_crypto toy_box_laws SRuns.toy_ulid SRuns.toy_ulid_laws ToyWire.toy_wire ToyWire.toy_wire_laws
  ToySalty.toy_salty ToySalty.toy_salty_laws ToyClient.toy_client.

Lemma town_gets_through_witness :
  ∃ T', live ToyTown.story (ToyTown.town_of 864) = (Ok tt, T') ∧
    heard (T' (str "alice")) =
      [(str "bob", str "back again"); (str "bob", str "hi"); (str "carol", str "hello alice")].
Proof.
  destruct (town_gets_through (ToyTown.town_of 864) ToyTown.people ToyTown.story) as (T' & Hl & Hh).
  - exact ToyTown.resident_of.
  - reflexivity.
  - vm_compute. reflexivity.
  - repeat constructor; by eexists.
  - exists T'. split; [exact Hl|]. rewrite Hh. reflexivity.
Defined.
