(* ===== verification/MemSession.v ===== *)
(** * The log of a client's events (src/session/mem/mem-session.go)

    [MemSession] listens to a client and keeps its events in streams, one per
    user and one for the rest; [ReadLog] reads a page of a stream, forwards or
    backwards. *)

From Stdlib Require Import ZArith Lia.
From stdpp Require Import base list numbers option strings gmap.
From S2P Require Import Prelude Crypto DiskSession Client.

Local Open Scope Z_scope.

(** What [ReadLog] uses of another module: [math.PagerBox(first, last, after,
    count)] gives a start and a signed count, [math.Abs] the absolute value. *)
Class Paging := {
  PagerBox : Z → Z → Z → Z → Z * Z;
  math_Abs : Z → Z;
}.

Class PagingLaws `{Paging} : Prop := {
  math_Abs_ok : ∀ z, int64_range z → z ≠ - 2 ^ 63 → math_Abs z = Z.abs z;
}.

(** [logs], the map behind [MemSession] *)
Abbreviation logs := (gmap bytes (list event)).

Definition user_stream (name : bytes) : bytes := str "user:" ++ name.
Definition system_stream : bytes := str "system".

(** [log := l[key]; log = append(log, msg); l[key] = log] *)
Definition log_append (key : bytes) (msg : event) (l : logs) : logs :=
  <[key := default [] (l !! key) ++ [msg]]> l.

(** [MemSession.Update] *)
Definition Update (args : event) (l : logs) : logs :=
  match args with
  | OnSessionStarted _ them => log_append (user_stream them) args l
  | OnSessionClosed _ them => log_append (user_stream them) args l
  | OnMessageReceived _ them _ _ => log_append (user_stream them) args l
  | OnMessageSent _ them _ _ _ => log_append (user_stream them) args l
  | OnSaltySent them _ _ _ => log_append (user_stream them) args l
  | OnSaltyTextReceived _ m => log_append (user_stream (st_nick m)) args l
  | OnReceived _ => l
  | _ => log_append system_stream args l
  end.

(** [NewMemSession]: the kinds of events that it listens to *)
Definition subscribed (ev : event) : bool :=
  match ev with
  | OnOfferSent _ _ _ | OnOfferReceived _ _ _ | OnSessionStarted _ _ | OnSessionClosed _ _
  | OnMessageReceived _ _ _ _ | OnMessageSent _ _ _ _ _ | OnSaltySent _ _ _ _
  | OnSaltyTextReceived _ _ | OnSaltyEventReceived _ _ | OnReceived _ => true
  | OnEventReceived _ _ _ _ | OnCloseSent _ _ _ | OnError _ => false
  end.

(** A dispatched event reaches [Update] if the log listens to it. *)
Definition notify (l : logs) (ev : event) : logs := if subscribed ev then Update ev l else l.

Definition uint64 (z : Z) : Z := z mod 2 ^ 64.

Definition event_at (stream : list event) (i : Z) : result event :=
  match stream !! Z.to_nat i with Some ev => Ok ev | None => Panic end.

(** The loop of [ReadLog] over [lis], with [n] elements to go *)
Fixpoint readLoop (n : nat) (stream : list event) (start count : Z) : result (list event) :=
  match n with
  | O => Ok []
  | S n' =>
      ev ← event_at stream (uint64 (start - 1));
      let start := if 0 <? count then uint64 (start + 1) else uint64 (start - 1) in
      if (start <? 1) || (Z.of_nat (length stream) <? start) then Ok [ev]
      else rest ← readLoop n' stream start count; Ok (ev :: rest)
  end.

Section ReadLog.
Context `{Paging}.

(** [MemSession.ReadLog]; [make] panics for a negative length *)
Definition ReadLog (streamID : bytes) (after count : Z) (l : logs) : result (list event) :=
  match l !! streamID with
  | None => Ok []
  | Some stream =>
      if (length stream =? 0)%nat then Ok []
      else
        let '(start, count) := PagerBox 1 (Z.of_nat (length stream)) after count in
        if count =? 0 then Ok []
        else if math_Abs count <? 0 then Panic
        else readLoop (Z.to_nat (math_Abs count)) stream start count
  end.
End ReadLog.

(** ** The streams *)

(** The stream that an event belongs to. *)
Definition stream_of (ev : event) : option bytes :=
  match ev with
  | OnSessionStarted _ them | OnSessionClosed _ them | OnMessageReceived _ them _ _
  | OnMessageSent _ them _ _ _ | OnSaltySent them _ _ _ => Some (user_stream them)
  | OnSaltyTextReceived _ m => Some (user_stream (st_nick m))
  | OnOfferSent _ _ _ | OnOfferReceived _ _ _ | OnSaltyEventReceived _ _ => Some system_stream
  | OnReceived _ | OnEventReceived _ _ _ _ | OnCloseSent _ _ _ | OnError _ => None
  end.

Lemma log_append_lookup key key' ev l :
  default [] (log_append key ev l !! key') =
    default [] (l !! key') ++ (if decide (Some key = Some key') then [ev] else []).
Proof.
  unfold log_append. destruct (decide (key = key')) as [->|Hne].
  - rewrite lookup_insert, decide_True by done. by rewrite decide_True.
  - rewrite lookup_insert_ne by done. rewrite decide_False by congruence. by rewrite app_nil_r.
Qed.

Lemma notify_lookup l ev key :
  default [] (notify l ev !! key) =
    default [] (l !! key) ++ (if decide (stream_of ev = Some key) then [ev] else []).
Proof.
  destruct ev; unfold notify; cbn [subscribed Update stream_of]; try apply log_append_lookup;
    rewrite decide_False by done; by rewrite app_nil_r.
Qed.

(** C39. The log is faithful: after any sequence of events, each stream holds
    the events that belong to it, in the order in which they happened, and
    nothing else. Messages and the life of a session are with the user, offers
    and saltpack events in the stream of the system; unknown input, events in a
    chat, closing messages that were sent and errors are nowhere. *)
Theorem log_streams (evs : list event) (key : bytes) :
  default [] (foldl notify ∅ evs !! key) = filter (λ ev, stream_of ev = Some key) evs.
Proof.
  induction evs as [|ev evs IH] using rev_ind; [done|].
  rewrite foldl_snoc, notify_lookup, IH, filter_app. f_equal.
Qed.

(** ** Pages *)

Lemma event_at_ok stream start ev :
  1 <= start → stream !! Z.to_nat (start - 1) = Some ev → start < 2 ^ 64 →
  event_at stream (uint64 (start - 1)) = Ok ev.
Proof. intros Hs Hl Hb. unfold event_at, uint64. rewrite Z.mod_small by lia. by rewrite Hl. Qed.

Lemma event_at_out stream start :
  start = 0 ∨ Z.of_nat (length stream) < start → 0 <= start < 2 ^ 64 → Z.of_nat (length stream) < 2 ^ 63 →
  event_at stream (uint64 (start - 1)) = Panic.
Proof.
  intros Hout Hs Hb. unfold event_at, uint64. rewrite lookup_ge_None_2; [done|].
  destruct Hout as [->|Hout]; [change ((0 - 1) mod 2 ^ 64) with (2 ^ 64 - 1); lia|].
  rewrite Z.mod_small; lia.
Qed.

Lemma readLoop_forward n stream start count :
  0 < count → 1 <= start <= Z.of_nat (length stream) → Z.of_nat (length stream) < 2 ^ 63 →
  readLoop n stream start count = Ok (take n (drop (Z.to_nat (start - 1)) stream)).
Proof.
  intros Hc Hs Hb. revert start Hs. induction n as [|n IH]; intros start Hs; [done|]. cbn [readLoop].
  destruct (lookup_lt_is_Some_2 stream (Z.to_nat (start - 1))) as [ev Hev]; [lia|].
  rewrite (event_at_ok _ _ ev) by (done || lia). rewrite (drop_S _ ev) by done. cbn [mbind result_bind take].
  rewrite (proj2 (Z.ltb_lt 0 count)) by done. unfold uint64. rewrite Z.mod_small by lia.
  destruct (Z.ltb_spec (start + 1) 1) as [|_]; [lia|]. cbn [orb].
  replace (S (Z.to_nat (start - 1))) with (Z.to_nat (start + 1 - 1)) by lia.
  destruct (Z.ltb_spec (Z.of_nat (length stream)) (start + 1)) as [Hend|Hin].
  - by rewrite drop_ge, take_nil by lia.
  - by rewrite IH by lia.
Qed.

Lemma readLoop_backward n stream start count :
  count < 0 → 1 <= start <= Z.of_nat (length stream) → Z.of_nat (length stream) < 2 ^ 63 →
  readLoop n stream start count = Ok (take n (reverse (take (Z.to_nat start) stream))).
Proof.
  intros Hc Hs Hb. revert start Hs. induction n as [|n IH]; intros start Hs; [done|]. cbn [readLoop].
  destruct (lookup_lt_is_Some_2 stream (Z.to_nat (start - 1))) as [ev Hev]; [lia|].
  rewrite (event_at_ok _ _ ev) by (done || lia).
  replace (Z.to_nat start) with (S (Z.to_nat (start - 1))) by lia.
  rewrite (take_S_r stream _ ev) by done. rewrite reverse_snoc. cbn [mbind result_bind take].
  destruct (Z.ltb_spec 0 count) as [|_]; [lia|]. unfold uint64. rewrite Z.mod_small by lia.
  destruct (Z.ltb_spec (start - 1) 1) as [Hend|Hin]; cbn [orb].
  - replace (Z.to_nat (start - 1)) with 0%nat by lia. by rewrite take_0, reverse_nil, take_nil.
  - destruct (Z.ltb_spec (Z.of_nat (length stream)) (start - 1)) as [|_]; [lia|]. by rewrite IH by lia.
Qed.

Section Pages.
Context `{PagingLaws}.

(** Pages. [ReadLog] of a stream that nobody wrote to is empty. Otherwise
    it reads from where [PagerBox] starts, onwards for a positive count and
    back for a negative one, and stops at the end of the stream; an unlucky
    start outside of the stream would make it panic. *)
Theorem ReadLog_pages (l : logs) (key : bytes) (after count start k : Z) (stream : list event)
  (Hst : l !! key = Some stream) (Hne : stream ≠ []) (Hb : Z.of_nat (length stream) < 2 ^ 63)
  (Hbox : PagerBox 1 (Z.of_nat (length stream)) after count = (start, k))
  (Hk : int64_range k) (Hmin : k ≠ - 2 ^ 63) (Hs : 0 <= start < 2 ^ 64) :
  ReadLog key after count l =
    if k =? 0 then Ok []
    else if (1 <=? start) && (start <=? Z.of_nat (length stream)) then
      Ok (take (Z.to_nat (Z.abs k))
            (if 0 <? k then drop (Z.to_nat (start - 1)) stream
             else reverse (take (Z.to_nat start) stream)))
    else Panic.
Proof.
  unfold ReadLog. rewrite Hst. destruct (Nat.eqb_spec (length stream) 0) as [Hl|_].
  { by apply nil_length_inv in Hl. }
  rewrite Hbox. destruct (Z.eqb_spec k 0) as [|Hk0]; [done|]. rewrite math_Abs_ok by done.
  destruct (Z.ltb_spec (Z.abs k) 0) as [|_]; [lia|].
  destruct (Z.leb_spec 1 start) as [Hs1|Hs1], (Z.leb_spec start (Z.of_nat (length stream))) as [Hs2|Hs2]; cbn [andb].
  - destruct (Z.ltb_spec 0 k); [by apply readLoop_forward|apply readLoop_backward; lia].
  - destruct (Z.to_nat (Z.abs k)) as [|n] eqn:Hn; [lia|]. cbn [readLoop]. by rewrite event_at_out by lia.
  - destruct (Z.to_nat (Z.abs k)) as [|n] eqn:Hn; [lia|]. cbn [readLoop]. by rewrite event_at_out by lia.
  - lia.
Qed.
End Pages.

(** ** Instances *)

Module ToyPages.
(** A box as the name says: start at the end for a negative position, and stay
    inside. *)
Definition toy_paging : Paging := {|
  PagerBox first last pos count := (if pos <? 0 then last else Z.max first (Z.min last (pos + 1)), count);
  math_Abs := Z.abs;
|}.

Lemma toy_paging_laws : @PagingLaws toy_paging.
Proof. by split. Qed.

Definition started : event := OnSessionStarted (zeros 16) (str "bob").
Definition hello : event := OnMessageReceived (zeros 16) (str "bob") (str "hello") (mkSaltyText (str "bob") (str "hello")).
Definition closed : event := OnSessionClosed (zeros 16) (str "bob").
Definition bob_logs : logs := foldl notify ∅ [started; OnError (Errorf "noise"); hello; closed].
End ToyPages.

#[local] Existing Instances ToyPages.toy_paging ToyPages.toy_paging_laws.

(** The last two events, latest first, as the prompt of the terminal asks. *)
Example bob_page :
  ReadLog (user_stream (str "bob")) (-1) (-2) ToyPages.bob_logs = Ok [ToyPages.closed; ToyPages.hello].
Proof. vm_compute. reflexivity. Qed.
