(* ===== verification/GoStrings.v ===== *)
(** * Strings as the terminals read them (package strings)

    The functions of Go's [strings] package that the user interfaces cut their
    input with, on bytes: a string is UTF-8, and white space is Unicode's. *)

From Stdlib Require Import ZArith Lia.
From stdpp Require Import base list numbers option strings.
From S2P Require Import Prelude.

Local Open Scope Z_scope.

(** ** White space *)

(** [unicode.IsSpace] on runes of one, two and three bytes: tab to carriage
    return and space; U+0085 and U+00A0; U+1680, U+2000 to U+200A, U+2028,
    U+2029, U+202F, U+205F and U+3000. The bytes after the first one are
    continuation bytes, so that no encoding begins inside another one. *)
Definition space1 (a : byte) : bool := (0x09 <=? byte_to_Z a) && (byte_to_Z a <=? 0x0d) || (byte_to_Z a =? 0x20).
Definition space2 (a b : byte) : bool :=
  (byte_to_Z a =? 0xc2) && ((byte_to_Z b =? 0x85) || (byte_to_Z b =? 0xa0)).
Definition space3 (a b c : byte) : bool :=
  let '(a, b, c) := (byte_to_Z a, byte_to_Z b, byte_to_Z c) in
  (a =? 0xe1) && (b =? 0x9a) && (c =? 0x80) ||
  (a =? 0xe2) && (b =? 0x80) && ((0x80 <=? c) && (c <=? 0x8a) || (c =? 0xa8) || (c =? 0xa9) || (c =? 0xaf)) ||
  (a =? 0xe2) && (b =? 0x81) && (c =? 0x9f) ||
  (a =? 0xe3) && (b =? 0x80) && (c =? 0x80).

(** A string in pieces: white space runes, and single other bytes *)
Fixpoint pieces (s : bytes) : list (bool * bytes) :=
  match s with
  | [] => []
  | a :: s1 =>
      if space1 a then (true, [a]) :: pieces s1
      else
        match s1 with
        | b :: s2 =>
            if space2 a b then (true, [a; b]) :: pieces s2
            else
              match s2 with
              | c :: s3 => if space3 a b c then (true, [a; b; c]) :: pieces s3 else (false, [a]) :: pieces s1
              | [] => (false, [a]) :: pieces s1
              end
        | [] => (false, [a]) :: pieces s1
        end
  end.

Fixpoint skip_space (ps : list (bool * bytes)) : list (bool * bytes) :=
  match ps with
  | (true, _) :: ps => skip_space ps
  | _ => ps
  end.

(** [strings.TrimSpace] *)
Definition TrimSpace (s : bytes) : bytes :=
  concat (snd <$> reverse (skip_space (reverse (skip_space (pieces s))))).

(** [strings.Fields]; [word] is the field that is being read *)
Fixpoint fields (word : bytes) (ps : list (bool * bytes)) : list bytes :=
  let emit rest := if word is [] then rest else word :: rest in
  match ps with
  | [] => emit []
  | (true, _) :: ps => emit (fields [] ps)
  | (false, b) :: ps => fields (word ++ b) ps
  end.
Definition Fields (s : bytes) : list bytes := fields [] (pieces s).

(** [strings.TrimPrefix] and, for a separator of one byte, [strings.Cut] *)
Definition TrimPrefix (s prefix : bytes) : bytes := if hasPrefix s prefix then drop (length prefix) s else s.

Fixpoint Cut (s : bytes) (sep : byte) : bytes * bytes * bool :=
  match s with
  | [] => ([], [], false)
  | a :: s =>
      if bool_decide (a = sep) then ([], s, true)
      else let '(before, after, found) := Cut s sep in (a :: before, after, found)
  end.

(** ** Lemmas *)

Lemma pieces_cons a s1 :
  pieces (a :: s1) =
    if space1 a then (true, [a]) :: pieces s1
    else
      match s1 with
      | b :: s2 =>
          if space2 a b then (true, [a; b]) :: pieces s2
          else
            match s2 with
            | c :: s3 => if space3 a b c then (true, [a; b; c]) :: pieces s3 else (false, [a]) :: pieces s1
            | [] => (false, [a]) :: pieces s1
            end
      | [] => (false, [a]) :: pieces s1
      end.
Proof. reflexivity. Qed.

Lemma pieces_concat s : concat (snd <$> pieces s) = s.
Proof.
  assert (∀ n s, (length s <= n)%nat → concat (snd <$> pieces s) = s) as Hn; [|by apply (Hn (length s))].
  clear s. induction n as [|n IH]; intros [|a s] Hl; simpl in Hl; try lia; try done.
  rewrite pieces_cons. destruct (space1 a); [cbn; by rewrite IH by lia|].
  destruct s as [|b s]; [done|]. destruct (space2 a b); [cbn; by rewrite IH by (simpl in Hl; lia)|].
  assert (concat (snd <$> (false, [a]) :: pieces (b :: s)) = a :: b :: s) as Hsingle.
  { rewrite fmap_cons. cbn [concat snd app]. by rewrite IH by (simpl in *; lia). }
  destruct s as [|c s]; [done|]. destruct (space3 a b c); [cbn; by rewrite IH by (simpl in Hl; lia)|done].
Qed.

Lemma skip_space_app ps : ∃ sp, ps = sp ++ skip_space ps ∧ Forall (λ p, p.1 = true) sp.
Proof.
  induction ps as [|[[] b] ps (sp & Heq & Hall)]; [by exists []; split; [|constructor]| |by exists []; split; [|constructor]].
  exists ((true, b) :: sp). cbn [skip_space app]. split; [by rewrite <-Heq|by constructor].
Qed.

Lemma skip_space_head ps : match skip_space ps with [] => True | p :: _ => p.1 = false end.
Proof. by induction ps as [|[[] b] ps IH]. Qed.

(** What [TrimSpace] cuts off is white space. *)
Lemma TrimSpace_cuts s :
  ∃ front back, pieces s = front ++ reverse (skip_space (reverse (skip_space (pieces s)))) ++ back ∧
    Forall (λ p, p.1 = true) front ∧ Forall (λ p, p.1 = true) back.
Proof.
  destruct (skip_space_app (pieces s)) as (front & Hf & Hfa).
  destruct (skip_space_app (reverse (skip_space (pieces s)))) as (back & Hb & Hba).
  exists front, (reverse back). split_and!; [|done|by apply Forall_reverse].
  rewrite Hf at 1. f_equal. rewrite <-reverse_app, <-Hb. by rewrite reverse_involutive.
Qed.

Lemma TrimSpace_parts s :
  ∃ front back, s = concat (snd <$> front) ++ TrimSpace s ++ concat (snd <$> back) ∧
    Forall (λ p, p.1 = true) front ∧ Forall (λ p, p.1 = true) back.
Proof.
  destruct (TrimSpace_cuts s) as (front & back & Heq & Hf & Hb). exists front, back. split; [|done].
  unfold TrimSpace. by rewrite <-!concat_app, <-!fmap_app, <-Heq, pieces_concat.
Qed.

Lemma TrimSpace_length s : (length (TrimSpace s) <= length s)%nat.
Proof.
  destruct (TrimSpace_parts s) as (front & back & Heq & _).
  rewrite Heq at 2. rewrite !length_app. lia.
Qed.

Lemma Cut_join s sep :
  let '(before, after, found) := Cut s sep in
  s = (if found then before ++ sep :: after else before) ∧ sep ∉ before.
Proof.
  induction s as [|a s IH]; [split; [done|apply not_elem_of_nil]|]. cbn [Cut].
  case_bool_decide as Ha; [subst; split; [done|apply not_elem_of_nil]|].
  destruct (Cut s sep) as [[before after] []]; destruct IH as [-> Hn]; (split; [done|]);
    apply not_elem_of_cons; by split.
Qed.
