(* ===== verification/Reader.v ===== *)
(** * Reading lines (src/interactive/interactive.go)

    The line terminal reads standard input without blocking: [ctxReader] polls it
    ten times a second until there is something to read or the context is done,
    and a [bufio.Scanner] makes lines of what it gets. *)

From Stdlib Require Import ZArith Lia.
From stdpp Require Import base list numbers option strings.
From S2P Require Import Prelude GoStrings.

Local Open Scope Z_scope.

(** ** The reader *)

(** What happens while the reader waits: bytes are typed, the ticker fires, or the
    context is done. *)
Inductive wake := Types (b : bytes) | Tick | Cancel.

#[export] Instance wake_eq_dec : EqDecision wake.
Proof. solve_decision. Defined.

Definition EOF : error := Errorf "EOF".

(** [os.Stdin.Read] without blocking, into a buffer of [k] bytes: what is
    pending, or nothing and an error, be it that nothing was typed yet or that the
    input has ended *)
Definition stdin_Read (k : Z) (pending : bytes) : bytes * option error :=
  match pending with
  | [] => ([], Some EOF)
  | _ => (take (Z.to_nat k) pending, None)
  end.

(** What a call of [ctxReader.Read] comes to: it returns bytes and an error, or it
    is still waiting when nothing more happens *)
Inductive read_result :=
  | Returns (b : bytes) (err : option error) (pending : bytes) (ws : list wake)
  | Waits (pending : bytes).

(** [ctxReader.Read] *)
Fixpoint Read (k : Z) (ws : list wake) (pending : bytes) : read_result :=
  match ws with
  | [] => Waits pending
  | Types b :: ws => Read k ws (pending ++ b)
  | Cancel :: ws => Returns [] (Some EOF) pending ws
  | Tick :: ws =>
      let '(b, err) := stdin_Read k pending in
      if (0 <? length b)%nat then Returns b err (drop (length b) pending) ws
      else Read k ws pending
  end.

(** ** The scanner *)

Definition LF : byte := Byte.x0a.
Definition CR : byte := Byte.x0d.

(** [bufio.ScanLines]: a line ends with a newline, before which a carriage return
    is dropped; at the end of the input what is left is a line. *)
Definition dropCR (data : bytes) : bytes :=
  match last data with
  | Some a => if bool_decide (a = CR) then removelast data else data
  | None => data
  end.

Definition ScanLines (data : bytes) (atEOF : bool) : option (nat * bytes) :=
  if atEOF && bool_decide (data = []) then None
  else
    let '(before, _, found) := Cut data LF in
    if found then Some (S (length before), dropCR before)
    else if atEOF then Some (length data, dropCR data)
    else None.

Definition startBufSize : Z := 4096.
Definition MaxScanTokenSize : Z := 64 * 1024.
Definition ErrTooLong : error := Errorf "bufio.Scanner: token too long".

(** [bufio.Scanner]: the bytes between [start] and [end] of the buffer, its length
    and the error *)
Record scanner := mkScanner { sc_start : Z; sc_data : bytes; sc_size : Z; sc_err : option error }.

Definition NewScanner : scanner := mkScanner 0 [] 0 None.

Definition sc_end (s : scanner) : Z := sc_start s + Z.of_nat (length (sc_data s)).

(** What [Scan] does to the buffer before it reads: shift the data to the
    beginning, and double a buffer that is full *)
Definition prepare (s : scanner) : option scanner :=
  let start := if (0 <? sc_start s) && ((sc_end s =? sc_size s) || (sc_size s / 2 <? sc_start s)) then 0 else sc_start s in
  let s := mkScanner start (sc_data s) (sc_size s) (sc_err s) in
  if sc_end s =? sc_size s then
    if MaxScanTokenSize <=? sc_size s then None
    else
      let newSize := if sc_size s =? 0 then startBufSize else sc_size s * 2 in
      Some (mkScanner 0 (sc_data s) (newSize `min` MaxScanTokenSize) (sc_err s))
  else Some s.

(** What a call of [Scan] comes to: true with a line, false, or it still waits *)
Inductive scanned :=
  | Token (line : bytes) (s : scanner) (pending : bytes) (ws : list wake)
  | Finished (s : scanner) (pending : bytes) (ws : list wake)
  | Waiting (s : scanner) (pending : bytes).

(** [Scanner.Scan]; each round reads once. A [Read] that gives nothing gives an
    error, so that its repetition in [Scan] is not needed. *)
Fixpoint Scan (fuel : nat) (ws : list wake) (s : scanner) (pending : bytes) : scanned :=
  match fuel with
  | O => Waiting s pending
  | S fuel =>
      match ScanLines (sc_data s) (bool_decide (is_Some (sc_err s))) with
      | Some (advance, line) =>
          Token line (mkScanner (sc_start s + Z.of_nat advance) (drop advance (sc_data s)) (sc_size s) (sc_err s)) pending ws
      | None =>
          if sc_err s is Some _ then Finished (mkScanner 0 [] (sc_size s) (sc_err s)) pending ws
          else
            match prepare s with
            | None => Finished (mkScanner (sc_start s) (sc_data s) (sc_size s) (Some ErrTooLong)) pending ws
            | Some s =>
                match Read (sc_size s - sc_end s) ws pending with
                | Waits pending => Waiting s pending
                | Returns b err pending ws => Scan fuel ws (mkScanner (sc_start s) (sc_data s ++ b) (sc_size s) err) pending
                end
            end
      end
  end.

(** The calls of [Scan] in the loop of [Interactive], at most [n] of them: the lines,
    and what the last call comes to *)
Fixpoint Scans (n : nat) (ws : list wake) (s : scanner) (pending : bytes) : list bytes * option scanned :=
  match n with
  | O => ([], None)
  | S n =>
      match Scan (S (length ws)) ws s pending with
      | Token line s pending ws => let '(lines, last) := Scans n ws s pending in (line :: lines, last)
      | last => ([], Some last)
      end
  end.

(** ** The lines of a text *)

(** The bytes that are typed *)
Definition typed (ws : list wake) : bytes := concat ((λ w, if w is Types b then b else []) <$> ws).

Lemma typed_Types b ws : typed (Types b :: ws) = b ++ typed ws.
Proof. done. Qed.

(** The lines of a text, without their newlines, and what follows the last newline *)
Fixpoint lines (s : bytes) : list bytes * bytes :=
  match s with
  | [] => ([], [])
  | a :: s =>
      let '(ls, rest) := lines s in
      if bool_decide (a = LF) then ([] :: ls, rest)
      else match ls with [] => ([], a :: rest) | l :: ls => ((a :: l) :: ls, rest) end
  end.

Lemma lines_rest s : LF ∉ s → lines s = ([], s).
Proof.
  induction s as [|a s IH]; [done|]. rewrite not_elem_of_cons. intros [Ha Hs]. cbn [lines].
  rewrite IH by done. by rewrite bool_decide_eq_false_2.
Qed.

Lemma lines_cons l s : LF ∉ l → lines (l ++ (LF :: s)) = (l :: (lines s).1, (lines s).2).
Proof.
  induction l as [|a l IH]; cbn [app lines].
  - destruct (lines s). by rewrite bool_decide_eq_true_2.
  - rewrite not_elem_of_cons. intros [Ha Hl]. rewrite IH by done. by rewrite bool_decide_eq_false_2.
Qed.

Lemma lines_no_rest s : LF ∉ (lines s).2.
Proof.
  induction s as [|a s IH]; [apply not_elem_of_nil|]. cbn [lines]. destruct (lines s) as [ls rest].
  case_bool_decide; [done|]. destruct ls; [|done]. apply not_elem_of_cons. by split.
Qed.

Lemma typed_ticks k : typed (replicate k Tick) = [].
Proof. by induction k. Qed.

(** The ticks that are needed to read [n] pending bytes and what is typed: one for a
    byte is enough. *)
Fixpoint enough (n : nat) (ws : list wake) : bool :=
  match ws with
  | [] => (n =? 0)%nat
  | Types b :: ws => enough (n + length b) ws
  | Tick :: ws => enough (n - 1) ws
  | Cancel :: _ => true
  end.

Lemma enough_mono n m ws : (n <= m)%nat → enough m ws → enough n ws.
Proof.
  revert n m. induction ws as [|[b| |] ws IH]; intros n m Hn; cbn [enough].
  - rewrite !Is_true_true, !Nat.eqb_eq. lia.
  - apply IH. lia.
  - apply IH. lia.
  - done.
Qed.

Lemma enough_ticks n k : (n <= k)%nat → enough n (replicate k Tick).
Proof.
  revert n. induction k as [|k IH]; intros n Hn; cbn [replicate enough]; [by replace n with O by lia|].
  apply IH. lia.
Qed.

Definition quiet (ws : list wake) : Prop := Forall (λ w, w ≠ Cancel) ws.

(** ** What the reader gives *)

Lemma Read_spec k ws pending :
  0 < k → quiet ws →
  match Read k ws pending with
  | Returns b err pending' ws' =>
      err = None ∧ b ≠ [] ∧ Z.of_nat (length b) <= k ∧ pending ++ typed ws = b ++ pending' ++ typed ws' ∧
      (length ws' < length ws)%nat ∧ quiet ws' ∧ (enough (length pending) ws → enough (length pending') ws')
  | Waits pending' => pending' = pending ++ typed ws ∧ (enough (length pending) ws → pending' = [])
  end.
Proof.
  intros Hk. revert pending. induction ws as [|w ws IH]; intros pending Hq; cbn [Read].
  - cbn. rewrite app_nil_r. split; [done|]. rewrite Is_true_true, Nat.eqb_eq. by intros ?%nil_length_inv.
  - apply Forall_cons in Hq as [Hw Hq]. destruct w as [b| |]; [| |done].
    + specialize (IH (pending ++ b) Hq). destruct (Read k ws (pending ++ b)) as [b' err pending' ws'|pending'].
      * destruct IH as (? & ? & ? & He & ? & ? & Hen). rewrite length_app in Hen. split_and!; try done; [|simpl; lia].
        by rewrite <-He, typed_Types, app_assoc.
      * rewrite length_app in IH. by rewrite typed_Types, app_assoc.
    + destruct pending as [|a pending]; cbn [stdin_Read].
      * cbn [length Nat.ltb Nat.leb]. specialize (IH [] Hq). destruct (Read k ws []) as [b' err pending' ws'|pending']; [|done].
        destruct IH as (? & ? & ? & He & ? & ? & Hen). split_and!; try done. simpl. lia.
      * assert (0 < length (take (Z.to_nat k) (a :: pending)))%nat as Hl by (rewrite length_take; simpl; lia).
        destruct (Nat.ltb_spec0 0 (length (take (Z.to_nat k) (a :: pending)))) as [_|]; [|lia].
        split_and!; [done|intros He; rewrite He in Hl; simpl in Hl; lia|rewrite length_take; lia| |simpl; lia|done|].
        -- rewrite length_take. rewrite app_assoc. f_equal. rewrite <-(take_drop (Z.to_nat k) (a :: pending)) at 1. f_equal.
           destruct (Nat.le_gt_cases (Z.to_nat k) (length (a :: pending))); [by rewrite Nat.min_l|].
           rewrite !drop_ge by lia. done.
        -- cbn [enough]. apply enough_mono. rewrite length_drop. simpl length in *. lia.
Qed.

(** ** What the scanner gives *)

Definition scanner_ok (s : scanner) : Prop :=
  0 <= sc_start s ∧ sc_end s <= sc_size s <= MaxScanTokenSize ∧ sc_err s = None.

Lemma prepare_spec s :
  scanner_ok s →
  match prepare s with
  | None => MaxScanTokenSize <= Z.of_nat (length (sc_data s))
  | Some s' => scanner_ok s' ∧ sc_data s' = sc_data s ∧ sc_end s' < sc_size s'
  end.
Proof.
  intros (Hs & [He Hm] & Herr). unfold prepare, scanner_ok, sc_end, MaxScanTokenSize, startBufSize in *. cbn [sc_start sc_data sc_size sc_err] in *.
  set (n := Z.of_nat _) in *. assert (0 <= n) by lia.
  destruct (Z.ltb_spec 0 (sc_start s)), (Z.eqb_spec (sc_start s + n) (sc_size s)), (Z.ltb_spec (sc_size s / 2) (sc_start s));
    cbn [andb orb];
    match goal with |- context [?x + n =? sc_size s] => destruct (Z.eqb_spec (x + n) (sc_size s)) end;
    try (cbn [sc_start sc_data sc_size sc_err]; fold n; split_and!; (done || lia));
    destruct (Z.leb_spec (64 * 1024) (sc_size s)); try lia;
    destruct (Z.eqb_spec (sc_size s) 0); cbn [sc_start sc_data sc_size sc_err]; fold n; split_and!; (done || lia).
Qed.

Lemma ScanLines_spec data :
  match ScanLines data false with
  | Some (advance, line) => ∃ l, data = l ++ (LF :: drop advance data) ∧ (LF ∉ l) ∧ advance = S (length l) ∧ line = dropCR l
  | None => LF ∉ data
  end.
Proof.
  unfold ScanLines. cbn [andb]. pose proof (Cut_join data LF) as Hcut.
  destruct (Cut data LF) as [[before after] []]; destruct Hcut as [Hd Hn]; [|by subst].
  exists before. split_and!; [|done..]. rewrite Hd at 1. f_equal. f_equal. rewrite Hd.
  rewrite cons_middle, app_assoc, drop_app_length'; [done|]. rewrite length_app. simpl. lia.
Qed.

(** What is left to read: the data in the buffer, what is pending, and what will
    be typed *)
Definition remaining (s : scanner) (pending : bytes) (ws : list wake) : bytes := sc_data s ++ pending ++ typed ws.

Lemma Scan_spec fuel ws s pending :
  (length ws < fuel)%nat → scanner_ok s → quiet ws →
  match Scan fuel ws s pending with
  | Token line s' pending' ws' =>
      ∃ l, remaining s pending ws = l ++ (LF :: remaining s' pending' ws') ∧ (LF ∉ l) ∧ line = dropCR l ∧
        Z.of_nat (length l) < MaxScanTokenSize ∧ scanner_ok s' ∧ quiet ws' ∧
        (enough (length pending) ws → enough (length pending') ws')
  | Finished s' pending' ws' =>
      sc_err s' = Some ErrTooLong ∧
      ∃ l r, remaining s pending ws = l ++ r ∧ (LF ∉ l) ∧ MaxScanTokenSize <= Z.of_nat (length l)
  | Waiting s' pending' =>
      remaining s pending ws = sc_data s' ++ pending' ∧ (LF ∉ sc_data s') ∧ scanner_ok s' ∧ sc_end s' < sc_size s' ∧
      (enough (length pending) ws → pending' = [])
  end.
Proof.
  revert ws s pending. induction fuel as [|fuel IH]; intros ws s pending Hf Hok Hq; [lia|]. cbn [Scan].
  pose proof Hok as (Hs & He & Herr). rewrite Herr. pose proof (ScanLines_spec (sc_data s)) as Hsl.
  change (bool_decide (is_Some None)) with false. destruct (ScanLines (sc_data s) false) as [[advance line]|].
  { destruct Hsl as (l & Hd & Hl & Ha & ->). pose proof (f_equal length Hd) as Hlen. rewrite length_app in Hlen. simpl in Hlen.
    exists l. unfold remaining, scanner_ok, sc_end in *. cbn [sc_start sc_data sc_size sc_err]. split_and!; try done; try lia.
    rewrite Hd at 1. by rewrite <-app_assoc. }
  pose proof (prepare_spec s Hok) as Hp. destruct (prepare s) as [s1|]; cbn [sc_err].
  2:{ split; [done|]. by exists (sc_data s), (pending ++ typed ws). }
  destruct Hp as (Hok1 & Hd1 & Hfree). pose proof (Read_spec (sc_size s1 - sc_end s1) ws pending ltac:(lia) Hq) as Hr.
  destruct (Read _ ws pending) as [b err pending' ws'|pending'].
  - destruct Hr as (-> & Hb & Hlb & Hrem & Hlw & Hq' & Hen).
    specialize (IH ws' (mkScanner (sc_start s1) (sc_data s1 ++ b) (sc_size s1) None) pending' ltac:(lia)).
    assert (remaining s pending ws = remaining (mkScanner (sc_start s1) (sc_data s1 ++ b) (sc_size s1) None) pending' ws') as ->
      by (unfold remaining; cbn [sc_data]; by rewrite Hrem, Hd1, <-!app_assoc).
    destruct Hok1 as (? & ? & ?). assert (scanner_ok (mkScanner (sc_start s1) (sc_data s1 ++ b) (sc_size s1) None)) as Hok2.
    { unfold scanner_ok, sc_end in *. cbn [sc_start sc_data sc_size sc_err]. rewrite length_app. split_and!; (done || lia). }
    specialize (IH Hok2 Hq').
    destruct (Scan fuel ws' _ pending') as [line s' p' ws2|s' p' ws2|s' p']; [|done|].
    + destruct IH as (l & ? & ? & ? & ? & ? & ? & ?). exists l. split_and!; auto.
    + destruct IH as (? & ? & ? & ? & ?). split_and!; auto.
  - destruct Hr as [-> Hen]. unfold remaining. rewrite Hd1. by split_and!.
Qed.

(** ** Properties *)

Lemma NewScanner_ok : scanner_ok NewScanner.
Proof. done. Qed.

(** The lines of a text fit into the buffer, and so does what follows them. *)
Definition short (text : bytes) : Prop :=
  Forall (λ l, Z.of_nat (length l) < MaxScanTokenSize) (lines text).1 ∧ Z.of_nat (length (lines text).2) < MaxScanTokenSize.

Lemma short_lines l r : LF ∉ l → MaxScanTokenSize <= Z.of_nat (length l) → ¬ short (l ++ r).
Proof.
  intros Hl Hlong [Hls Hrest]. destruct (Cut r LF) as [[before after] found] eqn:Hcut. pose proof (Cut_join r LF) as Hj.
  rewrite Hcut in Hj. destruct Hj as [-> Hb].
  assert (LF ∉ l ++ before) as Hn by (rewrite elem_of_app; tauto).
  destruct found; [rewrite app_assoc, lines_cons in Hls by done|rewrite lines_rest in Hrest by done; cbn [snd] in Hrest; rewrite length_app in Hrest; simpl in Hrest; lia].
  apply Forall_cons in Hls as [Hlen _]. rewrite length_app in Hlen. lia.
Qed.

Lemma Scans_spec n ws s pending :
  scanner_ok s → quiet ws → enough (length pending) ws → short (remaining s pending ws) →
  (length (lines (remaining s pending ws)).1 < n)%nat →
  ∃ s', Scans n ws s pending = (dropCR <$> (lines (remaining s pending ws)).1, Some (Waiting s' [])) ∧
    sc_data s' = (lines (remaining s pending ws)).2 ∧ scanner_ok s' ∧ sc_end s' < sc_size s'.
Proof.
  revert ws s pending. induction n as [|n IH]; intros ws s pending Hok Hq Hen Hsh Hn; [lia|]. cbn [Scans].
  pose proof (Scan_spec (S (length ws)) ws s pending ltac:(lia) Hok Hq) as Hs.
  destruct (Scan _ ws s pending) as [line s' p' ws'|s' p' ws'|s' p'].
  - destruct Hs as (l & Hrem & Hl & -> & Hlen & Hok' & Hq' & Hen'). rewrite Hrem in *. rewrite lines_cons in * by done.
    destruct Hsh as [Hls Hrest]. rewrite lines_cons in * by done. apply Forall_cons in Hls as [_ Hls]. simpl in Hn, Hrest.
    destruct (IH ws' s' p' Hok' Hq' (Hen' Hen) (conj Hls Hrest) ltac:(lia)) as (s2 & -> & ? & ? & ?).
    by exists s2.
  - destruct Hs as (_ & l & r & Hrem & Hl & Hlen). rewrite Hrem in Hsh. by apply short_lines in Hsh.
  - destruct Hs as (Hrem & Hl & Hok' & Hfree & Hp). rewrite (Hp Hen), app_nil_r in *. rewrite Hrem, lines_rest in * by done.
    by exists s'.
Qed.

(** What is typed is read. Whatever the pieces in which it arrives and however
    often the reader polls in vain, the scanner returns the lines of the text that
    was typed, one by one and in order, as long as they fit its buffer, and then
    waits with the rest; it goes on waiting however often the ticker fires, be it
    that nothing more is typed yet or that the input has ended: then the last
    line, if it has no newline, is not read and the end is not noticed. *)
Lemma typed_lines (ws : list wake) (n : nat)
  (Hq : quiet ws) (Hen : enough 0 ws) (Hshort : short (typed ws)) (Hn : (length (lines (typed ws)).1 < n)%nat) :
  ∃ s, Scans n ws NewScanner [] = (dropCR <$> (lines (typed ws)).1, Some (Waiting s [])) ∧
    ∀ k, ∃ s', Scan (S k) (replicate k Tick) s [] = Waiting s' [] ∧ sc_data s' = (lines (typed ws)).2.
Proof.
  destruct (Scans_spec n ws NewScanner [] NewScanner_ok Hq Hen Hshort Hn) as (s & Hs & Hd & Hok & _).
  cbn [remaining NewScanner sc_data app] in Hs, Hd. exists s. split; [exact Hs|]. intros k.
  assert (LF ∉ sc_data s) as Hnl by (rewrite Hd; apply lines_no_rest).
  assert (quiet (replicate k Tick)) as Hqk by (apply Forall_replicate; discriminate).
  assert (remaining s [] (replicate k Tick) = sc_data s) as Hrem
    by (unfold remaining; by rewrite typed_ticks, app_nil_r).
  pose proof (Scan_spec (S k) (replicate k Tick) s [] ltac:(rewrite length_replicate; lia) Hok Hqk) as Hspec. rewrite Hrem in Hspec.
  destruct (Scan _ _ s []) as [line s' p' ws'|s' p' ws'|s' p'].
  - destruct Hspec as (l & Heq & _). rewrite Heq in Hnl. rewrite elem_of_app, elem_of_cons in Hnl. tauto.
  - destruct Hspec as (_ & l & r & Heq & _ & Hlen). destruct Hshort as [_ Hrest]. rewrite <-Hd, Heq, length_app in Hrest. lia.
  - destruct Hspec as (Heq & _ & _ & _ & Hp). rewrite (Hp ltac:(apply enough_ticks; simpl; lia)), app_nil_r in *.
    exists s'. by rewrite <-Heq.
Qed.

(** C40. A line that is too long ends the input. As soon as 65536 bytes without a
    newline are there, [Scan] returns false, and so ends the loop of [Interactive],
    which looks at the error only after [Scan] returned true. *)
Theorem long_line_ends_input (ws : list wake) (l r : bytes)
  (Hq : quiet ws) (Hen : enough 0 ws) (Htext : typed ws = l ++ r) (Hl : LF ∉ l)
  (Hlong : MaxScanTokenSize <= Z.of_nat (length l)) :
  ∃ s pending ws', Scan (S (length ws)) ws NewScanner [] = Finished s pending ws' ∧ sc_err s = Some ErrTooLong.
Proof.
  pose proof (Scan_spec (S (length ws)) ws NewScanner [] ltac:(lia) NewScanner_ok Hq) as Hspec.
  change (remaining NewScanner [] ws) with (typed ws) in Hspec. rewrite Htext in Hspec.
  destruct (Scan _ ws NewScanner []) as [line s' p' ws'|s' p' ws'|s' p'].
  - destruct Hspec as (l0 & Heq & Hl0 & _ & Hlen & _). exfalso.
    apply Hl. assert (take (length l) (l ++ r) = l) as <- by apply take_app_length.
    rewrite Heq, take_app_ge by lia. replace (length l - length l0)%nat with (S (length l - length l0 - 1)) by lia.
    rewrite elem_of_app. right. by left.
  - destruct Hspec as [Herr _]. by exists s', p', ws'.
  - destruct Hspec as (Heq & _ & (Hs & [_ Hm] & _) & Hfree & Hp). rewrite (Hp Hen), app_nil_r in Heq.
    pose proof (f_equal length Heq) as Hlen. rewrite length_app in Hlen. unfold sc_end, MaxScanTokenSize in *. lia.
Qed.

(** ** Instances *)

Module Typing.
(** "hello" and a carriage return in two pieces, and then the beginning of a line *)
Definition wakes : list wake :=
  [Tick; Types (str "he"); Tick; Tick; Types (str "llo" ++ [CR; LF] ++ str "bo"); Tick; Types (str "b")] ++ replicate 9 Tick.

Lemma wakes_quiet : quiet wakes.
Proof. unfold quiet. apply (bool_decide_unpack _). vm_compute. exact I. Qed.
Lemma wakes_short : short (typed wakes).
Proof. split; [apply (bool_decide_unpack _); vm_compute; exact I|vm_compute; reflexivity]. Qed.

(** A line without a newline, and the ticks to read it *)
Definition flood (n : nat) : list wake := Types (replicate n Byte.x61) :: replicate n Tick.

Lemma flood_quiet n : quiet (flood n).
Proof. constructor; [discriminate|]. apply Forall_replicate. discriminate. Qed.
Lemma flood_enough n : enough 0 (flood n).
Proof. unfold flood. cbn [enough Nat.add]. apply enough_ticks. by rewrite length_replicate. Qed.
Lemma flood_typed n : typed (flood n) = replicate n Byte.x61 ++ [].
Proof. unfold flood. by rewrite typed_Types, typed_ticks. Qed.
Lemma flood_line n : LF ∉ replicate n Byte.x61.
Proof. intros Hin. by apply elem_of_replicate_inv in Hin. Qed.
Lemma flood_long z : z <= Z.of_nat (length (replicate (Z.to_nat z) Byte.x61)).
Proof. rewrite length_replicate. lia. Qed.
End Typing.

Lemma long_line_ends_input_witness :
  let ws := Typing.flood (Z.to_nat MaxScanTokenSize) in
  ∃ s pending ws', Scan (S (length ws)) ws NewScanner [] = Finished s pending ws' ∧ sc_err s = Some ErrTooLong.
Proof.
  exact (long_line_ends_input (Typing.flood (Z.to_nat MaxScanTokenSize)) (replicate (Z.to_nat MaxScanTokenSize) Byte.x61) []
    (Typing.flood_quiet _) (Typing.flood_enough _) (Typing.flood_typed _) (Typing.flood_line _) (Typing.flood_long _)).
Defined.
