(* ===== verification/Bus.v ===== *)
(** * The message bus (src/client/driver-msgbus/msgbus.go and the constructor of
    src/client/client.go)

    A client gets its input from a driver: from none, or from a subscription to
    the inbox of its endpoint, which calls [Input] for every message with the
    position of the message in the stream. The manager remembers how far the
    client has come. *)

From Stdlib Require Import ZArith Lia Sorted.
From stdpp Require Import base list numbers option strings gmap.
From S2P Require Import Prelude Crypto ToyCrypto DhRatchet DoubleRatchet RatchetSync Gob Marshal Base64 Message X3dh Session DiskSession Client.

Local Open Scope Z_scope.

(** [saltyim.SplitInbox]: the address of the bus and the name of the inbox *)
Class Inbox := SplitInbox : bytes → bytes * bytes.

(** How a run ends: the error of a context that is done, and what the subscription
    returns when its messages have ended *)
Class Ending := {
  ctx_Err : error;
  subscriber_result : result unit;
}.

(** [msgbus.Message], as far as it is used *)
Record Message := mkMessage { m_ID : Z; m_Payload : bytes }.

(** [nilDriver], or what [bus.Subscribe] returns *)
Inductive Driver :=
  | nilDriver
  | Subscriber (uri inbox : bytes) (pos : Z).

Section Bus.
Context `{RatchetCrypto} `{IdentityCrypto} `{BoxCrypto} `{Ulid} `{GobWire} `{SaltyLib} `{ClientLib} `{Inbox} `{Ending}.

(** [WithMsgbus] *)
Definition WithMsgbus (pos : Z) (c : Client) : Driver :=
  let '(uri, inbox) := SplitInbox (addr_endpoint (c_addr c)) in Subscriber uri inbox pos.

(** [client.New]: the options set the driver, the last one stays; the handlers of
    input are part of [Input] *)
Definition New (sm : Manager) (me : bytes) (opts : list (Client → Driver)) (e : entropy)
  (posts : list (bytes * bytes)) : result (Client * Driver) :=
  match LookupAddr me with
  | Ok addr =>
      let c := mkClient sm addr e posts [] in
      Ok (c, foldl (λ _ o, o c) nilDriver opts)
  | Err er => Err (Wrapf "lookup addr: %w" er)
  | Panic => Panic
  end.

(** [hdlr]: the error of the handler is dropped *)
Definition hdlr (fn : OnInput → ST Client unit) (msg : Message) : ST Client unit := λ c,
  match fn (mkInput (m_ID msg) (m_Payload msg)) c with
  | (Err _, c') => (Ok tt, c')
  | out => out
  end.

(** [nilDriver.Run] *)
Definition nilDriver_Run : ST Client unit := throw ctx_Err.

(** [Client.Run], with the messages that the bus delivers; without a driver it waits
    for the end of its context *)
Fixpoint deliver (msgs : list Message) : ST Client unit :=
  match msgs with
  | [] => mret tt
  | msg :: msgs => _ ← hdlr Input msg; deliver msgs
  end.

Definition Run (d : Driver) (msgs : list Message) : ST Client unit :=
  match d with
  | nilDriver => nilDriver_Run
  | Subscriber _ _ _ => _ ← deliver msgs; lift subscriber_result
  end.
End Bus.

(** ** The position in the stream *)

(** A text that the client takes as a message of its own. *)
Definition recognised (payload : bytes) : bool :=
  if is_ratchet payload then is_Ok (readMsg payload) else hasPrefix payload saltpack.

(** What is dispatched for a text that is not recognised *)
Definition unknown_event (payload : bytes) : event :=
  if is_ratchet payload then OnError (Wrapf "reading msg: %w" (as_error (readMsg payload))) else OnReceived payload.

(** Where a stream leaves a client: behind the last message that it recognised. *)
Definition stream_position (pos : Z) (msgs : list Message) : Z :=
  foldl (λ p msg, if recognised (m_Payload msg) then int64 (m_ID msg + 1) else p) pos msgs.

Section Keeps.
Context `{RatchetCrypto} `{IdentityCrypto} `{BoxCrypto} `{Ulid} `{GobWire} `{SaltyLib} `{ClientLib}.

(** A call that does not move the position *)
Definition keeps_pos {A} (m : ST Client A) : Prop := ∀ c, sm_pos (c_sm (m c).2) = sm_pos (c_sm c).

Create HintDb keeps.

Lemma keeps_bind {A B} (m : ST Client A) (f : A → ST Client B) :
  keeps_pos m → (∀ a, keeps_pos (f a)) → keeps_pos (m ≫= f).
Proof.
  intros Hm Hf c. unfold mbind, ST_bind. specialize (Hm c). destruct (m c) as [[a| |] c1]; simpl in *; [|done..].
  by rewrite Hf.
Qed.

Lemma keeps_ret {A} (a : A) : keeps_pos (mret a).
Proof. done. Qed.

Lemma keeps_lift {A} (r : result A) : keeps_pos (lift r).
Proof. done. Qed.

Lemma keeps_dispatch ev : keeps_pos (dispatch ev).
Proof. done. Qed.

Lemma keeps_ByName name : keeps_pos (with_sm (ByName name)).
Proof. intros c. unfold with_sm, zoom, ByName. by destruct (sm_sessions _ !! _). Qed.

Lemma keeps_New them : keeps_pos (with_sm (DiskSession.New them)).
Proof.
  intros c. unfold with_sm, zoom, DiskSession.New, mbind, ST_bind, ByName, gets.
  destruct (sm_sessions _ !! _); unfold fetchKey; destruct (LookupAddr them); done.
Qed.

Lemma keeps_Put s : keeps_pos (with_sm (Put s)).
Proof. intros c. unfold with_sm, zoom, Put. destruct (ps_Session s); [|done]. by destruct (Peer_MarshalBinary s). Qed.

Lemma keeps_Delete s : keeps_pos (with_sm (Delete s)).
Proof. intros c. unfold with_sm, zoom, Delete. destruct (ps_Session s); [|done]. by destruct (sm_files _ !! _). Qed.

Lemma keeps_with_peer {A} (m : ST (PeerSession * entropy) A) s : keeps_pos (with_peer m s).
Proof. intros c. unfold with_peer. by destruct (m _) as [r [s' e']]. Qed.

Lemma keeps_receiveMsg m s : keeps_pos (receiveMsg m s).
Proof.
  intros c. unfold receiveMsg. pose proof (keeps_with_peer (Peer_ReceiveMsg m) s c) as Hk.
  by destruct (with_peer _ _ _) as [[a| |] c1].
Qed.

Lemma keeps_unsealMsg m : keeps_pos (unsealMsg m).
Proof. intros c. unfold unsealMsg. destruct m; try done. by destruct (key_X25519_pair _). Qed.

Lemma keeps_findSession id m : keeps_pos (findSession id m).
Proof.
  unfold findSession. destruct (msg_nick m) as [nick|]; intros c.
  - pose proof (keeps_New nick c) as Hk. by destruct (with_sm _ _) as [[a| |] c1].
  - destruct (Get id (c_sm c)) as [s|er|]; [done| |done]. by destruct (is_not_exist er).
Qed.
#[local] Hint Resolve keeps_ret keeps_lift keeps_dispatch keeps_ByName keeps_New keeps_Put keeps_Delete
  keeps_receiveMsg keeps_unsealMsg keeps_findSession : keeps.

Ltac keeps :=
  repeat first
    [ solve [auto with keeps]
    | apply keeps_bind; [|intros ?]
    | match goal with |- context [match ?x with _ => _ end] => destruct x end ].

Lemma keeps_deliverMsg m s : keeps_pos (deliverMsg m s).
Proof. unfold deliverMsg. keeps. Qed.
#[local] Hint Resolve keeps_deliverMsg : keeps.

(** A body that first moves the position, with its errors dispatched *)
Lemma catch_moves pos (m : ST Client unit) c r c' :
  keeps_pos m → catch (_ ← with_sm (SetPosition pos); m) c = (r, c') →
  sm_pos (c_sm c') = pos ∧ ∀ er, r ≠ Err er.
Proof.
  intros Hm. unfold catch. unfold mbind, ST_bind, with_sm, zoom, SetPosition, modify.
  pose proof (Hm (set_sm (set_pos pos (c_sm c)) c)) as Hk.
  destruct (m (set_sm (set_pos pos (c_sm c)) c)) as [[a| |] c1]; intros [= <- <-]; done.
Qed.

(** Every input either moves the position behind itself, or is not recognised
    and does nothing but dispatch an event. *)
Lemma Input_position inp c r c' :
  Input inp c = (r, c') →
  (∀ er, r ≠ Err er) ∧
  if recognised (in_Payload inp) then sm_pos (c_sm c') = int64 (in_Position inp + 1)
  else r = Ok tt ∧ c' = add_event (unknown_event (in_Payload inp)) c.
Proof.
  unfold Input, recognised, unknown_event. destruct (is_ratchet (in_Payload inp)) eqn:Hr.
  - apply andb_prop in Hr as Hp. destruct Hp as [Hp _]. pose proof (ratchet_not_saltpack _ Hp) as Hs.
    unfold handleSaltPack. rewrite Hs. st_pure. unfold handleOther. rewrite Hr. unfold handleRatchet. rewrite Hr. cbn [negb].
    destruct (readMsg (in_Payload inp)) as [[id m]|er|] eqn:Hm; cbn [is_Ok].
    + intros Hi. apply and_comm. unfold mbind at 1, ST_bind at 1 in Hi.
      destruct (catch _ c) as [rc c1] eqn:Hc. apply catch_moves in Hc as [Hpos Hne]; [|keeps].
      destruct rc as [[]|er|]; [|by destruct (Hne er)|]; by injection Hi as <- <-.
    + intros [= <- <-]. by split.
    + unfold readMsg, Parse in Hm. exfalso. revert Hm. unfold mbind, result_bind.
      pose proof (unmarshalMessage_no_panic (in_Payload inp)). by destruct (unmarshalMessage _) as [[]| |].
  - unfold handleRatchet, handleOther. rewrite Hr. cbn [negb].
    destruct (hasPrefix (in_Payload inp) saltpack) eqn:Hs.
    + intros Hi. apply and_comm. unfold mbind at 1, ST_bind at 1 in Hi. unfold handleSaltPack in Hi. rewrite Hs in Hi. cbn [negb] in Hi.
      destruct (catch _ c) as [rc c1] eqn:Hc. apply catch_moves in Hc as [Hpos Hne].
      * destruct rc as [[]|er|]; [|by destruct (Hne er)|]; by injection Hi as <- <-.
      * apply keeps_bind; [done|]. intros c0. keeps.
    + unfold handleSaltPack. rewrite Hs. st_pure. st_pure. intros [= <- <-]. by split_and!.
Qed.
End Keeps.

Section Stream.
Context `{RatchetCrypto} `{IdentityCrypto} `{BoxCrypto} `{Ulid} `{GobWire} `{SaltyLib} `{ClientLib} `{Ending}.

Lemma hdlr_Input msg c r c' :
  hdlr Input msg c = (r, c') → Input (mkInput (m_ID msg) (m_Payload msg)) c = (r, c').
Proof.
  unfold hdlr. destruct (Input _ c) as [r1 c1] eqn:Hi. apply Input_position in Hi as [Hne _].
  destruct r1 as [a|er|]; [done|by destruct (Hne er)|done].
Qed.

Lemma deliver_cons msg msgs c c' :
  deliver (msg :: msgs) c = (Ok tt, c') → ∃ c1, hdlr Input msg c = (Ok tt, c1) ∧ deliver msgs c1 = (Ok tt, c').
Proof. intros Hd. apply ST_bind_inv in Hd as ([] & c1 & Hh & Hd). by exists c1. Qed.

Lemma deliver_no_error msgs c er c' : deliver msgs c ≠ (Err er, c').
Proof.
  revert c. induction msgs as [|msg msgs IH]; intros c; [done|]. cbn [deliver]. unfold mbind, ST_bind.
  destruct (hdlr Input msg c) as [[[]|er1|] c1] eqn:Hh; [apply IH| |done].
  unfold hdlr in Hh. by destruct (Input _ c) as [[]].
Qed.

(** A run that comes to its end has delivered everything. *)
Lemma Run_delivers uri inbox pos msgs c r c' :
  Run (Subscriber uri inbox pos) msgs c = (r, c') → r ≠ Panic → deliver msgs c = (Ok tt, c').
Proof.
  cbn [Run]. unfold mbind, ST_bind, lift. destruct (deliver msgs c) as [[[]|er|] c1] eqn:Hd; intros [= <- <-] Hr; [done| |done].
  by apply deliver_no_error in Hd.
Qed.

Lemma deliver_position msgs c c' :
  deliver msgs c = (Ok tt, c') → sm_pos (c_sm c') = stream_position (sm_pos (c_sm c)) msgs.
Proof.
  revert c. induction msgs as [|msg msgs IH]; intros c; [by intros [= <-]|].
  intros (c1 & Hh%hdlr_Input%Input_position & Hd)%deliver_cons. destruct Hh as [_ Hp]. cbn [in_Payload in_Position] in Hp.
  rewrite (IH c1 Hd). unfold stream_position. cbn [foldl].
  destruct (recognised (m_Payload msg)); [by rewrite Hp|]. by destruct Hp as (_ & ->).
Qed.

(** The numbers of a stream grow. *)
Definition in_order (msgs : list Message) : Prop :=
  StronglySorted (λ a b, m_ID a < m_ID b) msgs ∧ Forall (λ m, 0 <= m_ID m < 2 ^ 63 - 1) msgs.

Lemma in_order_cons msg msgs :
  in_order (msg :: msgs) →
  0 <= m_ID msg < 2 ^ 63 - 1 ∧ Forall (λ m, m_ID msg < m_ID m) msgs ∧ in_order msgs.
Proof.
  intros [Hs Hb]. apply Forall_cons in Hb as [Hb Hbs]. inversion Hs; subst. split; [done|]. split; [done|by split].
Qed.

(** The position is behind everything that was recognised. *)
Lemma stream_position_behind pos msgs msg :
  in_order msgs → msg ∈ msgs → recognised (m_Payload msg) = true → m_ID msg < stream_position pos msgs.
Proof.
  revert pos. induction msgs as [|m msgs IH]; intros pos Ho Hin Hrec; [by apply not_elem_of_nil in Hin|].
  apply in_order_cons in Ho as (Hb & Hlt & Ho).
  unfold stream_position. cbn [foldl]. fold (stream_position (if recognised (m_Payload m) then int64 (m_ID m + 1) else pos) msgs).
  apply elem_of_cons in Hin as [->|Hin]; [|by apply IH].
  rewrite Hrec, int64_id by (unfold int64_range; lia).
  assert (∀ p, p > m_ID m → stream_position p msgs > m_ID m) as Hmono; [|specialize (Hmono (m_ID m + 1)); lia].
  clear -Hlt Ho. induction msgs as [|m' msgs IH]; intros p Hp; [done|].
  apply in_order_cons in Ho as (Hb' & _ & Ho). apply Forall_cons in Hlt as [Hl Hlt].
  unfold stream_position. cbn [foldl]. apply (IH Hlt Ho).
  destruct (recognised _); [rewrite int64_id by (unfold int64_range; lia); lia|done].
Qed.

(** C24. No message is taken twice. The handler of a stream keeps the position
    behind the last message that was recognised as one of the client's. A message
    that is delivered again from that position on, after a restart with a new
    subscription, was not recognised the first time and is not recognised now: it
    changes neither sessions nor index nor position, reads no random byte and
    posts nothing. All that happens is that the event is dispatched again with which the
    client reports an unknown text or one that cannot be read. *)
Theorem stream_at_most_once (uri inbox : bytes) (pos : Z) (msgs : list Message) (c c' : Client) (r : result unit)
  (Ho : in_order msgs) (Hrun : Run (Subscriber uri inbox pos) msgs c = (r, c')) (Hnp : r ≠ Panic) :
  Position (c_sm c') = stream_position (Position (c_sm c)) msgs ∧
  ∀ msg, msg ∈ msgs → Position (c_sm c') <= m_ID msg →
    recognised (m_Payload msg) = false ∧
    ∀ c2, hdlr Input msg c2 = (Ok tt, add_event (unknown_event (m_Payload msg)) c2).
Proof.
  pose proof (deliver_position msgs c c' (Run_delivers _ _ _ _ _ _ _ Hrun Hnp)) as Hp. split; [done|].
  intros msg Hin Hge. unfold Position in Hge.
  assert (recognised (m_Payload msg) = false) as Hrec.
  { destruct (recognised (m_Payload msg)) eqn:Hr; [|done].
    pose proof (stream_position_behind (sm_pos (c_sm c)) msgs msg Ho Hin Hr). lia. }
  split; [done|]. intros c2. destruct (hdlr Input msg c2) as [r2 c2'] eqn:Hh.
  apply hdlr_Input, Input_position in Hh as [_ Hq]. cbn [in_Payload] in Hq. rewrite Hrec in Hq.
  by destruct Hq as (-> & ->).
Qed.
End Stream.

(** ** Instances *)

#[local] Existing Instances toy_ratchet_crypto toy_identity_crypto toy_box_crypto SRuns.toy_ulid ToyWire.toy_wire
  ToySalty.toy_salty ToyClient.toy_client.

(** A subscription that ends when it is cancelled. *)
Definition toy_ending : Ending := {| ctx_Err := Errorf "context canceled"; subscriber_result := Ok tt |}.
#[local] Existing Instance toy_ending.

(** A stream with an acknowledgement for no session and a text of somebody else. *)
Definition toy_stream : list Message :=
  [mkMessage 4 (str "hello"); mkMessage 7 (in_Payload ToyClient.bad_input); mkMessage 9 (str "world")].

Definition toy_after : Client := (Run (Subscriber (str "uri") (str "inbox") (-1)) toy_stream ToyClient.alice).2.

Lemma toy_run : Run (Subscriber (str "uri") (str "inbox") (-1)) toy_stream ToyClient.alice = (Ok tt, toy_after).
Proof.
  apply injective_projections; [vm_compute; reflexivity|reflexivity].
Qed.

Lemma stream_at_most_once_witness :
  Position (c_sm toy_after) = 8 ∧
  ∀ msg, msg ∈ toy_stream → Position (c_sm toy_after) <= m_ID msg →
    recognised (m_Payload msg) = false ∧
    ∀ c2, hdlr Input msg c2 = (Ok tt, add_event (unknown_event (m_Payload msg)) c2).
Proof.
  refine (stream_at_most_once (str "uri") (str "inbox") (-1) toy_stream ToyClient.alice toy_after (Ok tt) _ toy_run _).
  - split; repeat constructor; reflexivity || discriminate.
  - discriminate.
Defined.
