(* ===== verification/Cli.v ===== *)
(** * The commands (src/cli/basic.go)

    Each command is a process of its own: it reads the identity from the key
    file, opens the session manager on the state directory, makes a client, runs
    one operation and writes the index when it returns. *)

From Stdlib Require Import ZArith Lia.
From stdpp Require Import base list numbers option strings gmap.
From S2P Require Import Prelude Crypto ToyCrypto DhRatchet DoubleRatchet RatchetSync Gob Marshal Base64 Message X3dh Session DiskSession Client Bus.

Local Open Scope Z_scope.

(** [saltyim.GetIdentity] on the bytes of an identity: the address as text and the
    private key *)
Class IdentityFile := GetIdentity : bytes → result (bytes * bytes).

(** What a command finds and leaves: the state directory, the number of
    identifiers made so far, the random source, what was posted, and the lines
    printed; the latter two are listed latest first. *)
Record world := mkWorld {
  w_files : gmap bytes file;
  w_made : nat;
  w_ent : entropy;
  w_posts : list (bytes * bytes);
  w_out : list bytes;
}.

(** The handlers that a command registers: the line printed for an event, if any *)
Abbreviation printer := (event → option bytes).

Definition offer_prints : printer := λ ev, if ev is OnOfferSent _ _ raw then Some raw else None.
Definition send_prints : printer := λ ev, if ev is OnMessageSent _ _ _ _ sealed then Some sealed else None.
Definition recv_prints : printer := λ ev,
  match ev with
  | OnMessageReceived _ _ _ m => Some (st_literal m)
  | OnOfferReceived _ _ pendingAck => Some pendingAck
  | OnSessionStarted _ them => Some (str "Session Started with  " ++ them)
  | OnSessionClosed _ them => Some (str "Session Closed with  " ++ them)
  | _ => None
  end.
Definition close_prints : printer := λ ev, if ev is OnMessageSent _ _ _ _ sealed then Some sealed else None.

Definition is_panic {A} (r : result A) : bool := if r is Panic then true else false.

Section Cli.
Context `{RatchetCrypto} `{IdentityCrypto} `{BoxCrypto} `{Ulid} `{GobWire} `{SaltyLib} `{ClientLib} `{IdentityFile}.

(** [ReadSaltyIdentity]; [None] is a file that does not exist *)
Definition ReadSaltyIdentity (keyfile : option file) : result (bytes * bytes) :=
  match keyfile with
  | None => Err ErrNotExist
  | Some fd =>
      if negb (Z.land (f_mode fd) 54 =? 0) then Err (Errorf "permissions are too weak")
      else GetIdentity (f_data fd)
  end.

(** [defer close()]: the index is written, whatever the outcome; a panic in a
    goroutine ends the process without it. *)
Definition leave (sm : Manager) (e : entropy) (posts : list (bytes * bytes)) (out : list bytes) : world :=
  let sm' := (CloseManager sm).2 in mkWorld (sm_files sm') (sm_made sm') e posts out.

Definition killed (sm : Manager) (e : entropy) (posts : list (bytes * bytes)) (out : list bytes) : world :=
  mkWorld (sm_files sm) (sm_made sm) e posts out.

(** What the commands have in common: from the key file to the client, one
    operation with its printed lines, and the way out. [spawned] says whether the
    operation runs in goroutines, as the handlers of an input do. *)
Definition command (spawned : bool) (keyfile : option file) (prints : printer) (op : ST Client unit) : ST world unit := λ w,
  match ReadSaltyIdentity keyfile with
  | Err er => (Err (Wrapf "reading keyfile: %w" er), w)
  | Panic => (Panic, w)
  | Ok (me, key) =>
      match NewSessionManager me key (w_files w) (w_made w) with
      | (Err er, _) => (Err er, w)
      | (Panic, _) => (Panic, w)
      | (Ok _, sm) =>
          match New sm me [] (w_ent w) (w_posts w) with
          | Err er => (Err er, leave sm (w_ent w) (w_posts w) (w_out w))
          | Panic => (Panic, leave sm (w_ent w) (w_posts w) (w_out w))
          | Ok (c, _) =>
              let '(r, c') := op c in
              let out := if spawned && is_panic r then killed else leave in
              (r, out (c_sm c') (c_ent c') (c_posts c') (omap prints (c_events c') ++ w_out w))
          end
      end
  end.

(** [Offer], [Send], [Recv] and [Close] *)
Definition Offer (keyfile : option file) (them : bytes) : ST world unit :=
  command false keyfile offer_prints (Chat them).

Definition Send (ms ms' : Z) (keyfile : option file) (them input : bytes) : ST world unit :=
  command false keyfile send_prints (SendText ms ms' them input []).

Definition Recv (keyfile : option file) (input : bytes) : ST world unit :=
  command true keyfile recv_prints (Input (mkInput 1 input)).

Definition Close (keyfile : option file) (them : bytes) : ST world unit :=
  command false keyfile close_prints (CloseChat them).
End Cli.

(** ** Managers that differ in the index file only *)

Section Respects.
Context `{RatchetCrypto} `{IdentityCrypto} `{BoxCrypto} `{Ulid} `{GobWire} `{SaltyLib} `{ClientLib}.

(** The position that a manager has after it was stored and loaded *)
Definition kept_pos (pos : Z) : Z := if 0 <? pos then pos else -1.

(** Two managers of one identity that differ in the content of the index file, and
    in the position as far as it is not kept. *)
Record sm_same (me key : bytes) (sm sm' : Manager) : Prop := {
  ss_me : sm_me sm = me ∧ sm_me sm' = me;
  ss_key : sm_key sm = key ∧ sm_key sm' = key;
  ss_pos : kept_pos (sm_pos sm) = kept_pos (sm_pos sm');
  ss_sessions : sm_sessions sm = sm_sessions sm';
  ss_made : sm_made sm = sm_made sm';
  ss_files : ∀ name, name ≠ index_name me → sm_files sm !! name = sm_files sm' !! name;
}.

Record c_same (me key : bytes) (addr : Addr) (c c' : Client) : Prop := {
  cs_sm : sm_same me key (c_sm c) (c_sm c');
  cs_addr : c_addr c = addr ∧ c_addr c' = addr;
  cs_ent : c_ent c = c_ent c';
  cs_posts : c_posts c = c_posts c';
  cs_events : c_events c = c_events c';
}.

(** A call does not see the difference: the same outcome, and states that do not
    differ otherwise. *)
Abbreviation Respects R m := (Proper (R ==> prod_relation (=) R) m).

Lemma bind_respects {S A B} (R : relation S) (m : ST S A) (f : A → ST S B) :
  Respects R m → (∀ a, Respects R (f a)) → Respects R (m ≫= f).
Proof.
  intros Hm Hf s s' Hs. specialize (Hm s s' Hs). unfold mbind, ST_bind.
  destruct (m s) as [r t], (m s') as [r' t']. destruct Hm as [Hr Ht]. simpl in Hr, Ht. subst r'.
  destruct r; [by apply Hf|by split|by split].
Qed.

Lemma ret_respects {S A} (R : relation S) (a : A) : Respects R (mret a : ST S A).
Proof. by split. Qed.

Lemma throw_respects {S A} (R : relation S) er : Respects R (throw er : ST S A).
Proof. by split. Qed.

Lemma lift_respects {S A} (R : relation S) (r : result A) : Respects R (lift r : ST S A).
Proof. by split. Qed.

Lemma gets_respects {S A} (R : relation S) (f : S → A) : (∀ s s', R s s' → f s = f s') → Respects R (gets f).
Proof. intros Hf s s' Hs. split; [simpl; by rewrite (Hf s s')|done]. Qed.

Lemma modify_respects {S} (R : relation S) (f : S → S) : (∀ s s', R s s' → R (f s) (f s')) → Respects R (modify f).
Proof. intros Hf s s' Hs. split; [done|by apply Hf]. Qed.
End Respects.

(** ** The file names of sessions are not the name of the index *)

Lemma sessionhash_not_index me me' id : sessionhash me id ≠ index_name me'.
Proof.
  intros Heq. assert (Byte.x2e ∈ sessionhash me id) as Hin.
  { rewrite Heq. unfold index_name. rewrite !elem_of_app. right. right. by left. }
  unfold sessionhash, enc in Hin. pose proof (base64_encode_chars (fnv_Sum (fnv128a (me ++ ulid_Entropy id)))) as Hc.
  rewrite Forall_forall in Hc. apply Hc in Hin. revert Hin. unfold is_char.
  apply (bool_decide_unpack (Byte.x2e ∉ alphabet)). vm_compute. exact I.
Qed.

Section Operations.
Context `{RatchetCrypto} `{IdentityCrypto} `{BoxCrypto} `{Ulid} `{GobWire} `{SaltyLib} `{ClientLib}.
Context (me key : bytes) (addr : Addr).

Abbreviation RM := (sm_same me key).
Abbreviation RC := (c_same me key addr).
Abbreviation RespectsM m := (Proper (RM ==> prod_relation (=) RM) m).
Abbreviation RespectsC m := (Proper (RC ==> prod_relation (=) RC) m).

Create HintDb respects.
Hint Resolve ret_respects throw_respects lift_respects : respects.

(** The calls of the manager *)

Lemma Get_same id sm sm' : RM sm sm' → Get id sm = Get id sm'.
Proof.
  intros [[E1 E2] [K1 K2] _ _ _ Hf]. unfold Get. rewrite E1, E2, K1, K2, (Hf (sessionhash me id)); [done|].
  apply sessionhash_not_index.
Qed.

Lemma write_same name data sm sm' :
  RM sm sm' → RM (set_files (write_file name data (sm_files sm)) sm) (set_files (write_file name data (sm_files sm')) sm').
Proof.
  intros [E K Hp Hs Hm Hf]. split; simpl; try done. intros n Hn. unfold write_file.
  destruct (decide (n = name)) as [->|Hne].
  - by rewrite !lookup_insert, !decide_True, (Hf name) by done.
  - rewrite !lookup_insert_ne by done. by apply Hf.
Qed.

Lemma ByName_respects name : RespectsM (ByName name).
Proof.
  intros sm sm' [E K Hp Hs Hm Hf]. unfold ByName. rewrite Hs, Hm. destruct (sm_sessions sm' !! name).
  - by split.
  - split; [done|]. split; simpl; done || by rewrite Hs.
Qed.

Lemma set_pos_respects pos : RespectsM (SetPosition pos).
Proof. apply modify_respects. intros sm sm' [E K Hp Hs Hm Hf]. by split. Qed.

Lemma Put_respects s : RespectsM (Put s).
Proof.
  intros sm sm' HR. pose proof HR as [[E1 E2] K Hp Hs Hm Hf]. unfold Put. destruct (ps_Session s); [|by split].
  rewrite E1, E2. destruct (Peer_MarshalBinary s); (split; [done|by apply write_same]).
Qed.

Lemma Delete_respects s : RespectsM (Delete s).
Proof.
  intros sm sm' HR. pose proof HR as [[E1 E2] K Hp Hs Hm Hf]. unfold Delete. destruct (ps_Session s); [|by split].
  rewrite E1, E2, (Hf _ (sessionhash_not_index _ _ _)), Hs.
  destruct (sm_files sm' !! _); (split; [done|split; simpl; try done]).
  intros n Hn. by rewrite !lookup_delete, (Hf n Hn).
Qed.

Hint Resolve ByName_respects set_pos_respects Put_respects Delete_respects : respects.

Lemma New_respects them : RespectsM (DiskSession.New them).
Proof.
  apply bind_respects; [apply ByName_respects|]. intros u sm sm' HR. unfold mbind, ST_bind, gets.
  pose proof HR as [[E1 E2] [K1 K2] _ _ _ _]. unfold fetchKey. destruct (LookupAddr them); [|by split..].
  split; [|done]. simpl. by rewrite E1, E2, K1, K2.
Qed.
Hint Resolve New_respects : respects.

(** The steps of the client *)

Lemma with_sm_respects {A} (m : ST Manager A) : RespectsM m → RespectsC (with_sm m).
Proof.
  intros Hm c c' [Hsm Ha He Hp Hev]. unfold with_sm, zoom. specialize (Hm _ _ Hsm).
  destruct (m (c_sm c)) as [r sm1], (m (c_sm c')) as [r' sm1']. destruct Hm as [Hr Hsm1]. by split.
Qed.

Lemma with_peer_respects {A} (m : ST (PeerSession * entropy) A) s : RespectsC (with_peer m s).
Proof.
  intros c c' [Hsm Ha He Hp Hev]. unfold with_peer. rewrite He. destruct (m (s, c_ent c')) as [r [s' e']]. by split.
Qed.

Lemma dispatch_respects ev : RespectsC (dispatch ev).
Proof. apply modify_respects. intros c c' [Hsm Ha He Hp Hev]. split; simpl; try done. by rewrite Hev. Qed.

Lemma sendMsg_respects s msg : RespectsC (sendMsg s msg).
Proof.
  intros c c' HR. unfold sendMsg. destruct (http_post _ _); [by split|]. destruct HR as [Hsm Ha He Hp Hev].
  split; [done|]. split; simpl; try done. by rewrite Hp.
Qed.

Lemma client_get_respects id : RespectsC (gets (λ c, Get id (c_sm c))).
Proof. apply gets_respects. intros c c' [Hsm _ _ _ _]. by apply Get_same. Qed.

Hint Resolve with_sm_respects with_peer_respects dispatch_respects sendMsg_respects client_get_respects : respects.

Lemma getByName_respects them : RespectsC (getByName them).
Proof. apply bind_respects; [auto with respects|]. intros id. apply client_get_respects. Qed.
Hint Resolve getByName_respects : respects.

(** One bind after the other, with a case for every test in between. *)
Ltac respects :=
  repeat first
    [ solve [auto with respects]
    | apply bind_respects; [|intros ?]
    | match goal with |- context [match ?x with _ => _ end] => destruct x end ].

Lemma Chat_respects them : RespectsC (Chat them).
Proof. unfold Chat. respects. Qed.

Lemma CloseChat_respects them : RespectsC (CloseChat them).
Proof. unfold CloseChat. respects. Qed.

(** What a client is looked at for is the same at both sides. *)
Lemma look_respects {A} (f : Client → ST Client A) :
  (∀ c c', RC c c' → f c = f c') → (∀ c, RespectsC (f c)) → RespectsC (gets (λ c, c) ≫= f).
Proof. intros Heq Hf c c' HR. unfold mbind, ST_bind, gets. rewrite (Heq c c' HR). by apply Hf. Qed.

Lemma SendText_respects ms ms' them text events : RespectsC (SendText ms ms' them text events).
Proof.
  unfold SendText. apply bind_respects; [auto with respects|]. intros r.
  apply bind_respects; [auto with respects|]. intros s. apply bind_respects; [auto with respects|]. intros id.
  apply look_respects; [|intros c; cbv zeta; respects].
  intros c c' [_ [-> ->] _ _ _]. done.
Qed.

Lemma catch_respects (m : ST Client unit) : RespectsC m → RespectsC (catch m).
Proof.
  intros Hm c c' HR. unfold catch. specialize (Hm c c' HR). destruct (m c) as [r c1], (m c') as [r' c1'].
  destruct Hm as [Hr HR1]. simpl in Hr, HR1. subst r'. destruct r; [by split|by apply dispatch_respects|by split].
Qed.
Hint Resolve catch_respects : respects.

Lemma handleSaltPack_respects inp : RespectsC (handleSaltPack inp).
Proof.
  unfold handleSaltPack. destruct (negb _); [apply ret_respects|]. apply catch_respects.
  apply bind_respects; [auto with respects|]. intros []. apply look_respects; [|intros c; respects].
  intros c c' [[_ [K1 K2] _ _ _ _] _ _ _ _]. by rewrite K1, K2.
Qed.

Lemma unsealMsg_respects m : RespectsC (unsealMsg m).
Proof.
  intros c c' HR. unfold unsealMsg. pose proof HR as [[_ [K1 K2] _ _ _ _] _ _ _ _].
  destruct m; try (by split). rewrite K1, K2. destruct (key_X25519_pair key). by split.
Qed.

Lemma findSession_respects id m : RespectsC (findSession id m).
Proof.
  unfold findSession. destruct (msg_nick m) as [nick|]; intros c c' HR.
  - pose proof (with_sm_respects _ (New_respects nick) c c' HR) as Hn.
    destruct (with_sm (DiskSession.New nick) c) as [r c1], (with_sm (DiskSession.New nick) c') as [r' c1'].
    destruct Hn as [Hr HR1]. simpl in Hr, HR1. subst r'. by destruct r.
  - rewrite (Get_same id (c_sm c) (c_sm c')) by apply HR.
    destruct (Get id (c_sm c')) as [s|er|]; [by split| |by split]. by destruct (is_not_exist er).
Qed.

Lemma receiveMsg_respects m s : RespectsC (receiveMsg m s).
Proof.
  intros c c' HR. unfold receiveMsg. pose proof (with_peer_respects (Peer_ReceiveMsg m) s c c' HR) as Hp.
  destruct (with_peer _ s c) as [r c1], (with_peer _ s c') as [r' c1'].
  destruct Hp as [Hr HR1]. simpl in Hr, HR1. subst r'. by destruct r.
Qed.
Hint Resolve unsealMsg_respects findSession_respects receiveMsg_respects : respects.

Lemma deliverMsg_respects m s : RespectsC (deliverMsg m s).
Proof. unfold deliverMsg. respects. Qed.
Hint Resolve deliverMsg_respects : respects.

Lemma handleRatchet_respects inp : RespectsC (handleRatchet inp).
Proof. unfold handleRatchet. respects. apply catch_respects. respects. Qed.

Lemma Input_respects inp : RespectsC (Input inp).
Proof.
  apply bind_respects; [apply handleSaltPack_respects|]. intros [].
  apply bind_respects; [apply handleRatchet_respects|]. intros []. unfold handleOther. respects.
Qed.
End Operations.

(** ** Commands one after the other *)

(** A command line *)
Inductive cmdline :=
  | COffer (them : bytes)
  | CSend (ms ms' : Z) (them input : bytes)
  | CRecv (input : bytes)
  | CClose (them : bytes).

Section Shell.
Context `{RatchetCrypto} `{IdentityCrypto} `{BoxCrypto} `{Ulid} `{GobWire} `{SaltyLib} `{ClientLib} `{IdentityFile}.

Definition run_command (keyfile : option file) (cmd : cmdline) : ST world unit :=
  match cmd with
  | COffer them => Offer keyfile them
  | CSend ms ms' them input => Send ms ms' keyfile them input
  | CRecv input => Recv keyfile input
  | CClose them => Close keyfile them
  end.

(** A shell script: it goes on whatever the outcome of a command *)
Fixpoint shell (keyfile : option file) (cmds : list cmdline) (w : world) : list (result unit) * world :=
  match cmds with
  | [] => ([], w)
  | cmd :: cmds =>
      let '(r, w1) := run_command keyfile cmd w in
      let '(rs, w2) := shell keyfile cmds w1 in (r :: rs, w2)
  end.

(** The same operations by one client that stays: it prints what the commands
    print. *)
Definition client_op (cmd : cmdline) : ST Client unit :=
  match cmd with
  | COffer them => Chat them
  | CSend ms ms' them input => SendText ms ms' them input []
  | CRecv input => Input (mkInput 1 input)
  | CClose them => CloseChat them
  end.
Definition cmd_prints (cmd : cmdline) : printer :=
  match cmd with
  | COffer _ => offer_prints
  | CSend _ _ _ _ => send_prints
  | CRecv _ => recv_prints
  | CClose _ => close_prints
  end.

Definition forget_events (c : Client) : Client := mkClient (c_sm c) (c_addr c) (c_ent c) (c_posts c) [].

Fixpoint sitting (cmds : list cmdline) (c : Client) (out : list bytes) : list (result unit) * (Client * list bytes) :=
  match cmds with
  | [] => ([], (c, out))
  | cmd :: cmds =>
      let '(r, c1) := client_op cmd (forget_events c) in
      let '(rs, st) := sitting cmds c1 (omap (cmd_prints cmd) (c_events c1) ++ out) in (r :: rs, st)
  end.
End Shell.

Section OneClient.
Context `{RatchetCrypto} `{!IdentityCrypto} `{!BoxCrypto} `{!Ulid} `{!GobWire} `{!SaltyLib} `{!SaltyLaws} `{!ClientLib} `{!IdentityFile}.
Context (keyfile : option file) (me key : bytes) (addr : Addr).
Context (Hkey : ReadSaltyIdentity keyfile = Ok (me, key)) (Haddr : LookupAddr me = Ok addr).

(** The directory holds what the client [c] has in memory. *)
Definition holds (w : world) (c : Client) : Prop :=
  w_ent w = c_ent c ∧ w_posts w = c_posts c ∧ c_addr c = addr ∧
  ∃ sm, NewSessionManager me key (w_files w) (w_made w) = (Ok tt, sm) ∧ sm_same me key sm (c_sm c).

Lemma client_op_respects cmd : Proper (c_same me key addr ==> prod_relation (=) (c_same me key addr)) (client_op cmd).
Proof.
  destruct cmd; [apply Chat_respects|apply SendText_respects|apply Input_respects|apply CloseChat_respects].
Qed.

Lemma run_command_eq cmd :
  run_command keyfile cmd =
    command (if cmd is CRecv _ then true else false) keyfile (cmd_prints cmd) (client_op cmd).
Proof. by destruct cmd. Qed.

(** Leaving and coming back *)
Lemma leave_holds c c' e posts out :
  c_same me key addr c c' → e = c_ent c' → posts = c_posts c' → holds (leave (c_sm c) e posts out) c'.
Proof.
  intros [[[E1 E2] [K1 K2] Hp Hs Hm Hf] [_ A2] He Hpo _] -> ->. split; [done|]. split; [done|]. split; [done|].
  pose proof (index_reload (c_sm c)) as Hr. cbn zeta in Hr. rewrite E1, K1 in Hr.
  eexists. split; [exact Hr|]. split; simpl; try done.
  - rewrite <-Hp. unfold kept_pos. by destruct (Z.ltb_spec 0 (sm_pos (c_sm c))) as [Hlt|]; [destruct (Z.ltb_spec 0 (sm_pos (c_sm c))); [|lia]|].
  - intros n Hn. rewrite <-(Hf n Hn). unfold write_file. by rewrite E1, lookup_insert_ne by done.
Qed.

Lemma command_step cmd w c r c1 :
  holds w c → client_op cmd (forget_events c) = (r, c1) → r ≠ Panic →
  ∃ w1, run_command keyfile cmd w = (r, w1) ∧ holds w1 c1 ∧ w_out w1 = omap (cmd_prints cmd) (c_events c1) ++ w_out w.
Proof.
  intros (He & Hp & Ha & sm & Hn & Hsm) Hop Hr. rewrite run_command_eq. unfold command. rewrite Hkey, Hn.
  unfold New. rewrite Haddr.
  assert (c_same me key addr (mkClient sm addr (w_ent w) (w_posts w) []) (forget_events c)) as HR by (by split).
  pose proof (client_op_respects cmd _ _ HR) as Hop'. rewrite Hop in Hop'.
  destruct (client_op cmd (mkClient sm addr (w_ent w) (w_posts w) [])) as [r' c2].
  destruct Hop' as [Hr' HR']. simpl in Hr', HR'. subst r'. pose proof HR' as [_ _ He' Hp' Hev'].
  assert (is_panic r = false) as -> by (by destruct r). rewrite andb_false_r.
  eexists. split; [done|]. split; [by apply leave_holds|]. simpl. by rewrite Hev'.
Qed.
End OneClient.

Section Theorems.
Context `{RatchetCrypto} `{!IdentityCrypto} `{!BoxCrypto} `{!Ulid} `{!GobWire} `{!SaltyLib} `{!SaltyLaws} `{!ClientLib} `{!IdentityFile}.

Lemma NewSessionManager_own me key fs made r sm :
  NewSessionManager me key fs made = (r, sm) → sm_me sm = me ∧ sm_key sm = key.
Proof.
  unfold NewSessionManager, Load. cbn [sm_files sm_me].
  destruct (fs !! index_name me); [|by intros [= <- <-]]. destruct (json_read _) as [[pos items]| |]; [|by intros [= <- <-]..].
  intros [= <- <-]. by destruct (0 <? pos).
Qed.

Lemma opened_holds me key addr w sm :
  NewSessionManager me key (w_files w) (w_made w) = (Ok tt, sm) →
  holds me key addr w (mkClient sm addr (w_ent w) (w_posts w) []).
Proof.
  intros Hn. pose proof (NewSessionManager_own _ _ _ _ _ _ Hn) as [? ?]. split_and!; try done. exists sm.
  split; [done|]. by split.
Qed.

Lemma shell_sitting keyfile me key addr cmds w c :
  ReadSaltyIdentity keyfile = Ok (me, key) → LookupAddr me = Ok addr → holds me key addr w c →
  (Panic ∉ (sitting cmds c (w_out w)).1) →
  ∃ w', shell keyfile cmds w = ((sitting cmds c (w_out w)).1, w') ∧
    holds me key addr w' (sitting cmds c (w_out w)).2.1 ∧ w_out w' = (sitting cmds c (w_out w)).2.2.
Proof.
  intros Hkey Haddr. revert w c. induction cmds as [|cmd cmds IH]; intros w c Hh Hnp; [by exists w|].
  cbn [sitting shell] in *. destruct (client_op cmd (forget_events c)) as [r c1] eqn:Hop.
  destruct (sitting cmds c1 (omap (cmd_prints cmd) (c_events c1) ++ w_out w)) as [rs [c' out']] eqn:Hsit.
  cbn [fst snd] in *. apply not_elem_of_cons in Hnp as [Hr Hnp].
  destruct (command_step keyfile me key addr Hkey Haddr cmd w c r c1 Hh Hop) as (w1 & Hrun & Hh1 & Hout); [by apply not_eq_sym|].
  rewrite <-Hout in Hsit. destruct (IH w1 c1 Hh1) as (w' & Hsh & Hh' & Ho'); [by rewrite Hsit|].
  rewrite Hsit in Hsh, Hh', Ho'. exists w'. by rewrite Hrun, Hsh.
Qed.


(** When a command does nothing. A key file that is missing, readable for
    others or not an identity, and an index that does not parse, stop every
    command before it touches anything: no index is written, nothing posted or
    printed, no random byte read. *)
Theorem command_refuses (keyfile : option file) (cmd : cmdline) (w : world) :
  (∀ er, ReadSaltyIdentity keyfile = Err er →
     run_command keyfile cmd w = (Err (Wrapf "reading keyfile: %w" er), w)) ∧
  (∀ fd, keyfile = Some fd → Z.land (f_mode fd) 54 ≠ 0 →
     run_command keyfile cmd w =
       (Err (Wrapf "reading keyfile: %w" (Errorf "permissions are too weak")), w)) ∧
  (∀ me key f er, ReadSaltyIdentity keyfile = Ok (me, key) → w_files w !! index_name me = Some f →
     json_read (f_data f) = Err er → run_command keyfile cmd w = (Err er, w)).
Proof.
  split_and!; rewrite run_command_eq; unfold command.
  - by intros er ->.
  - intros fd -> Hm. unfold ReadSaltyIdentity. by rewrite (proj2 (Z.eqb_neq _ _) Hm).
  - intros me key f er -> Hf Hj. unfold NewSessionManager, Load. cbn [sm_files sm_me]. by rewrite Hf, Hj.
Qed.
End Theorems.

(** ** The position *)

Section Position.
Context `{RatchetCrypto} `{!IdentityCrypto} `{!BoxCrypto} `{!Ulid} `{!GobWire} `{!SaltyLib} `{!SaltyLaws} `{!ClientLib} `{!IdentityFile}.

(** [Recv] forgets where the stream was. It hands its message to the client as
    the first of a stream, so that a recognised message sets the position that
    is stored to 2, whatever it was: a chat that is opened afterwards subscribes
    from there and is sent all later messages again. *)
Theorem recv_resets_position (keyfile : option file) (me key : bytes) (addr : Addr) (w w' : world)
  (sm : Manager) (input : bytes) (r : result unit)
  (Hkey : ReadSaltyIdentity keyfile = Ok (me, key)) (Haddr : LookupAddr me = Ok addr)
  (Hopen : NewSessionManager me key (w_files w) (w_made w) = (Ok tt, sm))
  (Hrec : recognised input = true) (Hrun : Recv keyfile input w = (r, w')) (Hnp : r ≠ Panic) :
  ∃ sm', NewSessionManager me key (w_files w') (w_made w') = (Ok tt, sm') ∧ Position sm' = 2.
Proof.
  pose proof (opened_holds me key addr w sm Hopen) as Hh.
  destruct (Input (mkInput 1 input) (mkClient sm addr (w_ent w) (w_posts w) [])) as [r1 c1] eqn:Hin.
  assert (r1 = r) as ->.
  { unfold Recv, command in Hrun. rewrite Hkey, Hopen in Hrun. unfold New in Hrun. rewrite Haddr, Hin in Hrun.
    by injection Hrun as -> _. }
  destruct (command_step keyfile me key addr Hkey Haddr (CRecv input) w _ r c1 Hh Hin Hnp)
    as (w1 & Hrun1 & (_ & _ & _ & sm' & Hn & Hs) & _).
  cbn [run_command] in Hrun1. rewrite Hrun in Hrun1. injection Hrun1 as <-. exists sm'. split; [done|].
  pose proof (Input_position _ _ _ _ Hin) as [_ Hp]. cbn [in_Payload in_Position] in Hp. rewrite Hrec in Hp.
  pose proof (ss_pos _ _ _ _ Hs) as Hk. rewrite Hp in Hk. change (kept_pos (int64 (1 + 1))) with 2 in Hk.
  unfold kept_pos in Hk. unfold Position. by destruct (0 <? sm_pos sm').
Qed.
End Position.

(** ** Instances *)

Module ToyCli.
#[local] Existing Instances toy_ratchet_crypto toy_identity_crypto toy_box_crypto SRuns.toy_ulid ToyWire.toy_wire
  ToySalty.toy_salty ToyClient.toy_client.

(** A key file holds the name of its owner. *)
Definition toy_identity_file : IdentityFile := λ b, Ok (b, ToySalty.toy_user_key b).
#[local] Existing Instance toy_identity_file.

Definition alice_key : option file := Some (mkFile 384 (str "alice")).
Definition new_world : world := mkWorld ∅ 0 (Toy.tape 5 256) [] [].
Definition alice_manager : Manager := ToyClient.manager_of (str "alice").
Definition script : list cmdline := [COffer (str "bob"); CSend 1 2 (str "bob") (str "too early"); CClose (str "bob")].
Definition alone : list (result unit) * (Client * list bytes) :=
  sitting script (mkClient alice_manager (ToyClient.addr_of (str "alice")) (Toy.tape 5 256) [] []) [].

Lemma alone_results : alone.1 = [Ok tt; Err (Errorf "cannot encrypt data without being in an active session"); Ok tt].
Proof. vm_compute. reflexivity. Qed.
End ToyCli.

#[local] Existing Instances toy_ratchet_crypto toy_ratchet_laws toy_identity_crypto toy_identity_laws toy_box_crypto
  SRuns.toy_ulid ToyWire.toy_wire ToySalty.toy_salty ToySalty.toy_salty_laws ToyClient.toy_client ToyCli.toy_identity_file.

