(* ===== verification/Interactive.v ===== *)
(** * The line terminal (src/interactive/interactive.go)

    A loop that reads lines, interprets the commands among them and sends the
    rest to the peer of the current chat. The events of the client are printed
    and logged as they happen. *)

From Stdlib Require Import ZArith Lia.
From stdpp Require Import base list numbers option strings gmap.
From S2P Require Import Prelude Crypto ToyCrypto DhRatchet DoubleRatchet RatchetSync Gob Marshal Liveness Base64 Message X3dh Session DiskSession Client ClientChat MemSession GoStrings Reader Bus Cli.

Local Open Scope Z_scope.

(** ** Printed forms *)

(** How parts of events are printed: the time of an identifier and of a text as
    hours, minutes and seconds, the text without its frame, its author and its
    events, the parts of an event, an error, and any other value *)
Class Rendering := {
  clock : bytes → bytes;
  text_clock : SaltyText → bytes;
  LiteralText : SaltyText → bytes;
  text_User : SaltyText → bytes;
  text_Events : SaltyText → list bytes;
  event_Command : bytes → bytes;
  event_Args : bytes → list bytes;
  error_Error : error → bytes;
  fmt_Sprint : event → bytes;
}.

(** [strings.Join] *)
Fixpoint Join (elems : list bytes) (sep : bytes) : bytes :=
  match elems with
  | [] => []
  | [e] => e
  | e :: elems => e ++ sep ++ Join elems sep
  end.

Definition ESC : bytes := [Byte.x1b].
Definition CLEAR_LINE : bytes := ESC ++ str "[1A" ++ ESC ++ str "[2K" ++ [Byte.x0d].
Definition COLOR_GREY : bytes := ESC ++ str "[90m".
Definition COLOR_RED : bytes := ESC ++ str "[31m".
Definition COLOR_BLUE : bytes := ESC ++ str "[34m".
Definition RESET_COLOR : bytes := ESC ++ str "[0m".
Definition newline : bytes := [Byte.x0a].

(** A line of a chat: time, author in a colour, text *)
Definition chat_line (time colour who text : bytes) : bytes :=
  COLOR_GREY ++ time ++ str " <" ++ colour ++ who ++ COLOR_GREY ++ str "> " ++ RESET_COLOR ++ text.
Definition notice (text : bytes) : bytes := COLOR_GREY ++ str "::: " ++ text ++ RESET_COLOR.

Section FormatMsg.
Context `{Rendering}.

(** [formatMsg] *)
Definition formatMsg (me : bytes) (msg : event) : bytes :=
  match msg with
  | OnOfferSent _ them _ => notice (str "offer sent " ++ them ++ str " :::")
  | OnOfferReceived _ them _ => notice (str "offer from " ++ them ++ str " :::")
  | OnSessionStarted _ them => notice (str "session started with " ++ them ++ str " :::")
  | OnSessionClosed _ them => notice (str "session closed with " ++ them ++ str " :::")
  | OnMessageReceived id them _ m => chat_line (clock id) COLOR_RED them (LiteralText m)
  | OnMessageSent id _ _ m _ => chat_line (clock id) COLOR_RED me (LiteralText m)
  | OnSaltySent _ _ m _ => chat_line (text_clock m) COLOR_BLUE me (LiteralText m)
  | OnSaltyTextReceived _ m => chat_line (text_clock m) COLOR_BLUE (text_User m) (LiteralText m)
  | OnSaltyEventReceived _ e =>
      notice (str "salty: " ++ event_Command e ++ str "(" ++ Join (event_Args e) (str ", ") ++ str ")")
  | OnReceived raw => notice (str "unknown message: " ++ raw)
  | OnError er => error_Error er
  | _ => fmt_Sprint msg
  end.
End FormatMsg.

(** ** The terminal *)

(** An error that is dropped *)
Definition swallow {S} (m : ST S unit) : ST S unit := λ s,
  match m s with (Err _, s') => (Ok tt, s') | out => out end.

(** [service] with its client and its log, the variable [them] of [Interactive],
    what was written to the two output streams (latest first), and whether
    [quit] was called *)
Record term := mkTerm {
  t_client : Client;
  t_logs : logs;
  t_prompt : bytes;
  t_them : bytes;
  t_out : list bytes;
  t_err : list bytes;
  t_quit : bool;
}.

Definition set_client (c : Client) (t : term) : term :=
  mkTerm c (t_logs t) (t_prompt t) (t_them t) (t_out t) (t_err t) (t_quit t).
Definition set_logs (l : logs) (t : term) : term :=
  mkTerm (t_client t) l (t_prompt t) (t_them t) (t_out t) (t_err t) (t_quit t).
Definition set_them (them : bytes) (t : term) : term :=
  mkTerm (t_client t) (t_logs t) (t_prompt t) them (t_out t) (t_err t) (t_quit t).
Definition print (b : bytes) (t : term) : term :=
  mkTerm (t_client t) (t_logs t) (t_prompt t) (t_them t) (b :: t_out t) (t_err t) (t_quit t).
Definition print_err (b : bytes) (t : term) : term :=
  mkTerm (t_client t) (t_logs t) (t_prompt t) (t_them t) (t_out t) (b :: t_err t) (t_quit t).

(** [service.setPrompt] *)
Definition setPrompt (me them : bytes) (t : term) : term :=
  let prompt :=
    match them with
    | [] => str "[" ++ me ++ str "]> "
    | _ => str "[" ++ me ++ str " -> " ++ them ++ str "]> "
    end in
  mkTerm (t_client t) (t_logs t) prompt (t_them t) (t_out t) (t_err t) (t_quit t).
Definition set_quit (t : term) : term :=
  mkTerm (t_client t) (t_logs t) (t_prompt t) (t_them t) (t_out t) (t_err t) true.

(** [log] *)
Definition log (text : bytes) : term → term := print_err (COLOR_GREY ++ text ++ RESET_COLOR ++ newline).

Section Interactive.
Context `{RatchetCrypto} `{IdentityCrypto} `{BoxCrypto} `{Ulid} `{GobWire} `{SaltyLib} `{ClientLib}.
Context `{Rendering} `{Paging}.

(** The handlers that [Interactive] registers, and the one of the log *)
Definition on_event (me : bytes) (ev : event) (t : term) : term :=
  let t := set_logs (notify (t_logs t) ev) t in
  let below t := print (newline ++ CLEAR_LINE ++ formatMsg me ev ++ newline ++ t_prompt t) t in
  match ev with
  | OnOfferSent _ _ _ | OnError _ => print (CLEAR_LINE ++ formatMsg me ev ++ newline ++ t_prompt t) t
  | OnMessageSent _ _ _ _ _ | OnSaltySent _ _ _ _ => print (CLEAR_LINE ++ formatMsg me ev ++ newline) t
  | OnSessionClosed _ them => below (if bool_decide (t_them t = them) then setPrompt me [] t else t)
  | OnEventReceived _ _ _ _ | OnCloseSent _ _ _ => t
  | _ => below t
  end.

(** A call of the client, with the events that it dispatches *)
Definition call {A} (me : bytes) (op : ST Client A) : ST term A := λ t,
  let '(r, c) := op (forget_events (t_client t)) in
  (r, foldr (on_event me) (set_client (forget_events c) t) (c_events c)).

(** The list of sessions, and a page of a log *)
Definition list_sessions : ST term unit :=
  _ ← modify (log (str "usage: /chat|close username"));
  t ← gets (λ t, t);
  modify (λ t, foldl (λ t p, log (str "sess: " ++ p.1) t) t (Sessions (c_sm (t_client t)))).

Definition print_page (me : bytes) (page : list event) : ST term unit :=
  modify (λ t, foldl (λ t msg, print (formatMsg me msg ++ newline) t) t page).

Definition read_log (stream : bytes) : ST term (list event) :=
  t ← gets (λ t, t);
  lift (ReadLog stream (-1) (-20) (t_logs t)).

(** [service.doChat]: the error of [Chat] is not returned *)
Definition doChat (me input : bytes) : ST term unit :=
  match Fields input with
  | _ :: name :: _ =>
      if bool_decide (me = name) then throw (Errorf "cant racthet with self")
      else
        _ ← modify (set_them name);
        page ← read_log (user_stream name);
        _ ← print_page me page;
        _ ← modify (setPrompt me name);
        swallow (call me (Chat name))
  | _ => list_sessions
  end.

(** [service.doClose] *)
Definition doClose (me input : bytes) : ST term unit :=
  t ← gets (λ t, t);
  let target := match Fields input with _ :: name :: _ => name | _ => t_them t end in
  match target with
  | [] => mret tt
  | _ =>
      _ ← modify (set_them []);
      _ ← modify (setPrompt me []);
      _ ← modify (print (ESC ++ str "[1A" ++ [Byte.x0d] ++ ESC ++ str "[2K<" ++ me ++ str "> " ++ input ++ newline));
      call me (CloseChat target)
  end.

(** [service.doDefault] *)
Definition doDefault (ms ms' : Z) (me input : bytes) : ST term unit :=
  t ← gets (λ t, t);
  call me (SendText ms ms' (t_them t) input []).

(** [if err != nil { log(prefix, err) }] *)
Definition log_error (prefix : bytes) (m : ST term unit) : ST term unit := λ t,
  match m t with
  | (Err er, t') => (Ok tt, log (prefix ++ error_Error er) t')
  | out => out
  end.

Definition slash (cmd : bytes) : bytes := Byte.x2f :: cmd.
Definition ERR : bytes := str "ERR: ".

(** The name of the log that a "/log" line asks for *)
Definition log_name (them input : bytes) : bytes :=
  match (if hasPrefix input (slash (str "log ")) then TrimPrefix input (slash (str "log ")) else []) with
  | [] => match them with [] => system_stream | _ => user_stream them end
  | name => name
  end.

(** The body of the loop for a line, at the times [ms] and [ms'] *)
Definition step (ms ms' : Z) (me line : bytes) : ST term unit :=
  let input := TrimSpace line in
  t ← gets (λ t, t);
  if bool_decide (input = []) then mret tt
  else if hasPrefix input (slash (str "log")) then
    let logname := log_name (t_them t) input in
    page ← read_log logname;
    _ ← modify (print (newline ++ str "LOG: " ++ logname ++ newline));
    print_page me page
  else if hasPrefix input (slash (str "chat")) then log_error ERR (doChat me input)
  else if hasPrefix input (slash (str "close")) then log_error ERR (doClose me input)
  else if hasPrefix input (slash (str "quit")) then modify set_quit
  else if hasPrefix input (slash (str "salty")) then
    let '(target, msg, _) := Cut (TrimPrefix input (slash (str "salty "))) Byte.x20 in
    log_error ERR (call me (SendSalty ms target msg []))
  else
    match t_them t with
    | [] => modify (log (str "usage: /chat username"))
    | _ => log_error [] (doDefault ms ms' me input)
    end.

(** What happens at a terminal: a line is typed at some time, or the driver
    brings a message *)
Inductive happening :=
  | Typed (ms ms' : Z) (line : bytes)
  | Arrives (msg : Message).

Fixpoint loop (me : bytes) (hs : list happening) : ST term unit := λ t,
  if t_quit t then (Ok tt, t)
  else
    match hs with
    | [] => (Ok tt, t)
    | Typed ms ms' line :: hs =>
        (_ ← step ms ms' me line; _ ← modify (λ t, if t_quit t then t else print (t_prompt t) t); loop me hs) t
    | Arrives msg :: hs => (_ ← call me (hdlr Input msg); loop me hs) t
    end.

(** [New]: a terminal with an empty log *)
Definition New_service (c : Client) : term := mkTerm c ∅ [] [] [] [] false.

(** [service.Interactive], from the prompt to the end of the input *)
Definition Interactive (ms ms' : Z) (me them : bytes) (hs : list happening) : ST term unit :=
  _ ← modify (setPrompt me them);
  _ ← modify (set_them []);
  _ ← (match them with
       | [] => mret tt
       | _ =>
           let initial := slash (str "chat ") ++ them in
           _ ← modify (log initial);
           step ms ms' me initial
       end);
  _ ← modify (λ t, if t_quit t then t else print (t_prompt t) t);
  loop me hs.
End Interactive.

(** ** What a line means *)

Section Meaning.
Context `{RatchetCrypto} `{IdentityCrypto} `{BoxCrypto} `{Ulid} `{GobWire} `{SaltyLib} `{ClientLib}.

(** The commands of a terminal *)
Inductive action :=
  | Nothing
  | ShowLog (stream : bytes)
  | ListSessions
  | SelfChat
  | StartChat (them : bytes)
  | EndChat (them : bytes)
  | Leave
  | SaltyTo (them text : bytes)
  | NoPeer
  | Say (them text : bytes).

Definition argument (input : bytes) : option bytes :=
  match Fields input with _ :: name :: _ => Some name | _ => None end.

Definition interpret (me them input : bytes) : action :=
  if bool_decide (input = []) then Nothing
  else if hasPrefix input (slash (str "log")) then ShowLog (log_name them input)
  else if hasPrefix input (slash (str "chat")) then
    match argument input with
    | Some name => if bool_decide (me = name) then SelfChat else StartChat name
    | None => ListSessions
    end
  else if hasPrefix input (slash (str "close")) then
    match default them (argument input) with [] => Nothing | target => EndChat target end
  else if hasPrefix input (slash (str "quit")) then Leave
  else if hasPrefix input (slash (str "salty")) then
    let '(target, msg, _) := Cut (TrimPrefix input (slash (str "salty "))) Byte.x20 in SaltyTo target msg
  else match them with [] => NoPeer | _ => Say them input end.

(** What is left of a terminal without its screen: whether it panicked, the
    client, the peer, and whether it is to be left *)
Record outcome := mkOutcome { o_panic : bool; o_client : Client; o_them : bytes; o_quit : bool }.

Definition obey (ms ms' : Z) (a : action) (them : bytes) (c : Client) : outcome :=
  let run (op : ST Client unit) them :=
    let '(r, c') := op (forget_events c) in mkOutcome (is_panic r) (forget_events c') them false in
  match a with
  | StartChat name => run (Chat name) name
  | EndChat target => run (CloseChat target) []
  | SaltyTo target text => run (SendSalty ms target text []) them
  | Say target text => run (SendText ms ms' target text []) them
  | Leave => mkOutcome false (forget_events c) them true
  | _ => mkOutcome false (forget_events c) them false
  end.
End Meaning.

Section Refinement.
Context `{RatchetCrypto} `{IdentityCrypto} `{BoxCrypto} `{Ulid} `{GobWire} `{SaltyLib} `{ClientLib}.
Context `{Rendering} `{Paging}.

Definition term_outcome (rt : result unit * term) : outcome :=
  mkOutcome (is_panic rt.1) (forget_events (t_client rt.2)) (t_them rt.2) (t_quit rt.2).

(** The screen, the log and the prompt do not matter. *)
Definition same_core (t t' : term) : Prop :=
  t_client t' = t_client t ∧ t_them t' = t_them t ∧ t_quit t' = t_quit t.

#[local] Instance same_core_preorder : PreOrder same_core.
Proof. split; [by intros t|]. intros t1 t2 t3 (? & ? & ?) (? & ? & ?). split_and!; congruence. Qed.

Lemma on_event_core me ev t : same_core t (on_event me ev t).
Proof. by destruct ev; cbn; try case_bool_decide. Qed.

Lemma on_events_core me evs t : same_core t (foldr (on_event me) t evs).
Proof.
  induction evs as [|ev evs IH]; [done|]. cbn [foldr]. etrans; [exact IH|apply on_event_core].
Qed.

Lemma foldl_core {A} (f : term → A → term) l t : (∀ t a, same_core t (f t a)) → same_core t (foldl f t l).
Proof. intros Hf. revert t. induction l as [|a l IH]; intros t; [done|]. cbn [foldl]. etrans; [apply Hf|apply IH]. Qed.

Lemma outcome_call me (op : ST Client unit) t them r c' :
  op (forget_events (t_client t)) = (r, c') → t_them t = them → t_quit t = false →
  term_outcome (call me op t) = mkOutcome (is_panic r) (forget_events c') them false.
Proof.
  intros Hop Ht Hq. unfold call. rewrite Hop.
  destruct (on_events_core me (c_events c') (set_client (forget_events c') t)) as (E1 & E2 & E3).
  unfold term_outcome. cbn [fst snd]. by rewrite E1, E2, E3, <-Ht, <-Hq.
Qed.

Lemma outcome_swallow m t : term_outcome (swallow m t) = term_outcome (m t).
Proof. unfold swallow. by destruct (m t) as [[]]. Qed.

Lemma outcome_log_error prefix m t : term_outcome (log_error prefix m t) = term_outcome (m t).
Proof. unfold log_error. by destruct (m t) as [[]]. Qed.

(** The log can be read: the box of the pages stays in the stream. *)
Definition log_readable (t : term) : Prop := ∀ stream, ∃ page, ReadLog stream (-1) (-20) (t_logs t) = Ok page.

Lemma read_log_ok stream t : log_readable t → ∃ page, read_log stream t = (Ok page, t).
Proof. intros Hr. destruct (Hr stream) as [page Hp]. exists page. unfold read_log, lift. st_pure. by rewrite Hp. Qed.

(** Nothing but the screen changes. *)
Lemma outcome_still r t t' :
  same_core t t' → t_quit t = false → is_panic r = false →
  term_outcome (r, t') = mkOutcome false (forget_events (t_client t)) (t_them t) false.
Proof. intros (E1 & E2 & E3) Hq Hr. unfold term_outcome. cbn [fst snd]. by rewrite E1, E2, E3, Hq, Hr. Qed.

Lemma print_page_core me page t : same_core t (print_page me page t).2.
Proof. apply foldl_core. done. Qed.

Lemma outcome_doChat ms ms' me input t :
  log_readable t → t_quit t = false →
  term_outcome (doChat me input t) =
    obey ms ms' (match argument input with
                 | Some name => if bool_decide (me = name) then SelfChat else StartChat name
                 | None => ListSessions
                 end) (t_them t) (t_client t).
Proof.
  intros Hlog Hq. unfold doChat, argument.
  assert (term_outcome (list_sessions t) = obey ms ms' ListSessions (t_them t) (t_client t)) as Hlist.
  { unfold list_sessions. st_pure. st_pure. apply outcome_still; [|done..].
    etrans; [|by apply foldl_core]. done. }
  destruct (Fields input) as [|w [|name ws]]; [exact Hlist..|]. clear Hlist.
  case_bool_decide as Hme; [by apply outcome_still|].
  st_pure. destruct (read_log_ok (user_stream name) (set_them name t) Hlog) as [page Hp]. st_call Hp.
  unfold print_page at 1. st_pure. st_pure. rewrite outcome_swallow. cbn [obey].
  match goal with |- term_outcome (call _ _ (setPrompt _ _ ?t1)) = _ =>
    assert (same_core (set_them name t) t1) as (E1 & E2 & E3) by (by apply foldl_core) end.
  destruct (Chat name (forget_events (t_client t))) as [r c'] eqn:Hop.
  by apply (outcome_call me (Chat name)); cbn [setPrompt t_client t_them t_quit]; rewrite ?E1, ?E2, ?E3.
Qed.

Lemma outcome_doClose ms ms' me input t :
  t_quit t = false →
  term_outcome (doClose me input t) =
    obey ms ms' (match default (t_them t) (argument input) with [] => Nothing | target => EndChat target end)
      (t_them t) (t_client t).
Proof.
  intros Hq. unfold doClose, argument. st_pure.
  assert (match Fields input with _ :: name :: _ => name | _ => t_them t end =
    default (t_them t) (match Fields input with _ :: name :: _ => Some name | _ => None end)) as ->
    by (by destruct (Fields input) as [|? [|]]).
  destruct (default _ _) as [|b target]; [by apply outcome_still|].
  st_pure. st_pure. st_pure. cbn [obey].
  destruct (CloseChat (b :: target) (forget_events (t_client t))) as [r c'] eqn:Hop. by apply outcome_call.
Qed.

Lemma step_outcome ms ms' me line t :
  log_readable t → t_quit t = false →
  term_outcome (step ms ms' me line t) =
    obey ms ms' (interpret me (t_them t) (TrimSpace line)) (t_them t) (t_client t).
Proof.
  intros Hlog Hq. unfold step, interpret. st_pure. set (input := TrimSpace line).
  assert (∀ t', same_core t t' → term_outcome (Ok tt, t') = mkOutcome false (forget_events (t_client t)) (t_them t) false) as Hnone
    by (intros t' Hc; by apply outcome_still).
  case_bool_decide; [by apply Hnone|].
  destruct (hasPrefix input (slash (str "log"))).
  { destruct (read_log_ok (log_name (t_them t) input) t Hlog) as [page Hp]. st_call Hp. st_pure.
    apply Hnone. apply (print_page_core me page (print _ t)). }
  destruct (hasPrefix input (slash (str "chat"))); [rewrite outcome_log_error; by apply outcome_doChat|].
  destruct (hasPrefix input (slash (str "close"))); [rewrite outcome_log_error; by apply outcome_doClose|].
  destruct (hasPrefix input (slash (str "quit"))); [done|].
  destruct (hasPrefix input (slash (str "salty"))).
  { destruct (Cut _ _) as [[target msg] found]. rewrite outcome_log_error. cbn [obey].
    destruct (SendSalty ms target msg [] (forget_events (t_client t))) as [r c'] eqn:Hop. by apply outcome_call. }
  destruct (t_them t) as [|b them] eqn:Ht; [by apply Hnone|]. rewrite outcome_log_error. unfold doDefault. st_pure.
  rewrite Ht. cbn [obey]. destruct (SendText ms ms' (b :: them) input [] (forget_events (t_client t))) as [r c'] eqn:Hop.
  by apply outcome_call.
Qed.
End Refinement.

(** ** Properties *)

Section Properties.
Context `{RatchetCryptoLaws} `{!IdentityCrypto} `{!BoxCrypto} `{!Ulid} `{!UlidLaws}.
Context `{!GobWire} `{!GobWireLaws} `{!SaltyLib} `{!SaltyLaws} `{!ClientLib} `{!Rendering} `{!Paging}.

(** C23. The terminal does what its lines mean. A line is trimmed and interpreted as
    a command or as a text for the current peer; the loop calls the client's
    operation for it, whatever the screen shows, with the peer and the end of the
    loop as the command says, and leaves the client alone for all other lines.
    Errors of the operation end neither the loop nor the chat. *)
Theorem terminal_obeys (ms ms' : Z) (me line : bytes) (t : term)
  (Hlog : log_readable t) (Hq : t_quit t = false) :
  term_outcome (step ms ms' me line t) =
    obey ms ms' (interpret me (t_them t) (TrimSpace line)) (t_them t) (t_client t) ∧
  ∀ er, (step ms ms' me line t).1 ≠ Err er.
Proof.
  split; [by apply step_outcome|]. intros er. unfold step. st_pure.
  assert (∀ prefix m, (log_error prefix m t).1 ≠ Err er) as Hle
    by (intros prefix m; unfold log_error; by destruct (m t) as [[]]).
  case_bool_decide; [done|]. set (input := TrimSpace line).
  destruct (hasPrefix input (slash (str "log"))).
  { destruct (read_log_ok (log_name (t_them t) input) t Hlog) as [page Hp]. by st_call Hp. }
  destruct (hasPrefix input (slash (str "chat"))); [apply Hle|].
  destruct (hasPrefix input (slash (str "close"))); [apply Hle|].
  destruct (hasPrefix input (slash (str "quit"))); [done|].
  destruct (hasPrefix input (slash (str "salty"))); [destruct (Cut _ _) as [[]]; apply Hle|].
  destruct (t_them t); [done|apply Hle].
Qed.

Lemma on_events_err me evs t :
  t_err (foldr (on_event me) t evs) = t_err t.
Proof.
  induction evs as [|ev evs IH]; [done|]. cbn [foldr]. rewrite <-IH. by destruct ev; cbn; try case_bool_decide.
Qed.

Lemma foldl_print_err me page t : t_err (foldl (λ t msg, print (formatMsg me msg ++ newline) t) t page) = t_err t.
Proof. revert t. induction page as [|msg page IH]; intros t; [done|]. cbn [foldl]. by rewrite IH. Qed.

(** A chat that cannot be started looks like one that was. If [Chat] fails,
    because the peer is unknown or cannot be reached, the terminal reports
    nothing: the line succeeds without a word on the error stream, and from then
    on the lines that are typed are meant for that peer. *)
Theorem failed_chat_is_silent (ms ms' : Z) (me line name : bytes) (t : term) (er : error) (c' : Client)
  (Hlog : log_readable t)
  (Hcmd : interpret me (t_them t) (TrimSpace line) = StartChat name)
  (Hchat : Chat name (forget_events (t_client t)) = (Err er, c')) :
  ∃ t', step ms ms' me line t = (Ok tt, t') ∧ t_err t' = t_err t ∧ t_them t' = name.
Proof.
  unfold interpret in Hcmd. unfold step. st_pure. set (input := TrimSpace line) in *.
  case_bool_decide; [done|]. destruct (hasPrefix input (slash (str "log"))); [done|].
  destruct (hasPrefix input (slash (str "chat"))).
  2:{ destruct (hasPrefix input (slash (str "close"))); [by destruct (default _ _)|].
      destruct (hasPrefix input (slash (str "quit"))); [done|].
      destruct (hasPrefix input (slash (str "salty"))); [by destruct (Cut _ _) as [[]]|by destruct (t_them t)]. }
  unfold argument in Hcmd. unfold log_error, doChat.
  destruct (Fields input) as [|w [|name' ws]]; [done..|]. case_bool_decide as Hme; [done|]. injection Hcmd as ->.
  st_pure.
  destruct (read_log_ok (user_stream name) (set_them name t) Hlog) as [page Hp]. st_call Hp.
  unfold print_page. st_pure. st_pure.
  match goal with |- context [setPrompt me name ?t1] => set (t2 := setPrompt me name t1);
    assert (same_core (set_them name t) t2) as (E1 & E2 & E3) by (by apply foldl_core);
    assert (t_err t2 = t_err t) as Herr by (exact (foldl_print_err me page (set_them name t))) end.
  unfold swallow, call. rewrite E1. cbn [set_them t_client]. rewrite Hchat.
  eexists. split; [reflexivity|]. rewrite on_events_err. split; [exact Herr|].
  destruct (on_events_core me (c_events c') (set_client (forget_events c') t2)) as (_ & -> & _). exact E2.
Qed.

Lemma hdlr_ratchet pos payload c c' :
  is_ratchet payload = true → handleRatchet (mkInput pos payload) c = (Ok tt, c') →
  hdlr Input (mkMessage pos payload) c = (Ok tt, c').
Proof. intros Hr Hh. unfold hdlr. rewrite Input_handlers. cbn [m_ID m_Payload in_Payload]. by rewrite Hr, Hh. Qed.

(** After the peer has closed the chat. The closing message resets the prompt
    but not the peer that lines go to: the next line is still meant for the
    peer that left, and is lost with an error message about a missing file,
    while nothing is posted. *)
Theorem line_after_peer_closed (ms ms' pos : Z) (me line : bytes) (t : term) (id : bytes) (s : PeerSession) (xs : Session)
  (Hhas : has_session (c_sm (t_client t)) id s xs) (Hpend : ps_PendingAck s = [])
  (Hthem : t_them t = ps_Name s) (Hname : ps_Name s ≠ []) (Hq : t_quit t = false)
  (Hnew : sm_files (c_sm (t_client t))
            !! sessionhash (sm_me (c_sm (t_client t))) (ulid_Make (sm_made (c_sm (t_client t)))) = None)
  (Hsay : interpret me (ps_Name s) (TrimSpace line) = Say (ps_Name s) (TrimSpace line)) :
  let wire := marshalMessage sessClose (Message.Close (CloseMessage (s_LocalUUID xs) [Byte.xff])) in
  ∃ t1 t2, call me (hdlr Input (mkMessage pos wire)) t = (Ok tt, t1) ∧
    t_prompt t1 = str "[" ++ me ++ str "]> " ∧ t_them t1 = ps_Name s ∧
    step ms ms' me line t1 = (Ok tt, t2) ∧
    t_err t2 = (COLOR_GREY ++ error_Error (Wrapf "stat: %w" ErrNotExist) ++ RESET_COLOR ++ newline) :: t_err t1 ∧
    c_posts (t_client t2) = c_posts (t_client t1).
Proof.
  intros wire. set (c := forget_events (t_client t)).
  destruct (chat_closed (mkInput pos wire) c id s xs Hhas Hpend eq_refl) as (sm' & Hh & (Hget & Hno) & [Hme _ _ Hmade _] & Hfs).
  pose proof Hhas as ((_ & Hl & _) & _).
  assert (is_ratchet wire = true) as Hir.
  { assert (msg_wf (Message.Close (CloseMessage (s_LocalUUID xs) [Byte.xff]))) as Hwf by done.
    exact (proj1 (readMsg_marshal _ Hwf)). }
  unfold call at 1. fold c. rewrite (hdlr_ratchet pos wire c _ Hir Hh). cbn [c_events foldr c forget_events].
  set (t1 := on_event me _ _).
  assert (t_them t1 = ps_Name s) as Ht1 by (unfold t1, on_event; cbn; by case_bool_decide).
  assert (t_prompt t1 = str "[" ++ me ++ str "]> ") as Hp1.
  { unfold t1, on_event. cbn. rewrite bool_decide_eq_true_2 by done. done. }
  assert (c_sm (t_client t1) = sm') as Hsm1 by (unfold t1, on_event; cbn; by case_bool_decide).
  set (c1 := forget_events (t_client t1)).
  assert (∃ c2, SendText ms ms' (ps_Name s) (TrimSpace line) [] c1 = (Err (Wrapf "stat: %w" ErrNotExist), c2) ∧
    c_posts c2 = c_posts c1 ∧ c_events c2 = []) as (c2 & Hsend & Hposts & Hevs).
  { set (u := ulid_Make (sm_made sm')).
    set (sm2 := mkManager (sm_me sm') (sm_key sm') (sm_pos sm') (<[ps_Name s := u]> (sm_sessions sm')) (sm_files sm') (S (sm_made sm'))).
    assert (ByName (ps_Name s) (c_sm c1) = (Ok u, sm2)) as Hby
      by (unfold c1, ByName; cbn [forget_events c_sm]; by rewrite Hsm1, Hno).
    exists (set_sm sm2 c1). split; [|done]. unfold SendText.
    rewrite (ST_bind_Ok _ _ _ _ _ (getByName_unknown _ _ _ _ Hby ltac:(simpl; apply Hfs; unfold u; rewrite Hme, Hmade; exact Hnew))).
    by apply ST_bind_Err. }
  unfold interpret in Hsay. 
  eexists t1, _. split; [reflexivity|]. split; [done|]. split; [done|].
  assert (step ms ms' me line t1 = log_error [] (doDefault ms ms' me (TrimSpace line)) t1) as ->.
  { unfold step. st_pure. set (input := TrimSpace line) in *. case_bool_decide; [done|].
    destruct (hasPrefix input (slash (str "log"))); [done|].
    destruct (hasPrefix input (slash (str "chat"))); [by destruct (argument input); [case_bool_decide|]|].
    destruct (hasPrefix input (slash (str "close"))); [by destruct (default _ _)|].
    destruct (hasPrefix input (slash (str "quit"))); [done|].
    destruct (hasPrefix input (slash (str "salty"))); [by destruct (Cut _ _) as [[]]|].
    rewrite Ht1. by destruct (ps_Name s). }
  unfold log_error, doDefault. st_pure. unfold call. fold c1. rewrite Ht1, Hsend, Hevs. cbn [foldr].
  split; [reflexivity|]. split; [done|]. simpl. by rewrite Hposts.
Qed.
End Properties.

(** ** The keyboard *)

Section Keyboard.
Context `{RatchetCrypto} `{IdentityCrypto} `{BoxCrypto} `{Ulid} `{GobWire} `{SaltyLib} `{ClientLib}.
Context `{Rendering} `{Paging}.

(** The loop of [Interactive] with its scanner: the prompt, [Scan], and the body,
    which leaves if the context is done; [times] are the times of the rounds.
    The scanner gets an end of input only if the context is done. *)
Fixpoint prompt_loop (times : list (Z * Z)) (me : bytes) (ws : list wake) (s : scanner) (pending : bytes) : ST term unit := λ t,
  match times with
  | [] => (Ok tt, t)
  | (ms, ms') :: times =>
      if t_quit t then (Ok tt, t)
      else
        match Scan (S (length ws)) ws s pending with
        | Token line s pending ws =>
            if sc_err s is Some _ then (Ok tt, t)
            else (_ ← step ms ms' me line; _ ← modify (λ t, if t_quit t then t else print (t_prompt t) t);
                  prompt_loop times me ws s pending) t
        | _ => (Ok tt, t)
        end
  end.

Lemma prompt_loop_lines times me ws s pending t :
  scanner_ok s → quiet ws → enough (length pending) ws → short (remaining s pending ws) →
  (length (lines (remaining s pending ws)).1 < length times)%nat →
  prompt_loop times me ws s pending t =
    loop me (zip_with (λ ms line, Typed ms.1 ms.2 (dropCR line)) times (lines (remaining s pending ws)).1) t.
Proof.
  revert ws s pending t. induction times as [|[ms ms'] times IH]; intros ws s pending t Hok Hq Hen Hsh Hn; [simpl in Hn; lia|].
  cbn [prompt_loop]. pose proof (Scan_spec (S (length ws)) ws s pending ltac:(lia) Hok Hq) as Hs.
  destruct (Scan _ ws s pending) as [line s' p' ws'|s' p' ws'|s' p'].
  - destruct Hs as (l & Hrem & Hl & -> & Hlen & Hok' & Hq' & Hen'). rewrite Hrem in *. rewrite lines_cons in * by done.
    destruct Hsh as [Hls Hrest]. rewrite lines_cons in * by done. apply Forall_cons in Hls as [_ Hls]. simpl in Hn, Hrest.
    cbn [fst snd zip_with loop]. destruct (t_quit t); [done|]. rewrite (proj2 (proj2 Hok')).
    unfold mbind, ST_bind. destruct (step ms ms' me (dropCR l) t) as [[[]| |] t1]; [|done..].
    apply IH; [done|done|by apply Hen'|done|lia].
  - destruct Hs as (_ & l & r & Hrem & Hl & Hlen). rewrite Hrem in Hsh. by apply short_lines in Hsh.
  - destruct Hs as (Hrem & Hl & Hok' & Hfree & Hp). rewrite (Hp Hen), app_nil_r in *. rewrite Hrem, lines_rest by done.
    cbn [fst snd zip_with loop]. by destruct (t_quit t).
Qed.

(** C25. What is typed is done. Whatever the pieces in which bytes come from the
    keyboard and however often the terminal polls in vain, its loop does what the
    lines of the text do, one by one and in order, as long as they fit the
    buffer of the scanner. What follows the last newline is not read: the
    scanner goes on waiting however often the ticker fires, be it that nothing more
    is typed yet or that the input has ended. *)
Theorem keyboard_obeys (times : list (Z * Z)) (me : bytes) (ws : list wake) (t : term)
  (Hq : quiet ws) (Hen : enough 0 ws) (Hshort : short (typed ws))
  (Htimes : (length (lines (typed ws)).1 < length times)%nat) :
  prompt_loop times me ws NewScanner [] t =
    loop me (zip_with (λ ms line, Typed ms.1 ms.2 (dropCR line)) times (lines (typed ws)).1) t ∧
  ∃ s, Scans (length times) ws NewScanner [] = (dropCR <$> (lines (typed ws)).1, Some (Waiting s [])) ∧
    ∀ k, ∃ s', Scan (S k) (replicate k Tick) s [] = Waiting s' [] ∧ sc_data s' = (lines (typed ws)).2.
Proof.
  split; [by apply (prompt_loop_lines times me ws NewScanner [])|]. by apply typed_lines.
Qed.
End Keyboard.

(** ** Instances *)

Module ToyTerm.
#[local] Existing Instances toy_ratchet_crypto toy_ratchet_laws toy_identity_crypto toy_identity_laws
  toy_box_crypto toy_box_laws SRuns.toy_ulid SRuns.toy_ulid_laws ToyWire.toy_wire ToyWire.toy_wire_laws
  ToySalty.toy_salty ToySalty.toy_salty_laws ToyClient.toy_client ToyPages.toy_paging.

Definition toy_rendering : Rendering := {|
  clock id := str "00:00:00";
  text_clock m := str "00:00:00";
  LiteralText := st_literal;
  text_User := st_nick;
  text_Events m := [];
  event_Command e := e;
  event_Args e := [];
  error_Error er := str "error";
  fmt_Sprint ev := str "{}";
|}.

(** A terminal of a client with an empty log, in a chat with [them]. *)
Definition terminal (c : Client) (them : bytes) : term := mkTerm c ∅ [] them [] [] false.

Lemma terminal_readable c them : log_readable (terminal c them).
Proof. by exists []. Qed.

(** Alice without random bytes cannot make an offer. *)
Definition broke : Client := set_ent [] ToyClient.alice.
End ToyTerm.

#[local] Existing Instances toy_ratchet_crypto toy_ratchet_laws toy_identity_crypto toy_identity_laws
  toy_box_crypto toy_box_laws SRuns.toy_ulid SRuns.toy_ulid_laws ToyWire.toy_wire ToyWire.toy_wire_laws
  ToySalty.toy_salty ToySalty.toy_salty_laws ToyClient.toy_client ToyPages.toy_paging ToyTerm.toy_rendering.

Lemma terminal_obeys_witness :
  term_outcome (step 7 8 (str "alice") (str " four ") (ToyTerm.terminal ToyChat.alice_in (str "bob"))) =
    obey 7 8 (Say (str "bob") (str "four")) (str "bob") ToyChat.alice_in ∧
  ∀ er, (step 7 8 (str "alice") (str " four ") (ToyTerm.terminal ToyChat.alice_in (str "bob"))).1 ≠ Err er.
Proof.
  refine (terminal_obeys 7 8 (str "alice") (str " four ") (ToyTerm.terminal ToyChat.alice_in (str "bob")) _ _).
  - apply ToyTerm.terminal_readable.
  - reflexivity.
Defined.

Example line_after_bob_closed :
  let wire := marshalMessage sessClose (Message.Close (CloseMessage (s_LocalUUID ToyChat.xs_bob) [Byte.xff])) in
  ∃ t1 t2, call (str "bob") (hdlr Input (mkMessage 3 wire)) (ToyTerm.terminal ToyChat.bob_in (str "alice")) = (Ok tt, t1) ∧
    t_prompt t1 = str "[bob]> " ∧ t_them t1 = str "alice" ∧
    step 7 8 (str "bob") (str "still there?") t1 = (Ok tt, t2) ∧
    t_err t2 = (COLOR_GREY ++ str "error" ++ RESET_COLOR ++ newline) :: t_err t1 ∧
    c_posts (t_client t2) = c_posts (t_client t1).
Proof.
  refine (line_after_peer_closed 7 8 3 (str "bob") (str "still there?") (ToyTerm.terminal ToyChat.bob_in (str "alice"))
    (s_LocalUUID ToyChat.xs_bob) (ToyChat.peer_of (str "alice") ToyChat.xs_bob) ToyChat.xs_bob _ _ _ _ _ _ _).
  - exact (proj1 (ToyChat.talking_has (str "bob") (str "alice") 99 ToyChat.xs_bob ToyChat.bob_storable)).
  - reflexivity.
  - reflexivity.
  - discriminate.
  - reflexivity.
  - vm_compute. reflexivity.
  - vm_compute. reflexivity.
Qed.

Lemma keyboard_obeys_witness :
  let t := ToyTerm.terminal ToyTerm.broke (str "bob") in
  prompt_loop [(7, 8); (9, 10)] (str "alice") Typing.wakes NewScanner [] t =
    loop (str "alice") [Typed 7 8 (str "hello")] t ∧
  ∃ s, Scans 2 Typing.wakes NewScanner [] = ([str "hello"], Some (Waiting s [])) ∧
    ∀ k, ∃ s', Scan (S k) (replicate k Tick) s [] = Waiting s' [] ∧ sc_data s' = str "bob".
Proof.
  refine (keyboard_obeys [(7, 8); (9, 10)] (str "alice") Typing.wakes (ToyTerm.terminal ToyTerm.broke (str "bob")) _ _ _ _).
  - exact Typing.wakes_quiet.
  - vm_compute. exact I.
  - exact Typing.wakes_short.
  - vm_compute. lia.
Defined.
