(* ===== verification/Ui.v ===== *)
(** * The full-screen terminal (src/ui/chat.go)

    The model of the Bubble Tea program: what a key press or an event of the
    client does to it. Of the widgets there is only the text that is being typed
    here; what is shown is in Window. *)

From Stdlib Require Import ZArith Lia.
From stdpp Require Import base list numbers option strings gmap.
From S2P Require Import Prelude Crypto ToyCrypto DhRatchet DoubleRatchet RatchetSync Gob Marshal Base64 Message X3dh Session DiskSession Client MemSession GoStrings Bus Cli Interactive.

Local Open Scope Z_scope.

(** What the program uses of other modules: [saltyim.Addr.String], and what the
    text input does with a key *)
Class Widgets := {
  addr_String : Addr → bytes;
  textinput_Update : Z → bytes → bytes;
}.

(** [model]: the client, the peer, the lines of the content (latest first), and the
    prompt and the value of the text input *)
Record model := mkModel {
  m_c : Client;
  m_them : bytes;
  m_content : list bytes;
  m_Prompt : bytes;
  m_Value : bytes;
}.

(** [tea.Msg]: an event of the client, a key (control-C, escape, enter, another
    one), and anything else, like the size of the window *)
Inductive tea_Msg :=
  | EventMsg (ev : event)
  | KeyCtrlC
  | KeyEsc
  | KeyEnter
  | KeyOther (key : Z)
  | OtherMsg.

Definition set_m_client (c : Client) (m : model) : model := mkModel c (m_them m) (m_content m) (m_Prompt m) (m_Value m).
Definition set_m_them (them : bytes) (m : model) : model := mkModel (m_c m) them (m_content m) (m_Prompt m) (m_Value m).
Definition Fprintln (line : bytes) (m : model) : model :=
  mkModel (m_c m) (m_them m) ((line ++ newline) :: m_content m) (m_Prompt m) (m_Value m).
Definition set_Prompt (p : bytes) (m : model) : model := mkModel (m_c m) (m_them m) (m_content m) p (m_Value m).
Definition set_Value (v : bytes) (m : model) : model := mkModel (m_c m) (m_them m) (m_content m) (m_Prompt m) v.

Section Ui.
Context `{RatchetCrypto} `{IdentityCrypto} `{BoxCrypto} `{Ulid} `{GobWire} `{SaltyLib} `{ClientLib}.
Context `{Rendering} `{Widgets}.

(** The lines that [formatMsg] puts before a text, one for each event in it *)
Definition format_events (time : bytes) (events : list bytes) : bytes :=
  concat ((λ e, COLOR_GREY ++ time ++ str " :: event: " ++ event_Command e ++ str "(" ++
                Join (event_Args e) (str ", ") ++ str ")" ++ RESET_COLOR ++ newline) <$> events).

(** [formatMsg] *)
Definition formatMsg (me : bytes) (msg : event) : bytes :=
  match msg with
  | OnOfferSent _ them _ => notice (str "offer sent " ++ them ++ str " :::")
  | OnOfferReceived _ them _ => notice (str "offer from " ++ them ++ str " :::")
  | OnSessionStarted _ them => notice (str "session started with " ++ them ++ str " :::")
  | OnSessionClosed _ them => notice (str "session closed with " ++ them ++ str " :::")
  | OnMessageReceived id them _ m =>
      format_events (clock id) (text_Events m) ++ chat_line (clock id) COLOR_RED them (LiteralText m)
  | OnMessageSent id _ _ m _ => chat_line (clock id) COLOR_RED me (LiteralText m)
  | OnSaltySent _ _ m _ => chat_line (text_clock m) COLOR_BLUE me (LiteralText m)
  | OnSaltyTextReceived _ m =>
      format_events (text_clock m) (text_Events m) ++ chat_line (text_clock m) COLOR_BLUE (text_User m) (LiteralText m)
  | OnSaltyEventReceived _ e =>
      notice (str "event: " ++ event_Command e ++ str "(" ++ Join (event_Args e) (str ", ") ++ str ")")
  | OnReceived raw => notice (str "unknown message: " ++ raw)
  | OnError er => error_Error er
  | _ => fmt_Sprint msg
  end.

(** [model.setPrompt] *)
Definition setPrompt (m : model) : model :=
  let me := addr_String (c_addr (m_c m)) in
  set_Prompt (match m_them m with
              | [] => me ++ str "> "
              | _ => me ++ str " -> " ++ m_them m ++ str "> "
              end) m.

(** The handlers that [InitialModel] registers write to the content, which all
    copies of the model share. *)
Definition on_event (ev : event) (m : model) : model :=
  match ev with
  | OnEventReceived _ _ _ _ | OnCloseSent _ _ _ => m
  | _ => Fprintln (formatMsg (addr_String (c_addr (m_c m))) ev) m
  end.

(** A call of the client, with the events that it dispatches *)
Definition call {A} (op : ST Client A) : ST model A := λ m,
  let '(r, c) := op (forget_events (m_c m)) in
  (r, foldr on_event (set_m_client (forget_events c) m) (c_events c)).

(** [if err != nil { fmt.Fprintf(m.content, ...) }] *)
Definition print_error (prefix : bytes) (op : ST model unit) : ST model unit := λ m,
  match op m with
  | (Err er, m') => (Ok tt, Fprintln (prefix ++ error_Error er) m')
  | out => out
  end.

Definition when (b : bool) (m : ST model unit) : ST model unit := if b then m else mret tt.

(** What enter does with the line; [true] is [tea.Quit] *)
Definition enter (ms ms' : Z) (input : bytes) : ST model bool :=
  m ← gets (λ m, m);
  if bool_decide (input = []) then mret false
  else
    _ ← modify (set_Value []);
    if hasPrefix input (slash (str "chat")) then
      match Fields input with
      | _ :: name :: _ =>
          _ ← when (bool_decide (addr_String (c_addr (m_c m)) = name))
                (modify (Fprintln (str "ERR: cant racthet with self")));
          _ ← modify (set_m_them name);
          _ ← modify setPrompt;
          _ ← print_error ERR (call (Chat name));
          mret false
      | _ =>
          _ ← modify (Fprintln (str "usage: /chat|close username"));
          _ ← modify (λ m, foldl (λ m p, Fprintln (str "sess:  " ++ p.1) m) m (Sessions (c_sm (m_c m))));
          mret false
      end
    else if hasPrefix input (slash (str "close")) then
      let target := match Fields input with _ :: name :: _ => name | _ => m_them m end in
      match target with
      | [] => mret false
      | _ =>
          _ ← modify (set_m_them []);
          _ ← modify setPrompt;
          _ ← print_error ERR (call (CloseChat target));
          mret false
      end
    else if hasPrefix input (slash (str "salty")) then
      let '(target, msg, _) := Cut (TrimPrefix input (slash (str "salty "))) Byte.x20 in
      _ ← print_error (ERR ++ str " ") (call (SendSalty ms target msg []));
      mret false
    else if hasPrefix input (slash (str "quit")) then mret true
    else
      match m_them m with
      | [] => _ ← modify (Fprintln (str "usage: /chat username")); mret false
      | them =>
          _ ← swallow (call (SendText ms ms' them input []));
          mret false
      end.

(** [model.Update]; the text input ignores enter *)
Definition Update (ms ms' : Z) (msg : tea_Msg) : ST model bool :=
  match msg with
  | EventMsg ev => _ ← modify (on_event ev); mret false
  | KeyCtrlC | KeyEsc => mret true
  | KeyEnter =>
      m ← gets (λ m, m);
      quit ← enter ms ms' (m_Value m);
      mret quit
  | KeyOther key => _ ← modify (λ m, set_Value (textinput_Update key (m_Value m)) m); mret false
  | OtherMsg => mret false
  end.

(** [InitialModel] *)
Definition InitialModel (c : Client) (them : bytes) : model := setPrompt (mkModel c them [] [] []).
End Ui.

(** ** The two terminals *)

Section Agreement.
Context `{RatchetCrypto} `{IdentityCrypto} `{BoxCrypto} `{Ulid} `{GobWire} `{SaltyLib} `{ClientLib}.
Context `{Rendering} `{Widgets} `{Paging}.

Definition model_outcome (rm : result bool * model) : outcome :=
  mkOutcome (is_panic rm.1) (forget_events (m_c rm.2)) (m_them rm.2) (if rm.1 is Ok true then true else false).

(** The content and the text input do not matter. *)
Definition same_m (m m' : model) : Prop := m_c m' = m_c m ∧ m_them m' = m_them m.

#[local] Instance same_m_preorder : PreOrder same_m.
Proof. split; [by intros m|]. intros m1 m2 m3 (? & ?) (? & ?). split; congruence. Qed.

Lemma on_event_m ev m : same_m m (on_event ev m).
Proof. by destruct ev. Qed.

Lemma on_events_m evs m : same_m m (foldr on_event m evs).
Proof. induction evs as [|ev evs IH]; [done|]. cbn [foldr]. etrans; [exact IH|apply on_event_m]. Qed.

Lemma list_sessions_m (l : list (bytes * bytes)) m : same_m m (foldl (λ m p, Fprintln (str "sess:  " ++ p.1) m) m l).
Proof. revert m. induction l as [|p l IH]; intros m; [done|]. cbn [foldl]. by etrans; [|apply IH]. Qed.

Lemma outcome_nothing r m m' :
  same_m m m' → r = Ok false → model_outcome (r, m') = mkOutcome false (forget_events (m_c m)) (m_them m) false.
Proof. intros (E1 & E2) ->. unfold model_outcome. cbn [fst snd]. by rewrite E1, E2. Qed.

(** An operation whose error, if any, is shown or dropped *)
Lemma outcome_op (wrap : ST model unit → ST model unit) (op : ST Client unit) m them r c' :
  (∀ o m, let '(r1, m1) := o m in ∃ m2, wrap o m = (if r1 is Panic then Panic else Ok tt, m2) ∧ same_m m1 m2) →
  op (forget_events (m_c m)) = (r, c') → m_them m = them →
  model_outcome ((_ ← wrap (call op); mret false) m) = mkOutcome (is_panic r) (forget_events c') them false.
Proof.
  intros Hwrap Hop Ht. specialize (Hwrap (call op) m). unfold call in Hwrap at 1. rewrite Hop in Hwrap.
  destruct Hwrap as (m2 & Hw & E1 & E2).
  destruct (on_events_m (c_events c') (set_m_client (forget_events c') m)) as (F1 & F2).
  unfold mbind, ST_bind. rewrite Hw. destruct r; unfold model_outcome; cbn [fst snd mret ST_ret is_panic];
    by rewrite E1, E2, F1, F2, <-Ht.
Qed.

Lemma print_error_wrap prefix o m :
  let '(r1, m1) := o m in ∃ m2, print_error prefix o m = (if r1 is Panic then Panic else Ok tt, m2) ∧ same_m m1 m2.
Proof. unfold print_error. destruct (o m) as [[[]|er|] m1]; by eexists. Qed.

Lemma swallow_wrap o m :
  let '(r1, m1) := (o : ST model unit) m in ∃ m2, swallow o m = (if r1 is Panic then Panic else Ok tt, m2) ∧ same_m m1 m2.
Proof. unfold swallow. destruct (o m) as [[[]|er|] m1]; by eexists. Qed.

(** What enter does with a line that is neither about the log nor about oneself *)
Lemma enter_outcome ms ms' input m :
  let a := interpret (addr_String (c_addr (m_c m))) (m_them m) input in
  hasPrefix input (slash (str "log")) = false → a ≠ SelfChat →
  model_outcome (enter ms ms' input m) = obey ms ms' a (m_them m) (m_c m).
Proof.
  cbn zeta. intros Hlog. unfold interpret, argument, enter. rewrite Hlog. intros Hself. st_pure.
  case_bool_decide; [by apply outcome_nothing|]. st_pure.
  destruct (hasPrefix input (slash (str "chat"))).
  { destruct (Fields input) as [|w [|name ws]].
    1, 2: st_pure; st_pure; apply outcome_nothing; [|done]; etrans; [|apply list_sessions_m]; done.
    rewrite bool_decide_decide in *. destruct (decide _) as [|Hne]; [done|]. cbn [when].
    st_pure. st_pure. st_pure. cbn [obey].
    destruct (Chat name (forget_events (m_c m))) as [r c'] eqn:Hop.
    apply outcome_op; [apply print_error_wrap|exact Hop|done]. }
  destruct (hasPrefix input (slash (str "close"))).
  { assert (match Fields input with _ :: name :: _ => name | _ => m_them m end =
      default (m_them m) (match Fields input with _ :: name :: _ => Some name | _ => None end)) as ->
      by (by destruct (Fields input) as [|? [|]]).
    destruct (default _ _) as [|b target]; [by apply outcome_nothing|]. st_pure. st_pure. cbn [obey].
    destruct (CloseChat (b :: target) (forget_events (m_c m))) as [r c'] eqn:Hop.
    apply outcome_op; [apply print_error_wrap|exact Hop|done]. }
  destruct (hasPrefix input (slash (str "salty"))) eqn:Hsalty.
  { destruct (hasPrefix input (slash (str "quit"))) eqn:Hquit.
    { apply hasPrefix_inv in Hsalty as [k ->]. apply hasPrefix_inv in Hquit as [l Hl]. discriminate Hl. }
    destruct (Cut _ _) as [[target msg] found]. cbn [obey].
    destruct (SendSalty ms target msg [] (forget_events (m_c m))) as [r c'] eqn:Hop.
    apply outcome_op; [apply print_error_wrap|exact Hop|done]. }
  destruct (hasPrefix input (slash (str "quit"))); [done|].
  destruct (m_them m) as [|b them] eqn:Ht; [st_pure; rewrite <-Ht; by apply outcome_nothing|]. cbn [obey].
  destruct (SendText ms ms' (b :: them) input [] (forget_events (m_c m))) as [r c'] eqn:Hop.
  apply outcome_op; [apply swallow_wrap|exact Hop|done].
Qed.

(** C29. The two terminals agree. A trimmed line that is not about the log and does
    not start a chat with oneself has the same effect in the line terminal and,
    entered into the text input, in the full-screen one: the same operation of
    the client with the same outcome, the same peer afterwards, and the same end
    of the program. *)
Theorem terminals_agree (ms ms' : Z) (me line : bytes) (t : term) (m : model)
  (Hc : m_c m = t_client t) (Ht : m_them m = t_them t) (Hv : m_Value m = TrimSpace line)
  (Hme : addr_String (c_addr (t_client t)) = me) (Hlog : log_readable t) (Hq : t_quit t = false)
  (Hnolog : hasPrefix (TrimSpace line) (slash (str "log")) = false)
  (Hself : interpret me (t_them t) (TrimSpace line) ≠ SelfChat) :
  model_outcome (Update ms ms' KeyEnter m) = term_outcome (step ms ms' me line t).
Proof.
  rewrite step_outcome by done. cbn [Update]. st_pure. rewrite Hv, <-Hc, <-Ht.
  pose proof (enter_outcome ms ms' (TrimSpace line) m Hnolog) as He. cbn zeta in He. rewrite Hc, Hme, Ht in He.
  rewrite Hc, Ht, <-He by done.
  unfold mbind, ST_bind. by destruct (enter ms ms' (TrimSpace line) m) as [[[]| |] m'].
Qed.
End Agreement.

(** ** Instances *)

Module ToyUi.
(** The text input appends the key, and drops a line feed. *)
Definition toy_widgets : Widgets := {|
  addr_String := addr_user;
  textinput_Update key value := value ++ base.filter (λ b, b ≠ Byte.x0a) [byte_of_Z key];
|}.
Definition screen (c : Client) (them value : bytes) : model := mkModel c them [] [] value.
End ToyUi.

#[local] Existing Instances toy_ratchet_crypto toy_ratchet_laws toy_identity_crypto toy_identity_laws
  toy_box_crypto SRuns.toy_ulid SRuns.toy_ulid_laws ToyWire.toy_wire ToyWire.toy_wire_laws
  ToySalty.toy_salty ToyClient.toy_client ToyPages.toy_paging ToyTerm.toy_rendering ToyUi.toy_widgets.

Lemma terminals_agree_witness :
  model_outcome (Update 7 8 KeyEnter (ToyUi.screen ToyClient.alice [] (slash (str "chat bob")))) =
    term_outcome (step 7 8 (str "alice") (slash (str "chat bob")) (ToyTerm.terminal ToyClient.alice [])).
Proof.
  apply (terminals_agree 7 8 (str "alice") (slash (str "chat bob")) (ToyTerm.terminal ToyClient.alice [])
    (ToyUi.screen ToyClient.alice [] (slash (str "chat bob")))).
  - reflexivity.
  - reflexivity.
  - reflexivity.
  - reflexivity.
  - apply ToyTerm.terminal_readable.
  - reflexivity.
  - vm_compute. reflexivity.
  - vm_compute. discriminate.
Defined.
