(* ===== verification/Window.v ===== *)
(** * The window of the full-screen terminal (src/ui/chat.go)

    What the terminal shows: a header, the content in a viewport, a footer and
    the text input, one below the other, and how the sizes follow the window. *)

From Stdlib Require Import ZArith Lia.
From stdpp Require Import base list numbers option strings gmap.
From S2P Require Import Prelude Crypto ToyCrypto DhRatchet DoubleRatchet RatchetSync Gob Marshal Base64 Message X3dh Session DiskSession Client MemSession GoStrings Reader Bus Cli Interactive Ui.

Local Open Scope Z_scope.

(** ** What the terminal uses of its widgets *)

(** [viewport.Model], with the offset to which it is scrolled *)
Record viewport := mkViewport {
  vp_Width : Z;
  vp_Height : Z;
  vp_YPosition : Z;
  vp_HighPerformanceRendering : bool;
  vp_MouseWheelEnabled : bool;
  vp_content : bytes;
  vp_YOffset : Z;
}.

(** What reaches [Update] from the program: the size of the window, or a message
    of the model *)
Inductive screen_Msg := WindowSizeMsg (Width Height : Z) | Plain (msg : tea_Msg).

Class Layout := {
  (** [titleStyle.Render], [lipgloss.Width], [lipgloss.Height], and
      [lipgloss.JoinHorizontal] *)
  title_Render : bytes → bytes;
  lipgloss_Width : bytes → Z;
  lipgloss_Height : bytes → Z;
  JoinHorizontal : list bytes → bytes;
  (** [viewport.New] and the methods of its result *)
  viewport_New : Z → Z → viewport;
  viewport_SetContent : bytes → viewport → viewport;
  viewport_GotoBottom : viewport → viewport;
  viewport_Update : screen_Msg → viewport → viewport;
  viewport_View : viewport → bytes;
  (** [textinput.Model.View] for a prompt, a value and a width *)
  textinput_View : bytes → bytes → Z → bytes;
}.

(** The viewport and the same one scrolled to another place *)
Definition scrolled (v w : viewport) : Prop :=
  vp_Width w = vp_Width v ∧ vp_Height w = vp_Height v ∧ vp_content w = vp_content v.

(** [strings.ReplaceAll(s, "\r\n", "\n")], with which a viewport normalizes its
    content *)
Fixpoint unix_lines (s : bytes) : bytes :=
  match s with
  | [] => []
  | a :: s1 =>
      if bool_decide (a = Byte.x0d ∧ head s1 = Some LF) then unix_lines s1 else a :: unix_lines s1
  end.

(** A string on one line *)
Definition one_line (s : bytes) : Prop := LF ∉ s.

(** The documented behaviour of the widgets. The text input is one of a single
    line: its value never gets a line feed, and its view is a line if the prompt is
    one. *)
Class LayoutLaws `{Widgets} `{Layout} : Prop := {
  lipgloss_Height_lines : ∀ s, lipgloss_Height s = 1 + Z.of_nat (count_occ Byte.byte_eq_dec s LF);
  JoinHorizontal_Height : ∀ s ss,
    lipgloss_Height (JoinHorizontal (s :: ss)) = foldr (λ t h, lipgloss_Height t `max` h) (lipgloss_Height s) ss;
  viewport_New_size : ∀ w h, vp_Width (viewport_New w h) = w ∧ vp_Height (viewport_New w h) = h;
  viewport_SetContent_content : ∀ c v, vp_content (viewport_SetContent c v) = unix_lines c ∧
    vp_Width (viewport_SetContent c v) = vp_Width v ∧ vp_Height (viewport_SetContent c v) = vp_Height v;
  viewport_GotoBottom_scrolls : ∀ v, scrolled v (viewport_GotoBottom v);
  viewport_Update_scrolls : ∀ msg v, scrolled v (viewport_Update msg v);
  viewport_View_Height : ∀ v, 0 < vp_Height v → lipgloss_Height (viewport_View v) = vp_Height v;
  textinput_Update_line : ∀ key v, one_line v → one_line (textinput_Update key v);
  textinput_View_Height : ∀ p v w, one_line p → one_line v → lipgloss_Height (textinput_View p v w) = 1;
}.

(** ** The screen *)

(** [model] with its parts that only concern the screen: whether there is a size
    yet, the viewport, and the width of the text input *)
Record screen := mkScreen {
  sn_model : model;
  sn_ready : bool;
  sn_viewport : viewport;
  sn_inputWidth : Z;
}.

Definition set_model (m : model) (s : screen) : screen := mkScreen m (sn_ready s) (sn_viewport s) (sn_inputWidth s).
Definition set_viewport (v : viewport) (s : screen) : screen := mkScreen (sn_model s) (sn_ready s) v (sn_inputWidth s).
Definition set_size (w h y : Z) (v : viewport) : viewport :=
  mkViewport w h y (vp_HighPerformanceRendering v) (vp_MouseWheelEnabled v) (vp_content v) (vp_YOffset v).

(** [strings.Repeat] *)
Definition Repeat (s : bytes) (count : Z) : result bytes :=
  if count <? 0 then Panic else Ok (concat (replicate (Z.to_nat count) s)).

(** The character of a horizontal line, in UTF-8 *)
Definition bar : bytes := [Byte.xe2; Byte.x94; Byte.x80].

(** [max] *)
Definition max (a b : Z) : Z := if b <? a then a else b.

(** [content.String()] *)
Definition content_String (m : model) : bytes := concat (rev (m_content m)).

Definition useHighPerformanceRenderer : bool := false.

Section Window.
Context `{RatchetCrypto} `{IdentityCrypto} `{BoxCrypto} `{Ulid} `{GobWire} `{SaltyLib} `{ClientLib}.
Context `{Rendering} `{Widgets} `{Inbox} `{Layout}.

(** [model.headerView] and [model.footerView] *)
Definition headerView (s : screen) : result bytes :=
  let title := title_Render (str "Ratchet Chat") in
  line ← Repeat bar (max 0 (vp_Width (sn_viewport s) - lipgloss_Width title));
  Ok (JoinHorizontal [title; line]).
Definition footerView (s : screen) : result bytes :=
  line ← Repeat bar (max 0 (vp_Width (sn_viewport s)));
  Ok (JoinHorizontal [line]).

Definition input_View (s : screen) : bytes := textinput_View (m_Prompt (sn_model s)) (m_Value (sn_model s)) (sn_inputWidth s).

(** [model.View] *)
Definition View (s : screen) : result bytes :=
  if negb (sn_ready s) then Ok (newline ++ str "  Initializing...")
  else
    header ← headerView s;
    footer ← footerView s;
    Ok (header ++ newline ++ viewport_View (sn_viewport s) ++ newline ++ footer ++ newline ++ input_View s).

(** The case of [Update] for a new size *)
Definition resize (Width Height : Z) (s : screen) : result screen :=
  header ← headerView s;
  footer ← footerView s;
  let headerHeight := lipgloss_Height header in
  let verticalMarginHeight := headerHeight + lipgloss_Height footer + lipgloss_Height (input_View s) in
  if negb (sn_ready s) then
    let v := viewport_New Width (Height - verticalMarginHeight) in
    let v := mkViewport Width (vp_Height v) headerHeight useHighPerformanceRenderer (vp_MouseWheelEnabled v)
               (vp_content v) (vp_YOffset v) in
    let v := viewport_SetContent (content_String (sn_model s)) v in
    let v := mkViewport (vp_Width v) (vp_Height v) (headerHeight + 1) (vp_HighPerformanceRendering v) true
               (vp_content v) (vp_YOffset v) in
    Ok (mkScreen (sn_model s) true v Width)
  else Ok (set_viewport (set_size Width (Height - verticalMarginHeight) (vp_YPosition (sn_viewport s)) (sn_viewport s)) s).

(** Whether a message scrolls to the bottom before it is handled *)
Definition to_bottom (m : model) (msg : tea_Msg) : bool :=
  match msg with EventMsg _ => true | KeyEnter => negb (bool_decide (m_Value m = [])) | _ => false end.

(** The whole of [model.Update]: the case of the message, and unless the program is
    to be left, the content and the message for the viewport. What the text
    input does with the message is part of [Ui.Update]. *)
Definition Update (ms ms' : Z) (msg : screen_Msg) : ST screen bool := λ s,
  let settle s :=
    let v := viewport_SetContent (content_String (sn_model s)) (sn_viewport s) in
    set_viewport (viewport_Update msg v) s in
  match msg with
  | WindowSizeMsg Width Height =>
      match resize Width Height s with
      | Ok s' => (Ok false, settle s')
      | Err er => (Err er, s)
      | Panic => (Panic, s)
      end
  | Plain m =>
      let s1 := if to_bottom (sn_model s) m then set_viewport (viewport_GotoBottom (sn_viewport s)) s else s in
      match zoom sn_model set_model (Ui.Update ms ms' m) s1 with
      | (Ok false, s') => (Ok false, settle s')
      | out => out
      end
  end.

(** [model.Init] and the zero values of [InitialModel] *)
Definition InitialScreen (c : Client) (them : bytes) : screen :=
  mkScreen (InitialModel c them) false (mkViewport 0 0 0 false false [] 0) 20.

(** What happens to a terminal: a message of its program, or one of the bus, which
    the handlers of the client write to the content *)
Inductive screen_happening :=
  | Shown (ms ms' : Z) (msg : screen_Msg)
  | Carried (msg : Message).

(** [true] if the terminal is left *)
Fixpoint screen_loop (hs : list screen_happening) : ST screen bool :=
  match hs with
  | [] => mret false
  | Shown ms ms' msg :: hs => quit ← Update ms ms' msg; if (quit : bool) then mret true else screen_loop hs
  | Carried msg :: hs => _ ← zoom sn_model set_model (Ui.call (hdlr Input msg)); screen_loop hs
  end.
End Window.

(** ** The prompt *)

(** A field has no white space in it. *)
Lemma pieces_one_line s : Forall (λ p, p.1 = false → one_line p.2) (pieces s).
Proof.
  assert (∀ a, space1 a = false → one_line [a]) as Hone
    by (intros a Ha Hin%list_elem_of_singleton; subst a; discriminate Ha).
  assert (∀ n s, (length s <= n)%nat → Forall (λ p, p.1 = false → one_line p.2) (pieces s)) as Hn; [|by apply (Hn (length s))].
  clear s. induction n as [|n IH]; intros [|a s] Hl; simpl in Hl; try lia; try by constructor.
  rewrite pieces_cons. destruct (space1 a) eqn:Ha; [constructor; [done|apply IH; lia]|].
  pose proof (IH s ltac:(lia)) as Hs. destruct s as [|b s]; [constructor; [by intros _; apply Hone|exact Hs]|].
  destruct (space2 a b); [constructor; [done|apply IH; simpl in *; lia]|].
  destruct s as [|c s]; [constructor; [by intros _; apply Hone|exact Hs]|].
  destruct (space3 a b c); [constructor; [done|apply IH; simpl in *; lia]|].
  constructor; [by intros _; apply Hone|exact Hs].
Qed.

Lemma fields_one_line word ps :
  one_line word → Forall (λ p, p.1 = false → one_line p.2) ps → Forall one_line (fields word ps).
Proof.
  assert (∀ w rest, one_line w → Forall one_line rest → Forall one_line (if w is [] then rest else w :: rest)) as Hemit
    by (intros [] rest; auto).
  revert word. induction ps as [|[[] b] ps IH]; intros word Hw Hps; cbn [fields]; [by apply Hemit|..];
    apply Forall_cons in Hps as [Hb Hps].
  - apply Hemit; [done|]. apply IH; [by apply not_elem_of_nil|done].
  - apply IH; [|done]. intros [?|?]%elem_of_app; [by apply Hw|by apply Hb].
Qed.

Lemma Fields_one_line s name w ws : Fields s = w :: name :: ws → one_line name.
Proof.
  intros Hf. pose proof (fields_one_line [] (pieces s) (not_elem_of_nil _) (pieces_one_line s)) as Hall.
  unfold Fields in Hf. rewrite Hf in Hall. apply Forall_cons in Hall as [_ Hall]. by apply Forall_cons in Hall as [? _].
Qed.

Section Prompt.
Context `{RatchetCrypto} `{IdentityCrypto} `{BoxCrypto} `{Ulid} `{GobWire} `{SaltyLib} `{ClientLib}.

(** No operation of the client changes its address. *)
Definition keeps_addr {A} (m : ST Client A) : Prop := ∀ c, c_addr (m c).2 = c_addr c.

Create HintDb keeps_addr.

Lemma keeps_addr_bind {A B} (m : ST Client A) (f : A → ST Client B) :
  keeps_addr m → (∀ a, keeps_addr (f a)) → keeps_addr (m ≫= f).
Proof.
  intros Hm Hf c. unfold mbind, ST_bind. specialize (Hm c). destruct (m c) as [[a| |] c1]; simpl in *; [|done..].
  by rewrite Hf.
Qed.

Lemma keeps_addr_ret {A} (a : A) : keeps_addr (mret a).
Proof. done. Qed.

Lemma keeps_addr_lift {A} (r : result A) : keeps_addr (lift r).
Proof. done. Qed.

Lemma keeps_addr_throw {A} er : keeps_addr (@throw Client A er).
Proof. done. Qed.

Lemma keeps_addr_gets {A} (f : Client → A) : keeps_addr (gets f).
Proof. done. Qed.

Lemma keeps_addr_dispatch ev : keeps_addr (dispatch ev).
Proof. done. Qed.

Lemma keeps_addr_set_ent e : keeps_addr (modify (set_ent e)).
Proof. done. Qed.

Lemma keeps_addr_with_sm {A} (m : ST Manager A) : keeps_addr (with_sm m).
Proof. intros c. unfold with_sm, zoom. by destruct (m _). Qed.

Lemma keeps_addr_with_peer {A} (m : ST (PeerSession * entropy) A) s : keeps_addr (with_peer m s).
Proof. intros c. unfold with_peer. by destruct (m _) as [r [s' e']]. Qed.

Lemma keeps_addr_sendMsg s msg : keeps_addr (sendMsg s msg).
Proof. intros c. unfold sendMsg. by destruct (http_post _ _). Qed.

Lemma keeps_addr_receiveMsg m s : keeps_addr (receiveMsg m s).
Proof.
  intros c. unfold receiveMsg. pose proof (keeps_addr_with_peer (Peer_ReceiveMsg m) s c) as Hk.
  by destruct (with_peer _ _ _) as [[a| |] c1].
Qed.

Lemma keeps_addr_unsealMsg m : keeps_addr (unsealMsg m).
Proof. intros c. unfold unsealMsg. destruct m; try done. by destruct (key_X25519_pair _). Qed.

Lemma keeps_addr_findSession id m : keeps_addr (findSession id m).
Proof.
  unfold findSession. destruct (msg_nick m) as [nick|]; intros c.
  - pose proof (keeps_addr_with_sm (DiskSession.New nick) c) as Hk. by destruct (with_sm _ _) as [[a| |] c1].
  - destruct (Get id (c_sm c)) as [s|er|]; [done| |done]. by destruct (is_not_exist er).
Qed.

Lemma keeps_addr_catch m : keeps_addr m → keeps_addr (catch m).
Proof. intros Hm c. specialize (Hm c). unfold catch. by destruct (m c) as [[a| |] c1]. Qed.
#[local] Hint Resolve keeps_addr_ret keeps_addr_lift keeps_addr_throw keeps_addr_gets keeps_addr_dispatch
  keeps_addr_set_ent keeps_addr_with_sm keeps_addr_with_peer keeps_addr_sendMsg keeps_addr_receiveMsg
  keeps_addr_unsealMsg keeps_addr_findSession : keeps_addr.

Ltac keeps_addr :=
  repeat first
    [ solve [auto with keeps_addr]
    | apply keeps_addr_bind; [|intros ?]
    | apply keeps_addr_catch
    | match goal with |- context [match ?x with _ => _ end] => destruct x end ].

Lemma keeps_addr_getByName them : keeps_addr (getByName them).
Proof. unfold getByName. keeps_addr. Qed.
#[local] Hint Resolve keeps_addr_getByName : keeps_addr.

Lemma keeps_addr_Chat them : keeps_addr (Chat them).
Proof. unfold Chat. keeps_addr. Qed.

Lemma keeps_addr_SendText ms ms' them text events : keeps_addr (SendText ms ms' them text events).
Proof. unfold SendText. keeps_addr. Qed.

Lemma keeps_addr_CloseChat them : keeps_addr (CloseChat them).
Proof. unfold CloseChat. keeps_addr. Qed.

Lemma keeps_addr_SendSalty ms them text events : keeps_addr (SendSalty ms them text events).
Proof. unfold SendSalty. keeps_addr. Qed.

Lemma keeps_addr_deliverMsg m s : keeps_addr (deliverMsg m s).
Proof. unfold deliverMsg. keeps_addr. Qed.
#[local] Hint Resolve keeps_addr_deliverMsg : keeps_addr.

Lemma keeps_addr_hdlr msg : keeps_addr (hdlr Input msg).
Proof.
  assert (∀ inp, keeps_addr (Input inp)) as Hi
    by (intros inp; unfold Input, handleSaltPack, handleRatchet, handleOther; keeps_addr).
  intros c. specialize (Hi (mkInput (m_ID msg) (m_Payload msg)) c). unfold hdlr. by destruct (Input _ c) as [[a| |] c1].
Qed.

Context `{Rendering} `{Widgets} `{Layout} `{!LayoutLaws}.

(** The prompt is one line, and will be after a change of the peer. *)
Record lined (m : model) : Prop := {
  li_Prompt : one_line (m_Prompt m);
  li_Value : one_line (m_Value m);
  li_them : one_line (m_them m);
  li_addr : one_line (addr_String (c_addr (m_c m)));
}.

Definition keeps_lined {A} (op : ST model A) : Prop := ∀ m, lined m → lined (op m).2.

Create HintDb keeps_lined.

Lemma keeps_lined_bind {A B} (op : ST model A) (f : A → ST model B) :
  keeps_lined op → (∀ a, keeps_lined (f a)) → keeps_lined (op ≫= f).
Proof.
  intros Hop Hf m Hm. unfold mbind, ST_bind. specialize (Hop m Hm). destruct (op m) as [[a| |] m1]; simpl in *; [|done..].
  by apply Hf.
Qed.

Lemma keeps_lined_ret {A} (a : A) : keeps_lined (mret a).
Proof. by intros m. Qed.

Lemma keeps_lined_gets {A} (f : model → A) : keeps_lined (gets f).
Proof. by intros m. Qed.

Lemma lined_Fprintln line m : lined m → lined (Fprintln line m).
Proof. by intros []. Qed.

Lemma keeps_lined_Fprintln line : keeps_lined (modify (Fprintln line)).
Proof. intros m. apply lined_Fprintln. Qed.

Lemma lined_on_event ev m : lined m → lined (on_event ev m).
Proof. intros Hm. destruct ev; try exact Hm; by apply lined_Fprintln. Qed.

Lemma lined_on_events evs m : lined m → lined (foldr on_event m evs).
Proof. intros Hm. induction evs as [|ev evs IH]; [done|]. by apply lined_on_event. Qed.

Lemma lined_sessions (l : list (bytes * bytes)) m :
  lined m → lined (foldl (λ m p, Fprintln (str "sess:  " ++ p.1) m) m l).
Proof. revert m. induction l as [|p l IH]; intros m Hm; [done|]. by apply IH, lined_Fprintln. Qed.

Lemma keeps_lined_call {A} (op : ST Client A) : keeps_addr op → keeps_lined (Ui.call op).
Proof.
  intros Hop m []. unfold Ui.call. specialize (Hop (forget_events (m_c m))). destruct (op _) as [r c]. cbn [snd] in *.
  apply lined_on_events. split; try done. cbn. by rewrite Hop.
Qed.

Lemma keeps_lined_print_error prefix op : keeps_lined op → keeps_lined (print_error prefix op).
Proof.
  intros Hop m Hm. specialize (Hop m Hm). unfold print_error. destruct (op m) as [[a| |] m1]; try done.
  by apply lined_Fprintln.
Qed.

Lemma keeps_lined_swallow op : keeps_lined op → keeps_lined (swallow op).
Proof. intros Hop m Hm. specialize (Hop m Hm). unfold swallow. by destruct (op m) as [[a| |] m1]. Qed.

Lemma one_line_app s t : one_line s → one_line t → one_line (s ++ t).
Proof. intros Hs Ht [Hin|Hin]%elem_of_app; [by apply Hs|by apply Ht]. Qed.

Lemma lined_setPrompt m : lined m → lined (setPrompt m).
Proof.
  intros [Hp Hv Ht Ha]. assert (one_line (str "> ") ∧ one_line (str " -> ")) as [Hgt Harrow]
    by (split; apply (bool_decide_unpack _); vm_compute; exact I).
  split; try done. unfold setPrompt. cbn [m_Prompt set_Prompt]. by destruct (m_them m); repeat apply one_line_app.
Qed.

Lemma keeps_lined_fun (f : model → model) : (∀ m, lined m → lined (f m)) → keeps_lined (modify f).
Proof. by intros Hf m Hm; apply Hf. Qed.

Lemma keeps_lined_when b (op : ST model unit) : keeps_lined op → keeps_lined (when b op).
Proof. intros Hop. destruct b; [done|apply keeps_lined_ret]. Qed.

Lemma keeps_lined_quit (b : bool) (op : ST model unit) : keeps_lined op → keeps_lined (_ ← op; mret b).
Proof. intros Hop. apply keeps_lined_bind; [done|]. intros _. apply keeps_lined_ret. Qed.
#[local] Hint Resolve keeps_lined_ret keeps_lined_Fprintln keeps_lined_when keeps_lined_quit keeps_lined_print_error
  keeps_lined_swallow keeps_lined_call keeps_addr_Chat keeps_addr_SendText keeps_addr_CloseChat
  keeps_addr_SendSalty : keeps_lined.

(** Another peer, and the prompt for it *)
Lemma keeps_lined_peer {A} name (op : ST model A) : one_line name →
  keeps_lined op → keeps_lined (_ ← modify (set_m_them name); _ ← modify setPrompt; op).
Proof.
  intros Hn Hop m []. apply (Hop (setPrompt (set_m_them name m))), lined_setPrompt. by split.
Qed.

Lemma enter_lined ms ms' input : keeps_lined (enter ms ms' input).
Proof.
  unfold enter. apply keeps_lined_bind; [apply keeps_lined_gets|]. intros m0. case_bool_decide; [apply keeps_lined_ret|].
  apply keeps_lined_bind; [apply keeps_lined_fun; intros m []; split; try done; by apply not_elem_of_nil|]. intros _.
  destruct (hasPrefix input (slash (str "chat"))).
  { destruct (Fields input) as [|w [|name ws]] eqn:Hf.
    1, 2: apply keeps_lined_bind; [auto with keeps_lined|]; intros _; apply keeps_lined_quit, keeps_lined_fun; intros m Hm; by apply lined_sessions.
    apply keeps_lined_bind; [auto with keeps_lined|]. intros _.
    apply keeps_lined_peer; [by eapply Fields_one_line|auto with keeps_lined]. }
  destruct (hasPrefix input (slash (str "close"))).
  { destruct (match Fields input with _ :: name :: _ => name | _ => m_them m0 end); [apply keeps_lined_ret|].
    apply keeps_lined_peer; [by apply not_elem_of_nil|auto with keeps_lined]. }
  destruct (hasPrefix input (slash (str "salty"))); [destruct (Cut _ _) as [[target msg] found]; auto with keeps_lined|].
  destruct (hasPrefix input (slash (str "quit"))); [apply keeps_lined_ret|].
  destruct (m_them m0); auto with keeps_lined.
Qed.

Lemma lined_InitialModel c them : one_line (addr_String (c_addr c)) → one_line them → lined (InitialModel c them).
Proof. intros Ha Ht. apply lined_setPrompt. by split; [apply not_elem_of_nil..|apply Ht|apply Ha]. Qed.

Lemma Update_lined ms ms' msg : keeps_lined (Ui.Update ms ms' msg).
Proof.
  destruct msg as [ev| | | |key|]; cbn [Ui.Update]; try apply keeps_lined_ret.
  - apply keeps_lined_quit, keeps_lined_fun, lined_on_event.
  - apply keeps_lined_bind; [apply keeps_lined_gets|]. intros m. apply keeps_lined_bind; [apply enter_lined|].
    intros quit. apply keeps_lined_ret.
  - apply keeps_lined_quit, keeps_lined_fun. intros m []. split; try done. by apply textinput_Update_line.
Qed.
End Prompt.

(** ** Sizes *)

Section Sizes.
Context `{RatchetCrypto} `{IdentityCrypto} `{BoxCrypto} `{Ulid} `{GobWire} `{SaltyLib} `{ClientLib}.
Context `{Rendering} `{Widgets} `{Inbox} `{Layout} `{!LayoutLaws}.

Lemma Height_below a b : lipgloss_Height (a ++ newline ++ b) = lipgloss_Height a + lipgloss_Height b.
Proof.
  rewrite !lipgloss_Height_lines, count_occ_app. change (newline ++ b) with (LF :: b).
  rewrite count_occ_cons_eq by done. lia.
Qed.

Lemma Repeat_max n : ∃ line, Repeat bar (max 0 n) = Ok line ∧ lipgloss_Height line = 1.
Proof.
  assert (0 <= max 0 n) as Hn by (unfold max; destruct (Z.ltb_spec n 0); lia).
  unfold Repeat. destruct (Z.ltb_spec (max 0 n) 0) as [|_]; [lia|]. eexists. split; [reflexivity|].
  rewrite lipgloss_Height_lines. induction (Z.to_nat (max 0 n)) as [|k IH]; [done|exact IH].
Qed.

(** The lines that are not the viewport's *)
Definition margin : Z := lipgloss_Height (title_Render (str "Ratchet Chat")) + 2.

Lemma headerView_ok s : ∃ header, headerView s = Ok header ∧ lipgloss_Height header = margin - 2.
Proof.
  unfold headerView. destruct (Repeat_max (vp_Width (sn_viewport s) - lipgloss_Width (title_Render (str "Ratchet Chat"))))
    as (line & -> & Hl). eexists. split; [reflexivity|]. rewrite JoinHorizontal_Height. cbn [foldr]. rewrite Hl.
  unfold margin. rewrite lipgloss_Height_lines. lia.
Qed.

Lemma footerView_ok s : ∃ footer, footerView s = Ok footer ∧ lipgloss_Height footer = 1.
Proof.
  unfold footerView. destruct (Repeat_max (vp_Width (sn_viewport s))) as (line & -> & Hl).
  eexists. split; [reflexivity|]. rewrite JoinHorizontal_Height. exact Hl.
Qed.

(** What the last size makes of the screen *)
Definition shaped (size : option (Z * Z)) (s : screen) : Prop :=
  match size with
  | None => sn_ready s = false
  | Some (w, h) => sn_ready s = true ∧ vp_Width (sn_viewport s) = w ∧ vp_Height (sn_viewport s) = h - margin
  end.

Lemma shaped_same size s s' :
  sn_ready s' = sn_ready s → vp_Width (sn_viewport s') = vp_Width (sn_viewport s) →
  vp_Height (sn_viewport s') = vp_Height (sn_viewport s) → shaped size s → shaped size s'.
Proof. destruct size as [[w h]|]; cbn; intros -> Hw Hh; by rewrite ?Hw, ?Hh. Qed.

Lemma input_line s : lined (sn_model s) → lipgloss_Height (input_View s) = 1.
Proof. intros []. by apply textinput_View_Height. Qed.

Lemma shaped_View size s :
  lined (sn_model s) → shaped size s →
  match size with
  | None => View s = Ok (newline ++ str "  Initializing...")
  | Some (w, h) => margin < h → ∃ v, View s = Ok v ∧ lipgloss_Height v = h
  end.
Proof.
  intros Hlined. unfold View. destruct size as [[w h]|]; cbn [shaped]; [|by intros ->]. intros (-> & _ & Hh) Hm. cbn [negb].
  destruct (headerView_ok s) as (header & -> & Hhead), (footerView_ok s) as (footer & -> & Hfoot).
  eexists. split; [reflexivity|]. rewrite !Height_below, Hhead, Hfoot, viewport_View_Height by lia.
  rewrite input_line by done. lia.
Qed.

Lemma resize_shaped w h s : lined (sn_model s) →
  ∃ s', resize w h s = Ok s' ∧ shaped (Some (w, h)) s' ∧ sn_model s' = sn_model s.
Proof.
  intros Hlined. unfold resize.
  destruct (headerView_ok s) as (header & -> & Hhead), (footerView_ok s) as (footer & -> & Hfoot).
  cbn [mbind result_bind]. rewrite Hhead, Hfoot, input_line by done.
  replace (h - (margin - 2 + 1 + 1)) with (h - margin) by lia.
  destruct (sn_ready s) eqn:Hr; cbn [negb].
  - eexists. split; [reflexivity|]. cbn. by rewrite Hr.
  - eexists. split; [reflexivity|]. cbn.
    destruct (viewport_SetContent_content (content_String (sn_model s))
      (mkViewport w (vp_Height (viewport_New w (h - margin))) (margin - 2) useHighPerformanceRenderer
         (vp_MouseWheelEnabled (viewport_New w (h - margin))) (vp_content (viewport_New w (h - margin)))
         (vp_YOffset (viewport_New w (h - margin))))) as (_ & -> & ->). cbn.
    by rewrite (proj2 (viewport_New_size _ _)).
Qed.

(** ** Messages *)

(** The size that a message brings *)
Definition size_after (msg : screen_Msg) (size : option (Z * Z)) : option (Z * Z) :=
  match msg with WindowSizeMsg w h => Some (w, h) | Plain _ => size end.

(** The size is followed, and the input is a line. *)
Definition shaped_screen (size : option (Z * Z)) (s : screen) : Prop := lined (sn_model s) ∧ shaped size s.

Lemma settled msg s :
  let s' := set_viewport (viewport_Update msg (viewport_SetContent (content_String (sn_model s)) (sn_viewport s))) s in
  vp_content (sn_viewport s') = unix_lines (content_String (sn_model s')) ∧ ∀ size, shaped size s → shaped size s'.
Proof.
  destruct (viewport_SetContent_content (content_String (sn_model s)) (sn_viewport s)) as (Hc & Hw & Hh).
  destruct (viewport_Update_scrolls msg (viewport_SetContent (content_String (sn_model s)) (sn_viewport s))) as (Ew & Eh & Ec).
  split; [cbn; congruence|]. intros size. apply shaped_same; cbn; congruence.
Qed.

Lemma Update_shaped ms ms' msg size s s' :
  shaped_screen size s → Update ms ms' msg s = (Ok false, s') →
  shaped_screen (size_after msg size) s' ∧ vp_content (sn_viewport s') = unix_lines (content_String (sn_model s')).
Proof.
  intros [Hl Hs]. unfold Update. destruct msg as [w h|m]; cbn [size_after].
  - destruct (resize_shaped w h s Hl) as (s1 & -> & Hs1 & Hm). intros [= <-]. destruct (settled (WindowSizeMsg w h) s1).
    split; [split; [by cbn; rewrite Hm|auto]|done].
  - set (s1 := if to_bottom (sn_model s) m then _ else s).
    assert (shaped size s1 ∧ sn_model s1 = sn_model s) as [Hs1 Hm1].
    { unfold s1. destruct (to_bottom _ _); [|done]. destruct (viewport_GotoBottom_scrolls (sn_viewport s)) as (Ew & Eh & _).
      split; [|done]. by apply (shaped_same _ s). }
    unfold zoom. rewrite Hm1. pose proof (Update_lined ms ms' m _ Hl) as Hl1.
    destruct (Ui.Update ms ms' m (sn_model s)) as [[[]|er|] m']; try discriminate. intros [= <-].
    destruct (settled (Plain m) (set_model m' s1)) as [Hc Hsh]. split; [|exact Hc]. split; [exact Hl1|]. apply Hsh.
    by apply (shaped_same _ s1).
Qed.

Lemma carried_View msg s :
  let s' := (zoom sn_model set_model (Ui.call (hdlr Input msg)) s).2 in
  View s' = View s ∧ ∀ size, shaped_screen size s → shaped_screen size s'.
Proof.
  pose proof (keeps_lined_call _ (keeps_addr_hdlr msg) (sn_model s)) as Hl. revert Hl.
  unfold zoom, Ui.call. destruct (hdlr Input msg _) as [r c]. cbn [fst snd]. intros Hl.
  split; [|intros size [Hm Hs]; split; [by apply Hl|by apply (shaped_same _ s)]].
  unfold View, headerView, footerView, input_View. cbn [set_model sn_ready sn_viewport sn_model sn_inputWidth].
  assert (∀ m, m_Prompt (foldr on_event m (c_events c)) = m_Prompt m ∧ m_Value (foldr on_event m (c_events c)) = m_Value m) as Hm.
  { clear Hl. induction (c_events c) as [|ev evs IH]; intros m; [done|]. cbn [foldr]. destruct (IH m) as [<- <-]. by destruct ev. }
  destruct (Hm (set_m_client (forget_events c) (sn_model s))) as [-> ->]. done.
Qed.

(** The size of the window as far as it is known *)
Definition last_size (hs : list screen_happening) : option (Z * Z) :=
  foldl (λ size h, match h with Shown _ _ msg => size_after msg size | Carried _ => size end) None hs.

Lemma screen_loop_shaped hs size s s' :
  shaped_screen size s → screen_loop hs s = (Ok false, s') →
  shaped_screen (foldl (λ size h, match h with Shown _ _ msg => size_after msg size | Carried _ => size end) size hs) s'.
Proof.
  revert size s. induction hs as [|[ms ms' msg|msg] hs IH]; intros size s Hs; cbn [screen_loop foldl].
  - by intros [= <-].
  - unfold mbind, ST_bind. destruct (Update ms ms' msg s) as [[[]|er|] s1] eqn:Hu; try discriminate.
    apply IH. by eapply Update_shaped.
  - unfold mbind, ST_bind. pose proof (proj2 (carried_View msg s) _ Hs) as Hs1.
    destruct (zoom _ _ _ s) as [[[]|er|] s1]; try discriminate. by apply IH.
Qed.

(** C28. The screen follows the window. After whatever has happened to a
    full-screen terminal that is not left yet, where the address of the client and
    the peer it was started with are strings of one line, it shows that it is
    starting as long as it has no size; and from then on, if the last size it was
    told has more lines than the header, the footer and the input take, it shows
    exactly as many lines as the window has. Whatever size it has, each message of
    the program leaves the viewport with the whole content, with the line ends that
    a viewport gives it; what the bus brings is not shown before the next message of
    the program. *)
Theorem screen_follows (c : Client) (them : bytes) (hs : list screen_happening) (s : screen)
  (Hme : one_line (addr_String (c_addr c))) (Hthem : one_line them)
  (Hrun : screen_loop hs (InitialScreen c them) = (Ok false, s)) :
  match last_size hs with
  | None => View s = Ok (newline ++ str "  Initializing...")
  | Some (w, h) => margin < h → ∃ v, View s = Ok v ∧ lipgloss_Height v = h
  end ∧
  (∀ ms ms' msg s', Update ms ms' msg s = (Ok false, s') →
    vp_content (sn_viewport s') = unix_lines (content_String (sn_model s'))) ∧
  (∀ msg, View (zoom sn_model set_model (Ui.call (hdlr Input msg)) s).2 = View s).
Proof.
  assert (shaped_screen (last_size hs) s) as [Hl Hs]
    by (eapply screen_loop_shaped; [|exact Hrun]; split; [by apply lined_InitialModel|done]).
  split; [by apply shaped_View in Hs|]. split; [|intros msg; apply carried_View].
  intros ms ms' msg s' Hu. by eapply Update_shaped.
Qed.
End Sizes.

(** ** Instances *)

Module ToyWindow.
(** Empty lines, as many as are to be there *)
Definition blank (n : Z) : bytes := replicate (Z.to_nat (n - 1)) LF.
Definition lines_of (s : bytes) : Z := 1 + Z.of_nat (count_occ Byte.byte_eq_dec s LF).
Definition unscrolled (v : viewport) : viewport := v.

Definition toy_layout : Layout := {|
  title_Render t := newline ++ t ++ newline;
  lipgloss_Width s := Z.of_nat (length s);
  lipgloss_Height := lines_of;
  JoinHorizontal ss :=
    match ss with [] => [] | s :: ss => blank (foldr (λ t h, lines_of t `max` h) (lines_of s) ss) end;
  viewport_New w h := mkViewport w h 0 false false [] 0;
  viewport_SetContent c v := mkViewport (vp_Width v) (vp_Height v) (vp_YPosition v) (vp_HighPerformanceRendering v)
    (vp_MouseWheelEnabled v) (unix_lines c) (vp_YOffset v);
  viewport_GotoBottom := unscrolled;
  viewport_Update _ := unscrolled;
  viewport_View v := blank (vp_Height v);
  textinput_View p v w := p ++ v;
|}.

Lemma lines_of_blank n : 1 <= n → lines_of (blank n) = n.
Proof.
  intros Hn. unfold lines_of, blank. assert (∀ k, count_occ Byte.byte_eq_dec (replicate k LF) LF = k) as ->
    by (intros k; induction k as [|k IH]; [done|]; cbn [replicate]; by rewrite count_occ_cons_eq, IH).
  lia.
Qed.

Lemma tallest s ss : 1 <= foldr (λ t h, lines_of t `max` h) (lines_of s) ss.
Proof. induction ss as [|t ss IH]; cbn [foldr]; [unfold lines_of; lia|lia]. Qed.

#[local] Existing Instances ToyUi.toy_widgets toy_layout.
Lemma toy_layout_laws : LayoutLaws.
Proof.
  split; try done.
  - intros s ss. apply lines_of_blank. apply tallest.
  - intros v Hv. apply lines_of_blank. lia.
  - intros key v Hv. apply one_line_app; [exact Hv|]. by intros [? _]%list_elem_of_filter.
  - intros p v w Hp Hv. cbn. unfold lines_of.
    by rewrite (proj1 (count_occ_not_In Byte.byte_eq_dec (p ++ v) LF))
      by (rewrite <-list_elem_of_In; by apply one_line_app).
Qed.
End ToyWindow.

#[local] Existing Instances toy_ratchet_crypto toy_identity_crypto toy_box_crypto SRuns.toy_ulid ToyWire.toy_wire
  ToySalty.toy_salty ToyClient.toy_client ToyTerm.toy_rendering ToyUi.toy_widgets ToyWindow.toy_layout ToyWindow.toy_layout_laws.

Module Looking.
(** The window gets a size, something comes in, and a key is pressed. *)
Definition story : list screen_happening :=
  [Shown 7 8 (WindowSizeMsg 80 24); Carried (mkMessage 3 (str "noise")); Shown 9 10 (Plain (KeyOther 65))].
Definition watched : screen := (screen_loop story (InitialScreen ToyClient.alice (str "bob"))).2.
End Looking.

Lemma screen_follows_witness :
  (∃ v, View Looking.watched = Ok v ∧ lipgloss_Height v = 24) ∧
  (∀ msg, View (zoom sn_model set_model (Ui.call (hdlr Input msg)) Looking.watched).2 = View Looking.watched).
Proof.
  destruct (screen_follows ToyClient.alice (str "bob") Looking.story Looking.watched) as (Hsize & _ & Hc).
  - apply (bool_decide_unpack _). vm_compute. exact I.
  - apply (bool_decide_unpack _). vm_compute. exact I.
  - apply injective_projections; [vm_compute; reflexivity|reflexivity].
  - split; [apply Hsize; vm_compute; reflexivity|exact Hc].
Defined.
