(* ===== verification/Handlers.v ===== *)
(** * The registry of handlers (src/client/client.go)

    [On] appends a function to the handlers of its argument type, and [dispatch]
    starts all handlers of the type of its argument, each in a goroutine, and
    waits for them. The handlers come from the client itself, from its log and
    from a terminal. The other files use one function for all of them, [Input] for
    what comes in and [on_event] for what is dispatched; here the registry is built
    by the calls of [On] in the code, and it is shown that its handlers, in
    whatever order the goroutines get to run, do just that. *)

From Stdlib Require Import ZArith Lia.
From stdpp Require Import base list numbers option strings gmap functions.
From S2P Require Import Prelude Crypto ToyCrypto DhRatchet DoubleRatchet RatchetSync Gob Marshal Base64 Message X3dh Session DiskSession Client MemSession GoStrings Bus Cli Interactive Ui.

Local Open Scope Z_scope.

(** ** Keys and arguments *)

(** The types that [On] and [dispatch] are used at. The key of a type is its zero
    value as an [any], for [error] the nil interface; different types have
    different keys. *)
Inductive kind :=
  | KInput | KOfferSent | KOfferReceived | KSessionStarted | KMessageReceived | KEventReceived
  | KMessageSent | KCloseSent | KSessionClosed | KSaltyTextReceived | KSaltyEventReceived
  | KSaltySent | KReceived | KError.

#[export] Instance kind_eq_dec : EqDecision kind.
Proof. solve_decision. Defined.

(** What can be dispatched: input, or an event *)
Inductive args := AInput (inp : OnInput) | AEvent (ev : event).

Definition kind_of (a : args) : kind :=
  match a with
  | AInput _ => KInput
  | AEvent ev =>
      match ev with
      | OnOfferSent _ _ _ => KOfferSent
      | OnOfferReceived _ _ _ => KOfferReceived
      | OnSessionStarted _ _ => KSessionStarted
      | OnMessageReceived _ _ _ _ => KMessageReceived
      | OnEventReceived _ _ _ _ => KEventReceived
      | OnMessageSent _ _ _ _ _ => KMessageSent
      | OnCloseSent _ _ _ => KCloseSent
      | OnSessionClosed _ _ => KSessionClosed
      | OnSaltyTextReceived _ _ => KSaltyTextReceived
      | OnSaltyEventReceived _ _ => KSaltyEventReceived
      | OnSaltySent _ _ _ _ => KSaltySent
      | OnReceived _ => KReceived
      | OnError _ => KError
      end
  end.

(** ** The registry *)

Section Registry.
Context {S : Type}.

Definition handler := args → ST S unit.
Definition registry := kind → list handler.

(** [make(map[any][]any)] *)
Definition make : registry := λ _, [].

(** The function that is registered at a type; the type assertion in [dispatch]
    panics for an argument of another one. *)
Definition typed (id : kind) (fn : args → ST S unit) : handler := λ a,
  if decide (kind_of a = id) then fn a else lift Panic.

(** [On] *)
Definition On (id : kind) (fn : args → ST S unit) (on : registry) : registry :=
  <[id := on id ++ [typed id fn]]> on.

(** The handlers one after the other *)
Fixpoint run_all (hdlrs : list handler) (a : args) : ST S unit :=
  match hdlrs with
  | [] => mret tt
  | hdlr :: hdlrs => _ ← hdlr a; run_all hdlrs a
  end.

(** [dispatch]: the goroutines run in some order. What a handler does is taken
    as one step: the handlers of input work under the lock of the manager, the
    others on data of their own. *)
Inductive dispatched (on : registry) (a : args) (s : S) : result unit → S → Prop :=
  | dispatched_in hdlrs r s' : hdlrs ≡ₚ on (kind_of a) → run_all hdlrs a s = (r, s') → dispatched on a s r s'.

(** Events one after the other, each dispatched to its handlers *)
Inductive happen (on : registry) : list event → S → S → Prop :=
  | happen_nil s : happen on [] s s
  | happen_cons ev evs s s1 s2 :
      dispatched on (AEvent ev) s (Ok tt) s1 → happen on evs s1 s2 → happen on (ev :: evs) s s2.

(** Handlers commute on an argument. *)
Definition commute (a : args) (h k : handler) : Prop :=
  ∀ s, run_all [h; k] a s = run_all [k; h] a s.

Lemma run_all_app hs ks a s : run_all (hs ++ ks) a s = (_ ← run_all hs a; run_all ks a) s.
Proof.
  revert s. induction hs as [|h hs IH]; intros s; [done|]. cbn [app run_all]. unfold mbind, ST_bind.
  destruct (h a s) as [[[]| |] s1]; [|done..]. apply IH.
Qed.

Lemma run_all_swap h k hs a s : commute a h k → run_all (h :: k :: hs) a s = run_all (k :: h :: hs) a s.
Proof.
  intros Hc. change (h :: k :: hs) with ([h; k] ++ hs). change (k :: h :: hs) with ([k; h] ++ hs).
  rewrite !run_all_app. unfold mbind at 1 2, ST_bind at 1 2. by rewrite Hc.
Qed.

Lemma run_all_perm a hs ks :
  (∀ h k, h ∈ hs → k ∈ hs → commute a h k) → hs ≡ₚ ks → ∀ s, run_all hs a s = run_all ks a s.
Proof.
  intros Hc Hp. revert Hc. induction Hp as [|h hs ks Hp IH|h k hs|hs ks ls Hp IHhs Hq IHks]; intros Hc s.
  - done.
  - cbn [run_all]. unfold mbind, ST_bind. destruct (h a s) as [[[]| |] s1]; [|done..]. apply IH.
    intros ? ? ? ?. apply Hc; by right.
  - apply run_all_swap, Hc; [by left|by right; left].
  - rewrite IHhs by done. apply IHks. intros ? ? ? ?. apply Hc; by rewrite Hp.
Qed.

(** Where the handlers commute, the order of the goroutines does not matter. *)
Lemma dispatched_iff on a s r s' :
  (∀ h k, h ∈ on (kind_of a) → k ∈ on (kind_of a) → commute a h k) →
  dispatched on a s r s' ↔ (r, s') = run_all (on (kind_of a)) a s.
Proof.
  intros Hc. split.
  - intros [hs r0 s0 Hp Hr]. rewrite <-Hr. apply run_all_perm; [|done].
    intros ? ? ? ?. apply Hc; by rewrite <-Hp.
  - intros Heq. exact (dispatched_in _ _ _ _ _ _ (Permutation_refl _) (eq_sym Heq)).
Qed.

Lemma On_same id fn on : On id fn on id = on id ++ [typed id fn].
Proof. apply fn_lookup_insert. Qed.

Lemma On_other id id' fn on : id ≠ id' → On id fn on id' = on id'.
Proof. apply fn_lookup_insert_ne. Qed.
End Registry.

Arguments handler : clear implicits.
Arguments registry : clear implicits.

(** ** Who listens *)

Section Listeners.
Context `{RatchetCrypto} `{IdentityCrypto} `{BoxCrypto} `{Ulid} `{GobWire} `{SaltyLib} `{ClientLib}.
Context `{Rendering} `{Widgets}.
Context {S : Type}.

(** A function of an input, and one of an event *)
Definition on_input (fn : OnInput → ST S unit) (a : args) : ST S unit :=
  match a with AInput inp => fn inp | AEvent _ => lift Panic end.
Definition on_args (fn : event → S → S) (a : args) : ST S unit :=
  match a with AEvent ev => modify (fn ev) | AInput _ => lift Panic end.

(** [New]; [run] runs an operation of the client within its program. *)
Definition New_handlers (run : ST Client unit → ST S unit) (on : registry S) : registry S :=
  On KInput (on_input (λ inp, run (handleOther inp)))
    (On KInput (on_input (λ inp, run (handleRatchet inp)))
      (On KInput (on_input (λ inp, run (handleSaltPack inp))) on)).

(** [NewMemSession]; [upd] updates the log within the program. *)
Definition NewMemSession (upd : event → S → S) (on : registry S) : registry S :=
  foldl (λ on id, On id (on_args upd) on) on
    [KOfferSent; KOfferReceived; KSessionStarted; KSessionClosed; KMessageReceived; KMessageSent;
     KSaltySent; KSaltyTextReceived; KSaltyEventReceived; KReceived].
End Listeners.

Section Programs.
Context `{RatchetCrypto} `{IdentityCrypto} `{BoxCrypto} `{Ulid} `{GobWire} `{SaltyLib} `{ClientLib}.
Context `{Rendering} `{Widgets}.

(** The functions that [Interactive] registers: they print above the prompt,
    below it, or without it. *)
Definition print_above (me : bytes) (ev : event) (t : term) : term :=
  print (CLEAR_LINE ++ Interactive.formatMsg me ev ++ newline ++ t_prompt t) t.
Definition print_below (me : bytes) (ev : event) (t : term) : term :=
  print (newline ++ CLEAR_LINE ++ Interactive.formatMsg me ev ++ newline ++ t_prompt t) t.
Definition print_sent (me : bytes) (ev : event) (t : term) : term :=
  print (CLEAR_LINE ++ Interactive.formatMsg me ev ++ newline) t.
Definition print_closed (me : bytes) (ev : event) (t : term) : term :=
  let t := match ev with
           | OnSessionClosed _ them => if bool_decide (t_them t = them) then Interactive.setPrompt me [] t else t
           | _ => t
           end in
  print_below me ev t.

Definition Interactive_handlers (me : bytes) (on : registry term) : registry term :=
  foldl (λ on '(id, fn), On id (on_args (fn me)) on) on
    [(KOfferSent, print_above); (KOfferReceived, print_below); (KSessionStarted, print_below);
     (KSessionClosed, print_closed); (KMessageReceived, print_below); (KMessageSent, print_sent);
     (KSaltySent, print_sent); (KSaltyTextReceived, print_below); (KSaltyEventReceived, print_below);
     (KReceived, print_below); (KError, print_above)].

(** The registry of the line terminal, with [interactive.New] *)
Definition service_on (me : bytes) : registry term :=
  Interactive_handlers me
    (NewMemSession (λ ev t, set_logs (MemSession.Update ev (t_logs t)) t)
      (New_handlers (Interactive.call me) make)).

(** [m.Update(args)] with an event writes to the content. *)
Definition show (ev : event) (m : model) : model :=
  Fprintln (Ui.formatMsg (addr_String (c_addr (m_c m))) ev) m.

(** The registry of the full-screen terminal, with [InitialModel] *)
Definition model_on : registry model :=
  foldl (λ on id, On id (on_args show) on) (New_handlers Ui.call make)
    [KOfferSent; KOfferReceived; KSessionStarted; KSessionClosed; KMessageReceived; KMessageSent;
     KSaltySent; KSaltyTextReceived; KSaltyEventReceived; KReceived; KError].
End Programs.

(** ** One handler of the client for each input *)

Section Inputs.
Context `{RatchetCrypto} `{IdentityCrypto} `{BoxCrypto} `{Ulid} `{GobWire} `{SaltyLib} `{ClientLib}.
Context {S : Type} (run : ST Client unit → ST S unit) (settle : S → S).

(** What a program does with an operation of its client: one that does nothing
    settles the state (its events are dispatched, there are none), a settled state
    is as good as the state itself, and what an operation leaves is settled. The
    operation is known by what it does to a client. *)
Hypothesis run_nothing : ∀ op, (∀ c, op c = (Ok tt, c)) → ∀ s, run op s = (Ok tt, settle s).
Hypothesis run_settle : ∀ op s, run op (settle s) = run op s.
Hypothesis settle_run : ∀ op s, settle (run op s).2 = (run op s).2.
Hypothesis run_ext : ∀ op op', (∀ c, op c = op' c) → ∀ s, run op s = run op' s.

Lemma settle_twice s : settle (settle s) = settle s.
Proof. pose proof (settle_run (mret tt) s) as Hs. by rewrite (run_nothing (mret tt)) in Hs. Qed.

(** Of the three handlers at most one does anything. *)
Lemma handlers_idle inp :
  (∀ c, handleSaltPack inp c = (Ok tt, c)) ∧ (∀ c, handleOther inp c = (Ok tt, c)) ∧ (∀ c, Input inp c = handleRatchet inp c) ∨
  (∀ c, handleRatchet inp c = (Ok tt, c)) ∧ (∀ c, handleOther inp c = (Ok tt, c)) ∧ (∀ c, Input inp c = handleSaltPack inp c) ∨
  (∀ c, handleSaltPack inp c = (Ok tt, c)) ∧ (∀ c, handleRatchet inp c = (Ok tt, c)) ∧ (∀ c, Input inp c = handleOther inp c).
Proof.
  destruct (is_ratchet (in_Payload inp)) eqn:Hr; [left|right; destruct (hasPrefix (in_Payload inp) saltpack) eqn:Hs; [left|right]].
  - assert (hasPrefix (in_Payload inp) saltpack = false) as Hs.
    { apply ratchet_not_saltpack. unfold is_ratchet in Hr. by apply andb_prop in Hr as [? _]. }
    split_and!; intros c; [unfold handleSaltPack; by rewrite Hs|unfold handleOther; by rewrite Hr|by rewrite Input_handlers, Hr].
  - split_and!; intros c; [unfold handleRatchet; by rewrite Hr|unfold handleOther; by rewrite Hr, Hs|by rewrite Input_handlers, Hr, Hs].
  - split_and!; intros c; [unfold handleSaltPack; by rewrite Hs|unfold handleRatchet; by rewrite Hr|by rewrite Input_handlers, Hr, Hs].
Qed.

Lemma New_handlers_input on :
  New_handlers run make KInput = typed KInput <$> ([on_input (λ inp, run (handleSaltPack inp));
    on_input (λ inp, run (handleRatchet inp)); on_input (λ inp, run (handleOther inp))]) ∧
  ∀ id, id ≠ KInput → New_handlers run on id = on id.
Proof. unfold New_handlers. rewrite !On_same. split; [done|]. intros id Hid. by rewrite !On_other. Qed.

(** An operation that does nothing commutes with every other one. *)
Lemma commute_idle a (h k : handler S) op op' :
  (∀ s, h a s = run op s) → (∀ s, k a s = run op' s) → (∀ c, op c = (Ok tt, c)) → commute a h k ∧ commute a k h.
Proof.
  intros Hh Hk Hop. enough (commute a h k) as Hc by (split; [done|intros s; by rewrite Hc]).
  intros s. cbn [run_all]. unfold mbind, ST_bind. rewrite Hh, !Hk, (run_nothing _ Hop), Hk, run_settle.
  pose proof (settle_run op' s) as Hs. destruct (run op' s) as [[[]| |] s1]; [|done..].
  rewrite Hh, (run_nothing _ Hop). simpl in Hs. by rewrite Hs.
Qed.

Lemma inputs_commute inp (h k : handler S) :
  h ∈ New_handlers run make KInput → k ∈ New_handlers run make KInput → commute (AInput inp) h k.
Proof.
  rewrite (proj1 (New_handlers_input make)). cbn [fmap list_fmap]. rewrite !list_elem_of_In. cbn [In].
  set (h1 := typed KInput _). set (h2 := typed KInput _). set (h3 := typed KInput _).
  assert (∀ s, h1 (AInput inp) s = run (handleSaltPack inp) s) as E1 by done.
  assert (∀ s, h2 (AInput inp) s = run (handleRatchet inp) s) as E2 by done.
  assert (∀ s, h3 (AInput inp) s = run (handleOther inp) s) as E3 by done.
  destruct (handlers_idle inp) as [(Ha & Hb & _)|[(Ha & Hb & _)|(Ha & Hb & _)]];
    intros [<-|[<-|[<-|[]]]] [<-|[<-|[<-|[]]]];
    first [intros s; reflexivity
          |refine (proj1 (commute_idle _ _ _ _ _ _ _ Ha)); eassumption|refine (proj2 (commute_idle _ _ _ _ _ _ _ Ha)); eassumption
          |refine (proj1 (commute_idle _ _ _ _ _ _ _ Hb)); eassumption|refine (proj2 (commute_idle _ _ _ _ _ _ _ Hb)); eassumption].
Qed.

Lemma inputs_dispatched inp s r s' :
  dispatched (New_handlers run make) (AInput inp) s r s' ↔ (r, s') = run (Input inp) s.
Proof.
  set (ops := [handleSaltPack inp; handleRatchet inp; handleOther inp]).
  assert (∀ fn s, typed KInput (on_input (λ inp, run (fn inp))) (AInput inp) s = run (fn inp) s) as Ht by done.
  destruct (New_handlers_input make) as [Hon _].
  assert (∀ op s r s', run op s = (r, s') → settle s' = s') as Hsettled
    by (intros op s0 r0 s0' He; pose proof (settle_run op s0) as Hs; by rewrite He in Hs).
  rewrite dispatched_iff.
  - cbn [kind_of]. rewrite Hon. cbn [fmap list_fmap run_all]. unfold mbind, ST_bind. rewrite !Ht.
    enough (∀ s, (_ ← run (handleSaltPack inp); _ ← run (handleRatchet inp); _ ← run (handleOther inp); mret tt) s = run (Input inp) s)
      as He by (rewrite <-He; done).
    clear s r s'. intros s. unfold mbind, ST_bind, mret, ST_ret.
    destruct (handlers_idle inp) as [(Ha & Hb & Hc)|[(Ha & Hb & Hc)|(Ha & Hb & Hc)]]; rewrite (run_ext _ _ Hc s).
    + rewrite (run_nothing _ Ha), run_settle. destruct (run (handleRatchet inp) s) as [[[]| |] s1] eqn:Hrun; [|done..].
      rewrite (run_nothing _ Hb). by rewrite (Hsettled _ _ _ _ Hrun).
    + destruct (run (handleSaltPack inp) s) as [[[]| |] s1] eqn:Hrun; [|done..].
      rewrite (run_nothing _ Ha), (run_nothing _ Hb). by rewrite settle_twice, (Hsettled _ _ _ _ Hrun).
    + rewrite (run_nothing _ Ha), (run_nothing _ Hb), settle_twice, run_settle. by destruct (run (handleOther inp) s) as [[[]| |] s1].
  - apply inputs_commute.
Qed.
End Inputs.

(** ** Handlers of events *)

Section Events.
Context {S : Type}.

(** Handlers of an event that are functions of the state *)
Lemma run_pure (on : registry S) a (fs : list (S → S)) s :
  Forall2 (λ h f, ∀ s, h a s = (Ok tt, f s)) (on (kind_of a)) fs →
  run_all (on (kind_of a)) a s = (Ok tt, foldl (λ s f, f s) s fs).
Proof.
  intros Hfs. revert s. induction Hfs as [|h f hs fs Hh Hfs IH]; intros s; [done|].
  cbn [run_all foldl]. unfold mbind, ST_bind. rewrite Hh. apply IH.
Qed.

Lemma events_dispatched (on : registry S) a fs s r s' :
  Forall2 (λ h f, ∀ s, h a s = (Ok tt, f s)) (on (kind_of a)) fs →
  (∀ f g, f ∈ fs → g ∈ fs → ∀ s, f (g s) = g (f s)) →
  dispatched on a s r s' ↔ r = Ok tt ∧ s' = foldl (λ s f, f s) s fs.
Proof.
  intros Hfs Hc. rewrite dispatched_iff.
  - rewrite (run_pure _ _ _ _ Hfs). split; [by intros [= -> ->]|by intros [-> ->]].
  - intros h k Hh Hk s0. destruct (list_elem_of_lookup_1 _ _ Hh) as [i Hi], (list_elem_of_lookup_1 _ _ Hk) as [j Hj].
    destruct (Forall2_lookup_l _ _ _ _ _ Hfs Hi) as (f & Hf & Ef), (Forall2_lookup_l _ _ _ _ _ Hfs Hj) as (g & Hg & Eg).
    cbn [run_all]. unfold mbind, ST_bind. rewrite Ef, Eg, Eg, Ef.
    rewrite (Hc g f); [done|by eapply list_elem_of_lookup_2..].
Qed.

(** A sequence of events, each of which does what [f] says *)
Lemma happen_iff (on : registry S) (f : event → S → S) evs s s' :
  (∀ ev s r s', dispatched on (AEvent ev) s r s' ↔ (r, s') = (Ok tt, f ev s)) →
  happen on (rev evs) s s' ↔ s' = foldr f s evs.
Proof.
  intros Hf. rewrite <-(rev_involutive evs) at 2. rewrite fold_left_rev_right. generalize (rev evs). clear evs. intros evs.
  split.
  - induction 1 as [|ev evs s s1 s2 Hd _ IH]; [done|]. apply Hf in Hd as [= ->]. exact IH.
  - intros ->. revert s. induction evs as [|ev evs IH]; intros s; [constructor|].
    econstructor; [by apply Hf|apply IH].
Qed.
End Events.

Section InAnyOrder.
Context `{RatchetCrypto} `{IdentityCrypto} `{BoxCrypto} `{Ulid} `{GobWire} `{SaltyLib} `{ClientLib}.
Context `{Rendering} `{Widgets}.

(** The functions for an event at the line terminal: of its log, if it listens,
    and of the terminal itself *)
Definition term_functions (me : bytes) (ev : event) : list (term → term) :=
  match ev with
  | OnEventReceived _ _ _ _ | OnCloseSent _ _ _ => []
  | OnError _ => [Interactive.on_event me ev]
  | _ => [λ t, set_logs (MemSession.Update ev (t_logs t)) t;
          match ev with
          | OnOfferSent _ _ _ => print_above me ev
          | OnMessageSent _ _ _ _ _ | OnSaltySent _ _ _ _ => print_sent me ev
          | OnSessionClosed _ _ => print_closed me ev
          | _ => print_below me ev
          end]
  end.

Lemma service_functions me ev :
  Forall2 (λ h f, ∀ s, h (AEvent ev) s = (Ok tt, f s)) (service_on me (kind_of (AEvent ev))) (term_functions me ev).
Proof. destruct ev; repeat constructor. Qed.

Lemma term_functions_event me ev t :
  foldl (λ t f, f t) t (term_functions me ev) = Interactive.on_event me ev t.
Proof. by destruct ev; unfold Interactive.on_event, notify, print_closed; cbn; try done; destruct t. Qed.

Lemma term_functions_commute me ev f g :
  f ∈ term_functions me ev → g ∈ term_functions me ev → ∀ t, f (g t) = g (f t).
Proof.
  rewrite !list_elem_of_In. destruct ev; cbn [term_functions In]; intros Hf Hg t;
    repeat match goal with Hor : _ ∨ _ |- _ => destruct Hor as [<-|Hor] end; try done.
  all: unfold print_closed; cbn; try case_bool_decide; done.
Qed.
End InAnyOrder.

(** ** Programs *)

Section Dispatch.
Context `{RatchetCrypto} `{IdentityCrypto} `{BoxCrypto} `{Ulid} `{GobWire} `{SaltyLib} `{ClientLib}.
Context `{Rendering} `{Widgets}.

(** What the other files take for [dispatch] in the two terminals *)
Definition term_dispatch (me : bytes) (a : args) : ST term unit :=
  match a with
  | AInput inp => Interactive.call me (Input inp)
  | AEvent ev => modify (Interactive.on_event me ev)
  end.
Definition model_dispatch (a : args) : ST model unit :=
  match a with
  | AInput inp => Ui.call (Input inp)
  | AEvent ev => modify (Ui.on_event ev)
  end.

Lemma term_inputs me inp t r t' :
  dispatched (New_handlers (Interactive.call me) make) (AInput inp) t r t' ↔ (r, t') = Interactive.call me (Input inp) t.
Proof.
  apply (inputs_dispatched (Interactive.call me) (λ t, set_client (forget_events (t_client t)) t)).
  - intros op Hop s. unfold Interactive.call. by rewrite Hop.
  - done.
  - intros op s. unfold Interactive.call. destruct (op _) as [r0 c]. cbn [snd].
    pose proof (on_events_core me (c_events c) (set_client (forget_events c) s)) as [Hc _].
    destruct (foldr _ _ _) as []. cbn in *. by rewrite Hc.
  - intros op op' He s. unfold Interactive.call. by rewrite He.
Qed.

Lemma model_inputs inp m r m' :
  dispatched (New_handlers Ui.call make) (AInput inp) m r m' ↔ (r, m') = Ui.call (Input inp) m.
Proof.
  apply (inputs_dispatched Ui.call (λ m, set_m_client (forget_events (m_c m)) m)).
  - intros op Hop s. unfold Ui.call. by rewrite Hop.
  - done.
  - intros op s. unfold Ui.call. destruct (op _) as [r0 c]. cbn [snd].
    pose proof (on_events_m (c_events c) (set_m_client (forget_events c) s)) as [Hc _].
    destruct (foldr _ _ _) as []. cbn in *. by rewrite Hc.
  - intros op op' He s. unfold Ui.call. by rewrite He.
Qed.

Lemma service_dispatched me a t r t' : dispatched (service_on me) a t r t' ↔ (r, t') = term_dispatch me a t.
Proof.
  destruct a as [inp|ev].
  - cbn [term_dispatch]. rewrite <-term_inputs.
    split; intros [hs r0 s0 Hp Hr]; by eapply dispatched_in.
  - rewrite (events_dispatched _ _ _ _ _ _ (service_functions me ev) (term_functions_commute me ev)).
    rewrite term_functions_event. cbn. unfold modify. split; [by intros [-> ->]|by intros [= -> ->]].
Qed.

Lemma model_dispatched a m r m' : dispatched model_on a m r m' ↔ (r, m') = model_dispatch a m.
Proof.
  destruct a as [inp|ev].
  - cbn [model_dispatch]. rewrite <-model_inputs. split; intros [hs r0 s0 Hp Hr]; by eapply dispatched_in.
  - set (fs := match ev with OnEventReceived _ _ _ _ | OnCloseSent _ _ _ => [] | _ => [show ev] end).
    assert (Forall2 (λ h f, ∀ s, h (AEvent ev) s = (Ok tt, f s)) (model_on (kind_of (AEvent ev))) fs) as Hfs
      by (destruct ev; repeat constructor).
    rewrite (events_dispatched _ _ fs _ _ _ Hfs).
    + unfold fs. cbn. unfold modify. destruct ev; (split; [by intros [-> ->]|by intros [= -> ->]]).
    + unfold fs. destruct ev; intros f g Hf Hg s; rewrite ?list_elem_of_singleton in *; set_solver.
Qed.

(** C26. The order in which handlers run does not matter. In both terminals, with
    all the handlers that the client, its log and the terminal register, whatever
    order the goroutines of a [dispatch] run in, an input does what [Input] says,
    an event does what [on_event] says, no type assertion fails, and an operation
    of the client with all the events it dispatches does what [call] says. *)
Theorem handlers_in_any_order (me : bytes) :
  (∀ a t r t', dispatched (service_on me) a t r t' ↔ (r, t') = term_dispatch me a t) ∧
  (∀ a m r m', dispatched model_on a m r m' ↔ (r, m') = model_dispatch a m) ∧
  (∀ (op : ST Client unit) t r t',
    (∃ c, op (forget_events (t_client t)) = (r, c) ∧
       happen (service_on me) (rev (c_events c)) (set_client (forget_events c) t) t') ↔
    (r, t') = Interactive.call me op t) ∧
  (∀ (op : ST Client unit) m r m',
    (∃ c, op (forget_events (m_c m)) = (r, c) ∧
       happen model_on (rev (c_events c)) (set_m_client (forget_events c) m) m') ↔
    (r, m') = Ui.call op m).
Proof.
  split; [apply service_dispatched|]. split; [apply model_dispatched|]. split.
  - intros op t r t'. unfold Interactive.call. destruct (op _) as [r0 c]. split.
    + intros (c' & [= -> ->] & Hh). f_equal. by apply (happen_iff _ _ _ _ _ (λ ev, service_dispatched me (AEvent ev))) in Hh.
    + intros [= -> ->]. exists c. split; [done|]. by apply (happen_iff _ _ _ _ _ (λ ev, service_dispatched me (AEvent ev))).
  - intros op m r m'. unfold Ui.call. destruct (op _) as [r0 c]. split.
    + intros (c' & [= -> ->] & Hh). f_equal. by apply (happen_iff _ _ _ _ _ (λ ev, model_dispatched (AEvent ev))) in Hh.
    + intros [= -> ->]. exists c. split; [done|]. by apply (happen_iff _ _ _ _ _ (λ ev, model_dispatched (AEvent ev))).
Qed.
End Dispatch.
