(* ===== verification/Main.v ===== *)
(** * The program (src/main.go)

    The options of the command line, where the text of a message comes from, and
    the dispatch to the commands and the terminals. *)

From Stdlib Require Import ZArith Lia.
From stdpp Require Import base list numbers option strings gmap.
From S2P Require Import Prelude Crypto ToyCrypto DhRatchet DoubleRatchet RatchetSync Gob Marshal Base64 Message X3dh Session DiskSession Client MemSession GoStrings Bus Cli Interactive Ui.

Local Open Scope Z_scope.

(** [opts]; paths are replaced by the files they name in [environment] *)
Record opts := mkOpts {
  opt_Offer : bool; opt_Send : bool; opt_Recv : bool; opt_Close : bool; opt_Chat : bool; opt_UI : bool;
  opt_Them : bytes;
  opt_Msg : bytes;
  opt_MsgFile : bytes;
  opt_MsgStdin : bool;
}.

(** What happens at the full-screen terminal *)
Inductive ui_happening :=
  | Pressed (ms ms' : Z) (msg : tea_Msg)
  | Brought (msg : Message).

(** What a run of the program meets: the key file, standard input and the file of
    the message, the time, and what happens at a terminal *)
Record environment := mkEnv {
  en_key : option file;
  en_stdin : bytes;
  en_msgfile : option bytes;
  en_ms : Z;
  en_ms' : Z;
  en_typed : list happening;
  en_pressed : list ui_happening;
}.

(** [bufio.Reader.ReadString] for a newline: without one there is an error *)
Definition ReadString (content : bytes) : result bytes :=
  let '(before, _, found) := Cut content Byte.x0a in
  if found then Ok (before ++ newline) else Err (Errorf "EOF").

(** [readInput] *)
Definition readInput (o : opts) (en : environment) : result bytes :=
  let read content :=
    match ReadString content with
    | Ok msg => Ok (TrimSpace msg)
    | Err er => Err (Wrapf "read input: %w" er)
    | Panic => Panic
    end in
  if opt_MsgStdin o then read (en_stdin en)
  else
    match opt_MsgFile o with
    | [] => Ok (TrimSpace (opt_Msg o))
    | _ => match en_msgfile en with Some content => read content | None => Err ErrNotExist end
    end.

Section Main.
Context `{RatchetCrypto} `{IdentityCrypto} `{BoxCrypto} `{Ulid} `{GobWire} `{SaltyLib} `{ClientLib} `{IdentityFile}.
Context `{Rendering} `{Paging} `{Widgets} `{Inbox} `{Ending}.

(** The loop of the full-screen terminal, until it is left *)
Fixpoint ui_loop (hs : list ui_happening) : ST model unit :=
  match hs with
  | [] => mret tt
  | Pressed ms ms' msg :: hs => quit ← Update ms ms' msg; if (quit : bool) then mret tt else ui_loop hs
  | Brought msg :: hs => _ ← Ui.call (hdlr Input msg); ui_loop hs
  end.

(** A terminal between opening and closing the session manager; it runs in
    goroutines, so that a panic leaves the index as it was. [body] gives the
    client back with what was printed. *)
Definition with_terminal (keyfile : option file) (body : bytes → Client → Driver → result unit * (Client * list bytes)) :
  ST world unit := λ w,
  match ReadSaltyIdentity keyfile with
  | Err er => (Err (Wrapf "reading keyfile: %w" er), w)
  | Panic => (Panic, w)
  | Ok (me, key) =>
      match NewSessionManager me key (w_files w) (w_made w) with
      | (Err er, _) => (Err er, w)
      | (Panic, _) => (Panic, w)
      | (Ok _, sm) =>
          match Bus.New sm me [WithMsgbus (Position sm)] (w_ent w) (w_posts w) with
          | Err er => (Err er, leave sm (w_ent w) (w_posts w) (w_out w))
          | Panic => (Panic, leave sm (w_ent w) (w_posts w) (w_out w))
          | Ok (c, d) =>
              let '(r, (c', out)) := body me c d in
              let exit := if is_panic r then killed else leave in
              (if r is Panic then Panic else subscriber_result, exit (c_sm c') (c_ent c') (c_posts c') (out ++ w_out w))
          end
      end
  end.

Definition run_chat (o : opts) (en : environment) : ST world unit :=
  with_terminal (en_key en) (λ me c _,
    let '(r, t) := Interactive (en_ms en) (en_ms' en) me (opt_Them o) (en_typed en) (New_service c) in
    (r, (t_client t, t_out t))).

Definition run_ui (o : opts) (en : environment) : ST world unit :=
  with_terminal (en_key en) (λ me c _,
    let '(r, m) := ui_loop (en_pressed en) (InitialModel c (opt_Them o)) in (r, (m_c m, []))).

(** [run]; the usage text goes to the error stream *)
Definition run (o : opts) (en : environment) : ST world unit :=
  if opt_Offer o then Cli.Offer (en_key en) (opt_Them o)
  else if opt_Send o then
    input ← lift (readInput o en);
    Cli.Send (en_ms en) (en_ms' en) (en_key en) (opt_Them o) input
  else if opt_Recv o then
    input ← lift (readInput o en);
    Cli.Recv (en_key en) input
  else if opt_Close o then Cli.Close (en_key en) (opt_Them o)
  else if opt_Chat o then run_chat o en
  else if opt_UI o then run_ui o en
  else mret tt.

(** [main]: the exit status. What [docopt.ParseDoc] and [Bind] make of the command
    line is given; the runtime ends a program that panics with the status 2. *)
Definition main (parsed : result opts) (en : environment) (w : world) : Z * world :=
  match parsed with
  | Err _ | Panic => (2, w)
  | Ok o =>
      match run o en w with
      | (Ok _, w') => (0, w')
      | (Err _, w') => (1, w')
      | (Panic, w') => (2, w')
      end
  end.
End Main.

(** ** The log of chats *)

(** What [setupChatlog] uses of the event store: the four [Init]s, [multierr.Combine],
    and [ev.Open] with a streamer, which gives a store and an error *)
Class EventStore (store : Type) := {
  ev_Init : option error;
  event_Init : option error;
  diskstore_Init : option error;
  memstore_Init : option error;
  Combine : list (option error) → option error;
  ev_Open : bytes → option store * option error;
}.

(** [chatLog]; the store can be nil *)
Record chatLog (store : Type) := mkChatLog { cl_ev : option store }.
Arguments mkChatLog {store}.

(** [setupChatlog], which nothing calls: it returns a log even if there is no store. *)
Definition setupChatlog {store} `{EventStore store} (path : bytes) : option (chatLog store) * option error :=
  match Combine [ev_Init; event_Init; diskstore_Init; memstore_Init] with
  | Some er => (None, Some er)
  | None => let '(es, er) := ev_Open path in (Some (mkChatLog es), er)
  end.

(** ** Where messages come from *)

Lemma space1_newline : space1 Byte.x0a = true.
Proof. reflexivity. Qed.

Lemma pieces_newline s : pieces (s ++ newline) = pieces s ++ [(true, newline)].
Proof.
  assert (∀ n s, (length s <= n)%nat → pieces (s ++ newline) = pieces s ++ [(true, newline)]) as Hn;
    [|by apply (Hn (length s))].
  clear s. induction n as [|n IH]; intros [|a s] Hl; simpl in Hl; try lia; try done.
  change ((a :: s) ++ newline) with (a :: (s ++ newline)). rewrite !pieces_cons.
  destruct (space1 a); [by rewrite IH by lia|].
  destruct s as [|b s].
  { cbn [app newline]. destruct (space2 a Byte.x0a) eqn:Hs; [|done]. unfold space2 in Hs.
    rewrite andb_false_r in Hs. discriminate Hs. }
  change ((b :: s) ++ newline) with (b :: (s ++ newline)) at 1. cbv iota.
  destruct (space2 a b); [by rewrite IH by (simpl in Hl; lia)|].
  assert ((false, [a]) :: pieces ((b :: s) ++ newline) = ((false, [a]) :: pieces (b :: s)) ++ [(true, newline)]) as Hsingle
    by (rewrite IH by (simpl in *; lia); done).
  destruct s as [|c s].
  { cbn [app newline]. destruct (space3 a b Byte.x0a) eqn:Hs; [|exact Hsingle]. unfold space3 in Hs.
    change (byte_to_Z Byte.x0a) with 10 in Hs. cbn in Hs. rewrite !andb_false_r in Hs. discriminate Hs. }
  change ((c :: s) ++ newline) with (c :: (s ++ newline)) at 1. cbv iota.
  destruct (space3 a b c); [by rewrite IH by (simpl in Hl; lia)|exact Hsingle].
Qed.

Lemma skip_space_snoc ps : skip_space (ps ++ [(true, newline)]) =
  match skip_space ps with [] => [] | _ => skip_space ps ++ [(true, newline)] end.
Proof. induction ps as [|[[] b] ps IH]; done. Qed.

Lemma TrimSpace_newline s : TrimSpace (s ++ newline) = TrimSpace s.
Proof.
  unfold TrimSpace. rewrite pieces_newline, skip_space_snoc. destruct (skip_space (pieces s)) as [|p ps]; [done|].
  by rewrite reverse_snoc.
Qed.

(** The text of a message is one line. With the option for it, standard input
    or else the named file is read up to the first newline and trimmed, and what
    follows is ignored; input without a newline is an error, even if there is
    some, and so is a file that does not exist. Without either option the text
    is the one on the command line, trimmed, and standard input is not read. *)
Theorem readInput_one_line (o : opts) (en : environment) :
  let source :=
    if opt_MsgStdin o then Some (Some (en_stdin en))
    else if bool_decide (opt_MsgFile o = []) then None else Some (en_msgfile en) in
  match source with
  | None => readInput o en = Ok (TrimSpace (opt_Msg o))
  | Some None => readInput o en = Err ErrNotExist
  | Some (Some content) =>
      (∀ line rest, content = line ++ newline ++ rest → Byte.x0a ∉ line → readInput o en = Ok (TrimSpace line)) ∧
      (Byte.x0a ∉ content → readInput o en = Err (Wrapf "read input: %w" (Errorf "EOF")))
  end.
Proof.
  assert (∀ content : bytes,
    (∀ line rest, content = line ++ newline ++ rest → Byte.x0a ∉ line →
       match ReadString content with Ok msg => Ok (TrimSpace msg) | Err er => Err (Wrapf "read input: %w" er) | Panic => Panic end
         = Ok (TrimSpace line)) ∧
    (Byte.x0a ∉ content →
       match ReadString content with Ok msg => Ok (TrimSpace msg) | Err er => Err (Wrapf "read input: %w" er) | Panic => Panic end
         = Err (Wrapf "read input: %w" (Errorf "EOF")))) as Hread.
  { intros content. unfold ReadString. pose proof (Cut_join content Byte.x0a) as Hcut.
    destruct (Cut content Byte.x0a) as [[before after] []]; destruct Hcut as [Hc Hb]; split.
    - intros line rest Heq Hl. rewrite TrimSpace_newline. rewrite Hc in Heq. do 2 f_equal.
      clear -Heq Hb Hl. revert line Heq Hl. induction before as [|x before IH]; intros [|y line] Heq Hl; try done.
      + injection Heq as <- _. by apply not_elem_of_cons in Hl as [? _].
      + injection Heq as -> _. by apply not_elem_of_cons in Hb as [? _].
      + injection Heq as -> Heq. apply not_elem_of_cons in Hb as [_ Hb]. apply not_elem_of_cons in Hl as [_ Hl].
        f_equal. by apply IH.
    - intros Hn. exfalso. apply Hn. rewrite Hc. apply elem_of_app. right. by left.
    - intros line rest Heq Hl. exfalso. apply Hb. rewrite <-Hc, Heq. apply elem_of_app. right. by left.
    - done. }
  cbn zeta. unfold readInput. destruct (opt_MsgStdin o); [apply Hread|].
  destruct (opt_MsgFile o) as [|b name]; [done|]. cbn [bool_decide]. rewrite bool_decide_eq_false_2 by done.
  destruct (en_msgfile en) as [content|]; [apply Hread|done].
Qed.
